(* ===== verification/_CoqProject ===== *)
-Q . S2P
Prelude.v
Buffer.v
Protocol.v
IoContext.v
Coro.v
Ledger.v
Connection.v
ResponseQueue.v
Echo.v
Isolation.v
AsyncEcho.v
Server.v
Service.v
EchoServer.v
AsyncServer.v
Process.v
Logger.v
Registry.v
Client.v
Recv.v
Multiplex.v
EndToEnd.v
Stats.v
CommandLine.v
MtBench.v
MtMultiplex.v
Mains.v
Fleet.v
MtMains.v
MtEndToEnd.v
