(* ===== verification/Prelude.v ===== *)
(** * cRPC: a verification of the framework and its echo service

    cRPC is a C++20 RPC framework on Linux io_uring.  One thread owns one
    event loop ([IoContext]); connections ([CoroConnection]) and the accept
    loop ([CoroTcpServer]) are coroutines that suspend on submissions to the
    ring and are resumed by the loop; messages are framed by [Protocol] in
    [Buffer]s; a [ResponseQueue] passes encoded responses from the request
    handlers of a connection to its write loop.  This development models these
    parts, the echo servers built from them, from one connection up to the
    process with all its threads, and the four benchmark clients, as executable
    definitions, and proves what makes them correct.

    ** Files and the code they model (paths under [src/])

    - [Prelude]: this file.  C++ outcomes ([Ok], [Throw], [UB]) and their
      monad, machine integers, memory accesses, lists and slices, automation.
    - [Buffer]: [src/buffer.h].  All registered memory is one byte array, the
      arena; a fixed buffer is a window of it, a dynamic buffer owns a vector.
      Out-of-bounds accesses are [UB].
    - [Protocol]: [src/protocol.h], [src/protocol.cpp].  [ParseMessage] and
      [EncodeMessage] on buffers; the byte order of the host is a parameter
      ([HostOrder]).  [parse_spec] and [wire_frame] are the abstract format.
    - [IoContext]: [src/io_context.h], [src/io_context.cpp].  State record with
      the same fields; the [RequestData] objects live on an explicit heap, so a
      use after free would be visible.  Answers of the kernel are parameters
      ([Kernel], [InitAnswers], lists of [event]s); the coroutines are any
      instance of [Program] that meets [ProgramSpec].
    - [Coro]: [src/coro.h].  Awaitables, [AsyncSleep], [Task], [TaskT] with the
      life of its frame.
    - [Ledger]: who waits for which request.  [grow add] is the effect of a
      piece of code on the event loop; the components state their effects in
      this form and the server composes them.
    - [Connection]: [src/coro_connection.h], [src/coro_connection.cpp].  [Write]
      is a coroutine: [Write_start], then [Write_resume] per completion.
      [conn_step] is any interleaving of operations of many connections.
    - [ResponseQueue]: [src/response_queue.h], with its consumer as a machine.
    - [Echo]: [examples/coro_echo.cpp].  [Sess] is one connection with its read
      loop, write loop and queue; [sess_step] is the effect of one completion,
      including every coroutine it resumes, in the order of the code.
    - [Isolation]: how sessions on one context leave each other alone (windows
      of the arena, slots of the pools).
    - [AsyncEcho]: [examples/coro_echo_async.cpp].  The same with handlers that
      sleep ([ASess], [a_step]).
    - [Server]: [src/coro_tcp_server.h], [src/coro_tcp_server.cpp].  The accept
      loop against any handler that meets [HandlerSpec].
    - [Service]: one thread of either server ([examples/coro_echo.cpp],
      [examples/coro_echo_async.cpp]).  [World] holds the accept loop and any
      number of connections on one context and one arena.  What the connections
      do is a parameter, the class [Service]; for one that meets [ServiceSpec]
      the thread is a [Program] for [Run] that meets [ProgramSpec]
      ([service_spec]), its handler meets [HandlerSpec], and safety, accounting
      and shutdown are proved here once.
    - [EchoServer], [AsyncServer]: the two instances; a connection is a session
      of [Echo] ([Slot]) or of [AsyncEcho] ([ASlot]).
    - [Process]: [main] of both files, for any service: contexts, threads,
      exceptions, joins ([echo_main], [async_main]).
    - [Logger]: [src/logger.h].   [Registry]: [src/registry.h],
      [src/registry.cpp], with the etcd client as classes [Etcd], [EtcdSpec].
    - [Client]: [examples/latency_bench.cpp], the sequential client.
    - [Recv]: its [RecvExact] with the buffer on the stack, in the sizes of the
      four clients.
    - [Multiplex]: [examples/multiplex_bench.cpp], the two threads of the
      pipelined client as interleaved atomic steps.
    - [EndToEnd]: the pipelined client on a connection of the whole server, as
      one system with the bytes between them; [RpcPeer] and [RpcPeerSpec] are
      what the client relies on, and both servers are instances.
    - [Stats]: the statistics of all clients, with [double]s at their precision.
    - [CommandLine]: the arguments of the four clients, as [std::stoi] reads
      them, and the line each prints first.
    - [MtBench]: [examples/latency_bench_mt.cpp], workers, start flag, report.
    - [MtMultiplex]: [examples/mt_multiplex_bench.cpp], a worker and its receiver
      thread per connection, and the report.
    - [Mains]: [main] of [examples/latency_bench.cpp] and of
      [examples/multiplex_bench.cpp], from the command line to the exit code.
    - [Fleet]: what [main] of the two multi-threaded clients has in common:
      creating, releasing and joining threads, which are any instance of
      [Worker]; one that meets [WorkerSpec] makes a process that ends.
    - [MtMains]: these two programs, [examples/latency_bench_mt.cpp] and
      [examples/mt_multiplex_bench.cpp], from the command line to the report.
    - [MtEndToEnd]: the client with many connections and a server process with
      many threads as one system with the bytes between them; [RpcServer],
      [RpcServerSpec] and [Serves] are what a server promises, and the threads
      of both servers are instances.

    ** What the theorems show

    - Data: a [Buffer] is a byte queue under every sequence of operations and
      never leaves its window ([buffer_refines_byte_queue],
      [fixed_buffers_isolated], [ensure_writable_correct]); [ParseMessage]
      implements its specification on every input and inverts [EncodeMessage]
      between hosts of any byte order ([parse_message_refines_spec],
      [parse_message_sound], [parse_waits_for_full_frame],
      [encode_parse_roundtrip]) and keeps every value within its C++ type
      ([parse_message_well_typed]).
    - Event loop: for every behaviour of the kernel within its contract [Run]
      uses no dead request and counts them exactly; requests are recycled,
      freed once, and drained ([run_safe_and_accounted], [submit_reuses_pool],
      [destructor_frees_pool], [drain_completes],
      [constructor_establishes_invariants]).
    - Connections: registered buffers and file slots are never shared or lost,
      writes on one connection leave the data of others alone, [Write] sends
      everything in order and returns, [Read] appends what arrived
      ([connection_pools_conserved], [writes_do_not_disturb_reads],
      [write_sends_data_in_order], [write_completes],
      [read_appends_delivered_bytes], [close_idempotent]).
    - Coroutines: a task is awaited and its frame freed exactly once
      ([taskT_frame_lifetime]).
    - Queue: FIFO, no lost wake-up, drained on close
      ([queue_fifo_no_lost_wakeup], [close_drains_queue]).
    - Services: for every interleaving of completions the echo server answers
      every request once, in order, whatever the fragmentation
      ([echo_session_sends_responses], [echo_answers_every_request],
      [dispatch_independent_of_fragmentation]); the asynchronous one sends
      whole replies in the order its handlers finish
      ([async_replies_in_completion_order]); the server serves every client
      ([accept_loop_serves_every_client]); client and server agree end to end
      ([client_completes_its_requests], [client_and_server_agree]); the
      pipelined client respects its window and matches every response
      ([multiplex_matches_every_response]).
    - The whole server: with all clients at once it is safe, accounts for every
      request and answers each client from its own messages alone
      ([server_answers_all_clients]); sharing the thread makes no difference to
      a connection ([connection_equals_dedicated_session]); it shuts down
      without leaks, as a thread and as a process ([server_shuts_down_cleanly],
      [process_stops_cleanly]).  The asynchronous server in addition neither
      forgets a request nor answers one twice
      ([async_server_answers_all_clients]); what it still sends after the
      cancellation is bounded by the bytes left to send, and then it too ends
      without leaks ([async_server_shuts_down], [async_process_stops]).
    - End to end: for every interleaving of the two threads of the pipelined
      client, the network and the whole server with its other clients, every
      response is matched to its request and all requests are answered
      ([pipelined_client_and_async_server], [pipelined_client_and_echo_server]);
      this discharges, from the server's own theorems, what the theorems of
      [Multiplex] assume of a peer.  The client with many connections, run from
      its command line against a whole server process, behaves as if its peers
      were honest and ends with an exact report ([mt_client_and_async_server],
      [mt_client_and_echo_server]).
    - The benchmark programs: arguments are read back from their decimal text
      or rejected ([arguments_read_back]); percentiles computed in floating
      point are exact order statistics, and the mean and the throughput have a
      relative error of at most 2^-51 ([percentiles_are_order_statistics],
      [print_stats_correct], [mean_near], [throughput_near]); results do not
      depend on the schedule ([workers_independent_of_schedule]) nor on the size
      of the receive buffer ([recv_exact_any_size], [recv_sizes_agree]);
      connections make progress and end with one sample per request
      ([mt_connection_progress], [mt_connection_result]); each of the four
      programs, from its command line and under every interleaving of its
      threads, is never stuck while its peers answer, and prints the statistics
      of exactly its samples ([latency_bench_outcome], [multiplex_outcome],
      [latency_bench_mt_outcome], [mt_multiplex_bench_outcome]).
    - Limits, proved as they are in the code: a full registered read buffer is
      taken for an end of file, a stray byte delays a buffered frame, the drain
      phase gives up on a timeout, a [Stop] before [Run] is lost, accept errors
      end the service, a failing constructor leaks its socket, late replies
      are dropped, the pipelined sender can spin for ever, a second
      registration cancels the first, [EncodeMessage] overruns a full window,
      a client that loses its connection leaks the descriptor or hides the
      failure, and a failure while the server starts ends the process or
      destroys contexts in use ([worker_keeps_samples_on_disconnect],
      [mt_connection_hidden_failures], [process_startup_failures]); an argument
      that is no number, a negative number of threads or a thread that cannot be
      created end a client by an exception ([mt_startup_failures]).

    ** Conventions, bounds and fuel

    [size_t] arithmetic is taken modulo 2^64 where it can wrap and [int]
    results are truncated to 32 bits.  A vector has at most 2^63 - 1 bytes
    ([VECTOR_MAX]); the theorems on whole sessions ask that the input received
    stays below that, and that responses are below the 2 GiB limit of protobuf
    messages.  [sq_never_full] states that [io_uring_get_sqe] is non-null, which
    the code of reads and writes relies on without checking.  Fuel appears in
    the write loop (one more than the queued items: each turn takes one), the
    dispatcher (one more than the readable bytes: each turn consumes a frame),
    the destructor (the number of requests on the heap), [SendAll] (one more
    than the bytes: each turn sends one) and [RecvExact_with] (one more than the
    bytes missing); running out of it is [UB], and the
    theorems show that the results are [Ok].

    In [Service] a coroutine and its result cell are named by an injective code
    of the connection and the label of the coroutine ([ids]); [peers_ok] and
    [async_peers_ok] are the bounds above for the stream of every client.  The
    completions a server may still need after a cancellation are bounded by
    [world_debt], the bytes its write loops have left.  A [double]
    is a mantissa and an exponent rounded to 53 bits, nearest even
    ([Stats.round53]); the operations used agree with those of the standard's
    specification on the constants of the code ([doubles_agree_with_spec]), and
    the theorems on statistics hold for up to 2^31 samples below 2^32
    microseconds.  A measured latency is a function of the request ([rtt]).
    A step of a multi-threaded client that changes something is never a turn of
    a waiting loop; there are at most [nthreads * (count + 5) + 3] of them in
    [latency_bench_mt] and [nconn * (8 * count + 7) + 3] in
    [mt_multiplex_bench].

    ** Not modelled

    The kernel, protobuf and etcd are parameters, as are the clock (a latency is
    [rtt], the time between two readings [wall_ns]) and the answers of the socket
    calls of the clients.  Of what the programs print, the first line and the
    values of the statistics are modelled, not how a [double] is written; of the
    logger, the line a call prints, not which calls are made.  CPU affinity, the
    pauses before the start flag, the mutex of the buffer pool (a context belongs
    to one thread) and weak memory orders (atomics are sequentially consistent)
    are not modelled, nor is the signal handler of the servers while contexts
    are still being created.  The theorems of [MtEndToEnd] are about every run of
    client and server together; that such a run goes on to the end is proved for
    the client with peers that answer, and for the server after a stop, but not
    for a joint run under a fair kernel.  Build files and the message schema have
    no behaviour of their own.
*)
From coqutil Require Export Byte Word.LittleEndianList.
From stdpp Require Export base numbers strings gmap list.

#[global] Open Scope Z_scope.

(** * Outcomes of C++ code

    A C++ operation returns normally, throws, or has undefined behaviour
    (a read or write outside an object, a null dereference). *)

Inductive outcome (A : Type) : Type :=
| Ok (a : A)
| Throw (what : string)
| UB (why : string).
Arguments Ok {A} a.
Arguments Throw {A} what.
Arguments UB {A} why.

#[export] Instance outcome_ret : MRet outcome := fun A a => Ok a.
#[export] Instance outcome_bind : MBind outcome := fun A B f m =>
  match m with Ok a => f a | Throw s => Throw s | UB s => UB s end.

(** An access the language defines only in range: [None] is undefined
    behaviour. *)
Definition or_ub {A} (why : string) (o : option A) : outcome A :=
  match o with Some a => Ok a | None => UB why end.

Definition guard_ub (why : string) (b : bool) : outcome unit :=
  if b then Ok tt else UB why.

(** * Machine integers *)

(** Unsigned [w]-bit wrap-around. *)
Definition wrap (w z : Z) : Z := z mod 2 ^ w.

(** [size_t] is 64 bits wide on the platforms of the README. *)
Definition SIZE_MOD : Z := 2 ^ 64.
Definition u64 (z : Z) : Z := wrap 64 z.
Definition u32 (z : Z) : Z := wrap 32 z.

(** Conversion to the 32-bit signed [int] ([static_cast<int>]). *)
Definition i32 (z : Z) : Z :=
  let r := z mod 2 ^ 32 in if r <? 2 ^ 31 then r else r - 2 ^ 32.

(** [std::vector<char>::max_size()]: [PTRDIFF_MAX]. *)
Definition VECTOR_MAX : Z := 2 ^ 63 - 1.

Lemma u64_small z : 0 <= z < SIZE_MOD -> u64 z = z.
Proof. intros. apply Z.mod_small. exact H. Qed.

Lemma u64_range z : 0 <= u64 z < SIZE_MOD.
Proof. apply Z.mod_pos_bound. reflexivity. Qed.

(** A negative [int] as a [size_t]. *)
Lemma u64_negative z : - 2 ^ 63 <= z < 0 -> u64 z = 2 ^ 64 + z.
Proof.
  intros Hz. unfold u64, wrap. rewrite <- (Z.mod_add z 1) by lia. rewrite Z.mod_small; lia.
Qed.

Lemma u64_add_mod z k : u64 (z + k * 2 ^ 64) = u64 z.
Proof. unfold u64, wrap. by apply Z.mod_add. Qed.

Lemma u32_small z : 0 <= z < 2 ^ 32 -> u32 z = z.
Proof. intros. by apply Z.mod_small. Qed.

Lemma u32_range z : 0 <= u32 z < 2 ^ 32.
Proof. apply Z.mod_pos_bound. reflexivity. Qed.

Lemma i32_small z : - 2 ^ 31 <= z < 2 ^ 31 -> i32 z = z.
Proof.
  intros Hz. unfold i32. destruct (Z.ltb_spec (z mod 2 ^ 32) (2 ^ 31)) as [H|H].
  - destruct (Z_lt_ge_dec z 0) as [Hn|Hn].
    + rewrite <- (Z_mod_plus_full z 1 (2 ^ 32)), Z.mod_small in H by lia. lia.
    + by rewrite Z.mod_small by lia.
  - destruct (Z_lt_ge_dec z 0) as [Hn|Hn].
    + rewrite <- (Z_mod_plus_full z 1 (2 ^ 32)), Z.mod_small by lia. lia.
    + rewrite Z.mod_small in H by lia. lia.
Qed.

(** * Byte memory

    An object or a block of memory is a list of bytes; offsets and lengths are
    integers. *)

Abbreviation bytes := (list byte).

Definition zlen {A} (l : list A) : Z := Z.of_nat (length l).

(** The [len] bytes from offset [off] (fewer at the end of the list). *)
Definition slice (l : bytes) (off len : Z) : bytes :=
  take (Z.to_nat len) (drop (Z.to_nat off) l).

(** [l] with the bytes from [off] on overwritten by [bs]. *)
Definition splice (l : bytes) (off : Z) (bs : bytes) : bytes :=
  take (Z.to_nat off) l ++ bs ++ drop (Z.to_nat off + length bs) l.

Definition in_bounds (l : bytes) (off len : Z) : bool :=
  (0 <=? off) && (0 <=? len) && (off + len <=? zlen l).

(** Checked reads and writes: out of range is undefined behaviour. *)
Definition mem_read (l : bytes) (off len : Z) : outcome bytes :=
  if in_bounds l off len then Ok (slice l off len) else UB "read out of bounds".

Definition mem_write (l : bytes) (off : Z) (bs : bytes) : outcome bytes :=
  if in_bounds l off (zlen bs) then Ok (splice l off bs) else UB "write out of bounds".

(** [std::vector<char>::resize]: truncates or appends zero bytes; throws when
    the size exceeds [max_size()]. *)
Definition vector_resize (l : bytes) (n : Z) : outcome bytes :=
  if VECTOR_MAX <? n then Throw "vector::_M_default_append"
  else Ok (take (Z.to_nat n) l ++ replicate (Z.to_nat n - length l) Byte.x00).

#[global] Arguments zlen : simpl never.
#[global] Arguments slice : simpl never.
#[global] Arguments splice : simpl never.
#[global] Arguments u64 : simpl never.
#[global] Arguments u32 : simpl never.
#[global] Arguments i32 : simpl never.
#[global] Arguments SIZE_MOD : simpl never.
#[global] Arguments VECTOR_MAX : simpl never.

(** * Tactics *)

(** Case analysis on the comparisons a goal or hypothesis branches on. *)
Ltac cmp_step :=
  match goal with
  | |- context [Z.leb ?a ?b] => destruct (Z.leb_spec a b)
  | |- context [Z.ltb ?a ?b] => destruct (Z.ltb_spec a b)
  | |- context [Z.eqb ?a ?b] => destruct (Z.eqb_spec a b)
  | |- context [Z.geb ?a ?b] => rewrite (Z.geb_leb a b)
  | |- context [Z.gtb ?a ?b] => rewrite (Z.gtb_ltb a b)
  end.
Ltac cmp := repeat cmp_step.

(** Equality of two lists by comparing what every index holds. *)
Ltac list_pointwise i := apply list_eq; intros i.

(** Lengths: push [zlen] through the list operations and use [lia]. *)
Create HintDb len discriminated.
Ltac len_solve :=
  unfold zlen in *; autorewrite with len in *; cbn [length] in *; lia.

(** ** Lemmas on slices *)

Lemma length_slice l off len :
  length (slice l off len) = (Z.to_nat len `min` (length l - Z.to_nat off))%nat.
Proof. unfold slice. rewrite length_take, length_drop. lia. Qed.

Lemma length_splice l off bs :
  0 <= off -> off + zlen bs <= zlen l -> length (splice l off bs) = length l.
Proof.
  unfold splice, zlen. intros. rewrite !length_app, length_take, length_drop. lia.
Qed.

Lemma zlen_slice l off len :
  0 <= off -> 0 <= len -> off + len <= zlen l -> zlen (slice l off len) = len.
Proof. unfold zlen. intros. rewrite length_slice. lia. Qed.

Lemma zlen_splice l off bs :
  0 <= off -> off + zlen bs <= zlen l -> zlen (splice l off bs) = zlen l.
Proof. intros. unfold zlen at 1. rewrite length_splice; done. Qed.

Lemma zlen_app {A} (l k : list A) : zlen (l ++ k) = zlen l + zlen k.
Proof. unfold zlen. rewrite length_app. lia. Qed.

Lemma zlen_nil {A} : zlen (@nil A) = 0.
Proof. done. Qed.

Lemma zlen_cons {A} (x : A) l : zlen (x :: l) = 1 + zlen l.
Proof. unfold zlen. cbn [length]. lia. Qed.

Lemma zlen_nonneg {A} (l : list A) : 0 <= zlen l.
Proof. unfold zlen. lia. Qed.

Lemma zlen_0_nil {A} (l : list A) : zlen l = 0 -> l = [].
Proof. unfold zlen. destruct l; cbn; [done | lia]. Qed.

Lemma lookup_slice l off len i :
  slice l off len !! i =
  (if decide (i < Z.to_nat len)%nat then l !! (Z.to_nat off + i)%nat else None).
Proof.
  unfold slice. case_decide.
  - by rewrite lookup_take_lt, lookup_drop by lia.
  - by rewrite lookup_take_ge by lia.
Qed.

Lemma lookup_splice l off bs i :
  0 <= off -> off + zlen bs <= zlen l ->
  splice l off bs !! i =
  (if decide (i < Z.to_nat off)%nat then l !! i
   else if decide (i < Z.to_nat off + length bs)%nat then bs !! (i - Z.to_nat off)%nat
   else l !! i).
Proof.
  unfold splice, zlen. intros Hoff Hlen.
  assert (Htl : length (take (Z.to_nat off) l) = Z.to_nat off) by (rewrite length_take; lia).
  case_decide as Hlt.
  - rewrite lookup_app_l by lia. by rewrite lookup_take_lt by lia.
  - rewrite lookup_app_r, Htl by lia. case_decide.
    + by rewrite lookup_app_l by lia.
    + rewrite lookup_app_r by lia. rewrite lookup_drop. f_equal. lia.
Qed.

Ltac slice_pointwise :=
  let i := fresh "i" in
  list_pointwise i; rewrite ?lookup_slice, ?lookup_splice, ?lookup_slice by (try lia; len_solve);
  repeat case_decide; try reflexivity; try (f_equal; lia); try lia.

Lemma slice_splice_same l off bs :
  0 <= off -> off + zlen bs <= zlen l -> slice (splice l off bs) off (zlen bs) = bs.
Proof.
  intros Ho Hl. list_pointwise i. rewrite lookup_slice.
  case_decide as Hi; unfold zlen in Hi; [|rewrite lookup_ge_None_2; [done|lia]].
  rewrite lookup_splice by done. rewrite decide_False, decide_True by lia. f_equal. lia.
Qed.

Lemma slice_splice_disjoint l off bs o n :
  0 <= off -> off + zlen bs <= zlen l -> 0 <= o ->
  o + n <= off \/ off + zlen bs <= o ->
  slice (splice l off bs) o n = slice l o n.
Proof.
  intros Ho Hl Ho' Hd. list_pointwise i. rewrite !lookup_slice.
  case_decide; [|done]. rewrite lookup_splice by done.
  unfold zlen in *. repeat case_decide; try done; lia.
Qed.

Lemma slice_app_split l off n m :
  0 <= off -> 0 <= n -> 0 <= m -> slice l off (n + m) = slice l off n ++ slice l (off + n) m.
Proof.
  intros. unfold slice. rewrite !Z2Nat.inj_add by lia.
  rewrite <- drop_drop. rewrite take_take_drop. done.
Qed.

Lemma slice_slice l off len o n :
  0 <= off -> 0 <= o -> 0 <= n -> o + n <= len ->
  slice (slice l off len) o n = slice l (off + o) n.
Proof.
  intros. list_pointwise i. rewrite !lookup_slice. case_decide; [|done].
  rewrite decide_True by lia. f_equal. lia.
Qed.

Lemma slice_all l n : zlen l <= n -> slice l 0 n = l.
Proof. unfold zlen. intros. unfold slice. change (Z.to_nat 0) with 0%nat. rewrite drop_0. apply take_ge. lia. Qed.

Lemma slice_nil_len l off n : n <= 0 -> slice l off n = [].
Proof. intros. unfold slice. by rewrite (Z2Nat.nonpos n). Qed.

Lemma slice_take l n : slice l 0 n = take (Z.to_nat n) l.
Proof. done. Qed.

Lemma slice_drop l off n :
  0 <= off -> zlen l <= off + n -> slice l off n = drop (Z.to_nat off) l.
Proof.
  unfold zlen. intros. unfold slice. rewrite take_ge; [done|]. rewrite length_drop. lia.
Qed.

(** Writing just behind a slice extends it. *)
Lemma slice_splice_extend l off n bs :
  0 <= off -> 0 <= n -> off + n + zlen bs <= zlen l ->
  slice (splice l (off + n) bs) off (n + zlen bs) = slice l off n ++ bs.
Proof.
  intros. rewrite slice_app_split by (try lia; apply zlen_nonneg).
  rewrite slice_splice_disjoint by lia. rewrite slice_splice_same by lia. done.
Qed.

(** The front of freshly written bytes. *)
Lemma slice_splice_prefix l off bs m :
  0 <= off -> off + zlen bs <= zlen l -> 0 <= m <= zlen bs ->
  slice (splice l off bs) off m = take (Z.to_nat m) bs.
Proof.
  intros. rewrite <- (slice_splice_same l off bs) at 2 by lia.
  rewrite <- (slice_take (slice _ _ _)), slice_slice by lia. by rewrite Z.add_0_r.
Qed.

Lemma take_slice l n m : m <= n -> take (Z.to_nat m) (slice l 0 n) = take (Z.to_nat m) l.
Proof. intros. rewrite slice_take, take_take. f_equal. lia. Qed.

Lemma in_bounds_true l off len :
  in_bounds l off len = true <-> 0 <= off /\ 0 <= len /\ off + len <= zlen l.
Proof. unfold in_bounds. rewrite !andb_true_iff, !Z.leb_le. tauto. Qed.

Lemma mem_read_ok l off len :
  0 <= off -> 0 <= len -> off + len <= zlen l -> mem_read l off len = Ok (slice l off len).
Proof. intros. unfold mem_read. by rewrite (proj2 (in_bounds_true _ _ _)). Qed.

Lemma mem_write_ok l off bs :
  0 <= off -> off + zlen bs <= zlen l -> mem_write l off bs = Ok (splice l off bs).
Proof.
  intros. unfold mem_write. rewrite (proj2 (in_bounds_true _ _ _)); [done|].
  pose proof (zlen_nonneg bs). lia.
Qed.

(** ** Lemmas on vectors grown at the end *)

Lemma last_snoc_inv {A} (l : list A) x : last l = Some x -> l = removelast l ++ [x].
Proof.
  intros H. apply last_Some in H as [k ->]. by rewrite removelast_last.
Qed.
