(* ===== verification/Buffer.v ===== *)
(** The byte buffer of [src/buffer.h]: a vector of bytes (dynamic mode) or a
    window of registered memory (fixed mode) with a read and a write index.

    The memory that fixed-mode buffers point into is the [Arena], one list of
    bytes shared by all of them; a [char*] is an offset into the arena, an
    offset into the buffer's own vector, or null.  Accesses outside the arena
    or the vector are undefined behaviour.  An access that leaves the buffer's
    window but stays inside the arena is not detected, as in the program: it
    reads or overwrites a neighbour's memory. *)
From S2P Require Import Prelude.

Abbreviation Arena := bytes.

Inductive ptr : Type :=
| nullptr
| ArenaPtr (a : Z)
| VecPtr (off : Z).

#[export] Instance ptr_eq_dec : EqDecision ptr.
Proof. solve_decision. Defined.

Definition ptr_add (p : ptr) (n : Z) : ptr :=
  match p with
  | nullptr => nullptr
  | ArenaPtr a => ArenaPtr (a + n)
  | VecPtr o => VecPtr (o + n)
  end.

Record Buffer := mkBuffer {
  data_ : bytes;
  external_data_ : ptr;
  capacity_ : Z;
  is_fixed_ : bool;
  write_idx_ : Z;
  read_idx_ : Z
}.

(** * Constructors *)

Definition Buffer_default : Buffer := mkBuffer [] nullptr 0 false 0 0.

(** Fixed buffer mode. *)
Definition Buffer_fixed (external_mem : ptr) (capacity : Z) : Buffer :=
  mkBuffer [] external_mem capacity true 0 0.

(** Dynamic buffer mode.  The source leaves [external_data_] uninitialised
    here; nothing reads it while [is_fixed_] is false. *)
Definition Buffer_dynamic (initial_size : Z) : Buffer :=
  mkBuffer (replicate (Z.to_nat initial_size) Byte.x00) nullptr initial_size false 0 0.

(** * Accessors *)

Definition base_ptr (b : Buffer) : ptr :=
  if is_fixed_ b then external_data_ b else VecPtr 0.

Definition WriteBegin (b : Buffer) : ptr := ptr_add (base_ptr b) (write_idx_ b).

Definition WritableBytes (b : Buffer) : Z := u64 (capacity_ b - write_idx_ b).

Definition HasWritten (b : Buffer) (len : Z) : Buffer :=
  mkBuffer (data_ b) (external_data_ b) (capacity_ b) (is_fixed_ b)
    (u64 (write_idx_ b + len)) (read_idx_ b).

Definition ReadBegin (b : Buffer) : ptr := ptr_add (base_ptr b) (read_idx_ b).

Definition ReadableBytes (b : Buffer) : Z := u64 (write_idx_ b - read_idx_ b).

Definition HasRead (b : Buffer) (len : Z) : Buffer :=
  mkBuffer (data_ b) (external_data_ b) (capacity_ b) (is_fixed_ b)
    (write_idx_ b) (u64 (read_idx_ b + len)).

(** The span starts at the read index and has [ReadableBytes] bytes. *)
Definition GetSpan (b : Buffer) : ptr * Z := (ReadBegin b, ReadableBytes b).

(** * Memory accesses through a buffer's pointers ([memcpy], [memmove]) *)

Definition load (ar : Arena) (b : Buffer) (p : ptr) (n : Z) : outcome bytes :=
  match p with
  | nullptr => if n =? 0 then Ok [] else UB "null pointer read"
  | ArenaPtr a => mem_read ar a n
  | VecPtr o => mem_read (data_ b) o n
  end.

Definition set_data (b : Buffer) (d : bytes) : Buffer :=
  mkBuffer d (external_data_ b) (capacity_ b) (is_fixed_ b) (write_idx_ b) (read_idx_ b).

Definition store (ar : Arena) (b : Buffer) (p : ptr) (bs : bytes)
  : outcome (Arena * Buffer) :=
  match p with
  | nullptr => if zlen bs =? 0 then Ok (ar, b) else UB "null pointer write"
  | ArenaPtr a => ar' ← mem_write ar a bs; Ok (ar', b)
  | VecPtr o => d ← mem_write (data_ b) o bs; Ok (ar, set_data b d)
  end.

(** * Compact and EnsureWritable *)

Definition set_indices (b : Buffer) (w r : Z) : Buffer :=
  mkBuffer (data_ b) (external_data_ b) (capacity_ b) (is_fixed_ b) w r.

Definition Compact (ar : Arena) (b : Buffer) : outcome (Arena * Buffer) :=
  if read_idx_ b =? 0 then Ok (ar, b)
  else
    let readable := ReadableBytes b in
    let base := base_ptr b in
    '(ar', b') ←
      (if 0 <? readable then
         bs ← load ar b (ptr_add base (read_idx_ b)) readable;
         store ar b base bs
       else Ok (ar, b));
    Ok (ar', set_indices b' readable 0).

Definition EnsureWritable (ar : Arena) (b : Buffer) (len : Z)
  : outcome (bool * (Arena * Buffer)) :=
  if len <=? WritableBytes b then Ok (true, (ar, b))
  else
    '(ar, b) ← Compact ar b;
    if len <=? WritableBytes b then Ok (true, (ar, b))
    else if is_fixed_ b then Ok (false, (ar, b))
    else
      let cap := u64 (write_idx_ b + len) in
      d ← vector_resize (data_ b) cap;
      Ok (true, (ar, mkBuffer d (external_data_ b) cap (is_fixed_ b)
                       (write_idx_ b) (read_idx_ b))).

(** * Well-formedness and abstract contents *)

(** Where a fixed buffer's window starts in the arena. *)
Definition window (b : Buffer) : Z :=
  match external_data_ b with ArenaPtr a => a | _ => 0 end.

Record wf (ar : Arena) (b : Buffer) : Prop := {
  wf_read : 0 <= read_idx_ b;
  wf_order : read_idx_ b <= write_idx_ b;
  wf_write : write_idx_ b <= capacity_ b;
  wf_cap : capacity_ b <= VECTOR_MAX;
  wf_vec : is_fixed_ b = false -> zlen (data_ b) = capacity_ b;
  wf_ext : is_fixed_ b = true -> external_data_ b = ArenaPtr (window b);
  wf_win : is_fixed_ b = true -> 0 <= window b /\ window b + capacity_ b <= zlen ar
}.

(** The block of memory behind the buffer, and the bytes a reader sees. *)
Definition block (ar : Arena) (b : Buffer) : bytes :=
  if is_fixed_ b then slice ar (window b) (capacity_ b) else data_ b.

Definition contents (ar : Arena) (b : Buffer) : bytes :=
  slice (block ar b) (read_idx_ b) (write_idx_ b - read_idx_ b).

#[global] Arguments block : simpl never.
#[global] Arguments contents : simpl never.

(** Replace the block. *)
Definition put_block (ar : Arena) (b : Buffer) (blk : bytes) : Arena * Buffer :=
  if is_fixed_ b then (splice ar (window b) blk, b) else (ar, set_data b blk).

(** [b'] is the same object as [b] after some operations: same mode and
    window, and the capacity of a fixed buffer never changes. *)
Definition same_object (b b' : Buffer) : Prop :=
  is_fixed_ b' = is_fixed_ b /\ external_data_ b' = external_data_ b /\
  (is_fixed_ b = true -> capacity_ b' = capacity_ b).

(** The operation on [b] left the arena outside [b]'s window alone. *)
Definition frame (ar ar' : Arena) (b : Buffer) : Prop :=
  zlen ar' = zlen ar /\
  (is_fixed_ b = false -> ar' = ar) /\
  forall o n, 0 <= o ->
    o + n <= window b \/ window b + capacity_ b <= o ->
    slice ar' o n = slice ar o n.

(** * Lemmas *)

Create HintDb buf discriminated.

Lemma wf_bounds ar b :
  wf ar b -> 0 <= read_idx_ b <= write_idx_ b /\ write_idx_ b <= capacity_ b
             /\ capacity_ b <= VECTOR_MAX.
Proof. intros []. lia. Qed.

Ltac wf_lia :=
  repeat match goal with
  | H : wf _ _ |- _ => apply wf_bounds in H
  end; unfold VECTOR_MAX, SIZE_MOD in *; lia.

Lemma zlen_block ar b : wf ar b -> zlen (block ar b) = capacity_ b.
Proof.
  intros Hwf. pose proof (wf_bounds _ _ Hwf). unfold block.
  destruct (is_fixed_ b) eqn:E; [|by apply wf_vec in Hwf].
  apply wf_win in Hwf; [|done]. apply zlen_slice; lia.
Qed.

Lemma ReadableBytes_eq ar b :
  wf ar b -> ReadableBytes b = write_idx_ b - read_idx_ b.
Proof. intros. apply u64_small. wf_lia. Qed.

Lemma WritableBytes_eq ar b :
  wf ar b -> WritableBytes b = capacity_ b - write_idx_ b.
Proof. intros. apply u64_small. wf_lia. Qed.

Lemma zlen_contents ar b : wf ar b -> zlen (contents ar b) = write_idx_ b - read_idx_ b.
Proof.
  intros Hwf. unfold contents. pose proof (zlen_block _ _ Hwf).
  apply zlen_slice; wf_lia.
Qed.

Lemma ReadableBytes_contents ar b : wf ar b -> ReadableBytes b = zlen (contents ar b).
Proof. intros. by rewrite (ReadableBytes_eq ar), zlen_contents. Qed.

(** Loads and stores through the base pointer act on the block. *)
Lemma load_block ar b o n :
  wf ar b -> 0 <= o -> 0 <= n -> o + n <= capacity_ b ->
  load ar b (ptr_add (base_ptr b) o) n = Ok (slice (block ar b) o n).
Proof.
  intros Hwf ???. unfold base_ptr, block. destruct (is_fixed_ b) eqn:E.
  - rewrite (wf_ext _ _ Hwf E). cbn [ptr_add load].
    destruct (wf_win _ _ Hwf E).
    rewrite mem_read_ok, slice_slice by lia. done.
  - cbn [ptr_add load]. rewrite Z.add_0_l. apply mem_read_ok; [done..|].
    rewrite (wf_vec _ _ Hwf E). lia.
Qed.

Lemma splice_slice l a n o bs :
  0 <= a -> 0 <= o -> o + zlen bs <= n -> a + n <= zlen l ->
  splice l (a + o) bs = splice l a (splice (slice l a n) o bs).
Proof.
  intros Ha Ho Hb Hn. pose proof (zlen_nonneg bs).
  assert (Hs : zlen (slice l a n) = n) by (apply zlen_slice; lia).
  assert (Hsp : zlen (splice (slice l a n) o bs) = n) by (rewrite zlen_splice; lia).
  list_pointwise i. rewrite !lookup_splice by lia.
  unfold zlen in *. rewrite lookup_slice.
  repeat case_decide; try lia; try done; f_equal; lia.
Qed.

Lemma store_block ar b o bs :
  wf ar b -> 0 <= o -> o + zlen bs <= capacity_ b ->
  store ar b (ptr_add (base_ptr b) o) bs
  = Ok (put_block ar b (splice (block ar b) o bs)).
Proof.
  intros Hwf Ho Hb. unfold base_ptr, block, put_block. pose proof (zlen_nonneg bs).
  destruct (is_fixed_ b) eqn:E.
  - rewrite (wf_ext _ _ Hwf E). cbn [ptr_add store].
    destruct (wf_win _ _ Hwf E). rewrite mem_write_ok by lia. cbn.
    by rewrite (splice_slice _ (window b) (capacity_ b)) by lia.
  - cbn [ptr_add store]. rewrite Z.add_0_l.
    rewrite mem_write_ok; [done|lia|rewrite (wf_vec _ _ Hwf E); lia].
Qed.

Lemma put_block_spec ar b blk ar' b' :
  wf ar b -> zlen blk = capacity_ b -> put_block ar b blk = (ar', b') ->
  wf ar' b' /\ block ar' b' = blk /\ same_object b b' /\ frame ar ar' b /\
  read_idx_ b' = read_idx_ b /\ write_idx_ b' = write_idx_ b /\ capacity_ b' = capacity_ b.
Proof.
  intros Hwf Hl. unfold put_block, same_object, frame. destruct (is_fixed_ b) eqn:E.
  - intros [= <- <-]. destruct (wf_win _ _ Hwf E).
    assert (Hz : zlen (splice ar (window b) blk) = zlen ar) by (apply zlen_splice; lia).
    split_and!; try done.
    + destruct Hwf. constructor; try done. intros _. lia.
    + unfold block. rewrite E, <- Hl. apply slice_splice_same; lia.
    + intros o n Ho Hd. apply slice_splice_disjoint; lia.
  - intros [= <- <-]. split_and!; try done.
    + destruct Hwf. constructor; cbn; try done.
    + unfold block. cbn. by rewrite E.
Qed.

Lemma frame_refl ar b : frame ar ar b.
Proof. done. Qed.

Lemma frame_trans ar ar1 ar2 b b1 :
  same_object b b1 -> frame ar ar1 b -> frame ar1 ar2 b1 -> frame ar ar2 b.
Proof.
  intros (Hf & He & Hc) (Hz1 & Hd1 & Hs1) (Hz2 & Hd2 & Hs2).
  assert (window b1 = window b) as Hw by (unfold window; by rewrite He).
  split_and!; [congruence| |].
  - intros E. rewrite Hd2 by congruence. auto.
  - intros o n Ho Hd. destruct (is_fixed_ b) eqn:E.
    + rewrite Hs2 by (rewrite ?Hw, ?Hc; auto). auto.
    + rewrite Hd2, Hd1 by congruence. done.
Qed.

Lemma same_object_refl b : same_object b b.
Proof. done. Qed.

Lemma same_object_trans b b1 b2 : same_object b b1 -> same_object b1 b2 -> same_object b b2.
Proof. intros (A & B & C) (A' & B' & C'). split_and!; try congruence. intros H.
  rewrite C', C; congruence. Qed.

Lemma wf_set_indices ar b w r :
  wf ar b -> 0 <= r <= w -> w <= capacity_ b -> wf ar (set_indices b w r).
Proof. intros []. constructor; cbn; auto; lia. Qed.

Lemma contents_set_indices ar b w r :
  contents ar (set_indices b w r) = slice (block ar b) r (w - r).
Proof. done. Qed.

#[export] Hint Resolve frame_refl same_object_refl frame_trans same_object_trans : buf.

(** [Compact] moves the readable bytes to the front and keeps them. *)
Lemma Compact_ok ar b :
  wf ar b ->
  exists ar' b', Compact ar b = Ok (ar', b') /\ wf ar' b' /\
    contents ar' b' = contents ar b /\ read_idx_ b' = 0 /\
    write_idx_ b' = zlen (contents ar b) /\ capacity_ b' = capacity_ b /\
    same_object b b' /\ frame ar ar' b.
Proof.
  intros Hwf. pose proof (zlen_contents _ _ Hwf) as Hc.
  pose proof (wf_bounds _ _ Hwf) as Hbd. pose proof (zlen_block _ _ Hwf) as Hzb.
  unfold Compact. destruct (Z.eqb_spec (read_idx_ b) 0) as [E|E].
  { exists ar, b. split_and!; auto with buf. lia. }
  rewrite (ReadableBytes_eq ar b Hwf). destruct (Z.ltb_spec 0 (write_idx_ b - read_idx_ b)).
  - rewrite load_block by (try done; lia). cbn [mbind outcome_bind].
    replace (base_ptr b) with (ptr_add (base_ptr b) 0)
      by (unfold base_ptr; destruct (is_fixed_ b) eqn:Ef; cbn; [|done];
          rewrite (wf_ext _ _ Hwf Ef); cbn; f_equal; lia).
    change (slice (block ar b) (read_idx_ b) (write_idx_ b - read_idx_ b)) with (contents ar b).
    rewrite store_block by (try done; lia). cbn [mbind outcome_bind].
    destruct (put_block _ _ _) as [ar' b'] eqn:Ep.
    apply put_block_spec in Ep as (Hwf' & Hblk & Hso & Hfr & Hr & Hw & Hcap);
      [|done|rewrite zlen_splice; lia].
    eexists _, _. split; [done|]. cbn. split_and!; auto with buf.
    + apply wf_set_indices; [done|lia..].
    + rewrite contents_set_indices, Hblk, Z.sub_0_r, <- Hc. apply slice_splice_same; lia.
  - cbn. eexists _, _. split; [done|]. cbn. split_and!; auto with buf.
    + apply wf_set_indices; [done|lia..].
    + transitivity (@nil byte); [|symmetry]; apply slice_nil_len; cbn; lia.
    + done.
Qed.

(** ** Resizing *)

Lemma zlen_vector_resize l n :
  0 <= n -> zlen (take (Z.to_nat n) l ++ replicate (Z.to_nat n - length l) Byte.x00) = n.
Proof. intros. unfold zlen. rewrite length_app, length_take, length_replicate. lia. Qed.

Lemma slice_resize l n o m :
  0 <= o -> o + m <= zlen l -> zlen l <= n ->
  slice (take (Z.to_nat n) l ++ replicate (Z.to_nat n - length l) Byte.x00) o m = slice l o m.
Proof.
  unfold zlen. intros. rewrite take_ge by lia. list_pointwise i. rewrite !lookup_slice.
  case_decide; [|done]. by rewrite lookup_app_l by lia.
Qed.

(** What [EnsureWritable] does on every branch. *)
Lemma EnsureWritable_ok ar b len :
  wf ar b -> 0 <= len -> zlen (contents ar b) + len <= VECTOR_MAX ->
  exists ok ar' b', EnsureWritable ar b len = Ok (ok, (ar', b')) /\ wf ar' b' /\
    contents ar' b' = contents ar b /\ same_object b b' /\ frame ar ar' b /\
    ok = negb (is_fixed_ b) || (zlen (contents ar b) + len <=? capacity_ b) /\
    (ok = true -> len <= WritableBytes b').
Proof.
  intros Hwf Hl Hmax. pose proof (wf_bounds _ _ Hwf) as Hbd.
  pose proof (zlen_contents _ _ Hwf) as Hc. unfold EnsureWritable.
  destruct (Z.leb_spec len (WritableBytes b)) as [H1|H1].
  { eexists _, _, _. split; [done|]. split_and!; auto with buf.
    rewrite (WritableBytes_eq ar) in H1 by done. symmetry. apply orb_true_iff. right.
    apply Z.leb_le. lia. }
  destruct (Compact_ok _ _ Hwf) as (ar' & b' & -> & Hwf' & Hc' & Hr & Hw & Hcap & Hso & Hfr).
  cbn [mbind outcome_bind]. rewrite (WritableBytes_eq ar' b') by done.
  rewrite Hw, Hcap. destruct (Z.leb_spec len (capacity_ b - zlen (contents ar b))) as [H2|H2].
  { eexists _, _, _. split; [done|]. split_and!; auto with buf.
    - symmetry. apply orb_true_iff. right. apply Z.leb_le. lia.
    - intros _. rewrite (WritableBytes_eq ar') by done. lia. }
  rewrite (proj1 Hso). destruct (is_fixed_ b) eqn:E.
  { eexists _, _, _. split; [done|]. split_and!; auto with buf; [|done].
    symmetry. cbn. apply Z.leb_gt. lia. }
  pose proof (zlen_nonneg (contents ar b)).
  assert (Hcap2 : u64 (zlen (contents ar b) + len) = zlen (contents ar b) + len)
    by (apply u64_small; unfold VECTOR_MAX, SIZE_MOD in *; lia).
  rewrite Hcap2. unfold vector_resize. rewrite (proj2 (Z.ltb_ge _ _)) by lia.
  cbn [mbind outcome_bind]. eexists _, _, _. split; [done|].
  destruct Hso as (Hf & He & _). rewrite E in Hf.
  pose proof (wf_vec _ _ Hwf' Hf) as Hv.
  split_and!; cbn; auto with buf.
  - destruct Hwf'. constructor; cbn; try done; try lia.
    intros _. rewrite zlen_vector_resize; lia.
  - rewrite <- Hw, <- Hc'. unfold contents, block. cbn. rewrite Hf.
    apply slice_resize; lia.
  - unfold same_object. cbn. rewrite E. done.
  - intros _. unfold WritableBytes. cbn. rewrite u64_small; [lia|].
    unfold VECTOR_MAX, SIZE_MOD in *; lia.
Qed.

(** Storing [bs] at the write position and advancing appends [bs]. *)
Lemma append_ok ar b bs :
  wf ar b -> zlen bs <= WritableBytes b ->
  exists ar' b', store ar b (WriteBegin b) bs = Ok (ar', b') /\
    wf ar' (HasWritten b' (zlen bs)) /\
    contents ar' (HasWritten b' (zlen bs)) = contents ar b ++ bs /\
    same_object b (HasWritten b' (zlen bs)) /\ frame ar ar' b /\
    WritableBytes (HasWritten b' (zlen bs)) = WritableBytes b - zlen bs.
Proof.
  intros Hwf Hl. pose proof (wf_bounds _ _ Hwf) as Hbd. pose proof (zlen_nonneg bs).
  rewrite (WritableBytes_eq ar b) in * by done. pose proof (zlen_block _ _ Hwf) as Hzb.
  unfold WriteBegin. rewrite store_block by (try done; lia).
  destruct (put_block _ _ _) as [ar' b'] eqn:Ep. exists ar', b'.
  apply put_block_spec in Ep as (Hwf' & Hblk & Hso & Hfr & Hr & Hw & Hcap);
    [|done|rewrite zlen_splice; lia].
  assert (Hu : u64 (write_idx_ b' + zlen bs) = write_idx_ b + zlen bs)
    by (rewrite Hw; apply u64_small; unfold VECTOR_MAX, SIZE_MOD in *; lia).
  assert (HW : HasWritten b' (zlen bs)
               = set_indices b' (write_idx_ b + zlen bs) (read_idx_ b))
    by (unfold HasWritten, set_indices; by rewrite Hu, Hr).
  rewrite HW. split; [done|]. assert (Hwf2 : wf ar' (set_indices b' (write_idx_ b + zlen bs) (read_idx_ b)))
    by (apply wf_set_indices; [done|lia..]).
  split_and!; auto.
  - rewrite contents_set_indices, Hblk. unfold contents.
    replace (write_idx_ b + zlen bs - read_idx_ b)
      with ((write_idx_ b - read_idx_ b) + zlen bs) by lia.
    replace (splice (block ar b) (write_idx_ b) bs)
      with (splice (block ar b) (read_idx_ b + (write_idx_ b - read_idx_ b)) bs) by (f_equal; lia).
    apply slice_splice_extend; lia.
  - rewrite (WritableBytes_eq ar') by done. cbn. lia.
Qed.

(** [HasRead] drops bytes from the front. *)
Lemma HasRead_ok ar b n :
  wf ar b -> 0 <= n <= ReadableBytes b ->
  wf ar (HasRead b n) /\ contents ar (HasRead b n) = drop (Z.to_nat n) (contents ar b) /\
  same_object b (HasRead b n).
Proof.
  intros Hwf Hn. pose proof (wf_bounds _ _ Hwf) as Hbd.
  rewrite (ReadableBytes_eq ar) in Hn by done.
  assert (HR : HasRead b n = set_indices b (write_idx_ b) (read_idx_ b + n)).
  { unfold HasRead, set_indices. rewrite u64_small; [done|].
    unfold VECTOR_MAX, SIZE_MOD in *; lia. }
  rewrite HR. split_and!; try done.
  - apply wf_set_indices; [done|lia..].
  - rewrite contents_set_indices. unfold contents, slice. rewrite skipn_firstn_comm.
    rewrite drop_drop, <- !Z2Nat.inj_add, <- Z2Nat.inj_sub by lia. f_equal; f_equal; lia.
Qed.

(** The bytes at the read position. *)
Lemma load_read ar b n :
  wf ar b -> 0 <= n <= ReadableBytes b ->
  load ar b (ReadBegin b) n = Ok (take (Z.to_nat n) (contents ar b)).
Proof.
  intros Hwf Hn. pose proof (wf_bounds _ _ Hwf).
  rewrite (ReadableBytes_eq ar) in Hn by done.
  unfold ReadBegin. rewrite load_block by (try done; lia). f_equal.
  unfold contents, slice. rewrite take_take. f_equal. lia.
Qed.

(** * Sequences of operations against an abstract byte queue

    Clients use a buffer through three idioms: reserve space, copy bytes to
    [WriteBegin()] and commit them with [HasWritten]; consume with [HasRead];
    compact. *)

Inductive buf_op : Type :=
| Produce (bs : bytes)
| Consume (n : Z)
| Squeeze.

Definition apply_op (ar : Arena) (b : Buffer) (op : buf_op) : outcome (Arena * Buffer) :=
  match op with
  | Produce bs =>
      '(ok, (ar, b)) ← EnsureWritable ar b (zlen bs);
      if (ok : bool) then
        '(ar, b) ← store ar b (WriteBegin b) bs;
        Ok (ar, HasWritten b (zlen bs))
      else Ok (ar, b)
  | Consume n => Ok (ar, HasRead b n)
  | Squeeze => Compact ar b
  end.

Fixpoint apply_ops (ar : Arena) (b : Buffer) (ops : list buf_op) : outcome (Arena * Buffer) :=
  match ops with
  | [] => Ok (ar, b)
  | op :: ops => '(ar, b) ← apply_op ar b op; apply_ops ar b ops
  end.

(** The limit of a fixed buffer; a dynamic one grows. *)
Definition limit (b : Buffer) : option Z :=
  if is_fixed_ b then Some (capacity_ b) else None.

(** The abstract queue: a byte string with an optional limit.  [None] marks a
    call outside the contract: reading more than there is, or growing past the
    largest vector. *)
Definition op_spec (lim : option Z) (q : bytes) (op : buf_op) : option bytes :=
  match op with
  | Produce bs =>
      if VECTOR_MAX <? zlen q + zlen bs then None
      else if match lim with Some c => zlen q + zlen bs <=? c | None => true end
      then Some (q ++ bs) else Some q
  | Consume n => if (0 <=? n) && (n <=? zlen q) then Some (drop (Z.to_nat n) q) else None
  | Squeeze => Some q
  end.

Fixpoint ops_spec (lim : option Z) (q : bytes) (ops : list buf_op) : option bytes :=
  match ops with
  | [] => Some q
  | op :: ops => q' ← op_spec lim q op; ops_spec lim q' ops
  end.

Lemma limit_same b b' : same_object b b' -> limit b' = limit b.
Proof.
  intros (Hf & _ & Hc). unfold limit. rewrite Hf. destruct (is_fixed_ b); [|done].
  by rewrite Hc.
Qed.

Lemma apply_op_ok ar b op q :
  wf ar b -> op_spec (limit b) (contents ar b) op = Some q ->
  exists ar' b', apply_op ar b op = Ok (ar', b') /\ wf ar' b' /\ contents ar' b' = q /\
    same_object b b' /\ frame ar ar' b.
Proof.
  intros Hwf. destruct op as [bs|n|]; cbn [op_spec apply_op].
  - destruct (Z.ltb_spec VECTOR_MAX (zlen (contents ar b) + zlen bs)) as [|Hm]; [done|].
    destruct (EnsureWritable_ok ar b (zlen bs))
      as (ok & ar1 & b1 & -> & Hwf1 & Hc1 & Hs1 & Hf1 & Hok & Hw1);
      [done|apply zlen_nonneg|done|]. cbn [mbind outcome_bind].
    assert (Hlim : match limit b with
                   | Some c => zlen (contents ar b) + zlen bs <=? c | None => true end = ok)
      by (rewrite Hok; unfold limit; by destruct (is_fixed_ b)).
    rewrite Hlim. destruct ok.
    + destruct (append_ok ar1 b1 bs) as (ar2 & b2 & -> & Hwf2 & Hc2 & Hs2 & Hf2 & _);
        [done|auto|]. cbn [mbind outcome_bind]. intros [= <-]. eexists _, _. split; [done|].
      split_and!; [done|by rewrite Hc2, Hc1|by eauto with buf|by eauto with buf].
    + intros [= <-]. eexists _, _. split; [done|]. split_and!; auto.
  - destruct (Z.leb_spec 0 n), (Z.leb_spec n (zlen (contents ar b))); try done.
    intros [= <-]. destruct (HasRead_ok ar b n) as (? & ? & ?);
      [done|rewrite (ReadableBytes_contents ar) by done; lia|].
    eexists _, _. split; [done|]. split_and!; auto with buf.
  - intros [= <-]. destruct (Compact_ok _ _ Hwf) as (ar' & b' & ? & ? & ? & ? & ? & ? & ? & ?).
    eexists _, _. split_and!; eauto.
Qed.

Lemma apply_ops_ok ops : forall ar b q,
  wf ar b -> ops_spec (limit b) (contents ar b) ops = Some q ->
  exists ar' b', apply_ops ar b ops = Ok (ar', b') /\ wf ar' b' /\ contents ar' b' = q /\
    same_object b b' /\ frame ar ar' b.
Proof.
  induction ops as [|op ops IH]; intros ar b q Hwf Hq; cbn [ops_spec apply_ops] in *.
  { injection Hq as <-. eexists _, _. split; [done|]. split_and!; auto with buf. }
  destruct (op_spec _ _ op) as [q1|] eqn:E; [|done]. cbn in Hq.
  destruct (apply_op_ok _ _ _ _ Hwf E) as (ar1 & b1 & -> & Hwf1 & Hc1 & Hs1 & Hf1).
  cbn [mbind outcome_bind]. rewrite <- (limit_same _ _ Hs1), <- Hc1 in Hq.
  destruct (IH _ _ _ Hwf1 Hq) as (ar2 & b2 & ? & ? & ? & ? & ?).
  eexists _, _. split_and!; eauto with buf.
Qed.

(** * Properties *)

(** C14: Any sequence of reserve-copy-commit, consume and compact operations on
    a well-formed buffer, fixed or dynamic, behaves as the same sequence on an
    abstract byte queue: it has no undefined behaviour, the readable bytes are
    exactly the queue's, a fixed buffer refuses exactly the productions that
    exceed its capacity, and the invariant holds at the end. *)
Theorem buffer_refines_byte_queue ar b ops q :
  wf ar b -> ops_spec (limit b) (contents ar b) ops = Some q ->
  exists ar' b', apply_ops ar b ops = Ok (ar', b') /\ wf ar' b' /\ contents ar' b' = q /\
    limit b' = limit b.
Proof.
  intros Hwf Hq. destruct (apply_ops_ok _ _ _ _ Hwf Hq) as (ar' & b' & ? & ? & ? & Hs & _).
  exists ar', b'. split_and!; auto using limit_same.
Qed.

Definition demo_arena : Arena := replicate 16 Byte.x2a.
Definition demo_fixed : Buffer := Buffer_fixed (ArenaPtr 4) 4.
Definition demo_ops : list buf_op :=
  [Produce [Byte.x01; Byte.x02; Byte.x03]; Consume 2; Produce [Byte.x04; Byte.x05; Byte.x06];
   Produce [Byte.x07]; Squeeze].

Lemma demo_fixed_wf : wf demo_arena demo_fixed.
Proof. constructor; vm_compute; intuition discriminate. Qed.

Lemma buffer_refines_byte_queue_witness :
  wf demo_arena demo_fixed /\
  exists ar' b', apply_ops demo_arena demo_fixed demo_ops = Ok (ar', b') /\ wf ar' b' /\
    contents ar' b' = [Byte.x03; Byte.x04; Byte.x05; Byte.x06] /\ limit b' = Some 4.
Proof.
  split; [exact demo_fixed_wf|].
  apply (buffer_refines_byte_queue demo_arena demo_fixed demo_ops);
    [exact demo_fixed_wf|vm_compute; reflexivity].
Defined.

(** Operations on one fixed buffer leave the readable bytes and the
    invariant of every other fixed buffer with a disjoint window untouched,
    although all of them live in the same registered memory. *)
Theorem fixed_buffers_isolated ar b ops q b2 :
  wf ar b -> wf ar b2 -> is_fixed_ b = true -> is_fixed_ b2 = true ->
  window b + capacity_ b <= window b2 \/ window b2 + capacity_ b2 <= window b ->
  ops_spec (limit b) (contents ar b) ops = Some q ->
  exists ar' b', apply_ops ar b ops = Ok (ar', b') /\ wf ar' b2 /\
    contents ar' b2 = contents ar b2.
Proof.
  intros Hwf Hwf2 Hfix Hfix2 Hdis Hq.
  destruct (apply_ops_ok _ _ _ _ Hwf Hq) as (ar' & b' & ? & _ & _ & _ & Hz & _ & Hs).
  exists ar', b'. split; [done|]. destruct (wf_win _ _ Hwf2 Hfix2).
  split.
  - destruct Hwf2. constructor; try done. intros _. lia.
  - unfold contents, block. rewrite Hfix2, Hs; [done|lia|lia].
Qed.

Lemma fixed_buffers_isolated_witness :
  exists ar' b', apply_ops demo_arena demo_fixed demo_ops = Ok (ar', b') /\
    wf ar' (Buffer_fixed (ArenaPtr 8) 8) /\
    contents ar' (Buffer_fixed (ArenaPtr 8) 8) = contents demo_arena (Buffer_fixed (ArenaPtr 8) 8).
Proof.
  apply (fixed_buffers_isolated demo_arena demo_fixed demo_ops
           [Byte.x03; Byte.x04; Byte.x05; Byte.x06] (Buffer_fixed (ArenaPtr 8) 8)).
  - exact demo_fixed_wf.
  - constructor; vm_compute; intuition discriminate.
  - reflexivity.
  - reflexivity.
  - left. vm_compute. discriminate.
  - vm_compute. reflexivity.
Defined.

(** [EnsureWritable] never loses a readable byte and never touches memory
    outside the buffer; it succeeds exactly when the buffer is dynamic or the
    unread bytes plus the request fit the capacity, and after success the
    promised space is there. *)
Theorem ensure_writable_correct ar b len :
  wf ar b -> 0 <= len -> zlen (contents ar b) + len <= VECTOR_MAX ->
  exists ok ar' b', EnsureWritable ar b len = Ok (ok, (ar', b')) /\ wf ar' b' /\
    contents ar' b' = contents ar b /\ frame ar ar' b /\
    (ok = true <-> is_fixed_ b = false \/ zlen (contents ar b) + len <= capacity_ b) /\
    (ok = true -> len <= WritableBytes b').
Proof.
  intros Hwf Hl Hm.
  destruct (EnsureWritable_ok ar b len Hwf Hl Hm)
    as (ok & ar' & b' & ? & ? & ? & ? & ? & Hok & ?).
  exists ok, ar', b'. split_and!; auto.
  - rewrite Hok, orb_true_iff, negb_true_iff, Z.leb_le. tauto.
Qed.

Lemma ensure_writable_correct_witness :
  exists ok ar' b', EnsureWritable demo_arena demo_fixed 5 = Ok (ok, (ar', b')) /\ wf ar' b' /\
    contents ar' b' = contents demo_arena demo_fixed /\ frame demo_arena ar' demo_fixed /\
    (ok = true <-> is_fixed_ demo_fixed = false
                   \/ zlen (contents demo_arena demo_fixed) + 5 <= capacity_ demo_fixed) /\
    (ok = true -> 5 <= WritableBytes b').
Proof.
  apply (ensure_writable_correct demo_arena demo_fixed 5);
    [exact demo_fixed_wf|lia|vm_compute; discriminate].
Defined.

(** [HasRead] does not check its argument: skipping more bytes than are
    readable makes [ReadableBytes] wrap around to a value close to [2^64]
    instead of becoming zero. *)
Theorem has_read_past_end_wraps ar b n :
  wf ar b -> ReadableBytes b < n <= VECTOR_MAX ->
  ReadableBytes (HasRead b n) = SIZE_MOD - (n - ReadableBytes b).
Proof.
  intros Hwf Hn. pose proof (wf_bounds _ _ Hwf). rewrite (ReadableBytes_eq ar b) in * by done.
  unfold ReadableBytes, HasRead. cbn.
  rewrite (u64_small (read_idx_ b + n)) by (unfold VECTOR_MAX, SIZE_MOD in *; lia).
  rewrite <- (u64_small (SIZE_MOD - (n - (write_idx_ b - read_idx_ b))))
    by (unfold VECTOR_MAX, SIZE_MOD in *; lia).
  unfold u64, wrap. rewrite <- (Z_mod_plus_full (write_idx_ b - (read_idx_ b + n)) 1 (2 ^ 64)).
  f_equal. unfold SIZE_MOD. lia.
Qed.

Lemma has_read_past_end_wraps_witness :
  ReadableBytes (HasRead (Buffer_dynamic 8) 1) = SIZE_MOD - (1 - ReadableBytes (Buffer_dynamic 8)).
Proof.
  apply (has_read_past_end_wraps [] (Buffer_dynamic 8) 1).
  - constructor; vm_compute; intuition discriminate.
  - vm_compute. split; [reflexivity|discriminate].
Defined.
