(* ===== verification/Protocol.v ===== *)
(** The wire protocol of [src/protocol.h] and [src/protocol.cpp]: a packed
    12-byte header in network byte order followed by the payload.

    The definitions are generic in the byte order of the host ([HostOrder]):
    the object representation of an integer field follows the host and
    [htons]/[ntohl] swap on little-endian hosts only, as [<arpa/inet.h>]
    documents.  The theorems show that the bytes on the wire do not depend on
    it. *)
From S2P Require Import Prelude Buffer.

(** * Byte order *)

Class HostOrder := { host_le : bool }.

(** Object representation of an [n]-byte unsigned integer. *)
Definition host_split {H : HostOrder} (n : nat) (z : Z) : bytes :=
  if host_le then le_split n z else rev (le_split n z).

Definition host_combine {H : HostOrder} (bs : bytes) : Z :=
  if host_le then le_combine bs else le_combine (rev bs).

Definition bswap (n : nat) (z : Z) : Z := le_combine (rev (le_split n z)).

Definition htons {H : HostOrder} (z : Z) : Z := if host_le then bswap 2 z else z.
Definition ntohs {H : HostOrder} (z : Z) : Z := if host_le then bswap 2 z else z.
Definition htonl {H : HostOrder} (z : Z) : Z := if host_le then bswap 4 z else z.
Definition ntohl {H : HostOrder} (z : Z) : Z := if host_le then bswap 4 z else z.

(** * The header *)

Record RpcHeader := mkHeader {
  magic : Z;        (* uint16_t *)
  version : Z;      (* uint8_t *)
  msg_type : Z;     (* uint8_t *)
  seq_id : Z;       (* uint32_t *)
  payload_len : Z   (* uint32_t *)
}.

(** The field values fit their types. *)
Definition header_ok (h : RpcHeader) : Prop :=
  0 <= magic h < 2 ^ 16 /\ 0 <= version h < 2 ^ 8 /\ 0 <= msg_type h < 2 ^ 8 /\
  0 <= seq_id h < 2 ^ 32 /\ 0 <= payload_len h < 2 ^ 32.

Definition MAGIC_NUMBER : Z := 0x5452.

(** [sizeof(RpcHeader)]: the fields of a packed struct lie side by side. *)
Definition HEADER_SIZE : Z := 2 + 1 + 1 + 4 + 4.

(** The bytes of a header object in memory, and the object a [memcpy] of
    [HEADER_SIZE] bytes over it yields. *)
Definition header_image {H : HostOrder} (h : RpcHeader) : bytes :=
  host_split 2 (magic h) ++ host_split 1 (version h) ++ host_split 1 (msg_type h) ++
  host_split 4 (seq_id h) ++ host_split 4 (payload_len h).

Definition header_of_image {H : HostOrder} (bs : bytes) : RpcHeader :=
  mkHeader (host_combine (slice bs 0 2)) (host_combine (slice bs 2 1))
    (host_combine (slice bs 3 1)) (host_combine (slice bs 4 4))
    (host_combine (slice bs 8 4)).

(** * ParseMessage and EncodeMessage *)

(** Returns the payload if a full message is available, the header object as
    [out_header] is left (it is written as soon as a header is present, also
    when no message is returned) and the buffer. *)
Definition ParseMessage {H : HostOrder} (ar : Arena) (b : Buffer) (out_header : RpcHeader)
  : outcome (option bytes * RpcHeader * Buffer) :=
  if ReadableBytes b <? HEADER_SIZE then Ok (None, out_header, b)
  else
    image ← load ar b (ReadBegin b) HEADER_SIZE;
    let raw := header_of_image image in
    let hdr := mkHeader (ntohs (magic raw)) (version raw) (msg_type raw)
                 (ntohl (seq_id raw)) (ntohl (payload_len raw)) in
    if negb (magic hdr =? MAGIC_NUMBER) then Ok (None, hdr, HasRead b 1)
    else if ReadableBytes b <? u64 (HEADER_SIZE + payload_len hdr) then Ok (None, hdr, b)
    else
      let b := HasRead b HEADER_SIZE in
      if 0 <? payload_len hdr then
        payload ← load ar b (ReadBegin b) (payload_len hdr);
        Ok (Some payload, hdr, HasRead b (payload_len hdr))
      else Ok (Some [], hdr, b).

(** The result of [EnsureWritable] is ignored, as in the source;
    [htonl(payload_len)] converts the [size_t] to [uint32_t] first. *)
Definition EncodeMessage {H : HostOrder} (ar : Arena) (b : Buffer) (header : RpcHeader)
    (payload : bytes) : outcome (Arena * Buffer) :=
  let len := zlen payload in
  let net_header := mkHeader (htons MAGIC_NUMBER) (version header) (msg_type header)
                      (htonl (seq_id header)) (htonl (u32 len)) in
  '(_, (ar, b)) ← EnsureWritable ar b (u64 (HEADER_SIZE + len));
  '(ar, b) ← store ar b (WriteBegin b) (header_image net_header);
  let b := HasWritten b HEADER_SIZE in
  if 0 <? len then
    '(ar, b) ← store ar b (WriteBegin b) payload;
    Ok (ar, HasWritten b len)
  else Ok (ar, b).

(** * Abstract specification: frames as byte strings *)

Definition be_split (n : nat) (z : Z) : bytes := rev (le_split n z).
Definition be_combine (bs : bytes) : Z := le_combine (rev bs).

(** The 12 header bytes of a message on the wire. *)
Definition wire_header (h : RpcHeader) (len : Z) : bytes :=
  [Byte.x54; Byte.x52; byte.of_Z (version h); byte.of_Z (msg_type h)] ++
  be_split 4 (seq_id h) ++ be_split 4 len.

Definition wire_frame (h : RpcHeader) (payload : bytes) : bytes :=
  wire_header h (zlen payload) ++ payload.

(** The header a receiver reconstructs from 12 wire bytes. *)
Definition decode_header (bs : bytes) : RpcHeader :=
  mkHeader (be_combine (slice bs 0 2)) (be_combine (slice bs 2 1)) (be_combine (slice bs 3 1))
    (be_combine (slice bs 4 4)) (be_combine (slice bs 8 4)).

Inductive parse_outcome : Type :=
| PNeedHeader                                    (* fewer than 12 bytes *)
| PBadMagic (h : RpcHeader)                      (* drop one byte *)
| PNeedPayload (h : RpcHeader)                   (* wait for the payload *)
| PMessage (h : RpcHeader) (payload : bytes).    (* a full message *)

Definition parse_spec (bs : bytes) : parse_outcome :=
  if zlen bs <? HEADER_SIZE then PNeedHeader
  else
    let h := decode_header (take 12 bs) in
    if negb (magic h =? MAGIC_NUMBER) then PBadMagic h
    else if zlen bs <? HEADER_SIZE + payload_len h then PNeedPayload h
    else PMessage h (slice bs HEADER_SIZE (payload_len h)).

(** How many bytes each outcome consumes. *)
Definition consumed (o : parse_outcome) : Z :=
  match o with
  | PNeedHeader | PNeedPayload _ => 0
  | PBadMagic _ => 1
  | PMessage _ p => HEADER_SIZE + zlen p
  end.

(** What [ParseMessage] returns for each outcome. *)
Definition returned (o : parse_outcome) (out_header : RpcHeader) : option bytes * RpcHeader :=
  match o with
  | PNeedHeader => (None, out_header)
  | PBadMagic h | PNeedPayload h => (None, h)
  | PMessage h p => (Some p, h)
  end.

(** * Lemmas *)

Section ByteOrder.
Context {H : HostOrder}.

Lemma host_split_swap (n : nat) z :
  host_split n (if host_le then bswap n z else z) = be_split n z.
Proof.
  unfold host_split, be_split, bswap. destruct host_le; [|done].
  apply split_le_combine'. by rewrite length_rev, length_le_split.
Qed.

Lemma host_combine_swap (n : nat) bs :
  length bs = n -> (if host_le then bswap n (host_combine bs) else host_combine bs) = be_combine bs.
Proof.
  intros Hn. unfold host_combine, be_combine, bswap. destruct host_le; [|done].
  by rewrite split_le_combine'.
Qed.

Lemma host_split_1 z : host_split 1 z = [byte.of_Z z].
Proof. unfold host_split. by destruct host_le. Qed.

Lemma host_combine_1 bs : length bs = 1%nat -> host_combine bs = be_combine bs.
Proof.
  intros. unfold host_combine, be_combine. destruct host_le; [|done].
  by destruct bs as [|? []].
Qed.

(** The header bytes [EncodeMessage] writes are the wire header. *)
Lemma header_image_net h len :
  header_image (mkHeader (htons MAGIC_NUMBER) (version h) (msg_type h)
                  (htonl (seq_id h)) (htonl len)) = wire_header h len.
Proof.
  unfold header_image, wire_header, htons, htonl. cbn [magic version msg_type seq_id payload_len].
  rewrite !host_split_swap, !host_split_1. done.
Qed.

(** The header [ParseMessage] computes from 12 bytes is their big-endian
    reading. *)
Lemma decode_header_host bs :
  zlen bs = HEADER_SIZE ->
  let raw := header_of_image bs in
  mkHeader (ntohs (magic raw)) (version raw) (msg_type raw)
    (ntohl (seq_id raw)) (ntohl (payload_len raw)) = decode_header bs.
Proof.
  intros Hz. cbn -[HEADER_SIZE slice]. unfold ntohs, ntohl, decode_header, zlen, HEADER_SIZE in *.
  rewrite !host_combine_swap, !host_combine_1 by (rewrite length_slice; lia). done.
Qed.

End ByteOrder.

Lemma length_be_split n z : length (be_split n z) = n.
Proof. unfold be_split. by rewrite length_rev, length_le_split. Qed.

Lemma be_combine_split n z : be_combine (be_split n z) = z mod 2 ^ (Z.of_nat n * 8).
Proof. unfold be_combine, be_split. rewrite rev_involutive. apply le_combine_split. Qed.

Lemma be_split_combine n bs : length bs = n -> be_split n (be_combine bs) = bs.
Proof.
  intros <-. unfold be_combine, be_split. rewrite <- length_rev, split_le_combine. apply rev_involutive.
Qed.

Lemma be_combine_bound bs : 0 <= be_combine bs < 2 ^ (8 * zlen bs).
Proof.
  unfold be_combine, zlen. rewrite <- (length_rev bs). apply le_combine_bound.
Qed.

Lemma zlen_wire_header h len : zlen (wire_header h len) = HEADER_SIZE.
Proof. unfold wire_header, zlen. by rewrite !length_app, !length_be_split. Qed.

Lemma zlen_wire_frame h p : zlen (wire_frame h p) = HEADER_SIZE + zlen p.
Proof. unfold wire_frame. by rewrite zlen_app, zlen_wire_header. Qed.

(** Decoding the wire header gives the fields back, magic and length
    normalised. *)
Lemma decode_wire_header h len :
  header_ok h -> 0 <= len < 2 ^ 32 ->
  decode_header (wire_header h len) =
  mkHeader MAGIC_NUMBER (version h) (msg_type h) (seq_id h) len.
Proof.
  intros (_ & Hv & Ht & Hs & _) Hl. unfold decode_header, wire_header.
  pose proof (be_combine_split 4 (seq_id h)) as E1. pose proof (be_combine_split 4 len) as E2.
  pose proof (length_be_split 4 (seq_id h)) as L1. pose proof (length_be_split 4 len) as L2.
  rewrite Z.mod_small in E1, E2 by (cbn; lia).
  destruct (be_split 4 (seq_id h)) as [|s0 [|s1 [|s2 [|s3 []]]]]; try discriminate L1.
  destruct (be_split 4 len) as [|l0 [|l1 [|l2 [|l3 []]]]]; try discriminate L2.
  f_equal; [..|exact E1|exact E2].
  - transitivity (byte.unsigned (byte.of_Z (version h))); [apply le_combine_1|].
    rewrite byte.unsigned_of_Z. apply Z.mod_small. lia.
  - transitivity (byte.unsigned (byte.of_Z (msg_type h))); [apply le_combine_1|].
    rewrite byte.unsigned_of_Z. apply Z.mod_small. lia.
Qed.

Lemma decode_header_ok bs : zlen bs = HEADER_SIZE -> header_ok (decode_header bs).
Proof.
  intros Hz. unfold HEADER_SIZE in Hz. unfold header_ok, decode_header. cbn.
  assert (Hb : forall o n k, 0 <= o -> 0 <= n -> o + n <= 12 -> 8 * n = k ->
    0 <= be_combine (slice bs o n) < 2 ^ k).
  { intros o n k ?? ? <-. rewrite <- (zlen_slice bs o n) at 3 by lia.
    apply be_combine_bound. }
  refine (conj _ (conj _ (conj _ (conj _ _)))); apply Hb; lia.
Qed.

(** Re-encoding a decoded header with the right magic gives the bytes back. *)
Lemma wire_header_decode bs :
  zlen bs = HEADER_SIZE -> magic (decode_header bs) = MAGIC_NUMBER ->
  wire_header (decode_header bs) (payload_len (decode_header bs)) = bs.
Proof.
  unfold zlen, HEADER_SIZE. intros Hz Hm.
  assert (Hl : length bs = 12%nat) by lia. clear Hz.
  destruct bs as [|b0 [|b1 [|b2 [|b3 [|b4 [|b5 [|b6 [|b7 [|b8 [|b9 [|b10 [|b11 []]]]]]]]]]]]];
    try discriminate Hl.
  unfold decode_header in Hm. cbn [magic] in Hm.
  apply (f_equal (be_split 2)) in Hm.
  change (slice _ 0 2) with [b0; b1] in Hm.
  rewrite be_split_combine in Hm by done.
  change (be_split 2 MAGIC_NUMBER) with [Byte.x54; Byte.x52] in Hm. injection Hm as -> ->.
  unfold wire_header, decode_header. cbn [seq_id payload_len version msg_type].
  change (be_combine (slice _ 2 1)) with (le_combine [b2]).
  change (be_combine (slice _ 3 1)) with (le_combine [b3]).
  change (slice _ 4 4) with [b4; b5; b6; b7]. change (slice _ 8 4) with [b8; b9; b10; b11].
  rewrite !le_combine_1, !byte.of_Z_unsigned.
  by rewrite !be_split_combine.
Qed.

(** The header a peer decodes from a frame built with [h]. *)
Definition received_header (h : RpcHeader) (payload : bytes) : RpcHeader :=
  mkHeader MAGIC_NUMBER (version h) (msg_type h) (seq_id h) (zlen payload).

(** ** The specification on frames *)

Lemma take_wire_header h len rest : take 12 (wire_header h len ++ rest) = wire_header h len.
Proof.
  rewrite take_app_le by (pose proof (zlen_wire_header h len);
                          unfold zlen, HEADER_SIZE in *; lia).
  apply take_ge. pose proof (zlen_wire_header h len). unfold zlen, HEADER_SIZE in *. lia.
Qed.

Lemma slice_app_r l k n : slice (l ++ k) (zlen l) n = take (Z.to_nat n) k.
Proof. unfold slice, zlen. rewrite Nat2Z.id. by rewrite drop_app_length. Qed.

Lemma parse_spec_frame h p rest :
  header_ok h -> zlen p < 2 ^ 32 ->
  parse_spec (wire_frame h p ++ rest) = PMessage (received_header h p) p.
Proof.
  intros Hh Hp. pose proof (zlen_nonneg p). pose proof (zlen_nonneg rest).
  unfold parse_spec, wire_frame. rewrite <- app_assoc, take_wire_header.
  rewrite decode_wire_header by (try done; lia). cbn [magic payload_len].
  rewrite !zlen_app, zlen_wire_header, !(proj2 (Z.ltb_ge _ _)) by lia.
  rewrite Z.eqb_refl. cbn [negb]. f_equal.
  rewrite <- (zlen_wire_header h (zlen p)), slice_app_r. unfold zlen. rewrite Nat2Z.id.
  rewrite take_app_length. done.
Qed.

(** A strict prefix of a frame is never consumed. *)
Lemma parse_spec_prefix h p bs rest :
  header_ok h -> zlen p < 2 ^ 32 -> wire_frame h p = bs ++ rest -> rest <> [] ->
  parse_spec bs = PNeedHeader \/ parse_spec bs = PNeedPayload (received_header h p).
Proof.
  intros Hh Hp E Hr. pose proof (zlen_nonneg p).
  assert (Hlen : zlen bs < HEADER_SIZE + zlen p).
  { apply (f_equal zlen) in E. rewrite zlen_wire_frame, zlen_app in E.
    destruct rest; [done|]. rewrite zlen_cons in E. pose proof (zlen_nonneg rest). lia. }
  unfold parse_spec. destruct (Z.ltb_spec (zlen bs) HEADER_SIZE) as [H1|H1]; [by left|right].
  assert (Ht : take 12 bs = wire_header h (zlen p)).
  { unfold zlen, HEADER_SIZE in H1.
    rewrite <- (take_app_le bs rest) by lia. rewrite <- E. apply take_wire_header. }
  rewrite Ht, decode_wire_header by (try done; lia). cbn [magic payload_len].
  rewrite Z.eqb_refl. cbn [negb]. rewrite (proj2 (Z.ltb_lt _ _)) by lia. done.
Qed.

(** A message is only ever read off a frame. *)
Lemma parse_spec_message bs h p :
  parse_spec bs = PMessage h p ->
  bs = wire_frame h p ++ drop (Z.to_nat (HEADER_SIZE + zlen p)) bs /\ header_ok h /\
  h = received_header h p /\ zlen p < 2 ^ 32.
Proof.
  unfold parse_spec. destruct (Z.ltb_spec (zlen bs) HEADER_SIZE) as [|H1]; [done|].
  assert (Hz : zlen (take 12 bs) = HEADER_SIZE)
    by (unfold zlen, HEADER_SIZE in *; rewrite length_take; lia).
  pose proof (decode_header_ok _ Hz) as Hok.
  destruct (Z.eqb_spec (magic (decode_header (take 12 bs))) MAGIC_NUMBER) as [Hm|]; [|done].
  pose proof (wire_header_decode _ Hz Hm) as Hd.
  set (d := decode_header (take 12 bs)) in *. clearbody d. cbn [negb].
  destruct (Z.ltb_spec (zlen bs) (HEADER_SIZE + payload_len d)) as [|H2]; [done|].
  intros [= <- <-]. destruct Hok as (H3 & H4 & H5 & H6 & H7).
  assert (Hp : zlen (slice bs HEADER_SIZE (payload_len d)) = payload_len d)
    by (apply zlen_slice; unfold HEADER_SIZE in *; lia).
  split_and!; [|done|unfold received_header; rewrite Hp, <- Hm; by destruct d|lia].
  unfold wire_frame. rewrite Hp, Hd, <- app_assoc.
  rewrite Z2Nat.inj_add by (unfold HEADER_SIZE; lia).
  unfold slice. change (Z.to_nat HEADER_SIZE) with 12%nat.
  rewrite <- drop_drop. by rewrite !take_drop.
Qed.

Lemma parse_spec_consumed bs : 0 <= consumed (parse_spec bs) <= zlen bs.
Proof.
  pose proof (zlen_nonneg bs). unfold parse_spec.
  destruct (Z.ltb_spec (zlen bs) HEADER_SIZE) as [|H1]; [cbn; lia|].
  destruct (Z.eqb_spec (magic (decode_header (take 12 bs))) MAGIC_NUMBER); cbn [negb];
    [|cbn; unfold HEADER_SIZE in *; lia].
  destruct (Z.ltb_spec (zlen bs) (HEADER_SIZE + payload_len (decode_header (take 12 bs)))) as [|H2];
    [cbn; lia|].
  cbn [consumed].
  assert (Hz : zlen (take 12 bs) = HEADER_SIZE)
    by (unfold zlen, HEADER_SIZE in *; rewrite length_take; lia).
  destruct (decode_header_ok _ Hz) as (_ & _ & _ & _ & Hp).
  rewrite zlen_slice; unfold HEADER_SIZE in *; lia.
Qed.

(** ** The functions meet the specification *)

Section Refinement.
Context {H : HostOrder}.

(** The header an outcome carries has values of its types. *)
Lemma parse_spec_header_ok bs :
  match parse_spec bs with
  | PNeedHeader => True
  | PBadMagic h | PNeedPayload h | PMessage h _ => header_ok h
  end.
Proof.
  unfold parse_spec. destruct (Z.ltb_spec (zlen bs) HEADER_SIZE) as [|H1]; [done|].
  assert (Hz : zlen (take 12 bs) = HEADER_SIZE)
    by (unfold zlen, HEADER_SIZE in *; rewrite length_take; lia).
  pose proof (decode_header_ok _ Hz) as Hd. cbn zeta. destruct (negb _); [done|]. by destruct (zlen bs <? _).
Qed.

Lemma consumed_le bs : 0 <= consumed (parse_spec bs) <= zlen bs.
Proof.
  pose proof (zlen_nonneg bs). destruct (parse_spec bs) as [|h|h|h p] eqn:E; cbn [consumed]; [lia| |lia|].
  - unfold parse_spec in E. destruct (Z.ltb_spec (zlen bs) HEADER_SIZE); [done|]. unfold HEADER_SIZE in *. lia.
  - destruct (parse_spec_message _ _ _ E) as (Hb & _). apply (f_equal zlen) in Hb.
    rewrite zlen_app, zlen_wire_frame in Hb. pose proof (zlen_nonneg (drop (Z.to_nat (HEADER_SIZE + zlen p)) bs)).
    pose proof (zlen_nonneg p). unfold HEADER_SIZE in *. lia.
Qed.

Lemma ParseMessage_ok ar b out :
  wf ar b ->
  let o := parse_spec (contents ar b) in
  exists b', ParseMessage ar b out = Ok (returned o out, b') /\ wf ar b' /\
    contents ar b' = drop (Z.to_nat (consumed o)) (contents ar b) /\ same_object b b' /\
    (consumed o = 0 -> b' = b).
Proof.
  intros Hwf. cbn zeta. unfold ParseMessage. pose proof (ReadableBytes_contents _ _ Hwf) as Hr.
  pose proof (zlen_nonneg (contents ar b)).
  pose proof (wf_bounds _ _ Hwf) as Hbd. pose proof (zlen_contents _ _ Hwf) as Hzc.
  unfold parse_spec at 1. rewrite Hr. unfold parse_spec.
  destruct (Z.ltb_spec (zlen (contents ar b)) HEADER_SIZE) as [H1|H1].
  { exists b. split_and!; auto with buf. }
  assert (Hz : zlen (take 12 (contents ar b)) = HEADER_SIZE)
    by (unfold zlen, HEADER_SIZE in *; rewrite length_take; lia).
  rewrite load_read by (try done; rewrite Hr; unfold HEADER_SIZE in *; lia).
  cbn [mbind outcome_bind]. change (Z.to_nat HEADER_SIZE) with 12%nat.
  pose proof (decode_header_host _ Hz) as Hd. cbn zeta in Hd. rewrite Hd.
  pose proof (decode_header_ok _ Hz) as (_ & _ & _ & _ & Hpl).
  set (d := decode_header (take 12 (contents ar b))) in *.
  destruct (negb (magic d =? MAGIC_NUMBER)).
  { destruct (HasRead_ok ar b 1) as (? & ? & ?); [done|rewrite Hr; unfold HEADER_SIZE in *; lia|].
    eexists. split; [done|]. split_and!; [done..|]. cbn; lia. }
  rewrite u64_small by (unfold SIZE_MOD, HEADER_SIZE; lia).
  destruct (Z.ltb_spec (zlen (contents ar b)) (HEADER_SIZE + payload_len d)) as [H2|H2].
  { exists b. split_and!; auto with buf. }
  destruct (HasRead_ok ar b HEADER_SIZE) as (Hwf1 & Hc1 & Hs1);
    [done|rewrite Hr; unfold HEADER_SIZE in *; lia|].
  assert (Hpz : zlen (slice (contents ar b) HEADER_SIZE (payload_len d)) = payload_len d)
    by (apply zlen_slice; unfold HEADER_SIZE in *; lia).
  assert (Hr1 : ReadableBytes (HasRead b HEADER_SIZE) = zlen (contents ar b) - HEADER_SIZE)
    by (rewrite (ReadableBytes_contents ar), Hc1 by done; unfold zlen, HEADER_SIZE in *;
        rewrite length_drop; lia).
  cbn [returned consumed]. rewrite Hpz.
  destruct (Z.ltb_spec 0 (payload_len d)) as [H3|H3].
  - rewrite load_read by (try done; lia). cbn [mbind outcome_bind].
    destruct (HasRead_ok ar (HasRead b HEADER_SIZE) (payload_len d)) as (Hwf2 & Hc2 & Hs2);
      [done|lia|].
    eexists. split; [by rewrite Hc1|]. split_and!; [done| |by eauto with buf|].
    { rewrite Hc2, Hc1, drop_drop. f_equal. unfold HEADER_SIZE. lia. }
    unfold HEADER_SIZE. lia.
  - assert (payload_len d = 0) as -> by lia.
    eexists. split; [by rewrite slice_nil_len|]. split_and!; [done| |done|].
    { by rewrite Hc1, Z.add_0_r. }
    unfold HEADER_SIZE. lia.
Qed.

Lemma EncodeMessage_ok ar b h p :
  wf ar b -> zlen (contents ar b) + HEADER_SIZE + zlen p <= VECTOR_MAX ->
  is_fixed_ b = false \/ zlen (contents ar b) + HEADER_SIZE + zlen p <= capacity_ b ->
  exists ar' b', EncodeMessage ar b h p = Ok (ar', b') /\ wf ar' b' /\
    contents ar' b' = contents ar b ++ wire_header h (u32 (zlen p)) ++ p /\
    same_object b b' /\ frame ar ar' b.
Proof.
  intros Hwf Hmax Hfit. pose proof (zlen_nonneg p). pose proof (zlen_nonneg (contents ar b)).
  unfold EncodeMessage.
  rewrite u64_small by (unfold VECTOR_MAX, SIZE_MOD, HEADER_SIZE in *; lia).
  destruct (EnsureWritable_ok ar b (HEADER_SIZE + zlen p))
    as (ok & ar1 & b1 & -> & Hwf1 & Hc1 & Hs1 & Hf1 & Hok & Hw1);
    [done|unfold HEADER_SIZE; lia|lia|].
  assert (ok = true) as ->.
  { rewrite Hok. destruct Hfit as [->|]; [done|]. apply orb_true_iff. right.
    apply Z.leb_le. lia. }
  specialize (Hw1 eq_refl). cbn [mbind outcome_bind]. rewrite header_image_net.
  set (wh := wire_header h (u32 (zlen p))).
  assert (Hwh : zlen wh = HEADER_SIZE) by apply zlen_wire_header.
  destruct (append_ok ar1 b1 wh) as (ar2 & b2 & -> & Hwf2 & Hc2 & Hs2 & Hf2 & Hw2);
    [done|lia|]. rewrite Hwh in *. cbn [mbind outcome_bind].
  destruct (Z.ltb_spec 0 (zlen p)) as [Hp|Hp].
  - destruct (append_ok ar2 (HasWritten b2 HEADER_SIZE) p)
      as (ar3 & b3 & -> & Hwf3 & Hc3 & Hs3 & Hf3 & Hw3); [done|lia|].
    cbn [mbind outcome_bind]. eexists _, _. split; [done|].
    split_and!; [done|by rewrite Hc3, Hc2, Hc1, <- app_assoc|by eauto with buf|by eauto with buf].
  - assert (p = []) as -> by (apply zlen_0_nil; lia).
    eexists _, _. split; [done|].
    split_and!; [done|by rewrite Hc2, Hc1, app_nil_r|by eauto with buf|by eauto with buf].
Qed.

(** A message encoded into a new buffer and copied out of it. *)
Lemma encode_fresh ar h p :
  zlen p < 2 ^ 32 ->
  ('(ar, b) ← EncodeMessage ar Buffer_default h p; load ar b (ReadBegin b) (ReadableBytes b))
    = Ok (wire_frame h p).
Proof.
  intros Hp. pose proof (zlen_nonneg p).
  assert (Hwf : wf ar Buffer_default) by (constructor; vm_compute; intuition discriminate).
  assert (Hc : contents ar Buffer_default = []) by done.
  destruct (EncodeMessage_ok ar Buffer_default h p) as (ar' & b & -> & Hwf' & Hc' & _);
    [done|rewrite Hc; change (zlen []) with 0; unfold VECTOR_MAX, HEADER_SIZE in *; lia|by left|].
  cbn [mbind outcome_bind].
  assert (Hr : ReadableBytes b = zlen (contents ar' b)) by (by apply ReadableBytes_contents).
  pose proof (zlen_nonneg (contents ar' b)).
  rewrite load_read by (try done; lia). rewrite Hr. f_equal.
  rewrite Hc', Hc, u32_small by lia. cbn [app]. unfold zlen. rewrite Nat2Z.id. by rewrite firstn_all.
Qed.

End Refinement.

(** * Properties *)

#[local] Instance x86 : HostOrder := {| host_le := true |}.

Definition sample_header : RpcHeader := mkHeader 0 1 0 7 0.
Definition sample_payload : bytes := [Byte.x68; Byte.x69].

Lemma empty_wf : wf [] Buffer_default.
Proof. constructor; vm_compute; intuition discriminate. Qed.

(** C17: A message encoded by a peer of either byte order is parsed back by a
    host of either byte order: the payload and the version, type and sequence
    number come back unchanged, the magic and the length are filled in, and
    exactly the bytes of that message are removed, leaving whatever follows
    it. *)
Theorem encode_parse_roundtrip (H1 H2 : HostOrder) ar b h p ar' b' rest ar2 b2 out :
  wf ar b -> header_ok h -> zlen p < 2 ^ 32 -> contents ar b = [] ->
  (is_fixed_ b = false \/ HEADER_SIZE + zlen p <= capacity_ b) ->
  @EncodeMessage H1 ar b h p = Ok (ar', b') ->
  wf ar2 b2 -> contents ar2 b2 = contents ar' b' ++ rest ->
  exists b3, @ParseMessage H2 ar2 b2 out = Ok (Some p, received_header h p, b3) /\
    wf ar2 b3 /\ contents ar2 b3 = rest.
Proof.
  intros Hwf Hh Hp Hc Hfit He Hwf2 Hc2. pose proof (zlen_nonneg p).
  destruct (@EncodeMessage_ok H1 ar b h p) as (ar1 & b1 & He1 & _ & Hc1 & _);
    [done|rewrite Hc, zlen_nil; unfold VECTOR_MAX, HEADER_SIZE; lia|by rewrite Hc, zlen_nil|].
  rewrite He1 in He. injection He as <- <-.
  rewrite Hc, u32_small in Hc1 by lia.
  destruct (@ParseMessage_ok H2 ar2 b2 out Hwf2) as (b3 & Hp3 & Hwf3 & Hc3 & _).
  assert (Hs : contents ar2 b2 = wire_frame h p ++ rest) by (rewrite Hc2, Hc1; done).
  rewrite Hs, parse_spec_frame in * by done. cbn [returned consumed] in *.
  exists b3. split; [done|]. split; [done|]. rewrite Hc3, <- (zlen_wire_frame h p).
  unfold zlen. by rewrite Nat2Z.id, drop_app_length.
Qed.

Lemma encode_parse_roundtrip_witness :
  exists ar' b' b3,
    @EncodeMessage x86 [] Buffer_default sample_header sample_payload = Ok (ar', b') /\
    @ParseMessage {| host_le := false |} ar' b' sample_header
      = Ok (Some sample_payload, received_header sample_header sample_payload, b3) /\
    wf ar' b3 /\ contents ar' b3 = [].
Proof.
  destruct (EncodeMessage_ok [] Buffer_default sample_header sample_payload)
    as (ar' & b' & He & Hwf' & _); [exact empty_wf|vm_compute; discriminate|by left|].
  destruct (encode_parse_roundtrip x86 {| host_le := false |} [] Buffer_default sample_header
    sample_payload ar' b' [] ar' b' sample_header) as (b3 & Hp3 & Hw3 & Hc3).
  - exact empty_wf.
  - vm_compute; intuition discriminate.
  - vm_compute; reflexivity.
  - vm_compute; reflexivity.
  - left; reflexivity.
  - exact He.
  - exact Hwf'.
  - rewrite app_nil_r. reflexivity.
  - exists ar', b', b3. exact (conj He (conj Hp3 (conj Hw3 Hc3))).
Defined.

(** C15: [ParseMessage] does on every branch what the specification of the
    protocol says: below 12 readable bytes it touches nothing, on a wrong magic
    it drops one byte, on an incomplete payload it consumes nothing, and
    otherwise it returns the payload and drops exactly that message; the
    invariant holds afterwards and memory is only read. *)
Theorem parse_message_refines_spec (H : HostOrder) ar b out :
  wf ar b ->
  exists b', ParseMessage ar b out = Ok (returned (parse_spec (contents ar b)) out, b') /\
    wf ar b' /\ same_object b b' /\
    contents ar b' = drop (Z.to_nat (consumed (parse_spec (contents ar b)))) (contents ar b).
Proof.
  intros Hwf. destruct (ParseMessage_ok ar b out Hwf) as (b' & ? & ? & ? & ? & ?).
  exists b'. split_and!; auto.
Qed.

Definition garbage_buffer : Buffer :=
  mkBuffer (replicate 13 Byte.x00) nullptr 13 false 13 0.

Lemma garbage_wf : wf [] garbage_buffer.
Proof. constructor; vm_compute; intuition discriminate. Qed.

Lemma parse_message_refines_spec_witness :
  exists b', ParseMessage [] garbage_buffer sample_header
             = Ok (returned (parse_spec (contents [] garbage_buffer)) sample_header, b') /\
    wf [] b' /\ same_object garbage_buffer b' /\
    contents [] b' = drop (Z.to_nat (consumed (parse_spec (contents [] garbage_buffer))))
                       (contents [] garbage_buffer).
Proof. apply (parse_message_refines_spec x86 [] garbage_buffer sample_header garbage_wf). Defined.

(** C16: [ParseMessage] is total and keeps every value within its C++ type: on
    any well-formed buffer, whatever bytes it holds and on every branch, it
    returns; the fields of the header fit their 16, 8, 8, 32 and 32 bits, the
    buffer's indices stay ordered and within [size_t], and a payload is as long
    as its header says and no longer than what was readable. *)
Theorem parse_message_well_typed (H : HostOrder) ar b out :
  wf ar b -> header_ok out ->
  exists r h b', ParseMessage ar b out = Ok (r, h, b') /\ wf ar b' /\ header_ok h /\
    0 <= ReadableBytes b' <= ReadableBytes b /\ ReadableBytes b < SIZE_MOD /\
    match r with
    | Some p => payload_len h = zlen p /\ HEADER_SIZE + zlen p + ReadableBytes b' = ReadableBytes b
    | None => True
    end.
Proof.
  intros Hwf Ho. destruct (ParseMessage_ok ar b out Hwf) as (b' & E & Hwf' & Hc & _ & _).
  pose proof (ReadableBytes_contents _ _ Hwf) as Hr. pose proof (ReadableBytes_contents _ _ Hwf') as Hr'.
  pose proof (parse_spec_header_ok (contents ar b)) as Hh.
  assert (Hcs : 0 <= consumed (parse_spec (contents ar b)) <= zlen (contents ar b)) by apply consumed_le.
  assert (Hz : zlen (contents ar b') = zlen (contents ar b) - consumed (parse_spec (contents ar b))).
  { rewrite Hc. unfold zlen in *. rewrite length_drop. lia. }
  assert (Hmax : zlen (contents ar b) < SIZE_MOD).
  { rewrite (zlen_contents _ _ Hwf). destruct Hwf. unfold SIZE_MOD, VECTOR_MAX in *. lia. }
  destruct (returned (parse_spec (contents ar b)) out) as [r h] eqn:Er. exists r, h, b'.
  split; [done|]. split; [done|]. rewrite Hr, Hr'.
  destruct (parse_spec (contents ar b)) as [|h1|h1|h1 p1] eqn:Ep; cbn in Er; injection Er as <- <-;
    cbn [consumed] in *; split_and!; try done; try lia.
  destruct (parse_spec_message _ _ _ Ep) as (_ & _ & Hrec & _). rewrite Hrec. done.
Qed.

Lemma parse_message_well_typed_witness :
  exists r h b', ParseMessage [] garbage_buffer sample_header = Ok (r, h, b') /\ wf [] b' /\ header_ok h /\
    0 <= ReadableBytes b' <= ReadableBytes garbage_buffer /\ ReadableBytes garbage_buffer < SIZE_MOD /\
    match r with
    | Some p => payload_len h = zlen p /\ HEADER_SIZE + zlen p + ReadableBytes b' = ReadableBytes garbage_buffer
    | None => True
    end.
Proof.
  apply (parse_message_well_typed x86 [] garbage_buffer sample_header garbage_wf).
  vm_compute. intuition discriminate.
Defined.

(** A message is only ever read off its own encoding: when [ParseMessage]
    returns a payload, the bytes it removed are the wire frame of that header
    and payload, the header's length field is the payload's length, and its
    magic is the protocol's. *)
Theorem parse_message_sound (H : HostOrder) ar b out p h b' :
  wf ar b -> ParseMessage ar b out = Ok (Some p, h, b') ->
  contents ar b = wire_frame h p ++ contents ar b' /\ header_ok h /\
  magic h = MAGIC_NUMBER /\ payload_len h = zlen p.
Proof.
  intros Hwf Hp. destruct (ParseMessage_ok ar b out Hwf) as (b1 & Hp1 & _ & Hc1 & _ & _).
  rewrite Hp in Hp1. injection Hp1 as Hr <-.
  destruct (parse_spec (contents ar b)) as [|h1|h1|h1 p1] eqn:E; try discriminate Hr.
  injection Hr as <- <-. apply parse_spec_message in E as (Hb & Hok & Hh & _).
  cbn [consumed] in Hc1. rewrite Hc1. split; [done|]. split; [done|].
  rewrite Hh. done.
Qed.

Definition framed_buffer : Buffer :=
  let f := wire_frame sample_header sample_payload ++ [Byte.xff] in
  mkBuffer f nullptr (zlen f) false (zlen f) 0.

Lemma framed_wf : wf [] framed_buffer.
Proof. constructor; vm_compute; intuition discriminate. Qed.

Lemma parse_message_sound_witness :
  contents [] framed_buffer
  = wire_frame (received_header sample_header sample_payload) sample_payload
    ++ contents [] (HasRead (HasRead framed_buffer HEADER_SIZE) 2) /\
  header_ok (received_header sample_header sample_payload) /\
  magic (received_header sample_header sample_payload) = MAGIC_NUMBER /\
  payload_len (received_header sample_header sample_payload) = zlen sample_payload.
Proof.
  apply (parse_message_sound x86 [] framed_buffer sample_header sample_payload
    (received_header sample_header sample_payload)
    (HasRead (HasRead framed_buffer HEADER_SIZE) 2) framed_wf).
  vm_compute. reflexivity.
Defined.

(** Fragmentation is safe: a strict prefix of a frame is never consumed,
    not even its header, and no message is returned, however the prefix was
    cut. *)
Theorem parse_waits_for_full_frame (H : HostOrder) ar b out h p rest :
  wf ar b -> header_ok h -> zlen p < 2 ^ 32 ->
  wire_frame h p = contents ar b ++ rest -> rest <> [] ->
  exists hdr, ParseMessage ar b out = Ok (None, hdr, b).
Proof.
  intros Hwf Hh Hp Hf Hr.
  destruct (ParseMessage_ok ar b out Hwf) as (b1 & Hp1 & _ & _ & _ & Hb).
  destruct (parse_spec_prefix h p (contents ar b) rest Hh Hp Hf Hr) as [E|E];
    rewrite E in *; rewrite (Hb eq_refl) in Hp1; eauto.
Qed.

Definition partial_buffer : Buffer :=
  let f := take 13 (wire_frame sample_header sample_payload) in
  mkBuffer f nullptr 13 false 13 0.

Lemma parse_waits_for_full_frame_witness :
  exists hdr, ParseMessage [] partial_buffer sample_header = Ok (None, hdr, partial_buffer).
Proof.
  apply (parse_waits_for_full_frame x86 [] partial_buffer sample_header sample_header
           sample_payload [Byte.x69]).
  - constructor; vm_compute; intuition discriminate.
  - vm_compute; intuition discriminate.
  - vm_compute; reflexivity.
  - vm_compute; reflexivity.
  - discriminate.
Defined.

(** [EncodeMessage] is not safe on a full registered buffer: it ignores
    that [EnsureWritable] refused, and if the copies themselves do not leave
    the arena the buffer ends up with its write index past its window, the
    message having been stored over the memory behind it. *)
Theorem encode_overruns_full_fixed_buffer (H : HostOrder) ar b h p ar' b' :
  wf ar b -> is_fixed_ b = true -> zlen p < 2 ^ 61 -> capacity_ b < 2 ^ 61 ->
  capacity_ b < zlen (contents ar b) + HEADER_SIZE + zlen p ->
  EncodeMessage ar b h p = Ok (ar', b') ->
  capacity_ b' < write_idx_ b' /\ capacity_ b' = capacity_ b.
Proof.
  intros Hwf Hfix Hp Hcap Hfull. pose proof (zlen_nonneg p). pose proof (wf_bounds _ _ Hwf).
  pose proof (zlen_contents _ _ Hwf). unfold EncodeMessage.
  rewrite u64_small by (unfold SIZE_MOD, HEADER_SIZE; lia).
  destruct (EnsureWritable_ok ar b (HEADER_SIZE + zlen p))
    as (ok & ar1 & b1 & -> & Hwf1 & Hc1 & (Hf1 & He1 & Hcp1) & _);
    [done|unfold HEADER_SIZE; lia|unfold VECTOR_MAX, HEADER_SIZE; lia|].
  specialize (Hcp1 Hfix). rewrite Hfix in Hf1. cbn [mbind outcome_bind].
  pose proof (wf_bounds _ _ Hwf1). pose proof (zlen_contents _ _ Hwf1). rewrite Hc1 in *.
  assert (Hst : forall ar0 b0 o bs ar2 b2, external_data_ b0 = ArenaPtr (window b1) -> is_fixed_ b0 = true ->
            store ar0 b0 (ptr_add (base_ptr b0) o) bs = Ok (ar2, b2) -> b2 = b0).
  { intros ar0 b0 o bs ar2 b2 E1 E2. unfold base_ptr. rewrite E2, E1. cbn.
    destruct (mem_write _ _ _); cbn; [|done..]. by intros [= _ <-]. }
  pose proof (wf_ext _ _ Hwf1 Hf1) as Hw1.
  destruct (store ar1 b1 _ _) as [[ar2 b2]| |] eqn:E2; cbn [mbind outcome_bind]; [|done..].
  apply Hst in E2 as ->; [|done..].
  assert (Hwi : write_idx_ (HasWritten b1 HEADER_SIZE) = write_idx_ b1 + HEADER_SIZE)
    by (cbn; rewrite u64_small; unfold SIZE_MOD, HEADER_SIZE; lia).
  destruct (Z.ltb_spec 0 (zlen p)) as [Hp0|Hp0].
  - destruct (store ar2 (HasWritten b1 HEADER_SIZE) _ _) as [[ar3 b3]| |] eqn:E3;
      cbn [mbind outcome_bind]; [|done..].
    apply Hst in E3 as ->; [|done..]. intros [= _ <-]. cbn [HasWritten write_idx_ capacity_] in *.
    rewrite Hwi, u64_small; unfold SIZE_MOD, HEADER_SIZE in *; lia.
  - intros [= _ <-]. rewrite Hwi. cbn [HasWritten capacity_]. lia.
Qed.

(** A registered buffer of 8 bytes, with another one behind it. *)
Lemma encode_overruns_full_fixed_buffer_witness :
  exists ar' b', EncodeMessage (replicate 32 Byte.x00) (Buffer_fixed (ArenaPtr 0) 8)
      sample_header sample_payload = Ok (ar', b') /\
    slice ar' 8 6 <> slice (replicate 32 Byte.x00) 8 6 /\
    capacity_ b' < write_idx_ b' /\ capacity_ b' = 8.
Proof.
  destruct (EncodeMessage (replicate 32 Byte.x00) (Buffer_fixed (ArenaPtr 0) 8)
              sample_header sample_payload) as [[ar' b']| |] eqn:E; [|discriminate..].
  exists ar', b'. split; [reflexivity|]. split.
  - vm_compute in E. injection E as <- _. vm_compute. discriminate.
  - apply (encode_overruns_full_fixed_buffer x86 (replicate 32 Byte.x00) (Buffer_fixed (ArenaPtr 0) 8)
             sample_header sample_payload ar' b').
    + constructor; vm_compute; intuition discriminate.
    + reflexivity.
    + vm_compute; reflexivity.
    + vm_compute; reflexivity.
    + vm_compute; reflexivity.
    + exact E.
Defined.
