(* ===== verification/IoContext.v ===== *)
(** The event loop of [src/io_context.h] and [src/io_context.cpp]: the pools of
    registered buffers and file slots, the intrusive free list of request
    objects, [Submit] and the [Run] loop with its drain phase.

    The kernel side of io_uring is not part of the repository.  Its answers
    are parameters: class [Kernel] gives the answers of the calls made while
    running as functions of the number of kernel calls made before, record
    [InitAnswers] those of the constructor, and the list of [event]s is what
    the waiting calls of [Run] return.  [ring_] records the submission queue
    entries the program filled in, in program order. *)
From S2P Require Import Prelude Buffer.

Abbreviation coro := positive.    (* std::coroutine_handle<>, non-null *)
Abbreviation cell := positive.    (* int*, non-null *)
Abbreviation loc := positive.     (* RequestData*, non-null *)

(** * Kernel interface *)

Inductive sqe_op : Type :=
| OpAccept (fd : Z)
| OpReadFixed (target : Z) (addr : ptr) (len : Z) (buf_index : Z)
| OpRecv (target : Z) (addr : ptr) (len : Z)
| OpWriteFixed (target : Z) (addr : ptr) (len : Z) (buf_index : Z)
| OpSend (target : Z) (addr : ptr) (len : Z)
| OpTimeout (tv_sec tv_nsec : Z)
| OpCancelAll.

Record io_uring_sqe := mkSqe {
  op : sqe_op;
  fixed_file : bool;            (* IOSQE_FIXED_FILE *)
  user_data : option loc
}.

Record io_uring_cqe := mkCqe { cqe_user_data : option loc; cqe_res : Z }.

Class Kernel := {
  k_get_sqe : nat -> bool;                        (* io_uring_get_sqe is non-null *)
  k_files_update : nat -> Z -> Z -> Z             (* io_uring_register_files_update idx fd *)
}.

Definition EINTR : Z := 4.
Definition ETIME : Z := 62.
Definition ECANCELED : Z := 125.

(** What [io_uring_submit_and_wait_timeout] and the CQ ring deliver, and
    [Stop()] called asynchronously (a signal handler, another thread). *)
Inductive event : Type :=
| Signal
| WaitErr (errno : Z)
| WaitBatch (cqes : list io_uring_cqe).

(** * State *)

Record RequestData := mkReq {
  handle : option coro;
  result : option cell;
  next_free : option loc
}.

Record IoContext := mkCtx {
  ring_ : list io_uring_sqe;
  ktime : nat;                       (* kernel calls made so far *)
  running_ : bool;
  buf_size_ : Z;
  iovecs_ : list (ptr * Z);
  buf_memory_ : list ptr;
  free_buf_indices_ : list Z;
  heap : gmap loc RequestData;       (* the RequestData objects alive *)
  req_pool_head_ : option loc;
  in_flight_ : Z;
  files_enabled_ : bool;
  max_fixed_files_ : Z;
  free_file_indices_ : list Z
}.

(** Functional updates. *)
Definition set_ring c x := mkCtx x (ktime c) (running_ c) (buf_size_ c) (iovecs_ c)
  (buf_memory_ c) (free_buf_indices_ c) (heap c) (req_pool_head_ c) (in_flight_ c)
  (files_enabled_ c) (max_fixed_files_ c) (free_file_indices_ c).
Definition tick c := mkCtx (ring_ c) (S (ktime c)) (running_ c) (buf_size_ c) (iovecs_ c)
  (buf_memory_ c) (free_buf_indices_ c) (heap c) (req_pool_head_ c) (in_flight_ c)
  (files_enabled_ c) (max_fixed_files_ c) (free_file_indices_ c).
Definition set_running c x := mkCtx (ring_ c) (ktime c) x (buf_size_ c) (iovecs_ c)
  (buf_memory_ c) (free_buf_indices_ c) (heap c) (req_pool_head_ c) (in_flight_ c)
  (files_enabled_ c) (max_fixed_files_ c) (free_file_indices_ c).
Definition set_free_bufs c x := mkCtx (ring_ c) (ktime c) (running_ c) (buf_size_ c) (iovecs_ c)
  (buf_memory_ c) x (heap c) (req_pool_head_ c) (in_flight_ c)
  (files_enabled_ c) (max_fixed_files_ c) (free_file_indices_ c).
Definition set_pool c h p := mkCtx (ring_ c) (ktime c) (running_ c) (buf_size_ c) (iovecs_ c)
  (buf_memory_ c) (free_buf_indices_ c) h p (in_flight_ c)
  (files_enabled_ c) (max_fixed_files_ c) (free_file_indices_ c).
Definition set_in_flight c x := mkCtx (ring_ c) (ktime c) (running_ c) (buf_size_ c) (iovecs_ c)
  (buf_memory_ c) (free_buf_indices_ c) (heap c) (req_pool_head_ c) x
  (files_enabled_ c) (max_fixed_files_ c) (free_file_indices_ c).
Definition set_free_files c x := mkCtx (ring_ c) (ktime c) (running_ c) (buf_size_ c) (iovecs_ c)
  (buf_memory_ c) (free_buf_indices_ c) (heap c) (req_pool_head_ c) (in_flight_ c)
  (files_enabled_ c) (max_fixed_files_ c) x.

(** * Constructor and destructor *)

Record InitAnswers := {
  a_queue_init : Z;             (* io_uring_queue_init *)
  a_memalign : option Z;        (* posix_memalign: address of the block in the arena *)
  a_register_buffers : Z;       (* io_uring_register_buffers *)
  a_register_files : Z          (* io_uring_register_files *)
}.

Definition ctx_empty : IoContext :=
  mkCtx [] 0 false 0 [] [] [] ∅ None 0 false 0 [].

(** The registered-buffer part of the constructor. *)
Definition init_buffers (ans : InitAnswers) (buf_count buf_size : Z) (c : IoContext) : IoContext :=
  match a_memalign ans with
  | None =>
      mkCtx (ring_ c) (ktime c) (running_ c) (buf_size_ c)
        (replicate (Z.to_nat buf_count) (nullptr, 0)) [] []
        (heap c) (req_pool_head_ c) (in_flight_ c) (files_enabled_ c) (max_fixed_files_ c)
        (free_file_indices_ c)
  | Some pool =>
      if a_register_buffers ans <? 0 then c
      else
        mkCtx (ring_ c) (ktime c) (running_ c) buf_size
          ((fun i => (ArenaPtr (pool + i * buf_size), buf_size)) <$> seqZ 0 buf_count)
          [ArenaPtr pool] (seqZ 0 buf_count)
          (heap c) (req_pool_head_ c) (in_flight_ c) (files_enabled_ c) (max_fixed_files_ c)
          (free_file_indices_ c)
  end.

(** The fixed-file part. *)
Definition init_files (ans : InitAnswers) (c : IoContext) : IoContext :=
  let max := 1024 in
  let ok := a_register_files ans =? 0 in
  mkCtx (ring_ c) (ktime c) (running_ c) (buf_size_ c) (iovecs_ c) (buf_memory_ c)
    (free_buf_indices_ c) (heap c) (req_pool_head_ c) (in_flight_ c)
    ok max (if ok then seqZ 0 max else []).

Definition IoContext_new (ans : InitAnswers) (enable_registered_bufs : bool)
    (buf_count buf_size : Z) : outcome IoContext :=
  if a_queue_init ans <? 0 then Throw "io_uring init failed"
  else
    let c := ctx_empty in
    let c := if enable_registered_bufs then init_buffers ans buf_count buf_size c else c in
    Ok (init_files ans c).

Definition Stop (c : IoContext) : IoContext := set_running c false.

(** The loop of the destructor that deletes the pooled requests: the objects
    left on the heap. *)
Fixpoint delete_pool (fuel : nat) (h : gmap loc RequestData) (p : option loc)
  : outcome (gmap loc RequestData) :=
  match p with
  | None => Ok h
  | Some l =>
      match fuel with
      | O => UB "out of fuel"
      | S fuel =>
          rd ← or_ub "dangling request" (h !! l);
          delete_pool fuel (base.delete l h) (next_free rd)
      end
  end.

(** The destructor: the state afterwards, and whether it unregisters the
    buffers and the files. *)
Definition IoContext_delete (c : IoContext) : outcome (IoContext * bool * bool) :=
  let c := Stop c in
  let unregister_buffers := negb (bool_decide (iovecs_ c = [])) in
  h ← delete_pool (size (heap c)) (heap c) (req_pool_head_ c);
  Ok (set_pool c h None, unregister_buffers, files_enabled_ c).

(** * Buffer pool and file table *)

Definition AllocateBuffer (c : IoContext) (out_ptr : ptr) : outcome (Z * ptr * IoContext) :=
  match last (free_buf_indices_ c) with
  | None => Ok (-1, out_ptr, c)
  | Some idx =>
      let c := set_free_bufs c (removelast (free_buf_indices_ c)) in
      iov ← or_ub "iovecs_ index" (iovecs_ c !! Z.to_nat idx);
      Ok (idx, fst iov, c)
  end.

Definition FreeBuffer (c : IoContext) (idx : Z) : IoContext :=
  set_free_bufs c (free_buf_indices_ c ++ [idx]).

Definition RegisterFile {K : Kernel} (c : IoContext) (fd : Z) : Z * IoContext :=
  if negb (files_enabled_ c) then (-1, c)
  else
    match last (free_file_indices_ c) with
    | None => (-1, c)
    | Some idx =>
        let c := set_free_files c (removelast (free_file_indices_ c)) in
        if k_files_update (ktime c) idx fd <? 0
        then (-1, set_free_files (tick c) (free_file_indices_ c ++ [idx]))
        else (idx, tick c)
    end.

Definition UnregisterFile (c : IoContext) (idx : Z) : IoContext :=
  let c := tick c in set_free_files c (free_file_indices_ c ++ [idx]).

(** * Request objects *)

Definition AllocRequestData (c : IoContext) (h : coro) (r : cell) : outcome (loc * IoContext) :=
  match req_pool_head_ c with
  | Some req =>
      rd ← or_ub "dangling pool head" (heap c !! req);
      Ok (req, set_pool c (<[req := mkReq (Some h) (Some r) None]> (heap c)) (next_free rd))
  | None =>
      let req := fresh (dom (heap c)) in
      Ok (req, set_pool c (<[req := mkReq (Some h) (Some r) None]> (heap c)) None)
  end.

Definition FreeRequestData (c : IoContext) (req : loc) : outcome IoContext :=
  _ ← or_ub "dangling request" (heap c !! req);
  Ok (set_pool c (<[req := mkReq None None (req_pool_head_ c)]> (heap c)) (Some req)).

Definition Submit (c : IoContext) (o : sqe_op) (fixed : bool) (h : coro) (r : cell)
  : outcome IoContext :=
  '(req, c) ← AllocRequestData c h r;
  let c := set_ring c (ring_ c ++ [mkSqe o fixed (Some req)]) in
  Ok (set_in_flight c (in_flight_ c + 1)).

(** [io_uring_get_sqe]: null when the submission queue is full. *)
Definition io_uring_get_sqe {K : Kernel} (c : IoContext) : bool * IoContext :=
  (k_get_sqe (ktime c), tick c).

(** * The event loop

    The coroutines are the client's: [resume] runs one until it suspends or
    finishes, [set_cell] stores into the [int] of an awaitable. *)

Class Program (W : Type) := {
  set_cell : cell -> Z -> W -> W;
  resume : coro -> IoContext -> W -> outcome (IoContext * W)
}.

Section Loop.
Context {K : Kernel} {W : Type} {P : Program W}.

(** One iteration of the [io_uring_for_each_cqe] loop. *)
Definition handle_cqe (c : IoContext) (w : W) (q : io_uring_cqe) : outcome (IoContext * W) :=
  match cqe_user_data q with
  | None => Ok (c, w)
  | Some req =>
      rd ← or_ub "dangling request" (heap c !! req);
      r ← or_ub "null result" (result rd);
      let w := set_cell r (cqe_res q) w in
      h ← or_ub "null handle" (handle rd);
      c ← FreeRequestData c req;
      let c := set_in_flight c (in_flight_ c - 1) in
      resume h c w
  end.

Fixpoint handle_batch (c : IoContext) (w : W) (qs : list io_uring_cqe)
  : outcome (IoContext * W) :=
  match qs with
  | [] => Ok (c, w)
  | q :: qs => '(c, w) ← handle_cqe c w q; handle_batch c w qs
  end.

(** [Returned]: the loop was left, with the events not yet consumed;
    [Blocked]: the script ended while the code waits for the kernel. *)
Inductive status : Type :=
| Returned (rest : list event)
| Blocked.

Fixpoint run_loop (evs : list event) (c : IoContext) (w : W) : outcome (status * IoContext * W) :=
  if negb (running_ c) then Ok (Returned evs, c, w)
  else
    match evs with
    | [] => Ok (Blocked, c, w)
    | Signal :: evs => run_loop evs (Stop c) w
    | WaitErr e :: evs =>
        if (e =? EINTR) || (e =? ETIME) then run_loop evs c w else Ok (Returned evs, c, w)
    | WaitBatch qs :: evs => '(c, w) ← handle_batch c w qs; run_loop evs c w
    end.

Fixpoint drain_loop (evs : list event) (c : IoContext) (w : W) : outcome (status * IoContext * W) :=
  if in_flight_ c <=? 0 then Ok (Returned evs, c, w)
  else
    match evs with
    | [] => Ok (Blocked, c, w)
    | Signal :: evs => drain_loop evs (Stop c) w
    | WaitErr _ :: evs => Ok (Returned evs, c, w)
    | WaitBatch qs :: evs => '(c, w) ← handle_batch c w qs; drain_loop evs c w
    end.

(** The cancel request of the drain phase; it carries no user data and is not
    counted. *)
Definition post_cancel (c : IoContext) : IoContext :=
  let '(ok, c) := io_uring_get_sqe c in
  if ok then set_ring c (ring_ c ++ [mkSqe OpCancelAll false None]) else c.

Definition drain (evs : list event) (c : IoContext) (w : W) : outcome (status * IoContext * W) :=
  if 0 <? in_flight_ c then drain_loop evs (post_cancel c) w else Ok (Returned evs, c, w).

Definition Run (evs : list event) (c : IoContext) (w : W) : outcome (status * IoContext * W) :=
  '(st, c, w) ← run_loop evs (set_running c true) w;
  match st with
  | Blocked => Ok (Blocked, c, w)
  | Returned evs => drain evs c w
  end.

End Loop.

(** What no coroutine and no result changes is the same after [Run]. *)
Section Unchanged.
Context {K : Kernel} {W A : Type} {P : Program W} (f : W -> A).
Context (Hcell : forall r z w, f (set_cell r z w) = f w).
Context (Hresume : forall h c w c' w', resume h c w = Ok (c', w') -> f w' = f w).

Lemma handle_batch_unchanged qs : forall c w c' w', handle_batch c w qs = Ok (c', w') -> f w' = f w.
Proof.
  induction qs as [|q qs IH]; intros c w c' w'; cbn; [by intros [= <- <-]|].
  intros E. destruct (handle_cqe c w q) as [[c1 w1]| |] eqn:E1; [|done..]. cbn in E.
  rewrite (IH _ _ _ _ E). clear E. unfold handle_cqe in E1.
  destruct (cqe_user_data q) as [req|]; [|by injection E1 as <- <-].
  destruct (or_ub _ (heap c !! req)) as [rd| |]; [|done..]. cbn in E1.
  destruct (or_ub _ (result rd)) as [r| |]; [|done..]. cbn in E1.
  destruct (or_ub _ (handle rd)) as [h| |]; [|done..]. cbn in E1.
  destruct (FreeRequestData c req) as [c2| |]; [|done..]. cbn in E1.
  by rewrite (Hresume _ _ _ _ _ E1), Hcell.
Qed.

Lemma run_loop_unchanged evs : forall c w st c' w', run_loop evs c w = Ok (st, c', w') -> f w' = f w.
Proof.
  induction evs as [|[|e|qs] evs IH]; intros c w st c' w'; cbn; destruct (negb (running_ c));
    try (by intros [= <- <- <-]); [apply IH|destruct (_ || _); [apply IH|by intros [= <- <- <-]]|].
  destruct (handle_batch c w qs) as [[c1 w1]| |] eqn:E1; cbn; [|done..]. intros E.
  by rewrite (IH _ _ _ _ _ E), (handle_batch_unchanged _ _ _ _ _ E1).
Qed.

Lemma drain_loop_unchanged evs : forall c w st c' w', drain_loop evs c w = Ok (st, c', w') -> f w' = f w.
Proof.
  induction evs as [|[|e|qs] evs IH]; intros c w st c' w'; cbn; destruct (in_flight_ c <=? 0);
    try (by intros [= <- <- <-]); [apply IH|].
  destruct (handle_batch c w qs) as [[c1 w1]| |] eqn:E1; cbn; [|done..]. intros E.
  by rewrite (IH _ _ _ _ _ E), (handle_batch_unchanged _ _ _ _ _ E1).
Qed.

Lemma Run_unchanged evs c w st c' w' : Run evs c w = Ok (st, c', w') -> f w' = f w.
Proof.
  unfold Run. destruct (run_loop evs _ w) as [[[st1 c1] w1]| |] eqn:E1; cbn; [|done..].
  apply run_loop_unchanged in E1. rewrite <- E1. destruct st1; [|by intros [= <- <- <-]].
  unfold drain. destruct (0 <? _); [apply drain_loop_unchanged|by intros [= <- <- <-]].
Qed.

End Unchanged.

(** * Invariant of the request pool *)

(** The free list starting at [p] is [fl]. *)
Fixpoint chain (h : gmap loc RequestData) (p : option loc) (fl : list loc) : Prop :=
  match fl with
  | [] => p = None
  | l :: fl => p = Some l /\ exists rd, h !! l = Some rd /\ chain h (next_free rd) fl
  end.

(** [O] are the requests owned by the kernel, [fl] the pooled ones: together
    all request objects, disjoint, the list acyclic, the counter exact, and
    every request in flight carries its coroutine and its result cell. *)
Record pool_ok (O : gset loc) (fl : list loc) (c : IoContext) : Prop := {
  pool_chain : chain (heap c) (req_pool_head_ c) fl;
  pool_nodup : NoDup fl;
  pool_disj : forall l, l ∈ O -> l ∉ fl;
  pool_dom : dom (heap c) = O ∪ list_to_set fl;
  pool_count : in_flight_ c = Z.of_nat (size O);
  pool_live : forall l, l ∈ O ->
    exists h r, heap c !! l = Some (mkReq (Some h) (Some r) None)
}.

(** The free list and the requests in flight, computed. *)
Fixpoint walk (fuel : nat) (h : gmap loc RequestData) (p : option loc) : list loc :=
  match p, fuel with
  | Some l, S fuel =>
      l :: match h !! l with Some rd => walk fuel h (next_free rd) | None => [] end
  | _, _ => []
  end.

Definition free_list (c : IoContext) : list loc :=
  walk (size (heap c)) (heap c) (req_pool_head_ c).

Definition outstanding (c : IoContext) : gset loc :=
  dom (heap c) ∖ list_to_set (free_list c).

(** [c'] differs from [c] at most in the ring, the kernel clock and the
    running flag. *)
Definition same_resources (c c' : IoContext) : Prop :=
  heap c' = heap c /\ req_pool_head_ c' = req_pool_head_ c /\ in_flight_ c' = in_flight_ c /\
  free_buf_indices_ c' = free_buf_indices_ c /\ iovecs_ c' = iovecs_ c /\
  buf_size_ c' = buf_size_ c /\ free_file_indices_ c' = free_file_indices_ c /\
  files_enabled_ c' = files_enabled_ c /\ max_fixed_files_ c' = max_fixed_files_ c.

(** ** Lemmas on the free list *)

Lemma chain_insert h p fl l rd :
  l ∉ fl -> chain h p fl -> chain (<[l := rd]> h) p fl.
Proof.
  revert p. induction fl as [|x fl IH]; intros p Hl; cbn; [done|].
  apply not_elem_of_cons in Hl as [Hne Hl]. intros (-> & rd' & Hx & Hc).
  split; [done|]. exists rd'. rewrite lookup_insert_ne by done. auto.
Qed.

Lemma chain_delete h p fl l :
  l ∉ fl -> chain h p fl -> chain (base.delete l h) p fl.
Proof.
  revert p. induction fl as [|x fl IH]; intros p Hl; cbn; [done|].
  apply not_elem_of_cons in Hl as [Hne Hl]. intros (-> & rd' & Hx & Hc).
  split; [done|]. exists rd'. rewrite lookup_delete_ne by done. auto.
Qed.

Lemma walk_chain fuel h p fl :
  (length fl <= fuel)%nat -> chain h p fl -> walk fuel h p = fl.
Proof.
  revert fuel p. induction fl as [|x fl IH]; intros fuel p Hf; cbn.
  - intros ->. by destruct fuel.
  - intros (-> & rd & Hx & Hc). destruct fuel as [|fuel]; cbn in *; [lia|].
    rewrite Hx. f_equal. apply IH; [lia|done].
Qed.

Lemma pool_heap_size O fl c :
  pool_ok O fl c -> size (heap c) = (size O + length fl)%nat.
Proof.
  intros Hp. rewrite <- (size_dom (D:=gset loc)), (pool_dom _ _ _ Hp), size_union.
  - by rewrite size_list_to_set by apply Hp.
  - intros l HO Hfl. apply elem_of_list_to_set in Hfl. by eapply pool_disj.
Qed.

Lemma pool_free_list O fl c : pool_ok O fl c -> free_list c = fl.
Proof.
  intros Hp. apply walk_chain; [|apply Hp]. rewrite (pool_heap_size _ _ _ Hp). lia.
Qed.

Lemma pool_outstanding O fl c : pool_ok O fl c -> outstanding c = O.
Proof.
  intros Hp. unfold outstanding. rewrite (pool_free_list _ _ _ Hp), (pool_dom _ _ _ Hp).
  apply set_eq. intros l. rewrite elem_of_difference, elem_of_union, elem_of_list_to_set.
  pose proof (pool_disj _ _ _ Hp l). tauto.
Qed.

Lemma pool_same O fl c c' : same_resources c c' -> pool_ok O fl c -> pool_ok O fl c'.
Proof.
  intros (E1 & E2 & E3 & _) []. constructor; rewrite ?E1, ?E2, ?E3; done.
Qed.

(** ** Allocation, release, submission *)

Lemma AllocRequestData_ok O fl c h r :
  pool_ok O fl c ->
  exists req hp, AllocRequestData c h r
      = Ok (req, set_pool c (<[req := mkReq (Some h) (Some r) None]> (heap c)) hp) /\
    req ∉ O /\ chain (<[req := mkReq (Some h) (Some r) None]> (heap c)) hp (tail fl) /\
    ((fl = [] /\ req ∉ dom (heap c)) \/ exists fl', fl = req :: fl').
Proof.
  intros Hp. pose proof (pool_chain _ _ _ Hp) as Hc. pose proof (pool_nodup _ _ _ Hp) as Hn.
  unfold AllocRequestData. destruct fl as [|x fl]; cbn in Hc.
  - rewrite Hc. eexists _, _. split; [done|].
    assert (Hfr : fresh (dom (heap c)) ∉ dom (heap c)) by apply is_fresh.
    split_and!; [|done|by left]. rewrite (pool_dom _ _ _ Hp) in Hfr at 2. set_solver.
  - destruct Hc as (-> & rd & Hx & Hc). rewrite Hx. cbn. eexists _, _. split; [done|].
    apply NoDup_cons in Hn as [Hn _]. split_and!; [|by apply chain_insert|right; eauto].
    intros HO. apply (pool_disj _ _ _ Hp _ HO). by left.
Qed.

Lemma pool_ok_submit O fl c req h r hp ring :
  pool_ok O fl c -> req ∉ O ->
  chain (<[req := mkReq (Some h) (Some r) None]> (heap c)) hp (tail fl) ->
  ((fl = [] /\ req ∉ dom (heap c)) \/ exists fl', fl = req :: fl') ->
  pool_ok ({[req]} ∪ O) (tail fl)
    (set_in_flight (set_ring (set_pool c (<[req := mkReq (Some h) (Some r) None]> (heap c)) hp)
                      ring) (in_flight_ c + 1)).
Proof.
  intros Hp HO Hch Hreq. destruct Hp as [Hc Hn Hd Hdom Hcnt Hlive]. constructor; cbn.
  - done.
  - destruct fl; [constructor|]. by apply NoDup_cons in Hn as [_ ?].
  - intros l Hl Hin. apply elem_of_union in Hl as [->%elem_of_singleton|Hl].
    + destruct Hreq as [[-> ?]|[fl' ->]]; [by apply elem_of_nil in Hin|].
      by apply NoDup_cons in Hn as [? _].
    + apply (Hd _ Hl). destruct fl; [done|]. by right.
  - rewrite dom_insert_L, Hdom. destruct Hreq as [[-> ?]|[fl' ->]]; cbn; set_solver.
  - rewrite Hcnt, size_union by set_solver. rewrite size_singleton. lia.
  - intros l Hl. destruct (decide (l = req)) as [->|Hne].
    + rewrite lookup_insert_eq. eauto.
    + rewrite lookup_insert_ne by done. apply Hlive. set_solver.
Qed.

(** [Submit] makes one more request in flight, recycling a pooled object
    whenever there is one. *)
Lemma Submit_ok O fl c o fixed h r :
  pool_ok O fl c ->
  exists req c', Submit c o fixed h r = Ok c' /\ req ∉ O /\ pool_ok ({[req]} ∪ O) (tail fl) c' /\
    heap c' = <[req := mkReq (Some h) (Some r) None]> (heap c) /\
    ring_ c' = ring_ c ++ [mkSqe o fixed (Some req)] /\
    same_resources (set_in_flight (set_pool c (heap c') (req_pool_head_ c')) (in_flight_ c + 1)) c'.
Proof.
  intros Hp. destruct (AllocRequestData_ok O fl c h r Hp) as (req & hp & Ha & HO & Hch & Hreq).
  unfold Submit. rewrite Ha. cbn. eexists req, _. split; [done|]. split; [done|].
  split; [by apply pool_ok_submit|]. done.
Qed.

(** [FreeRequestData] and the decrement return a request to the pool. *)
Lemma complete_ok O fl c req :
  pool_ok O fl c -> req ∈ O ->
  exists c', FreeRequestData c req = Ok c' /\
    pool_ok (O ∖ {[req]}) (req :: fl) (set_in_flight c' (in_flight_ c' - 1)) /\
    heap c' = <[req := mkReq None None (req_pool_head_ c)]> (heap c) /\
    same_resources (set_pool c (heap c') (Some req)) c'.
Proof.
  intros Hp HO. pose proof (pool_disj _ _ _ Hp req HO) as Hfl.
  destruct (pool_live _ _ _ Hp req HO) as (h & r & Hl).
  unfold FreeRequestData. rewrite Hl. cbn. eexists. split; [done|]. split; [|done].
  destruct Hp as [Hc Hn Hd Hdom Hcnt Hlive]. constructor; cbn.
  - split; [done|]. eexists. rewrite lookup_insert_eq. split; [done|]. cbn.
    by apply chain_insert.
  - by apply NoDup_cons.
  - intros l Hl' Hin. apply elem_of_cons in Hin as [->|Hin]; [set_solver|].
    apply (Hd l); [set_solver|done].
  - rewrite dom_insert_L, Hdom. apply set_eq. intros l.
    destruct (decide (l = req)); set_solver.
  - rewrite Hcnt, size_difference by set_solver. rewrite size_singleton.
    assert (size O ≠ 0)%nat by (intros ?%size_empty_inv; set_solver). lia.
  - intros l Hl'. rewrite lookup_insert_ne by set_solver. apply Hlive. set_solver.
Qed.

(** * What the event loop promises its client, and what it asks of it

    The client keeps an invariant [prog_inv] over the requests in flight, the
    context and its own state.  When a completion for a request in flight
    arrives, the loop hands over a context in which that request is already
    back in the pool; the client's coroutine must run without undefined
    behaviour and restore the invariant.  [prog_res_ok] is what the client may
    assume about the result of a completion (the kernel's contract for the
    operation it submitted). *)
Class ProgramSpec (W : Type) {P : Program W} := {
  prog_inv : gset loc -> IoContext -> W -> Prop;
  prog_res_ok : IoContext -> W -> loc -> Z -> Prop;
  prog_inv_pool : forall O c w, prog_inv O c w -> exists fl, pool_ok O fl c;
  prog_inv_same : forall O c c' w, same_resources c c' -> prog_inv O c w -> prog_inv O c' w;
  prog_resume : forall O c w req h r res c',
    prog_inv O c w -> req ∈ O -> heap c !! req = Some (mkReq (Some h) (Some r) None) ->
    prog_res_ok c w req res -> FreeRequestData c req = Ok c' ->
    exists O2 c2 w2,
      resume h (set_in_flight c' (in_flight_ c' - 1)) (set_cell r res w) = Ok (c2, w2) /\
      prog_inv O2 c2 w2 /\ O ∖ {[req]} ⊆ O2
}.

Section LoopProofs.
Context {K : Kernel} {W : Type} {P : Program W} {S : ProgramSpec W}.

(** The kernel's contract: a completion with user data belongs to a request
    in flight, and its result is one the operation can have. *)
Definition cqe_valid (c : IoContext) (w : W) (q : io_uring_cqe) : Prop :=
  match cqe_user_data q with
  | None => True
  | Some req => req ∈ outstanding c /\ prog_res_ok c w req (cqe_res q)
  end.

Fixpoint batch_valid (c : IoContext) (w : W) (qs : list io_uring_cqe) : Prop :=
  match qs with
  | [] => True
  | q :: qs =>
      cqe_valid c w q /\
      match handle_cqe c w q with Ok (c', w') => batch_valid c' w' qs | _ => True end
  end.

Fixpoint drain_valid (evs : list event) (c : IoContext) (w : W) : Prop :=
  match evs with
  | [] => True
  | Signal :: evs => drain_valid evs (Stop c) w
  | WaitErr _ :: _ => True
  | WaitBatch qs :: evs =>
      batch_valid c w qs /\
      match handle_batch c w qs with Ok (c', w') => drain_valid evs c' w' | _ => True end
  end.

Fixpoint run_valid (evs : list event) (c : IoContext) (w : W) : Prop :=
  if negb (running_ c) then drain_valid evs (post_cancel c) w
  else
    match evs with
    | [] => True
    | Signal :: evs => run_valid evs (Stop c) w
    | WaitErr e :: evs =>
        if (e =? EINTR) || (e =? ETIME) then run_valid evs c w
        else drain_valid evs (post_cancel c) w
    | WaitBatch qs :: evs =>
        batch_valid c w qs /\
        match handle_batch c w qs with Ok (c', w') => run_valid evs c' w' | _ => True end
    end.

Definition inv (c : IoContext) (w : W) : Prop := exists O, prog_inv O c w.

Lemma inv_same c c' w : same_resources c c' -> inv c w -> inv c' w.
Proof. intros Hs [O HO]. exists O. by eapply prog_inv_same. Qed.

Lemma handle_cqe_ok c w q :
  inv c w -> cqe_valid c w q -> exists c' w', handle_cqe c w q = Ok (c', w') /\ inv c' w'.
Proof.
  intros [O Hinv] Hv. unfold handle_cqe, cqe_valid in *.
  destruct (cqe_user_data q) as [req|]; [|by exists c, w; split; [|exists O]].
  destruct (prog_inv_pool _ _ _ Hinv) as [fl Hp]. destruct Hv as [Hreq Hres].
  rewrite (pool_outstanding _ _ _ Hp) in Hreq.
  destruct (pool_live _ _ _ Hp _ Hreq) as (h & r & Hl).
  destruct (complete_ok _ _ _ _ Hp Hreq) as (c' & Hfree & _).
  destruct (prog_resume O c w req h r (cqe_res q) c') as (O2 & c2 & w2 & Hr & Hinv2 & _); try done.
  rewrite Hl. cbn. rewrite Hfree. cbn. exists c2, w2. split; [done|by exists O2].
Qed.

Lemma handle_batch_ok qs : forall c w,
  inv c w -> batch_valid c w qs -> exists c' w', handle_batch c w qs = Ok (c', w') /\ inv c' w'.
Proof.
  induction qs as [|q qs IH]; intros c w Hinv Hv; cbn in *; [eauto|].
  destruct Hv as [Hq Hv]. destruct (handle_cqe_ok _ _ _ Hinv Hq) as (c1 & w1 & E & Hinv1).
  rewrite E in *. cbn. apply IH; done.
Qed.

(** How each phase ends: with the phase's exit condition, by an error from the
    waiting call, or waiting. *)
Lemma drain_loop_ok evs : forall c w,
  inv c w -> drain_valid evs c w ->
  exists st c' w', drain_loop evs c w = Ok (st, c', w') /\ inv c' w'.
Proof.
  induction evs as [|ev evs IH]; intros c w Hinv Hv; cbn in *;
    (destruct (in_flight_ c <=? 0); [by eauto 6|]); [by eauto 6|].
  destruct ev as [|e|qs].
  - apply IH; [|done]. by apply (inv_same c).
  - eauto 6.
  - destruct Hv as [Hb Hv]. destruct (handle_batch_ok _ _ _ Hinv Hb) as (c1 & w1 & E & Hinv1).
    rewrite E in *. cbn. apply IH; done.
Qed.

Lemma same_post_cancel c : same_resources c (post_cancel c).
Proof. unfold post_cancel, io_uring_get_sqe. by destruct (k_get_sqe _). Qed.

Lemma drain_ok evs c w :
  inv c w -> drain_valid evs (post_cancel c) w ->
  exists st c' w', drain evs c w = Ok (st, c', w') /\ inv c' w'.
Proof.
  intros Hinv Hv. unfold drain. destruct (0 <? in_flight_ c); [|by eauto 6].
  apply drain_loop_ok; [|done]. eapply inv_same; [apply same_post_cancel|done].
Qed.

Lemma run_loop_ok evs : forall c w,
  inv c w -> run_valid evs c w ->
  exists st c' w', run_loop evs c w = Ok (st, c', w') /\ inv c' w' /\
    match st with Returned evs' => drain_valid evs' (post_cancel c') w' | Blocked => True end.
Proof.
  induction evs as [|ev evs IH]; intros c w Hinv Hv; cbn in *;
    (destruct (running_ c); cbn [negb] in *; [|by eauto 8]); [by eauto 8|].
  destruct ev as [|e|qs].
  - apply IH; [|done]. by apply (inv_same c).
  - destruct ((e =? EINTR) || (e =? ETIME)); [by apply IH|by eauto 8].
  - destruct Hv as [Hb Hv]. destruct (handle_batch_ok _ _ _ Hinv Hb) as (c1 & w1 & E & Hinv1).
    rewrite E in *. cbn. apply IH; done.
Qed.

Lemma Run_ok evs c w :
  inv c w -> run_valid evs (set_running c true) w ->
  exists st c' w', Run evs c w = Ok (st, c', w') /\ inv c' w'.
Proof.
  intros Hinv Hv. unfold Run.
  destruct (run_loop_ok evs (set_running c true) w) as (st & c1 & w1 & -> & Hinv1 & Hd);
    [by apply (inv_same c)|done|].
  cbn. destruct st; [|by eauto 6]. by apply drain_ok.
Qed.

Lemma inv_counts c w :
  inv c w -> in_flight_ c = Z.of_nat (size (outstanding c)) /\ NoDup (free_list c) /\
             size (heap c) = (size (outstanding c) + length (free_list c))%nat.
Proof.
  intros [O Hinv]. destruct (prog_inv_pool _ _ _ Hinv) as [fl Hp].
  rewrite (pool_outstanding _ _ _ Hp), (pool_free_list _ _ _ Hp).
  split_and!; [apply Hp..|by apply pool_heap_size].
Qed.

End LoopProofs.

(** A stop is noticed at the next check of [running_]. *)
Lemma Run_signal {K : Kernel} {W} {P : Program W} evs c (w : W) :
  Run (Signal :: evs) c w = drain evs (Stop c) w.
Proof. destruct evs; reflexivity. Qed.

Lemma drain_unfold {K : Kernel} {W} {P : Program W} ev evs c (w : W) :
  0 < in_flight_ c ->
  drain (ev :: evs) c w =
  match ev with
  | Signal => drain_loop evs (Stop (post_cancel c)) w
  | WaitErr _ => Ok (Returned evs, post_cancel c, w)
  | WaitBatch qs => '(c, w) ← handle_batch (post_cancel c) w qs; drain_loop evs c w
  end.
Proof.
  intros Hc. unfold drain. rewrite (proj2 (Z.ltb_lt _ _)) by done. cbn [drain_loop].
  assert (in_flight_ (post_cancel c) = in_flight_ c) as -> by apply same_post_cancel.
  rewrite (proj2 (Z.leb_gt _ _)) by done. done.
Qed.

Lemma drain_loop_done {W} {P : Program W} evs c (w : W) :
  in_flight_ c <= 0 -> drain_loop evs c w = Ok (Returned evs, c, w).
Proof. intros Hc. destruct evs; cbn; by rewrite (proj2 (Z.leb_le _ _)). Qed.

(** ** The destructor *)

Lemma delete_pool_ok fl : forall fuel h p O,
  (length fl <= fuel)%nat -> chain h p fl -> NoDup fl ->
  (forall l, l ∈ O -> l ∉ fl) -> dom h = O ∪ list_to_set fl ->
  exists h', delete_pool fuel h p = Ok h' /\ dom h' = O.
Proof.
  induction fl as [|x fl IH]; intros fuel h p O Hf Hc Hn Hd Hdom; cbn in Hc.
  - subst p. exists h. split; [by destruct fuel|]. set_solver.
  - destruct Hc as (-> & rd & Hx & Hc). apply NoDup_cons in Hn as [Hx' Hn].
    destruct fuel as [|fuel]; cbn in *; [lia|]. rewrite Hx. cbn.
    apply (IH _ _ _ O); [lia|by apply chain_delete|done|set_solver|].
    rewrite dom_delete_L, Hdom. apply set_eq. intros l.
    destruct (decide (l = x)) as [->|]; set_solver.
Qed.

(** ** Draining

    A client is quiescing when a cancelled operation makes its coroutine
    finish without submitting anything new. *)
Class Quiescing (W : Type) {P : Program W} {S : ProgramSpec W} := {
  quiet : W -> Prop;
  quiet_resume : forall O c w req h r c',
    prog_inv O c w -> quiet w -> req ∈ O ->
    heap c !! req = Some (mkReq (Some h) (Some r) None) ->
    FreeRequestData c req = Ok c' ->
    exists c2 w2,
      resume h (set_in_flight c' (in_flight_ c' - 1)) (set_cell r (- ECANCELED) w) = Ok (c2, w2) /\
      prog_inv (O ∖ {[req]}) c2 w2 /\ quiet w2
}.

(** The completions of a cancel: one [-ECANCELED] per request in flight. *)
Definition cancelled (reqs : list loc) : list io_uring_cqe :=
  (fun l => mkCqe (Some l) (- ECANCELED)) <$> reqs.

Lemma handle_cancelled {W} {P : Program W} {S : ProgramSpec W} {Q : Quiescing W} reqs :
  forall O c w,
  prog_inv O c w -> quiet w -> NoDup reqs -> list_to_set reqs = O ->
  exists c' w', handle_batch c w (cancelled reqs) = Ok (c', w') /\ prog_inv ∅ c' w' /\ quiet w'.
Proof.
  induction reqs as [|l reqs IH]; intros O c w Hinv Hq Hn HO; cbn in *.
  { subst O. eauto. }
  apply NoDup_cons in Hn as [Hl Hn].
  destruct (prog_inv_pool _ _ _ Hinv) as [fl Hp].
  assert (HlO : l ∈ O) by (subst O; set_solver).
  destruct (pool_live _ _ _ Hp _ HlO) as (h & r & Hh).
  destruct (complete_ok _ _ _ _ Hp HlO) as (c1 & Hfree & _).
  destruct (quiet_resume O c w l h r c1) as (c2 & w2 & Hr & Hinv2 & Hq2); try done.
  unfold handle_cqe. cbn. rewrite Hh. cbn. rewrite Hfree. cbn. rewrite Hr. cbn.
  apply (IH _ _ _ Hinv2 Hq2 Hn). subst O. set_solver.
Qed.

(** A loop that is still waiting goes on with what comes next. *)
Lemma run_loop_app {W} {P : Program W} evs evs' : forall c (w : W) c1 w1,
  run_loop evs c w = Ok (Blocked, c1, w1) ->
  running_ c1 = true /\ run_loop (evs ++ evs') c w = run_loop evs' c1 w1.
Proof.
  induction evs as [|ev evs IH]; intros c w c1 w1; cbn [run_loop app];
    (destruct (running_ c) eqn:Er; cbn [negb]; [|done]).
  { by intros [= <- <-]. }
  destruct ev as [|e|qs]; [apply IH|..].
  - destruct ((e =? EINTR) || (e =? ETIME)); [apply IH|done].
  - destruct (handle_batch c w qs) as [[c2 w2]| |]; cbn; [apply IH|done..].
Qed.

(** A stop, then a cancelled completion for everything in flight: the loop
    returns with nothing in flight. *)
Lemma run_shutdown {K : Kernel} {W} {P : Program W} {S : ProgramSpec W} {Q : Quiescing W}
    evs evs' reqs c (w : W) c1 w1 :
  inv c w -> run_valid evs (set_running c true) w ->
  run_loop evs (set_running c true) w = Ok (Blocked, c1, w1) -> quiet w1 ->
  reqs ≡ₚ elements (outstanding c1) ->
  exists rest c2 w2,
    Run (evs ++ Signal :: WaitBatch (cancelled reqs) :: evs') c w = Ok (Returned rest, c2, w2) /\
    prog_inv ∅ c2 w2.
Proof.
  intros Hinv Hv HR Hq Hreqs. unfold Run.
  destruct (run_loop_app evs (Signal :: WaitBatch (cancelled reqs) :: evs') _ _ _ _ HR) as [Hrun ->].
  destruct (run_loop_ok evs (set_running c true) w) as (st & c1' & w1' & E & [O HO] & _);
    [by apply (inv_same c)|done|]. rewrite HR in E. injection E as <- <- <-.
  cbn [run_loop]. rewrite Hrun. cbn [negb Stop set_running running_ mbind outcome_bind].
  destruct (prog_inv_pool _ _ _ HO) as [fl Hp].
  assert (HS : forall c', same_resources c1 c' -> prog_inv O c' w1) by (intros; by eapply prog_inv_same).
  destruct (Z_le_gt_dec (in_flight_ c1) 0) as [Hz|Hz].
  - unfold drain. cbn [in_flight_ set_running]. rewrite (proj2 (Z.ltb_ge _ _)) by done.
    assert (O = ∅) as ->.
    { apply leibniz_equiv, size_empty_inv. pose proof (pool_count _ _ _ Hp). lia. }
    eexists _, _, _. split; [done|]. by apply HS.
  - change (set_running c1 false) with (Stop c1). rewrite drain_unfold by (cbn; lia).
    destruct (handle_cancelled reqs O (post_cancel (Stop c1)) w1) as (c2 & w2 & -> & Hinv2 & _); try done.
    { apply HS. apply (same_post_cancel (Stop c1)). }
    { rewrite Hreqs. apply NoDup_elements. }
    { rewrite Hreqs, list_to_set_elements_L. by eapply pool_outstanding. }
    destruct (prog_inv_pool _ _ _ Hinv2) as [fl2 Hp2]. cbn [mbind outcome_bind].
    eexists _, _, _. split; [|done]. apply drain_loop_done. rewrite (pool_count _ _ _ Hp2), size_empty. lia.
Qed.

(** ** The pools of buffer and file indices *)

(** [owned] are the buffer indices handed out; with the free ones they are
    the [n] indices of the pool, once each, and index [i] names the [i]-th
    window of the block at [pool]. *)
Record bufs_ok (pool n : Z) (owned : list Z) (c : IoContext) : Prop := {
  bufs_perm : free_buf_indices_ c ++ owned ≡ₚ seqZ 0 n;
  bufs_iov : forall i, 0 <= i < n ->
    iovecs_ c !! Z.to_nat i = Some (ArenaPtr (pool + i * buf_size_ c), buf_size_ c)
}.

Definition files_ok (owned : list Z) (c : IoContext) : Prop :=
  free_file_indices_ c ++ owned ≡ₚ
  (if files_enabled_ c then seqZ 0 (max_fixed_files_ c) else []).

Lemma app_last_perm {A} (l k : list A) x :
  last l = Some x -> removelast l ++ x :: k ≡ₚ l ++ k.
Proof.
  intros Hl. rewrite (last_snoc_inv _ _ Hl) at 2. rewrite <- app_assoc. done.
Qed.

(** [AllocateBuffer] either hands out a fresh index with the address of its
    window, or reports exhaustion and changes nothing. *)
Lemma AllocateBuffer_ok pool n owned c out :
  bufs_ok pool n owned c ->
  (free_buf_indices_ c = [] /\ AllocateBuffer c out = Ok (-1, out, c)) \/
  exists idx c', AllocateBuffer c out
      = Ok (idx, ArenaPtr (pool + idx * buf_size_ c), c') /\
    0 <= idx < n /\ idx ∉ owned /\ bufs_ok pool n (idx :: owned) c' /\
    c' = set_free_bufs c (removelast (free_buf_indices_ c)).
Proof.
  intros [Hperm Hiov]. unfold AllocateBuffer.
  destruct (last (free_buf_indices_ c)) as [idx|] eqn:El;
    [right|left; by apply last_None in El].
  assert (Hin : idx ∈ free_buf_indices_ c) by (by apply last_Some_elem_of).
  assert (Hidx : idx ∈ seqZ 0 n) by (rewrite <- Hperm; apply elem_of_app; by left).
  apply elem_of_seqZ in Hidx. cbn. rewrite Hiov by lia. cbn.
  assert (Hnd : NoDup (free_buf_indices_ c ++ owned)) by (rewrite Hperm; apply NoDup_seqZ).
  exists idx. eexists. split; [done|]. split; [lia|]. split; [|split; [|done]].
  - apply NoDup_app in Hnd as (_ & Hd & _). auto.
  - constructor; cbn; [by rewrite app_last_perm|done].
Qed.

Lemma FreeBuffer_ok pool n owned1 idx owned2 c :
  bufs_ok pool n (owned1 ++ idx :: owned2) c ->
  bufs_ok pool n (owned1 ++ owned2) (FreeBuffer c idx).
Proof.
  intros [Hperm Hiov]. constructor; cbn; [|done].
  rewrite <- Hperm. rewrite <- app_assoc. cbn. apply Permutation_app_head.
  apply Permutation_middle.
Qed.

Lemma RegisterFile_ok {K : Kernel} owned c fd :
  files_ok owned c ->
  (exists c', RegisterFile c fd = (-1, c') /\ files_ok owned c' /\
              free_file_indices_ c' = free_file_indices_ c) \/
  exists idx c', RegisterFile c fd = (idx, c') /\ 0 <= idx /\ idx ∉ owned /\
    files_ok (idx :: owned) c' /\ free_file_indices_ c' = removelast (free_file_indices_ c).
Proof.
  intros Hf. pose proof Hf as Hf0. unfold files_ok in Hf. unfold RegisterFile.
  destruct (files_enabled_ c) eqn:Een; cbn [negb]; [|left; by eauto].
  destruct (last (free_file_indices_ c)) as [idx|] eqn:El; [|left; by eauto].
  pose proof (last_snoc_inv _ _ El) as Hsn.
  assert (Hidx : idx ∈ seqZ 0 (max_fixed_files_ c)).
  { rewrite <- Hf. apply elem_of_app. left. by apply last_Some_elem_of. }
  apply elem_of_seqZ in Hidx.
  assert (Hnd : NoDup (free_file_indices_ c ++ owned)) by (rewrite Hf; apply NoDup_seqZ).
  destruct (k_files_update _ _ _ <? 0).
  - left. eexists. split; [done|]. unfold files_ok. cbn. by rewrite <- Hsn, Een.
  - right. eexists _, _. split; [done|]. split; [lia|]. unfold files_ok. cbn. rewrite Een.
    split_and!; [|by rewrite app_last_perm|done].
    apply NoDup_app in Hnd as (_ & Hd & _). apply Hd. by apply last_Some_elem_of.
Qed.

Lemma UnregisterFile_ok owned1 idx owned2 c :
  files_ok (owned1 ++ idx :: owned2) c -> files_ok (owned1 ++ owned2) (UnregisterFile c idx).
Proof.
  unfold files_ok. cbn. intros <-. rewrite <- app_assoc. cbn.
  apply Permutation_app_head. apply Permutation_middle.
Qed.

(** ** The constructor *)

Lemma IoContext_new_ok ans enable n bs :
  0 <= n -> 0 <= bs ->
  match IoContext_new ans enable n bs with
  | Ok c =>
      0 <= a_queue_init ans /\ pool_ok ∅ [] c /\ files_ok [] c /\ running_ c = false /\
      ((exists pool, a_memalign ans = Some pool /\ bufs_ok pool n [] c) /\ buf_size_ c = bs \/
       (forall pool, bufs_ok pool 0 [] c) /\ buf_size_ c = 0)
  | Throw _ => a_queue_init ans < 0
  | UB _ => False
  end.
Proof.
  intros Hn Hbs. unfold IoContext_new.
  destruct (Z.ltb_spec (a_queue_init ans) 0) as [|Hq]; [done|]. split; [done|].
  assert (Hheap : forall c, heap c = ∅ -> req_pool_head_ c = None -> in_flight_ c = 0 -> pool_ok ∅ [] c).
  { intros c E1 E2 E3. constructor; rewrite ?E1, ?E2, ?E3; [done|constructor|set_solver..]. }
  split; [apply Hheap; destruct enable; try done; unfold init_buffers;
          destruct (a_memalign ans); try done; by destruct (_ <? 0)|].
  split; [unfold files_ok; cbn; destruct (a_register_files ans =? 0); by rewrite app_nil_r|].
  split; [destruct enable; try done; unfold init_buffers;
          destruct (a_memalign ans); try done; by destruct (_ <? 0)|].
  assert (Hnone : forall c, free_buf_indices_ c = [] -> forall pool, bufs_ok pool 0 [] c).
  { intros c E pool. constructor; [by rewrite E|lia]. }
  unfold init_buffers.
  destruct enable; [|by right; split; [apply Hnone|]].
  destruct (a_memalign ans) as [pool|] eqn:Em; [|by right; split; [apply Hnone|]].
  destruct (a_register_buffers ans <? 0); [by right; split; [apply Hnone|]|].
  left. split; [|done]. exists pool. split; [done|]. constructor; cbn.
  - by rewrite app_nil_r.
  - intros i Hi. rewrite list_lookup_fmap, lookup_seqZ_lt by lia. cbn. do 3 f_equal. lia.
Qed.

(** ** A client for the examples: a coroutine that re-arms a timer a given
    number of times, storing each completion's result. *)

Record TimerWorld := mkTimer { left : nat; stored : list (cell * Z) }.

#[export] Instance timer_program : Program TimerWorld := {|
  set_cell r z w := mkTimer (left w) ((r, z) :: stored w);
  resume h c w :=
    match left w with
    | O => Ok (c, w)
    | S n => c ← Submit c (OpTimeout 0 10000000) false h 1%positive; Ok (c, mkTimer n (stored w))
    end
|}.

#[export] Instance timer_spec : ProgramSpec TimerWorld.
Proof.
  refine {|
    prog_inv O c w := exists fl, pool_ok O fl c;
    prog_res_ok _ _ _ _ := True
  |}.
  - done.
  - intros O c c' w Hs [fl Hp]. exists fl. by eapply pool_same.
  - intros O c w req h r res c' [fl Hp] Hreq _ _ Hfree.
    destruct (complete_ok _ _ _ _ Hp Hreq) as (c1 & Hfree1 & Hp1 & _).
    rewrite Hfree in Hfree1. injection Hfree1 as <-. cbn [resume timer_program].
    destruct (left (set_cell r res w)) as [|n]; [eauto 8|].
    destruct (Submit_ok _ _ _ (OpTimeout 0 10000000) false h 1%positive Hp1)
      as (req2 & c2 & -> & _ & Hp2 & _).
    cbn. eexists _, _, _. split; [done|]. split; [by eexists|set_solver].
Defined.

#[export] Instance timer_quiescing : Quiescing TimerWorld.
Proof.
  refine {| quiet w := left w = 0%nat |}.
  intros O c w req h r c' [fl Hp] Hq Hreq _ Hfree.
  destruct (complete_ok _ _ _ _ Hp Hreq) as (c1 & Hfree1 & Hp1 & _).
  rewrite Hfree in Hfree1. injection Hfree1 as <-. cbn.
  rewrite Hq. eexists _, _. split; [done|]. split; [by eexists|done].
Defined.

#[local] Instance steady_kernel : Kernel :=
  {| k_get_sqe _ := true; k_files_update _ _ _ := 0 |}.

Definition all_ok : InitAnswers :=
  {| a_queue_init := 0; a_memalign := Some 0; a_register_buffers := 0; a_register_files := 0 |}.

(** A context with one request in flight, and the context that has two. *)
Definition one_request : IoContext :=
  mkCtx [mkSqe (OpTimeout 0 10000000) false (Some 1%positive)] 0 false 0 [] [] []
    {[1%positive := mkReq (Some 7%positive) (Some 1%positive) None]} None 1 false 0 [].

Lemma one_request_pool : pool_ok {[1%positive]} [] one_request.
Proof.
  constructor.
  - reflexivity.
  - constructor.
  - intros l _ H. by apply elem_of_nil in H.
  - vm_compute. reflexivity.
  - vm_compute. reflexivity.
  - intros l ->%elem_of_singleton. eexists _, _. vm_compute. reflexivity.
Qed.

Lemma one_request_inv w : inv one_request w.
Proof. exists {[1%positive]}. exists []. exact one_request_pool. Qed.

(** * Properties *)

(** C12: The event loop is memory safe and its accounting is exact.  For any
    client that meets the interface and any sequence of wait results in which
    the kernel only completes requests in flight, [Run] has no undefined
    behaviour and throws nothing; whenever it stops, [in_flight_] is the number
    of requests the kernel still owns, the free list is acyclic, and every
    request object is either in flight or pooled, never both. *)
Theorem run_safe_and_accounted (K : Kernel) (W : Type) (P : Program W) (S : ProgramSpec W)
    evs c w :
  inv c w -> run_valid evs (set_running c true) w ->
  exists st c' w', Run evs c w = Ok (st, c', w') /\ inv c' w' /\
    in_flight_ c' = Z.of_nat (size (outstanding c')) /\ NoDup (free_list c') /\
    size (heap c') = (size (outstanding c') + length (free_list c'))%nat.
Proof.
  intros Hinv Hv. destruct (Run_ok evs c w Hinv Hv) as (st & c' & w' & HR & Hinv').
  exists st, c', w'. split; [done|]. split; [done|]. by apply (inv_counts c' w').
Qed.

Lemma run_safe_and_accounted_witness :
  exists st c' w',
    Run [WaitErr EINTR; WaitBatch [mkCqe (Some 1%positive) (-62); mkCqe None 0]; Signal;
         WaitBatch [mkCqe (Some 1%positive) (-125)]] one_request (mkTimer 1 [])
    = Ok (st, c', w') /\ inv c' w' /\
    in_flight_ c' = Z.of_nat (size (outstanding c')) /\ NoDup (free_list c') /\
    size (heap c') = (size (outstanding c') + length (free_list c'))%nat.
Proof.
  apply (run_safe_and_accounted steady_kernel TimerWorld timer_program timer_spec).
  - apply one_request_inv.
  - vm_compute. repeat split; reflexivity.
Defined.

(** C34: Requests are recycled: [Submit] takes a new object from the heap
    only when every existing one is in flight, so the number of objects ever
    allocated is the largest number of requests in flight at once. *)
Theorem submit_reuses_pool O fl c o fixed h r :
  pool_ok O fl c ->
  exists c', Submit c o fixed h r = Ok c' /\ in_flight_ c' = in_flight_ c + 1 /\
    size (heap c') = (size (heap c) `max` (size O + 1))%nat.
Proof.
  intros Hp. destruct (Submit_ok O fl c o fixed h r Hp) as (req & c' & Hs & HO & Hp' & _).
  exists c'. split; [done|].
  rewrite (pool_heap_size _ _ _ Hp), (pool_heap_size _ _ _ Hp').
  rewrite (pool_count _ _ _ Hp), (pool_count _ _ _ Hp').
  rewrite size_union, size_singleton by set_solver.
  split; [lia|]. destruct fl; cbn; lia.
Qed.

Lemma submit_reuses_pool_witness :
  exists c', Submit one_request (OpTimeout 0 1) false 8%positive 2%positive = Ok c' /\
    in_flight_ c' = in_flight_ one_request + 1 /\
    size (heap c') = (size (heap one_request) `max` (size ({[1%positive]} : gset loc) + 1))%nat.
Proof.
  apply (submit_reuses_pool {[1%positive]} [] one_request). exact one_request_pool.
Defined.

(** The destructor deletes every pooled request object exactly once and
    touches no other: what is left on the heap are exactly the requests still
    in flight, so nothing leaks when none is. *)
Theorem destructor_frees_pool O fl c :
  pool_ok O fl c ->
  exists c' ub uf, IoContext_delete c = Ok (c', ub, uf) /\ dom (heap c') = O /\
    running_ c' = false /\ (in_flight_ c = 0 -> heap c' = ∅).
Proof.
  intros Hp. unfold IoContext_delete. cbn [Stop set_running heap req_pool_head_].
  destruct (delete_pool_ok fl (size (heap c)) (heap c) (req_pool_head_ c) O) as (h' & -> & Hd);
    [rewrite (pool_heap_size _ _ _ Hp); lia|apply Hp..|].
  cbn. eexists _, _, _. split; [done|]. cbn. split_and!; [done..|].
  rewrite (pool_count _ _ _ Hp). intros Hz.
  assert (size O = 0%nat) as HO%size_empty_inv by lia.
  apply (dom_empty_inv_L (D:=gset loc)). rewrite Hd. set_solver.
Qed.

Lemma destructor_frees_pool_witness :
  exists c' ub uf, IoContext_delete one_request = Ok (c', ub, uf) /\
    dom (heap c') = {[1%positive]} /\ running_ c' = false /\
    (in_flight_ one_request = 0 -> heap c' = ∅).
Proof. apply (destructor_frees_pool {[1%positive]} [] one_request one_request_pool). Defined.

(** The drain phase empties the ring when the kernel cancels what is in
    flight: for a client whose coroutines finish when cancelled, a stop
    followed by one batch with a cancelled completion for every request in
    flight makes [Run] return with no request in flight, and the destructor
    then leaves no request object behind. *)
Theorem drain_completes (K : Kernel) (W : Type) (P : Program W) (S : ProgramSpec W)
    (Q : Quiescing W) O c w reqs evs :
  prog_inv O c w -> quiet w -> NoDup reqs -> list_to_set reqs = O -> reqs <> [] ->
  exists c' w' c'' ub uf,
    Run (Signal :: WaitBatch (cancelled reqs) :: evs) c w = Ok (Returned evs, c', w') /\
    in_flight_ c' = 0 /\ IoContext_delete c' = Ok (c'', ub, uf) /\ heap c'' = ∅.
Proof.
  intros Hinv Hq Hn HO Hne. destruct (prog_inv_pool _ _ _ Hinv) as [fl Hp].
  assert (Hcnt : 0 < in_flight_ c).
  { rewrite (pool_count _ _ _ Hp). rewrite <- HO, size_list_to_set by done.
    destruct reqs; [done|cbn; lia]. }
  destruct (handle_cancelled reqs O (post_cancel (Stop c)) w) as (c2 & w2 & Hb & Hinv2 & _); try done.
  { eapply prog_inv_same, Hinv. apply (same_post_cancel (Stop c)). }
  destruct (prog_inv_pool _ _ _ Hinv2) as [fl2 Hp2].
  assert (Hz : in_flight_ c2 = 0) by (by rewrite (pool_count _ _ _ Hp2), size_empty).
  destruct (delete_pool_ok fl2 (size (heap c2)) (heap c2) (req_pool_head_ c2) ∅) as (h' & Hdel & Hd);
    [rewrite (pool_heap_size _ _ _ Hp2); lia|apply Hp2..|].
  exists c2, w2. eexists _, _, _.
  split.
  { rewrite Run_signal, drain_unfold by done. rewrite Hb. cbn. apply drain_loop_done. lia. }
  split; [done|]. unfold IoContext_delete. cbn. rewrite Hdel. cbn. split; [done|].
  by apply (dom_empty_inv_L (D:=gset loc)).
Qed.

Lemma drain_completes_witness :
  exists c' w' c'' ub uf,
    Run [Signal; WaitBatch (cancelled [1%positive])] one_request (mkTimer 0 [])
    = Ok (Returned [], c', w') /\
    in_flight_ c' = 0 /\ IoContext_delete c' = Ok (c'', ub, uf) /\ heap c'' = ∅.
Proof.
  apply (drain_completes steady_kernel TimerWorld timer_program timer_spec timer_quiescing
           {[1%positive]} one_request (mkTimer 0 []) [1%positive] []).
  - exists []. exact one_request_pool.
  - reflexivity.
  - apply NoDup_singleton.
  - apply set_eq. set_solver.
  - discriminate.
Defined.

(** The drain phase gives up at the first unsuccessful wait: with
    requests in flight, a stop followed by any error of the waiting call, the
    50 ms timeout included, makes [Run] return with all of them still in
    flight and none of their coroutines resumed. *)
Theorem drain_abandons_on_wait_error (K : Kernel) (W : Type) (P : Program W) c w e evs :
  0 < in_flight_ c ->
  exists c', Run (Signal :: WaitErr e :: evs) c w = Ok (Returned evs, c', w) /\
    in_flight_ c' = in_flight_ c /\ outstanding c' = outstanding c /\ heap c' = heap c.
Proof.
  intros Hc. rewrite Run_signal, drain_unfold by done. eexists. split; [done|].
  destruct (same_post_cancel (Stop c)) as (Eh & Ep & Ei & _).
  unfold outstanding, free_list. by rewrite Eh, Ep, Ei.
Qed.

Lemma drain_abandons_on_wait_error_witness :
  exists c', Run [Signal; WaitErr ETIME] one_request (mkTimer 0 []) = Ok (Returned [], c', mkTimer 0 []) /\
    in_flight_ c' = in_flight_ one_request /\ outstanding c' = outstanding one_request /\
    heap c' = heap one_request.
Proof.
  apply (drain_abandons_on_wait_error steady_kernel TimerWorld timer_program one_request
           (mkTimer 0 []) ETIME []). reflexivity.
Defined.

(** A [Stop()] that arrives while [Run] is in its loop ends it before any
    further completion is handled, but a [Stop()] that arrives before [Run] is
    entered is lost: [Run] sets the flag again and behaves as if it had never
    been called. *)
Theorem stop_only_effective_inside_run (K : Kernel) (W : Type) (P : Program W) evs c w :
  Run evs (Stop c) w = Run evs c w /\
  Run (Signal :: evs) c w = drain evs (Stop c) w /\
  (in_flight_ c = 0 -> Run (Signal :: evs) c w = Ok (Returned evs, Stop c, w)).
Proof.
  split; [reflexivity|]. split; [apply Run_signal|]. intros Hz. rewrite Run_signal.
  unfold drain. cbn. by rewrite Hz.
Qed.


