(* ===== verification/Coro.v ===== *)
(** The coroutine support of [src/coro.h]: the awaitables that wrap one
    submission each, [AsyncSleep], and the two coroutine types [Task] and
    [TaskT].

    A suspended coroutine is named by its handle; the [int result] of the
    awaitable it is suspended on is named by a cell (its address is what
    [Submit] is given).  The messages the awaitables log are not modelled. *)
From S2P Require Import Prelude Buffer IoContext.

(** * Awaitables *)

(** [IoAwaitable], [ReadAwaitable] and [WriteAwaitable] share [ctx], [sqe],
    [result] and [handle]; the submission entry was filled in by the caller. *)
Record IoAwaitable := mkIoAwaitable {
  sqe : sqe_op;
  sqe_fixed_file : bool;
  aw_result : Z;
  aw_handle : option coro
}.

Definition io_awaitable (o : sqe_op) (fixed : bool) : IoAwaitable :=
  mkIoAwaitable o fixed 0 None.

Definition await_ready (aw : IoAwaitable) : bool := false.

(** [r] is [&result]. *)
Definition await_suspend (c : IoContext) (aw : IoAwaitable) (h : coro) (r : cell)
  : outcome (IoContext * IoAwaitable) :=
  let aw := mkIoAwaitable (sqe aw) (sqe_fixed_file aw) (aw_result aw) (Some h) in
  c ← Submit c (sqe aw) (sqe_fixed_file aw) h r;
  Ok (c, aw).

(** The store of [IoContext::Run] through [&result]. *)
Definition complete (aw : IoAwaitable) (res : Z) : IoAwaitable :=
  mkIoAwaitable (sqe aw) (sqe_fixed_file aw) res (aw_handle aw).

Definition IoAwaitable_await_resume (aw : IoAwaitable) : Z := aw_result aw.

Definition ReadAwaitable_await_resume (aw : IoAwaitable) (b : Buffer) : Z * Buffer :=
  if 0 <? aw_result aw then (aw_result aw, HasWritten b (aw_result aw))
  else (aw_result aw, b).

Definition WriteAwaitable_await_resume (aw : IoAwaitable) : Z := aw_result aw.

(** [SleepAwaitable] obtains its own submission entry when it suspends and does
    not check it. *)
Record SleepAwaitable := mkSleep { tv_sec : Z; tv_nsec : Z; sleep_result : Z }.

Definition SleepAwaitable_await_suspend {K : Kernel} (c : IoContext) (aw : SleepAwaitable)
    (h : coro) (r : cell) : outcome IoContext :=
  let '(ok, c) := io_uring_get_sqe c in
  _ ← guard_ub "io_uring_prep_timeout on a null sqe" ok;
  Submit c (OpTimeout (tv_sec aw) (tv_nsec aw)) false h r.

(** C++ division truncates toward zero. *)
Definition AsyncSleep (ms : Z) : SleepAwaitable :=
  mkSleep (Z.quot ms 1000) (Z.rem ms 1000 * 1000000) 0.

(** * Task: fire and forget

    The coroutine starts at once and its frame is freed at completion; an
    exception that leaves the body is caught and logged. *)
Definition Task_body {A} (body : outcome A) (on_exception : A) : outcome A :=
  match body with
  | Ok a => Ok a
  | Throw _ => Ok on_exception
  | UB s => UB s
  end.

(** * TaskT: a coroutine that hands a value to its awaiter *)

Record TaskT (T : Type) := mkTaskT {
  value : T;
  continuation : option coro;
  is_done : bool
}.
Arguments mkTaskT {T}.
Arguments value {T}.
Arguments continuation {T}.
Arguments is_done {T}.

Section TaskT.
Context {T : Type}.

(** [T value{}], no continuation, not at its final suspend point. *)
Definition TaskT_start (dflt : T) : TaskT T := mkTaskT dflt None false.

Definition return_value (t : TaskT T) (v : T) : TaskT T :=
  mkTaskT v (continuation t) (is_done t).

(** [FinalAwaiter]: the task suspends for good and the thread of control goes
    to the continuation, or nowhere ([std::noop_coroutine]). *)
Definition final_suspend (t : TaskT T) : TaskT T * option coro :=
  (mkTaskT (value t) (continuation t) true, continuation t).

Definition TaskT_await_ready (t : TaskT T) : bool := is_done t.

Definition TaskT_await_suspend (t : TaskT T) (h : coro) : TaskT T :=
  mkTaskT (value t) (Some h) (is_done t).

Definition TaskT_await_resume (t : TaskT T) : T := value t.

(** ** The life of a task with one awaiter

    The body and the awaiter run in one of two orders; [run_task] gives what
    the awaiter observed, one entry per time it was continued. *)
Inductive task_event : Type :=
| BodyReturns (v : T)            (* co_return v; *)
| Awaits (h : coro).             (* T x = co_await task; *)

Definition task_step (t : TaskT T) (e : task_event) : TaskT T * list (coro * T) :=
  match e with
  | BodyReturns v =>
      let '(t, next) := final_suspend (return_value t v) in
      (t, match next with Some h => [(h, TaskT_await_resume t)] | None => [] end)
  | Awaits h =>
      if TaskT_await_ready t then (t, [(h, TaskT_await_resume t)])
      else (TaskT_await_suspend t h, [])
  end.

Fixpoint run_task (t : TaskT T) (es : list task_event) : TaskT T * list (coro * T) :=
  match es with
  | [] => (t, [])
  | e :: es =>
      let '(t, o1) := task_step t e in
      let '(t, o2) := run_task t es in
      (t, o1 ++ o2)
  end.

End TaskT.
Arguments task_event : clear implicits.

(** A task hands its value to its awaiter exactly once, whether it finishes
    before it is awaited (no suspension) or after (the final awaiter transfers
    control to the continuation). *)
Lemma taskT_resumes_awaiter_once {T : Type} (dflt v : T) h es :
  es = [BodyReturns v; Awaits h] \/ es = [Awaits h; BodyReturns v] ->
  exists t, run_task (TaskT_start dflt) es = (t, [(h, v)]) /\ is_done t = true.
Proof. by intros [-> | ->]; eexists. Qed.

(** ** Frames

    The frame of a task, with its promise, is on the heap; a [TaskT] object
    owns it through its handle, which a move empties.  A task starts at once:
    it is created suspended in its body, or already at its final suspend
    point when the body did not suspend ([Some v]). *)
Section Frames.
Context {T : Type}.

Abbreviation frames := (gmap loc (TaskT T)).

Definition TaskT_create (F : frames) (l : loc) (dflt : T) (body : option T) : frames * option loc :=
  (<[l := match body with
          | Some v => fst (final_suspend (return_value (TaskT_start dflt) v))
          | None => TaskT_start dflt
          end]> F, Some l).

(** The new object and what is left in the old one. *)
Definition TaskT_move (o : option loc) : option loc * option loc := (o, None).

Definition TaskT_delete (F : frames) (o : option loc) : outcome frames :=
  match o with
  | None => Ok F
  | Some l => _ ← or_ub "destroy of a dead frame" (F !! l); Ok (delete l F)
  end.

(** [co_await] on the object: the value at once, or the awaiter suspends. *)
Definition TaskT_await (F : frames) (o : option loc) (h : coro) : outcome (frames * option T) :=
  l ← or_ub "null handle" o;
  t ← or_ub "dead frame" (F !! l);
  if TaskT_await_ready t then Ok (F, Some (TaskT_await_resume t))
  else Ok (<[l := TaskT_await_suspend t h]> F, None).

(** The event loop resumes the body, which runs to its [co_return v]: control
    goes to the continuation. *)
Definition TaskT_complete (F : frames) (l : loc) (v : T) : outcome (frames * option coro) :=
  t ← or_ub "resumed a dead frame" (F !! l);
  let '(t, next) := final_suspend (return_value t v) in
  Ok (<[l := t]> F, next).

(** The awaiter continues with the value. *)
Definition TaskT_continue (F : frames) (o : option loc) : outcome T :=
  l ← or_ub "null handle" o;
  t ← or_ub "dead frame" (F !! l);
  Ok (TaskT_await_resume t).

(** [T x = co_await f();] in coroutine [h], [f] returning its task through
    [moves] moves: the value, who was resumed, and the frames at the end of
    the statement, when the temporary is destroyed.  The moved-from objects
    are destroyed where they were. *)
Fixpoint move_out (moves : nat) (F : frames) (o : option loc) : outcome (frames * option loc) :=
  match moves with
  | O => Ok (F, o)
  | S moves =>
      let '(o, old) := TaskT_move o in
      F ← TaskT_delete F old;
      move_out moves F o
  end.

Definition co_await (F : frames) (l : loc) (dflt : T) (at_once : bool) (v : T) (moves : nat) (h : coro)
  : outcome (T * list coro * frames) :=
  let '(F, o) := TaskT_create F l dflt (if at_once then Some v else None) in
  '(F, o) ← move_out moves F o;
  '(F, r) ← TaskT_await F o h;
  match r with
  | Some x => F ← TaskT_delete F o; Ok (x, [], F)
  | None =>
      '(F, next) ← TaskT_complete F l v;
      x ← TaskT_continue F o;
      F ← TaskT_delete F o;
      Ok (x, option_list next, F)
  end.

Lemma move_out_same moves : forall F o, move_out moves F o = Ok (F, o).
Proof. induction moves as [|n IH]; intros F o; [done|]. cbn. apply IH. Qed.

End Frames.

(** * Properties *)

(** C33: Lifetime of a [TaskT].  A [co_await] of a task yields the value its
    body returned, whether the body finished before it was awaited or
    suspended, resumes the awaiter exactly when it was suspended, and frees
    the frame exactly once however often the object was moved: all other
    frames are untouched.  But a task whose object is destroyed while its body
    is suspended is resumed as a dead frame when its operation completes. *)
Theorem taskT_frame_lifetime (T : Type) (F : gmap loc (TaskT T)) l (dflt v : T) at_once moves h :
  F !! l = None ->
  co_await F l dflt at_once v moves h = Ok (v, if at_once then [] else [h], F) /\
  (F1 ← TaskT_delete (fst (TaskT_create F l dflt None)) (snd (TaskT_create F l dflt None));
   TaskT_complete F1 l v) = UB "resumed a dead frame".
Proof.
  intros Hl. split.
  - unfold co_await, TaskT_create. rewrite move_out_same. cbn [mbind outcome_bind].
    destruct at_once; unfold TaskT_complete; repeat (cbn; rewrite ?lookup_insert_eq, ?insert_insert_eq);
      by rewrite delete_insert_id.
  - cbn. rewrite lookup_insert_eq. cbn. unfold TaskT_complete. rewrite lookup_delete_eq. done.
Qed.

Lemma taskT_frame_lifetime_witness :
  co_await {[2%positive := TaskT_start 0]} 1 (-1) false 14 2 7 =
    Ok (14, [7%positive], {[2%positive := TaskT_start 0]}) /\
  (F1 ← TaskT_delete (fst (TaskT_create {[2%positive := TaskT_start 0]} 1 (-1) None))
          (snd (TaskT_create {[2%positive := TaskT_start 0]} 1 (-1) None));
   TaskT_complete F1 1 14) = UB "resumed a dead frame".
Proof.
  apply (taskT_frame_lifetime Z {[2%positive := TaskT_start 0]} 1%positive (-1) 14 false 2 7%positive).
  reflexivity.
Defined.

(** [AsyncSleep] builds the timespec of its argument exactly: for any
    non-negative number of milliseconds the seconds and nanoseconds add up to
    it and the nanoseconds are within the range the kernel accepts; a negative
    argument that is not a whole number of seconds gives negative nanoseconds,
    which it rejects. *)
Theorem async_sleep_timespec ms :
  tv_sec (AsyncSleep ms) * 1000000000 + tv_nsec (AsyncSleep ms) = ms * 1000000 /\
  (0 <= ms -> 0 <= tv_sec (AsyncSleep ms) /\ 0 <= tv_nsec (AsyncSleep ms) < 1000000000) /\
  (ms < 0 -> Z.rem ms 1000 <> 0 -> tv_nsec (AsyncSleep ms) < 0).
Proof.
  cbn. pose proof (Z.quot_rem' ms 1000) as Hq. split; [lia|]. split.
  - intros Hm. pose proof (Z.rem_bound_pos ms 1000 Hm). pose proof (Z.quot_pos ms 1000 Hm). lia.
  - intros Hm Hr. pose proof (Z.rem_nonpos ms 1000). lia.
Qed.
