(* ===== verification/Ledger.v ===== *)
(** Who waits for which request.  A ledger names, for every request the kernel
    owns, the coroutine it will resume and the cell its result goes to.  The
    effect of a piece of code on the event loop is then the list of waiters it
    adds: [grow add c c'] says that, whatever else is in flight, running the
    code from [c] to [c'] adds exactly [add] and disturbs nothing.  The
    components state their effects in this form, and the server composes
    them. *)
From S2P Require Import Prelude Buffer IoContext Coro.

(** A suspended coroutine: its handle and the address of its result. *)
Abbreviation waiter := (coro * cell)%type.

(** [M] is the ledger of context [c]: its requests are the ones in flight, and
    the waiters are [L], each as often as it waits. *)
Record ledger (M : gmap loc waiter) (L : list waiter) (c : IoContext) : Prop := {
  lg_pool : exists fl, pool_ok (dom M) fl c;
  lg_heap : forall l h r, M !! l = Some (h, r) -> heap c !! l = Some (mkReq (Some h) (Some r) None);
  lg_waiters : (map_to_list M).*2 ≡ₚ L
}.

Definition grow (add : list waiter) (c c' : IoContext) : Prop :=
  forall M L, ledger M L c -> exists M', ledger M' (add ++ L) c' /\ M ⊆ M'.

#[export] Instance ledger_perm M : Proper ((≡ₚ) ==> eq ==> iff) (ledger M).
Proof. intros L L' HL c ? <-. split; intros [H1 H2 H3]; constructor; try done; by rewrite H3. Qed.

Lemma ledger_heap_same M L c c' :
  heap c' = heap c -> req_pool_head_ c' = req_pool_head_ c -> in_flight_ c' = in_flight_ c ->
  ledger M L c -> ledger M L c'.
Proof.
  intros E1 E2 E3 [[fl []] Hh Hw]. constructor; [|by rewrite E1|done].
  exists fl. constructor; rewrite ?E1, ?E2, ?E3; done.
Qed.

Lemma grow_same c c' :
  heap c' = heap c -> req_pool_head_ c' = req_pool_head_ c -> in_flight_ c' = in_flight_ c ->
  grow [] c c'.
Proof. intros E1 E2 E3 M L HM. exists M. split; [by eapply ledger_heap_same|done]. Qed.

Lemma grow_refl c : grow [] c c.
Proof. by apply grow_same. Qed.

Lemma grow_tick c : grow [] c (tick c).
Proof. by apply grow_same. Qed.

Lemma grow_trans a1 a2 c1 c2 c3 : grow a1 c1 c2 -> grow a2 c2 c3 -> grow (a2 ++ a1) c1 c3.
Proof.
  intros H1 H2 M L HM. destruct (H1 M L HM) as (M1 & HM1 & Hs1).
  destruct (H2 M1 _ HM1) as (M2 & HM2 & Hs2). exists M2. rewrite <- app_assoc.
  split; [done|]. by etrans.
Qed.

Lemma grow_pool a c c' M L : ledger M L c -> grow a c c' -> exists O fl, pool_ok O fl c'.
Proof.
  intros HM Hg. destruct (Hg M L HM) as (M' & [[fl Hp] _ _] & _). by exists (dom M'), fl.
Qed.

(** ** Submission and completion *)

Lemma ledger_submit M L c o fixed h r :
  ledger M L c ->
  exists c' req, Submit c o fixed h r = Ok c' /\ M !! req = None /\
    ledger (<[req := (h, r)]> M) ((h, r) :: L) c' /\
    same_resources (set_in_flight (set_pool c (heap c') (req_pool_head_ c')) (in_flight_ c + 1)) c'.
Proof.
  intros [[fl Hp] Hh Hw].
  destruct (Submit_ok _ fl c o fixed h r Hp) as (req & c' & E & Hreq & Hp' & Eh & _ & Hs).
  apply not_elem_of_dom in Hreq. exists c', req. split; [done|]. split; [done|]. split; [|done].
  constructor.
  - exists (tail fl). by rewrite dom_insert_L.
  - intros l h' r'. rewrite Eh, !lookup_insert. case_decide; [by intros [= <- <-]|apply Hh].
  - rewrite map_to_list_insert by done. cbn. by rewrite Hw.
Qed.

Lemma grow_suspend c aw h r c' aw' :
  await_suspend c aw h r = Ok (c', aw') -> grow [(h, r)] c c'.
Proof.
  unfold await_suspend. cbn. intros E M L HM.
  destruct (ledger_submit M L c (sqe aw) (sqe_fixed_file aw) h r HM) as (c1 & req & E1 & Hn & HM' & _).
  rewrite E1 in E. cbn in E. injection E as <- _. eexists. split; [done|]. by apply insert_subseteq.
Qed.

(** A completion takes its waiter off the ledger. *)
Lemma ledger_complete M L c req h r c' :
  ledger M L c -> M !! req = Some (h, r) -> FreeRequestData c req = Ok c' ->
  exists L', L ≡ₚ (h, r) :: L' /\
    ledger (delete req M) L' (set_in_flight c' (in_flight_ c' - 1)) /\
    same_resources (set_pool c (heap c') (Some req)) c'.
Proof.
  intros [[fl Hp] Hh Hw] Hreq E. assert (Hin : req ∈ dom M) by (apply elem_of_dom; by eexists).
  destruct (complete_ok _ fl c req Hp Hin) as (c1 & E1 & Hp1 & Eh & Hs).
  rewrite E in E1. injection E1 as <-. exists (map_to_list (delete req M)).*2.
  assert (HM : (map_to_list M).*2 ≡ₚ (h, r) :: (map_to_list (delete req M)).*2).
  { rewrite <- (insert_delete_id M req (h, r)) at 1 by done.
    rewrite map_to_list_insert by apply lookup_delete_eq. done. }
  split; [by rewrite <- Hw|]. split; [|done]. constructor; [|..|done].
  - exists (req :: fl). by rewrite dom_delete_L.
  - intros l h' r' Hl. apply lookup_delete_Some in Hl as [Hne Hl]. cbn.
    rewrite Eh, lookup_insert_ne by done. by apply Hh.
Qed.

(** The ledger of a context with nothing in flight is empty. *)
Lemma ledger_nothing M L c : ledger M L c -> dom M = ∅ -> L = [].
Proof.
  intros [_ _ Hw] HM. apply dom_empty_inv_L in HM as ->. rewrite map_to_list_empty in Hw.
  by apply Permutation_nil_l in Hw.
Qed.

(** Every request in flight has its waiter on the list. *)
Lemma ledger_elem M L c req h r : ledger M L c -> M !! req = Some (h, r) -> (h, r) ∈ L.
Proof.
  intros [_ _ Hw] Hreq. rewrite <- Hw. apply list_elem_of_fmap. exists (req, (h, r)).
  split; [done|]. by apply elem_of_map_to_list.
Qed.

Lemma ledger_lookup M L c req h r :
  ledger M L c -> req ∈ dom M -> heap c !! req = Some (mkReq (Some h) (Some r) None) ->
  M !! req = Some (h, r).
Proof.
  intros [_ Hh _] Hin E. apply elem_of_dom in Hin as [[h' r'] Hl].
  rewrite (Hh _ _ _ Hl) in E. by injection E as -> ->.
Qed.

(** Code that adds no waiter adds no request. *)
Lemma ledger_no_growth M M' L c c' : ledger M L c -> ledger M' L c' -> M ⊆ M' -> M' = M.
Proof.
  intros [_ _ H1] [_ _ H2] Hs. symmetry. apply map_subseteq_size_eq; [done|].
  rewrite <- H1 in H2. apply Permutation_length in H2.
  rewrite !length_fmap, !length_map_to_list in H2. lia.
Qed.

(** New entries of a grown ledger are among the waiters that were added. *)
Lemma ledger_new M M' add L c c' req w :
  ledger M L c -> ledger M' (add ++ L) c' -> M ⊆ M' -> M' !! req = Some w ->
  M !! req = Some w \/ w ∈ add.
Proof.
  intros [_ _ HL] [_ _ HL'] Hs Hr. destruct (M !! req) as [w0|] eqn:E.
  { left. pose proof (lookup_weaken _ _ _ _ E Hs). congruence. }
  right. pose proof (insert_subseteq_l _ _ _ _ Hr Hs) as Hi.
  apply map_to_list_submseteq, (fmap_submseteq snd) in Hi.
  rewrite map_to_list_insert in Hi by done. cbn [fmap list_fmap snd] in Hi.
  rewrite HL, HL' in Hi. apply (submseteq_app_inv_r [w] add L) in Hi.
  apply elem_of_submseteq with [w]; [by left|done].
Qed.
