(* ===== verification/Connection.v ===== *)
(** The connection of [src/coro_connection.h] and [src/coro_connection.cpp]:
    its share of the context's pools, the read side that fills the read buffer
    in place, and the write side that stages data in a registered buffer and
    loops over partial writes.

    [Write] is a coroutine: [Write_start] runs it to its first suspension and
    [Write_resume] from one suspension to the next. *)
From S2P Require Import Prelude Buffer IoContext Coro Ledger.

Record CoroConnection := mkConn {
  fd_ : Z;
  closed_ : bool;
  fixed_file_idx_ : Z;
  read_buf_idx_ : Z;
  read_fixed_ptr_ : ptr;
  write_buf_idx_ : Z;
  write_fixed_ptr_ : ptr;
  read_buffer_ : Buffer;
  write_buffer_ : Buffer
}.

Definition BufSize (c : IoContext) : Z := buf_size_ c.

(** * Construction and destruction *)

Definition CoroConnection_new {K : Kernel} (c : IoContext) (fd : Z)
  : outcome (CoroConnection * IoContext) :=
  let '(file_idx, c) := RegisterFile c fd in
  '(rd_idx, rd_ptr, c) ← AllocateBuffer c nullptr;
  let rd_buf := if 0 <=? rd_idx then Buffer_fixed rd_ptr (BufSize c) else Buffer_dynamic 65536 in
  '(wr_idx, wr_ptr, c) ← AllocateBuffer c nullptr;
  let wr_buf := if 0 <=? wr_idx then Buffer_fixed wr_ptr (BufSize c) else Buffer_dynamic 8192 in
  Ok (mkConn fd false file_idx rd_idx rd_ptr wr_idx wr_ptr rd_buf wr_buf, c).

(** [Close] also says which descriptor it passes to [::close], if any. *)
Definition Close (c : IoContext) (k : CoroConnection)
  : CoroConnection * IoContext * option Z :=
  if closed_ k then (k, c, None)
  else
    let '(file_idx, c) :=
      if 0 <=? fixed_file_idx_ k then (-1, UnregisterFile c (fixed_file_idx_ k))
      else (fixed_file_idx_ k, c) in
    let '(rd_idx, rd_ptr, c) :=
      if 0 <=? read_buf_idx_ k then (-1, nullptr, FreeBuffer c (read_buf_idx_ k))
      else (read_buf_idx_ k, read_fixed_ptr_ k, c) in
    let '(wr_idx, wr_ptr, c) :=
      if 0 <=? write_buf_idx_ k then (-1, nullptr, FreeBuffer c (write_buf_idx_ k))
      else (write_buf_idx_ k, write_fixed_ptr_ k, c) in
    (mkConn (fd_ k) true file_idx rd_idx rd_ptr wr_idx wr_ptr (read_buffer_ k) (write_buffer_ k),
     c, Some (fd_ k)).

Definition set_read_buffer (k : CoroConnection) (b : Buffer) : CoroConnection :=
  mkConn (fd_ k) (closed_ k) (fixed_file_idx_ k) (read_buf_idx_ k) (read_fixed_ptr_ k)
    (write_buf_idx_ k) (write_fixed_ptr_ k) b (write_buffer_ k).

Definition set_write_buffer (k : CoroConnection) (b : Buffer) : CoroConnection :=
  mkConn (fd_ k) (closed_ k) (fixed_file_idx_ k) (read_buf_idx_ k) (read_fixed_ptr_ k)
    (write_buf_idx_ k) (write_fixed_ptr_ k) (read_buffer_ k) b.

(** The registered file slot if there is one, else the descriptor. *)
Definition target (k : CoroConnection) : Z :=
  if 0 <=? fixed_file_idx_ k then fixed_file_idx_ k else fd_ k.

(** [sqe->flags |= IOSQE_FIXED_FILE] *)
Definition uses_fixed_file (k : CoroConnection) : bool := 0 <=? fixed_file_idx_ k.

(** * Read *)

(** [io_uring_prep_read_fixed] takes an [unsigned] length, [io_uring_prep_recv]
    a [size_t].  Neither the submission entry nor the result of
    [EnsureWritable] is checked. *)
Definition Read {K : Kernel} (c : IoContext) (ar : Arena) (k : CoroConnection)
  : outcome (IoAwaitable * IoContext * Arena * CoroConnection) :=
  let '(ok, c) := io_uring_get_sqe c in
  if 0 <=? read_buf_idx_ k then
    '(_, (ar, b)) ← EnsureWritable ar (read_buffer_ k) 1;
    _ ← guard_ub "io_uring_prep_read_fixed on a null sqe" ok;
    Ok (io_awaitable (OpReadFixed (target k) (WriteBegin b) (u32 (WritableBytes b))
                        (read_buf_idx_ k)) (uses_fixed_file k),
        c, ar, set_read_buffer k b)
  else
    '(_, (ar, b)) ← EnsureWritable ar (read_buffer_ k) 4096;
    _ ← guard_ub "io_uring_prep_recv on a null sqe" ok;
    Ok (io_awaitable (OpRecv (target k) (WriteBegin b) (WritableBytes b)) (uses_fixed_file k),
        c, ar, set_read_buffer k b).

(** What the coroutine sees after the completion: the kernel has stored the
    received bytes at the submitted address and the loop has stored their
    number in the awaitable. *)
Definition read_resume (aw : IoAwaitable) (k : CoroConnection) : Z * CoroConnection :=
  let '(n, b) := ReadAwaitable_await_resume aw (read_buffer_ k) in
  (n, set_read_buffer k b).

(** * Write *)

(** [data] is the source of the [memcpy]: the bytes from the current position
    of the caller's buffer on, [len] how many are left to send. *)
Definition WriteOnce {K : Kernel} (c : IoContext) (ar : Arena) (k : CoroConnection)
    (data : bytes) (len : Z) : outcome (IoAwaitable * IoContext * Arena * CoroConnection) :=
  let '(ok, c) := io_uring_get_sqe c in
  if 0 <=? write_buf_idx_ k then
    let to_write := Z.min len (BufSize c) in
    src ← mem_read data 0 to_write;
    '(ar, _) ← store ar (write_buffer_ k) (write_fixed_ptr_ k) src;
    let b := HasWritten (Buffer_fixed (write_fixed_ptr_ k) (BufSize c)) to_write in
    _ ← guard_ub "io_uring_prep_write_fixed on a null sqe" ok;
    Ok (io_awaitable (OpWriteFixed (target k) (ReadBegin b) (u32 (ReadableBytes b))
                        (write_buf_idx_ k)) (uses_fixed_file k),
        c, ar, set_write_buffer k b)
  else
    src ← mem_read data 0 len;
    '(ar, b) ← store ar (Buffer_dynamic len) (WriteBegin (Buffer_dynamic len)) src;
    let b := HasWritten b len in
    _ ← guard_ub "io_uring_prep_send on a null sqe" ok;
    Ok (io_awaitable (OpSend (target k) (ReadBegin b) (ReadableBytes b)) (uses_fixed_file k),
        c, ar, set_write_buffer k b).

(** The frame of the [Write] coroutine: the caller's data, how far [ptr] has
    advanced, [remaining] and [len]. *)
Record WriteFrame := mkWrite { w_data : bytes; w_off : Z; w_remaining : Z; w_len : Z }.

Inductive write_status : Type :=
| WriteReturns (v : Z)                              (* co_return v *)
| WriteSuspended (f : WriteFrame) (aw : IoAwaitable).

(** From the loop test to the next suspension or the end. *)
Definition Write_loop {K : Kernel} (c : IoContext) (ar : Arena) (k : CoroConnection)
    (f : WriteFrame) : outcome (write_status * IoContext * Arena * CoroConnection) :=
  if 0 <? w_remaining f then
    '(aw, c, ar, k) ← WriteOnce c ar k (drop (Z.to_nat (w_off f)) (w_data f)) (w_remaining f);
    Ok (WriteSuspended f aw, c, ar, k)
  else Ok (WriteReturns (i32 (w_len f)), c, ar, k).

Definition Write_start {K : Kernel} (c : IoContext) (ar : Arena) (k : CoroConnection)
    (data : bytes) : outcome (write_status * IoContext * Arena * CoroConnection) :=
  Write_loop c ar k (mkWrite data 0 (zlen data) (zlen data)).

(** The completion stored [w] in the awaitable. *)
Definition Write_resume {K : Kernel} (c : IoContext) (ar : Arena) (k : CoroConnection)
    (f : WriteFrame) (w : Z) : outcome (write_status * IoContext * Arena * CoroConnection) :=
  if w <=? 0 then Ok (WriteReturns w, c, ar, k)
  else Write_loop c ar k
         (mkWrite (w_data f) (w_off f + w) (u64 (w_remaining f - w)) (w_len f)).

(** * The kernel's side of a transfer *)

(** Address and length of the memory an entry hands to the kernel. *)
Definition sqe_addr (o : sqe_op) : ptr :=
  match o with
  | OpReadFixed _ p _ _ | OpRecv _ p _ | OpWriteFixed _ p _ _ | OpSend _ p _ => p
  | _ => nullptr
  end.

Definition sqe_len (o : sqe_op) : Z :=
  match o with
  | OpReadFixed _ _ n _ | OpRecv _ _ n | OpWriteFixed _ _ n _ | OpSend _ _ n => n
  | _ => 0
  end.

(** The bytes the kernel takes when it accepts [w] bytes of the staged data. *)
Definition taken (ar : Arena) (k : CoroConnection) (aw : IoAwaitable) (w : Z) : outcome bytes :=
  if 0 <? w then load ar (write_buffer_ k) (sqe_addr (sqe aw)) w else Ok [].

(** Run a started [Write] against the results of successive completions:
    what it returned ([None] while suspended) and the bytes sent. *)
Fixpoint Write_run {K : Kernel} (ws : list Z) (st : write_status) (c : IoContext) (ar : Arena)
    (k : CoroConnection) (sent : bytes) : outcome (option Z * bytes * IoContext * Arena * CoroConnection) :=
  match st with
  | WriteReturns v => Ok (Some v, sent, c, ar, k)
  | WriteSuspended f aw =>
      match ws with
      | [] => Ok (None, sent, c, ar, k)
      | w :: ws =>
          bs ← taken ar k aw w;
          '(st, c, ar, k) ← Write_resume c ar k f w;
          Write_run ws st c ar k (sent ++ bs)
      end
  end.

Definition Write {K : Kernel} (c : IoContext) (ar : Arena) (k : CoroConnection) (data : bytes)
    (ws : list Z) : outcome (option Z * bytes * IoContext * Arena * CoroConnection) :=
  '(st, c, ar, k) ← Write_start c ar k data;
  Write_run ws st c ar k [].

(** The largest chunk one submission carries. *)
Definition chunk_limit (c : IoContext) (k : CoroConnection) (len : Z) : Z :=
  if 0 <=? write_buf_idx_ k then Z.min len (BufSize c) else len.

(** ** Specification: the data is a byte string sent front to back *)

Fixpoint write_spec (ws : list Z) (rest : bytes) (len : Z) (sent : bytes) : option Z * bytes :=
  match rest, ws with
  | [], _ => (Some (i32 len), sent)
  | _, [] => (None, sent)
  | _, w :: ws =>
      if w <=? 0 then (Some w, sent)
      else write_spec ws (drop (Z.to_nat w) rest) len (sent ++ take (Z.to_nat w) rest)
  end.

(** The kernel accepts at most what was submitted. *)
Fixpoint writes_valid (c : IoContext) (k : CoroConnection) (ws : list Z) (remaining : Z) : Prop :=
  match ws with
  | [] => True
  | w :: ws =>
      w <= chunk_limit c k remaining /\ (0 < w -> writes_valid c k ws (remaining - w))
  end.

(** * Invariants *)

(** The write side: a registered staging window inside the arena, or none. *)
Definition wr_ok (c : IoContext) (ar : Arena) (k : CoroConnection) : Prop :=
  0 <= write_buf_idx_ k ->
  exists a, write_fixed_ptr_ k = ArenaPtr a /\ 0 <= a /\ a + BufSize c <= zlen ar /\
            0 < BufSize c < 2 ^ 32.

(** The arena did not change outside the connection's staging window. *)
Definition wr_frame (c : IoContext) (k : CoroConnection) (ar ar' : Arena) : Prop :=
  zlen ar' = zlen ar /\
  (write_buf_idx_ k < 0 -> ar' = ar) /\
  forall a o n, write_fixed_ptr_ k = ArenaPtr a -> 0 <= o ->
    o + n <= a \/ a + BufSize c <= o -> slice ar' o n = slice ar o n.

(** Everything of the connection but the staging buffer is unchanged. *)
Definition same_conn (k k' : CoroConnection) : Prop :=
  k' = set_write_buffer k (write_buffer_ k').

(** Where the data of a write is staged. *)
Definition staged (k : CoroConnection) (aw : IoAwaitable) : Prop :=
  if 0 <=? write_buf_idx_ k then sqe_addr (sqe aw) = write_fixed_ptr_ k
  else exists o, sqe_addr (sqe aw) = VecPtr o.

(** The submission queue never fills up: [io_uring_get_sqe] is non-null. *)
Definition sq_never_full (K : Kernel) : Prop := forall n, k_get_sqe n = true.

(** ** WriteOnce *)

Lemma wr_frame_refl c k ar : wr_frame c k ar ar.
Proof. done. Qed.

Lemma wr_frame_trans c k ar ar1 ar2 :
  wr_frame c k ar ar1 -> wr_frame c k ar1 ar2 -> wr_frame c k ar ar2.
Proof.
  intros (Hz & Hd & Hs) (Hz2 & Hd2 & Hs2). split_and!.
  - congruence.
  - intros Hn. rewrite Hd2 by done. auto.
  - intros a o n Ha Ho Hdis. erewrite Hs2 by done. eauto.
Qed.

Lemma WriteOnce_ok {K : Kernel} c ar k data len :
  sq_never_full K -> wr_ok c ar k -> 0 < len <= zlen data -> len <= VECTOR_MAX ->
  exists aw ar' k', WriteOnce c ar k data len = Ok (aw, tick c, ar', k') /\
    sqe_len (sqe aw) = chunk_limit c k len /\
    (forall m, 0 < m <= chunk_limit c k len -> taken ar' k' aw m = Ok (take (Z.to_nat m) data)) /\
    same_conn k k' /\ staged k aw /\ wr_frame c k ar ar'.
Proof.
  intros Hsq Hwr Hlen Hmax. unfold WriteOnce, io_uring_get_sqe, chunk_limit, taken, staged.
  rewrite Hsq.
  destruct (Z.leb_spec 0 (write_buf_idx_ k)) as [Hi|Hi].
  - destruct (Hwr Hi) as (a & Hp & Ha & Hin & Hbs). unfold BufSize in *. cbn [buf_size_ tick].
    set (n := Z.min len (buf_size_ c)).
    rewrite mem_read_ok by lia. cbn [mbind outcome_bind].
    assert (Hz : zlen (slice data 0 n) = n) by (apply zlen_slice; lia).
    rewrite Hp. cbn [store]. rewrite mem_write_ok by lia. cbn [mbind outcome_bind guard_ub].
    eexists _, _, _. split; [done|]. cbn [sqe sqe_len sqe_addr io_awaitable].
    assert (Hb : HasWritten (Buffer_fixed (ArenaPtr a) (buf_size_ c)) n
                 = set_indices (Buffer_fixed (ArenaPtr a) (buf_size_ c)) n 0).
    { unfold HasWritten, set_indices, Buffer_fixed. cbn. rewrite u64_small; [done|].
      unfold SIZE_MOD. lia. }
    rewrite Hb. split; [|split; [|split; [done|split; [cbn; by rewrite Z.add_0_r|]]]].
    + unfold ReadableBytes. cbn. rewrite u64_small, u32_small by (unfold SIZE_MOD; lia). lia.
    + intros m Hm. rewrite (proj2 (Z.ltb_lt _ _)) by lia. cbn. rewrite Z.add_0_r.
      rewrite mem_read_ok by (rewrite ?zlen_splice; lia). f_equal.
      by rewrite slice_splice_prefix, take_slice by lia.
    + split_and!; [by rewrite zlen_splice by lia|lia|].
      intros a' o m Ha' Ho Hd. rewrite Hp in Ha'. injection Ha' as <-. apply slice_splice_disjoint; unfold BufSize in *; lia.
  - rewrite mem_read_ok by lia. cbn [mbind outcome_bind].
    assert (Hz : zlen (slice data 0 len) = len) by (apply zlen_slice; lia).
    assert (Hd : zlen (data_ (Buffer_dynamic len)) = len)
      by (unfold zlen; cbn; rewrite length_replicate; lia).
    cbn [store WriteBegin base_ptr is_fixed_ Buffer_dynamic ptr_add write_idx_].
    rewrite mem_write_ok by lia. cbn [mbind outcome_bind guard_ub].
    eexists _, _, _. split; [done|]. cbn [sqe sqe_len sqe_addr io_awaitable].
    assert (Hu : u64 (0 + len) = len) by (apply u64_small; unfold VECTOR_MAX, SIZE_MOD in *; lia).
    split; [|split; [|split; [done|split; [by eexists|apply wr_frame_refl]]]].
    + unfold ReadableBytes. cbn. rewrite Hu, Z.sub_0_r. by rewrite Z.add_0_l in Hu.
    + intros m Hm. rewrite (proj2 (Z.ltb_lt _ _)) by lia. cbn. cbn in Hd.
      rewrite mem_read_ok by (rewrite ?zlen_splice; lia). f_equal.
      by rewrite slice_splice_prefix, take_slice by lia.
Qed.

(** ** Write *)

(** A [Write] with [rest] still to send: finished when nothing is left, else
    suspended with the front of [rest] staged for the kernel. *)
Definition writing (c : IoContext) (ar : Arena) (k : CoroConnection) (len : Z) (rest : bytes)
    (st : write_status) : Prop :=
  match st with
  | WriteReturns v => rest = [] /\ v = i32 len
  | WriteSuspended f aw =>
      rest <> [] /\ 0 <= w_off f /\ drop (Z.to_nat (w_off f)) (w_data f) = rest /\
      w_remaining f = zlen rest /\ w_len f = len /\ staged k aw /\
      forall m, 0 < m <= chunk_limit c k (zlen rest) ->
        taken ar k aw m = Ok (take (Z.to_nat m) rest)
  end.

Lemma same_conn_limit c c' k k' n :
  buf_size_ c' = buf_size_ c -> same_conn k k' -> chunk_limit c' k' n = chunk_limit c k n.
Proof. intros E ->. unfold chunk_limit, BufSize. cbn. by rewrite E. Qed.

Lemma writes_valid_same c c' k k' ws : forall n,
  buf_size_ c' = buf_size_ c -> same_conn k k' ->
  writes_valid c k ws n -> writes_valid c' k' ws n.
Proof.
  induction ws as [|w ws IH]; intros n E Hk; cbn; [done|].
  rewrite (same_conn_limit c c' k k') by done. intros []. auto.
Qed.

Lemma wr_ok_same c c' k k' ar ar' :
  buf_size_ c' = buf_size_ c -> same_conn k k' -> zlen ar' = zlen ar ->
  wr_ok c ar k -> wr_ok c' ar' k'.
Proof. intros E -> Hz Hw. unfold wr_ok, BufSize in *. cbn. by rewrite E, Hz. Qed.

Lemma same_conn_refl k : same_conn k k.
Proof. by destruct k. Qed.

Lemma same_conn_trans k k1 k2 : same_conn k k1 -> same_conn k1 k2 -> same_conn k k2.
Proof. unfold same_conn. intros -> ->. done. Qed.

Lemma chunk_limit_le c k n : chunk_limit c k n <= n.
Proof. unfold chunk_limit. destruct (0 <=? _); lia. Qed.

Lemma Write_loop_ok {K : Kernel} c ar k data off len rest :
  sq_never_full K -> wr_ok c ar k -> 0 <= off -> drop (Z.to_nat off) data = rest ->
  zlen rest <= VECTOR_MAX ->
  exists st c' ar' k', Write_loop c ar k (mkWrite data off (zlen rest) len) = Ok (st, c', ar', k') /\
    writing c' ar' k' len rest st /\ buf_size_ c' = buf_size_ c /\ same_conn k k' /\
    wr_frame c k ar ar'.
Proof.
  intros Hsq Hwr Hoff Hrest Hmax. unfold Write_loop. cbn [w_remaining w_off w_data w_len].
  destruct (Z.ltb_spec 0 (zlen rest)) as [Hr|Hr].
  - rewrite Hrest.
    destruct (WriteOnce_ok c ar k rest (zlen rest)) as (aw & ar' & k' & -> & Hlen & Htk & Hk & Hsg & Hf);
      [done..|lia|done|].
    cbn [mbind outcome_bind]. eexists _, _, _, _. split; [done|]. split_and!; try done.
    cbn. split_and!; try done.
    + intros Hn. rewrite Hn in Hr. unfold zlen in Hr. cbn in Hr. lia.
    + rewrite Hk. exact Hsg.
    + intros m Hm. rewrite (same_conn_limit c (tick c) k k') in Hm by done. by apply Htk.
  - assert (rest = []) as -> by (apply zlen_0_nil; pose proof (zlen_nonneg rest); lia).
    eexists _, _, _, _. split; [done|]. split; [by split|].
    split_and!; auto using wr_frame_refl, same_conn_refl.
Qed.

(** A write in progress is not affected by changes elsewhere in the arena, in
    the read buffer, or in the context. *)
Lemma writing_frame c c' ar ar' k k' len rest st :
  writing c ar k len rest st -> wr_ok c ar k ->
  buf_size_ c' = buf_size_ c -> zlen ar' = zlen ar ->
  write_buf_idx_ k' = write_buf_idx_ k -> write_fixed_ptr_ k' = write_fixed_ptr_ k ->
  write_buffer_ k' = write_buffer_ k ->
  (forall a n, write_fixed_ptr_ k = ArenaPtr a -> 0 <= write_buf_idx_ k ->
     n <= BufSize c -> slice ar' a n = slice ar a n) ->
  writing c' ar' k' len rest st.
Proof.
  intros Hw Hwr Ebs Ez Ei Ep Eb Hs. destruct st as [v|f aw]; [done|].
  destruct Hw as (H1 & H2 & H3 & H4 & H5 & Hsg & Htk). cbn. unfold staged in *.
  rewrite Ei, Ep. split_and!; try done. intros m Hm.
  assert (El : chunk_limit c' k' (zlen rest) = chunk_limit c k (zlen rest))
    by (unfold chunk_limit, BufSize; by rewrite Ei, Ebs).
  rewrite El in Hm. specialize (Htk m Hm). rewrite <- Htk. unfold taken. rewrite Eb.
  destruct (0 <? m); [|done]. unfold chunk_limit in Hm.
  destruct (Z.leb_spec 0 (write_buf_idx_ k)) as [Hi|Hi].
  - destruct (Hwr Hi) as (a & Ha & _). rewrite Hsg, Ha. cbn. unfold mem_read, in_bounds.
    rewrite Ez, (Hs a) by (done || lia). done.
  - by destruct Hsg as [o ->].
Qed.

(** Both [Write] and its specification, from any intermediate state. *)
Lemma Write_run_ok {K : Kernel} ws : forall st c ar k len rest sent,
  sq_never_full K -> wr_ok c ar k -> zlen rest <= VECTOR_MAX ->
  writing c ar k len rest st -> writes_valid c k ws (zlen rest) ->
  exists r sent' c' ar' k', Write_run ws st c ar k sent = Ok (r, sent', c', ar', k') /\
    (r, sent') = write_spec ws rest len sent /\ same_conn k k' /\ wr_frame c k ar ar' /\
    buf_size_ c' = buf_size_ c.
Proof.
  induction ws as [|w ws IH]; intros st c ar k len rest sent Hsq Hwr Hmax Hst Hv;
    (destruct st as [v|f aw]; cbn in Hst;
     [destruct Hst as [-> ->]; eexists _, _, _, _, _; cbn;
      split; [done|]; split_and!; auto using wr_frame_refl, same_conn_refl|]);
    destruct Hst as (Hne & Hoff & Hd & Hrem & Hlen & _ & Htk); cbn [Write_run write_spec].
  { eexists _, _, _, _, _. split; [done|].
    split_and!; auto using wr_frame_refl, same_conn_refl. by destruct rest. }
  destruct Hv as [Hw Hv]. unfold Write_resume.
  destruct rest as [|b0 rest0] eqn:Er; [done|]. rewrite <- Er in *. clear Er b0 rest0.
  destruct (Z.leb_spec w 0) as [Hneg|Hpos].
  { unfold taken. rewrite (proj2 (Z.ltb_ge _ _)) by done. cbn.
    eexists _, _, _, _, _. split; [by destruct ws|].
    split_and!; auto using wr_frame_refl, same_conn_refl. by rewrite app_nil_r. }
  rewrite Htk by lia. cbn [mbind outcome_bind].
  pose proof (chunk_limit_le c k (zlen rest)).
  assert (Hz : zlen (drop (Z.to_nat w) rest) = zlen rest - w)
    by (unfold zlen in *; rewrite length_drop; lia).
  rewrite Hrem, u64_small by (unfold VECTOR_MAX, SIZE_MOD in *; lia). rewrite <- Hz.
  destruct (Write_loop_ok c ar k (w_data f) (w_off f + w) (w_len f) (drop (Z.to_nat w) rest))
    as (st & c1 & ar1 & k1 & -> & Hst & Hbs & Hk & Hf); [done..|lia| |lia|].
  { rewrite Z2Nat.inj_add by lia. by rewrite <- drop_drop, Hd. }
  cbn [mbind outcome_bind]. rewrite Hlen in Hst.
  destruct (IH st c1 ar1 k1 len (drop (Z.to_nat w) rest) (sent ++ take (Z.to_nat w) rest))
    as (r & sent' & c2 & ar2 & k2 & HR & Hspec & Hk2 & Hf2 & Hbs2).
  - done.
  - eapply wr_ok_same; [done|done|apply Hf|done].
  - lia.
  - done.
  - rewrite Hz. eapply writes_valid_same; eauto.
  - eexists _, _, _, _, _. split; [done|]. split_and!; try done.
    + by eapply same_conn_trans.
    + eapply wr_frame_trans; [done|]. destruct Hf2 as (? & ? & Hs2). rewrite Hk in *.
      unfold BufSize in *. rewrite Hbs in Hs2. done.
    + congruence.
Qed.

Lemma write_spec_prefix ws : forall rest len sent,
  exists p q, rest = p ++ q /\ snd (write_spec ws rest len sent) = sent ++ p /\
    (q = [] /\ fst (write_spec ws rest len sent) = Some (i32 len) \/
     q <> [] /\ (fst (write_spec ws rest len sent) = None \/
                 exists w, fst (write_spec ws rest len sent) = Some w /\ w <= 0 /\ w ∈ ws)).
Proof.
  induction ws as [|w ws IH]; intros rest len sent;
    (destruct rest as [|b rest]; [exists [], []; cbn; rewrite app_nil_r; by auto|]).
  { exists [], (b :: rest). cbn. rewrite app_nil_r. split_and!; [done..|]. right. split; [done|by left]. }
  cbn [write_spec]. destruct (Z.leb_spec w 0) as [Hw|Hw].
  { exists [], (b :: rest). cbn [fst snd]. rewrite app_nil_r. split_and!; try done.
    right. split; [done|]. right. exists w. split_and!; [done..|by left]. }
  destruct (IH (drop (Z.to_nat w) (b :: rest)) len (sent ++ take (Z.to_nat w) (b :: rest)))
    as (p & q & Hd & Hs & Hr).
  exists (take (Z.to_nat w) (b :: rest) ++ p), q. split_and!.
  - by rewrite <- app_assoc, <- Hd, take_drop.
  - by rewrite app_assoc.
  - destruct Hr as [?|[? [?|(w' & ? & ? & ?)]]]; [by left|by right; auto|].
    right. split; [done|]. right. exists w'. split_and!; [done..|by right].
Qed.

(** Progress: enough positive completions finish the transfer. *)
Lemma write_spec_finishes ws : forall rest len sent,
  Forall (fun w => 0 < w) ws -> zlen rest <= zlen ws ->
  write_spec ws rest len sent = (Some (i32 len), sent ++ rest).
Proof.
  induction ws as [|w ws IH]; intros rest len sent Hpos Hlen;
    (destruct rest as [|b rest]; [cbn; by rewrite app_nil_r|]).
  { rewrite zlen_cons, zlen_nil in Hlen. pose proof (zlen_nonneg rest). lia. }
  apply Forall_cons in Hpos as [Hw Hpos]. cbn [write_spec].
  rewrite (proj2 (Z.leb_gt _ _)) by done. rewrite IH; [|done|].
  - by rewrite <- app_assoc, take_drop.
  - unfold zlen in *. rewrite length_drop. cbn [length] in *. lia.
Qed.

(** ** Read *)

Definition rd_ok (ar : Arena) (k : CoroConnection) : Prop :=
  wf ar (read_buffer_ k) /\ is_fixed_ (read_buffer_ k) = (0 <=? read_buf_idx_ k) /\
  (0 <= read_buf_idx_ k -> 0 < capacity_ (read_buffer_ k) < 2 ^ 32).

Definition received (ar : Arena) (k : CoroConnection) : bytes := contents ar (read_buffer_ k).

(** The kernel stores the received bytes at the submitted address. *)
Definition kernel_read (ar : Arena) (k : CoroConnection) (aw : IoAwaitable) (bs : bytes)
  : outcome (Arena * CoroConnection) :=
  '(ar, b) ← store ar (read_buffer_ k) (sqe_addr (sqe aw)) bs;
  Ok (ar, set_read_buffer k b).

Lemma rd_ok_set ar ar' k b :
  rd_ok ar k -> wf ar' b -> same_object (read_buffer_ k) b -> rd_ok ar' (set_read_buffer k b).
Proof.
  intros (Hwf & Hf & Hc) Hwf' (Hf' & _ & Hc'). unfold rd_ok. cbn. split_and!; [done|congruence|].
  intros Hi. rewrite Hc'; [auto|]. rewrite Hf. by apply Z.leb_le.
Qed.

Lemma Read_ok {K : Kernel} c ar k :
  sq_never_full K -> rd_ok ar k -> zlen (received ar k) + 4096 <= VECTOR_MAX ->
  exists aw ar' k', Read c ar k = Ok (aw, tick c, ar', k') /\ rd_ok ar' k' /\
    received ar' k' = received ar k /\ k' = set_read_buffer k (read_buffer_ k') /\
    same_object (read_buffer_ k) (read_buffer_ k') /\ frame ar ar' (read_buffer_ k) /\
    sqe_addr (sqe aw) = WriteBegin (read_buffer_ k') /\
    sqe_len (sqe aw) = WritableBytes (read_buffer_ k') /\
    (sqe_len (sqe aw) = 0 <->
     is_fixed_ (read_buffer_ k) = true /\ zlen (received ar k) = capacity_ (read_buffer_ k)).
Proof.
  intros Hsq Hrd Hmax. pose proof Hrd as (Hwf & Hfix & Hcap).
  unfold Read, io_uring_get_sqe, received in *. rewrite Hsq.
  pose proof (zlen_nonneg (contents ar (read_buffer_ k))).
  destruct (Z.leb_spec 0 (read_buf_idx_ k)) as [Hi|Hi].
  - destruct (EnsureWritable_ok ar (read_buffer_ k) 1)
      as (ok & ar' & b & -> & Hwf' & Hc & Hso & Hfr & Hok & Hw); [done|lia|lia|].
    cbn [mbind outcome_bind guard_ub]. eexists _, _, _. split; [done|].
    cbn [read_buffer_ set_read_buffer sqe io_awaitable sqe_addr sqe_len].
    pose proof (wf_bounds _ _ Hwf') as Hb'. pose proof (zlen_contents _ _ Hwf') as Hz'.
    pose proof (WritableBytes_eq _ _ Hwf') as Hwb. destruct Hso as (Hso1 & Hso2 & Hso3).
    specialize (Hso3 Hfix). specialize (Hcap Hi).
    rewrite u32_small by lia. split_and!; try done.
    + by apply (rd_ok_set ar).
    + rewrite Hfix in Hok. cbn in Hok. split.
      * intros Hz. split; [done|]. destruct (Z.leb_spec (zlen (contents ar (read_buffer_ k)) + 1)
          (capacity_ (read_buffer_ k))); [specialize (Hw Hok); lia|].
        rewrite <- Hc, Hz' in *. lia.
      * intros [_ Hfull]. rewrite <- Hc, Hz' in Hfull. lia.
  - destruct (EnsureWritable_ok ar (read_buffer_ k) 4096)
      as (ok & ar' & b & -> & Hwf' & Hc & Hso & Hfr & Hok & Hw); [done|lia|lia|].
    cbn [mbind outcome_bind guard_ub]. eexists _, _, _. split; [done|].
    cbn [read_buffer_ set_read_buffer sqe io_awaitable sqe_addr sqe_len].
    rewrite Hfix in Hok. specialize (Hw Hok).
    split_and!; try done; [by apply (rd_ok_set ar)|apply Hso..|].
    rewrite Hfix. split; [lia|intros [? _]; done].
Qed.

(** A completed read appends what the kernel delivered. *)
Lemma read_resume_ok ar k aw bs :
  rd_ok ar k -> sqe_addr (sqe aw) = WriteBegin (read_buffer_ k) ->
  0 < zlen bs <= WritableBytes (read_buffer_ k) ->
  exists ar' k1 k2, kernel_read ar k aw bs = Ok (ar', k1) /\
    read_resume (complete aw (zlen bs)) k1 = (zlen bs, k2) /\ rd_ok ar' k2 /\
    received ar' k2 = received ar k ++ bs /\ k2 = set_read_buffer k (read_buffer_ k2) /\
    same_object (read_buffer_ k) (read_buffer_ k2) /\ frame ar ar' (read_buffer_ k).
Proof.
  intros Hrd Ha Hbs. pose proof Hrd as (Hwf & _).
  destruct (append_ok ar (read_buffer_ k) bs) as (ar' & b & Hst & Hwf' & Hc & Hso & Hfr & _);
    [done|lia|].
  unfold kernel_read. rewrite Ha, Hst. cbn [mbind outcome_bind]. eexists _, _, _. split; [done|].
  unfold read_resume, ReadAwaitable_await_resume, complete. cbn.
  rewrite (proj2 (Z.ltb_lt _ _)) by lia. split; [done|]. unfold received. cbn. split_and!; try done.
  by apply (rd_ok_set ar ar' k).
Qed.

(** * Ownership of pooled resources

    A state is the context and the connections alive on it; connections are
    constructed and closed in any order. *)

Definition held (idx : Z) : list Z := if 0 <=? idx then [idx] else [].

Definition conn_bufs (k : CoroConnection) : list Z :=
  held (read_buf_idx_ k) ++ held (write_buf_idx_ k).

Definition conn_files (k : CoroConnection) : list Z := held (fixed_file_idx_ k).

(** The buffers of a connection are the windows of the indices it holds, or
    its own memory. *)
Record conn_windows (pool : Z) (c : IoContext) (k : CoroConnection) : Prop := {
  cw_read : 0 <= read_buf_idx_ k ->
    external_data_ (read_buffer_ k) = ArenaPtr (pool + read_buf_idx_ k * buf_size_ c) /\
    capacity_ (read_buffer_ k) = buf_size_ c /\ is_fixed_ (read_buffer_ k) = true;
  cw_write : 0 <= write_buf_idx_ k ->
    write_fixed_ptr_ k = ArenaPtr (pool + write_buf_idx_ k * buf_size_ c);
  cw_dynamic : closed_ k = false -> read_buf_idx_ k < 0 -> is_fixed_ (read_buffer_ k) = false
}.

Record pools_ok (pool n : Z) (ks : list CoroConnection) (c : IoContext) : Prop := {
  po_bufs : bufs_ok pool n (ks ≫= conn_bufs) c;
  po_files : files_ok (ks ≫= conn_files) c;
  po_windows : Forall (conn_windows pool c) ks
}.

(** I/O on a connection changes its buffers' contents and the rest of the
    context, but not which pooled resources it holds. *)
Definition io_same (k k' : CoroConnection) : Prop :=
  closed_ k' = closed_ k /\ fixed_file_idx_ k' = fixed_file_idx_ k /\
  read_buf_idx_ k' = read_buf_idx_ k /\ write_buf_idx_ k' = write_buf_idx_ k /\
  write_fixed_ptr_ k' = write_fixed_ptr_ k /\ same_object (read_buffer_ k) (read_buffer_ k').

Definition pools_same (c c' : IoContext) : Prop :=
  free_buf_indices_ c' = free_buf_indices_ c /\ iovecs_ c' = iovecs_ c /\
  buf_size_ c' = buf_size_ c /\ free_file_indices_ c' = free_file_indices_ c /\
  files_enabled_ c' = files_enabled_ c /\ max_fixed_files_ c' = max_fixed_files_ c.

Inductive conn_step {K : Kernel} :
  list CoroConnection * IoContext -> list CoroConnection * IoContext -> Prop :=
| step_new ks c fd k c' :
    CoroConnection_new c fd = Ok (k, c') -> conn_step (ks, c) (k :: ks, c')
| step_close ks1 k ks2 c k' c' o :
    Close c k = (k', c', o) -> conn_step (ks1 ++ k :: ks2, c) (ks1 ++ k' :: ks2, c')
| step_delete ks1 k ks2 c k' c' o :
    (* ~CoroConnection() { Close(); } *)
    Close c k = (k', c', o) -> conn_step (ks1 ++ k :: ks2, c) (ks1 ++ ks2, c')
| step_io ks1 k ks2 c k' c' :
    io_same k k' -> pools_same c c' -> conn_step (ks1 ++ k :: ks2, c) (ks1 ++ k' :: ks2, c').

Lemma held_neg idx : idx < 0 -> held idx = [].
Proof. intros. unfold held. by rewrite (proj2 (Z.leb_gt _ _)). Qed.

Lemma held_pos idx : 0 <= idx -> held idx = [idx].
Proof. intros. unfold held. by rewrite (proj2 (Z.leb_le _ _)). Qed.

Lemma conn_windows_same pool c c' k :
  buf_size_ c' = buf_size_ c -> conn_windows pool c k -> conn_windows pool c' k.
Proof. intros E []. constructor; rewrite ?E; done. Qed.

Lemma bufs_ok_same pool n owned c c' :
  free_buf_indices_ c' = free_buf_indices_ c -> iovecs_ c' = iovecs_ c ->
  buf_size_ c' = buf_size_ c -> bufs_ok pool n owned c -> bufs_ok pool n owned c'.
Proof. intros E1 E2 E3 []. constructor; rewrite ?E1, ?E2, ?E3; done. Qed.

Lemma RegisterFile_frame {K : Kernel} c fd i c' :
  RegisterFile c fd = (i, c') ->
  free_buf_indices_ c' = free_buf_indices_ c /\ iovecs_ c' = iovecs_ c /\
  buf_size_ c' = buf_size_ c.
Proof.
  unfold RegisterFile. destruct (negb _); [by intros [= <- <-]|].
  destruct (last _); [|by intros [= <- <-]]. by destruct (_ <? 0); intros [= <- <-].
Qed.

Lemma RegisterFile_held {K : Kernel} owned c fd i c' :
  files_ok owned c -> RegisterFile c fd = (i, c') -> files_ok (held i ++ owned) c'.
Proof.
  intros Hf HR. destruct (RegisterFile_ok owned c fd Hf) as [(c1 & E & H & _)|(j & c1 & E & Hj & _ & H & _)];
    rewrite HR in E; injection E as -> ->; [done|]. by rewrite held_pos.
Qed.

(** One allocation of a connection: the index, and the window it comes
    with. *)
Lemma AllocateBuffer_held pool n owned c :
  bufs_ok pool n owned c ->
  exists i p c', AllocateBuffer c nullptr = Ok (i, p, c') /\ bufs_ok pool n (held i ++ owned) c' /\
    (0 <= i -> p = ArenaPtr (pool + i * buf_size_ c)) /\ buf_size_ c' = buf_size_ c /\
    c' = set_free_bufs c (free_buf_indices_ c').
Proof.
  intros Hb. destruct (AllocateBuffer_ok pool n owned c nullptr Hb)
    as [[_ E]|(i & c' & E & Hi & _ & Hb' & ->)].
  - exists (-1), nullptr, c. split_and!; try done. by destruct c.
  - eexists _, _, _. split; [done|]. rewrite held_pos by lia. done.
Qed.

Lemma files_ok_set_free_bufs owned c x : files_ok owned (set_free_bufs c x) <-> files_ok owned c.
Proof. done. Qed.

(** Construction takes indices nobody else holds. *)
Lemma CoroConnection_new_ok {K : Kernel} pool n ks c fd :
  pools_ok pool n ks c ->
  exists k c', CoroConnection_new c fd = Ok (k, c') /\ pools_ok pool n (k :: ks) c' /\
    fd_ k = fd /\ closed_ k = false.
Proof.
  intros [Hb Hf Hw]. unfold CoroConnection_new.
  destruct (RegisterFile c fd) as [fi c1] eqn:ER.
  destruct (RegisterFile_frame _ _ _ _ ER) as (E1 & E2 & E3).
  pose proof (RegisterFile_held _ _ _ _ _ Hf ER) as Hf1.
  apply (bufs_ok_same _ _ _ c c1 E1 E2 E3) in Hb.
  destruct (AllocateBuffer_held _ _ _ _ Hb) as (ri & rp & c2 & -> & Hb2 & Hrp & Hs2 & Ec2).
  cbn [mbind outcome_bind].
  destruct (AllocateBuffer_held _ _ _ _ Hb2) as (wi & wp & c3 & -> & Hb3 & Hwp & Hs3 & Ec3).
  cbn [mbind outcome_bind]. eexists _, _. split; [done|]. split; [|done]. constructor.
  - cbn. unfold conn_bufs. cbn. destruct Hb3 as [Hperm Hiov]. constructor; [|done].
    rewrite <- Hperm. apply Permutation_app_head. rewrite !app_assoc.
    apply Permutation_app_tail. apply Permutation_app_comm.
  - rewrite Ec3, Ec2. unfold files_ok in *. cbn. done.
  - constructor; [|eapply Forall_impl; [done|]; intros k Hk;
                   by apply (conn_windows_same pool c); [congruence|]].
    unfold BufSize in *. constructor; cbn.
    + intros Hi. rewrite (proj2 (Z.leb_le _ _)) by done. cbn.
      rewrite Hrp by done. split_and!; congruence.
    + intros Hi. rewrite Hwp by done. congruence.
    + intros _ Hi. by rewrite (proj2 (Z.leb_gt _ _)).
Qed.

(** [Close] gives back exactly what the connection holds. *)
(** What [Close] does to the context, one resource at a time. *)
Definition release_file (c : IoContext) (i : Z) : IoContext :=
  if 0 <=? i then UnregisterFile c i else c.

Definition release_buf (c : IoContext) (i : Z) : IoContext :=
  if 0 <=? i then FreeBuffer c i else c.

Definition released (i : Z) : Z := if 0 <=? i then -1 else i.

Lemma Close_open c k :
  closed_ k = false ->
  exists rp wp, Close c k =
    (mkConn (fd_ k) true (released (fixed_file_idx_ k)) (released (read_buf_idx_ k)) rp
       (released (write_buf_idx_ k)) wp (read_buffer_ k) (write_buffer_ k),
     release_buf (release_buf (release_file c (fixed_file_idx_ k)) (read_buf_idx_ k))
       (write_buf_idx_ k), Some (fd_ k)).
Proof.
  intros E. unfold Close, released, release_buf, release_file. rewrite E.
  destruct (0 <=? fixed_file_idx_ k), (0 <=? read_buf_idx_ k), (0 <=? write_buf_idx_ k);
    by eexists _, _.
Qed.

Lemma held_released i : held (released i) = [].
Proof. unfold held, released. destruct (Z.leb_spec 0 i); [done|]. by rewrite (proj2 (Z.leb_gt _ _)). Qed.

Lemma released_neg i : released i < 0.
Proof. unfold released. destruct (Z.leb_spec 0 i); lia. Qed.

Lemma release_file_files l1 i l2 c :
  files_ok (l1 ++ held i ++ l2) c -> files_ok (l1 ++ l2) (release_file c i).
Proof.
  unfold held, release_file. destruct (0 <=? i); [|done]. apply UnregisterFile_ok.
Qed.

Lemma release_buf_bufs pool n l1 i l2 c :
  bufs_ok pool n (l1 ++ held i ++ l2) c -> bufs_ok pool n (l1 ++ l2) (release_buf c i).
Proof. unfold held, release_buf. destruct (0 <=? i); [|done]. apply FreeBuffer_ok. Qed.

Lemma release_file_bufs pool n l c i :
  bufs_ok pool n l c -> bufs_ok pool n l (release_file c i).
Proof. unfold release_file. destruct (0 <=? i); [|done]. by apply bufs_ok_same. Qed.

Lemma release_buf_files l c i : files_ok l c -> files_ok l (release_buf c i).
Proof. unfold release_buf. by destruct (0 <=? i). Qed.

Lemma release_buf_size c i : buf_size_ (release_buf c i) = buf_size_ c.
Proof. unfold release_buf. by destruct (0 <=? i). Qed.

Lemma release_file_size c i : buf_size_ (release_file c i) = buf_size_ c.
Proof. unfold release_file. by destruct (0 <=? i). Qed.

(** [Close] gives back exactly what the connection holds. *)
Lemma Close_ok pool n ks1 k ks2 c k' c' o :
  pools_ok pool n (ks1 ++ k :: ks2) c -> Close c k = (k', c', o) ->
  pools_ok pool n (ks1 ++ k' :: ks2) c' /\
  (closed_ k = false -> conn_bufs k' = [] /\ conn_files k' = [] /\ o = Some (fd_ k) /\
                        closed_ k' = true).
Proof.
  intros [Hb Hf Hw] HC. destruct (closed_ k) eqn:Ecl.
  { unfold Close in HC. rewrite Ecl in HC. by injection HC as <- <- <-. }
  destruct (Close_open c k Ecl) as (rp & wp & E). rewrite HC in E. injection E as -> -> ->.
  apply Forall_app in Hw as [Hw1 Hw2]. apply Forall_cons in Hw2 as [_ Hw2].
  rewrite bind_app, bind_cons in Hb, Hf.
  assert (Hsz : forall c, buf_size_ (release_buf (release_buf (release_file c (fixed_file_idx_ k))
      (read_buf_idx_ k)) (write_buf_idx_ k)) = buf_size_ c)
    by (intros; by rewrite !release_buf_size, release_file_size).
  split; [constructor|].
  - rewrite bind_app, bind_cons. unfold conn_bufs at 2. cbn. rewrite !held_released. cbn.
    apply release_buf_bufs, release_buf_bufs, release_file_bufs.
    unfold conn_bufs at 2 in Hb. by rewrite <- app_assoc in Hb.
  - rewrite bind_app, bind_cons. unfold conn_files at 2. cbn. rewrite held_released. cbn.
    by apply release_buf_files, release_buf_files, release_file_files.
  - apply Forall_app. split; [|constructor].
    + eapply Forall_impl; [done|]. intros. by apply (conn_windows_same _ c).
    + constructor; cbn; [pose proof (released_neg (read_buf_idx_ k)); lia|
                         pose proof (released_neg (write_buf_idx_ k)); lia|done].
    + eapply Forall_impl; [done|]. intros. by apply (conn_windows_same _ c).
  - intros _. unfold conn_bufs, conn_files. cbn. by rewrite !held_released.
Qed.

(** A closed connection holds nothing, so it can be dropped. *)
Lemma pools_ok_drop pool n ks1 k ks2 c :
  conn_bufs k = [] -> conn_files k = [] ->
  pools_ok pool n (ks1 ++ k :: ks2) c -> pools_ok pool n (ks1 ++ ks2) c.
Proof.
  intros E1 E2 [Hb Hf Hw]. rewrite bind_app, bind_cons, E1 in Hb.
  rewrite bind_app, bind_cons, E2 in Hf. constructor.
  - rewrite bind_app. exact Hb.
  - rewrite bind_app. exact Hf.
  - apply Forall_app in Hw as [? [_ ?]%Forall_cons]. by apply Forall_app.
Qed.

(** Once closed, always empty-handed. *)
Definition closed_empty (k : CoroConnection) : Prop :=
  closed_ k = true -> conn_bufs k = [] /\ conn_files k = [].

Definition sys_ok (pool n : Z) (s : list CoroConnection * IoContext) : Prop :=
  pools_ok pool n s.1 s.2 /\ Forall closed_empty s.1.

Lemma Close_empties c k k' c' o :
  closed_empty k -> Close c k = (k', c', o) -> conn_bufs k' = [] /\ conn_files k' = [].
Proof.
  intros He HC. destruct (closed_ k) eqn:E.
  - unfold Close in HC. rewrite E in HC. injection HC as <- <- <-. by apply He.
  - destruct (Close_open c k E) as (rp & wp & EC). rewrite HC in EC. injection EC as -> -> ->.
    unfold conn_bufs, conn_files. cbn. by rewrite !held_released.
Qed.

Lemma io_same_holds k k' :
  io_same k k' -> conn_bufs k' = conn_bufs k /\ conn_files k' = conn_files k.
Proof. intros (_ & E1 & E2 & E3 & _). unfold conn_bufs, conn_files. by rewrite E1, E2, E3. Qed.

Lemma io_same_windows pool c k k' : io_same k k' -> conn_windows pool c k -> conn_windows pool c k'.
Proof.
  intros (E0 & _ & E2 & E3 & E4 & Hf & He & Hc) []. constructor.
  - rewrite E2, He, Hf. intros Hi. destruct (cw_read0 Hi) as (? & ? & ?). rewrite Hc; done.
  - by rewrite E3, E4.
  - by rewrite E0, E2, Hf.
Qed.

Lemma io_step_pools pool n ks1 k ks2 c k' c' :
  io_same k k' -> pools_same c c' ->
  pools_ok pool n (ks1 ++ k :: ks2) c -> pools_ok pool n (ks1 ++ k' :: ks2) c'.
Proof.
  intros Hk (E1 & E2 & E3 & E4 & E5 & E6) [Hb Hf Hw].
  destruct (io_same_holds _ _ Hk) as [Hkb Hkf].
  rewrite bind_app, bind_cons in Hb, Hf. constructor.
  - rewrite bind_app, bind_cons, Hkb. by apply (bufs_ok_same _ _ _ c).
  - rewrite bind_app, bind_cons, Hkf. unfold files_ok in *. by rewrite E4, E5, E6.
  - apply Forall_app in Hw as [Hw1 [Hwk Hw2]%Forall_cons].
    apply Forall_app; split; [|constructor]; try (eapply Forall_impl; [done|]; intros);
      apply (conn_windows_same _ c); try done. by apply (io_same_windows _ _ k).
Qed.

Lemma conn_step_ok {K : Kernel} pool n s s' : sys_ok pool n s -> conn_step s s' -> sys_ok pool n s'.
Proof.
  intros [Hp Hcl] Hstep. inversion Hstep as
    [ks c fd k c' HN|ks1 k ks2 c k' c' o HC|ks1 k ks2 c k' c' o HC|ks1 k ks2 c k' c' Hk Hc];
    subst; cbn [fst snd] in *.
  - destruct (CoroConnection_new_ok pool n ks c fd Hp) as (k2 & c2 & E & Hp2 & _ & Hopen).
    rewrite HN in E. injection E as <- <-. split; [done|]. constructor; [|done].
    intros E. congruence.
  - apply Forall_app in Hcl as [Hcl1 [Hk Hcl2]%Forall_cons].
    split; [by eapply Close_ok|]. apply Forall_app. split; [done|]. constructor; [|done].
    intros _. by eapply Close_empties.
  - apply Forall_app in Hcl as [Hcl1 [Hk Hcl2]%Forall_cons].
    destruct (Close_empties _ _ _ _ _ Hk HC) as [E1 E2].
    split; [|by apply Forall_app]. apply (pools_ok_drop _ _ _ k'); [done..|].
    by eapply Close_ok.
  - apply Forall_app in Hcl as [Hcl1 [Hkc Hcl2]%Forall_cons].
    split; [by eapply io_step_pools|]. apply Forall_app. split; [done|]. constructor; [|done].
    intros E. destruct (io_same_holds _ _ Hk) as [-> ->]. apply Hkc. destruct Hk. congruence.
Qed.

Lemma conn_steps_ok {K : Kernel} pool n s s' :
  sys_ok pool n s -> rtc conn_step s s' -> sys_ok pool n s'.
Proof. intros Hs. induction 1; eauto using conn_step_ok. Qed.

(** The shape of the file table never changes. *)
Definition table (c : IoContext) : bool * Z := (files_enabled_ c, max_fixed_files_ c).

Lemma AllocateBuffer_table c p i q c' : AllocateBuffer c p = Ok (i, q, c') -> table c' = table c.
Proof.
  unfold AllocateBuffer. destruct (last _); [|by intros [= <- <- <-]].
  destruct (_ !! _); cbn; [|done]. by intros [= <- <- <-].
Qed.

Lemma conn_step_table {K : Kernel} s s' : conn_step s s' -> table s'.2 = table s.2.
Proof.
  assert (HC : forall c k k' c' o, Close c k = (k', c', o) -> table c' = table c).
  { intros c k k' c' o. destruct (closed_ k) eqn:E.
    - unfold Close. rewrite E. by intros [= <- <- <-].
    - destruct (Close_open c k E) as (rp & wp & ->). intros [= _ <- _].
      unfold release_buf, release_file. by destruct (0 <=? _), (0 <=? _), (0 <=? _). }
  intros []; cbn [snd]; [|by eapply HC..|unfold table; destruct H0 as (_ & _ & _ & _ & -> & ->); done].
  revert H. unfold CoroConnection_new. destruct (RegisterFile c fd) as [fi c1] eqn:ER.
  assert (table c1 = table c) as <-.
  { revert ER. unfold RegisterFile. destruct (negb _); [by intros [= <- <-]|].
    destruct (last _); [|by intros [= <- <-]]. by destruct (_ <? 0); intros [= <- <-]. }
  destruct (AllocateBuffer c1 nullptr) as [[[ri rp] c2]| |] eqn:E2; cbn; [|done..].
  destruct (AllocateBuffer c2 nullptr) as [[[wi wp] c3]| |] eqn:E3; cbn; [|done..].
  intros [= _ <-]. rewrite (AllocateBuffer_table _ _ _ _ _ E3). by eapply AllocateBuffer_table.
Qed.

Lemma conn_steps_table {K : Kernel} s s' : rtc conn_step s s' -> table s'.2 = table s.2.
Proof.
  induction 1 as [|x y z Hs _ IH]; [done|]. rewrite IH. by apply conn_step_table.
Qed.

(** States reachable from a freshly constructed context. *)
Definition reachable {K : Kernel} (c0 : IoContext) (s : list CoroConnection * IoContext) : Prop :=
  (exists ans enable n bs, 0 <= n /\ 0 <= bs /\ IoContext_new ans enable n bs = Ok c0) /\
  rtc conn_step ([], c0) s.

Lemma reachable_ok {K : Kernel} c0 s :
  reachable c0 s ->
  exists pool n, bufs_ok pool n [] c0 /\ files_ok [] c0 /\ sys_ok pool n s /\ table s.2 = table c0.
Proof.
  intros [(ans & en & n & bs & Hn & Hbs & E) Hrtc].
  pose proof (IoContext_new_ok ans en n bs Hn Hbs) as Hnew. rewrite E in Hnew.
  destruct Hnew as (_ & _ & Hf & _ & Hb).
  assert (exists pool n, bufs_ok pool n [] c0) as (pool & m & Hb0).
  { destruct Hb as [[(pool & _ & Hb) _]|[Hb _]]; [by exists pool, n|by exists 0, 0]. }
  exists pool, m. split_and!; [done|done| |by rewrite (conn_steps_table _ _ Hrtc)].
  apply (conn_steps_ok _ _ ([], c0)); [|done]. split; cbn; [by constructor|done].
Qed.

Lemma all_closed_empty (ks : list CoroConnection) :
  Forall closed_empty ks -> Forall (fun k => closed_ k = true) ks ->
  (ks ≫= conn_bufs) = [] /\ (ks ≫= conn_files) = [].
Proof.
  induction 1 as [|k ks Hk _ IH]; [done|]. intros [Hc Hcs]%Forall_cons.
  destruct (Hk Hc) as [E1 E2]. destruct (IH Hcs) as [E3 E4].
  rewrite !bind_cons. by rewrite E1, E2, E3, E4.
Qed.

(** Distinct indices name disjoint windows. *)
Lemma windows_disjoint (pool bs i j : Z) :
  0 <= bs -> i <> j ->
  pool + i * bs + bs <= pool + j * bs \/ pool + j * bs + bs <= pool + i * bs.
Proof. intros Hbs Hij. destruct (Z_lt_ge_dec i j); [left|right]; nia. Qed.

Lemma bufs_nodup pool n owned c : bufs_ok pool n owned c -> NoDup owned.
Proof.
  intros [Hperm _]. assert (Hnd : NoDup (free_buf_indices_ c ++ owned))
    by (rewrite Hperm; apply NoDup_seqZ). by apply NoDup_app in Hnd as (_ & _ & ?).
Qed.

(** Buffer indices held by two connections, or as read and write buffer of
    one, are different. *)
Lemma read_write_distinct (ks : list CoroConnection) k1 k2 :
  NoDup (ks ≫= conn_bufs) -> k1 ∈ ks -> k2 ∈ ks ->
  0 <= write_buf_idx_ k1 -> 0 <= read_buf_idx_ k2 -> write_buf_idx_ k1 <> read_buf_idx_ k2.
Proof.
  intros Hn H1 H2 Hw Hr E. apply list_elem_of_split in H1 as (l1 & l2 & ->).
  assert (Hk1 : write_buf_idx_ k1 ∈ conn_bufs k1)
    by (unfold conn_bufs; rewrite (held_pos (write_buf_idx_ k1)) by done; set_solver).
  assert (Hk2 : read_buf_idx_ k2 ∈ conn_bufs k2)
    by (unfold conn_bufs; rewrite (held_pos (read_buf_idx_ k2)) by done; set_solver).
  rewrite bind_app, bind_cons in Hn.
  apply NoDup_app in Hn as (_ & Hd1 & (Hn1 & Hd2 & _)%NoDup_app).
  apply elem_of_app in H2 as [H2|[->|H2]%elem_of_cons].
  - apply (Hd1 (read_buf_idx_ k2)); [apply list_elem_of_bind; eauto|].
    apply elem_of_app. left. congruence.
  - unfold conn_bufs in Hn1. rewrite (held_pos (read_buf_idx_ k1)), (held_pos (write_buf_idx_ k1)) in Hn1
      by done. apply NoDup_cons in Hn1 as [Hn1 _]. set_solver.
  - apply (Hd2 (write_buf_idx_ k1)); [done|]. rewrite E. apply list_elem_of_bind. eauto.
Qed.

(** * The effect of an operation on the rest of the system

    The arena did not change outside the windows of the connection. *)
Definition conn_frame (c : IoContext) (k : CoroConnection) (ar ar' : Arena) : Prop :=
  zlen ar' = zlen ar /\
  forall o n, 0 <= o ->
    (is_fixed_ (read_buffer_ k) = true ->
     o + n <= window (read_buffer_ k) \/
     window (read_buffer_ k) + capacity_ (read_buffer_ k) <= o) ->
    (forall a, 0 <= write_buf_idx_ k -> write_fixed_ptr_ k = ArenaPtr a ->
     o + n <= a \/ a + BufSize c <= o) ->
    slice ar' o n = slice ar o n.

(** An operation on connection [k] that adds [add] to the coroutines waiting,
    keeps the ownership of pooled resources and changes memory only inside the
    connection's own windows. *)
Record io_eff (add : list waiter) (c : IoContext) (ar : Arena) (k : CoroConnection)
    (c' : IoContext) (ar' : Arena) (k' : CoroConnection) : Prop := {
  ef_grow : grow add c c';
  ef_pools : pools_same c c';
  ef_conn : io_same k k';
  ef_arena : conn_frame c k ar ar'
}.

Lemma io_same_refl k : io_same k k.
Proof. by split_and!. Qed.

Lemma io_eff_ctx add c ar k c' : grow add c c' -> pools_same c c' -> io_eff add c ar k c' ar k.
Proof. intros. by constructor; [..|apply io_same_refl|]. Qed.

Lemma io_eff_refl c ar k : io_eff [] c ar k c ar k.
Proof. apply io_eff_ctx; [apply grow_refl|done]. Qed.

Lemma pools_same_trans c1 c2 c3 : pools_same c1 c2 -> pools_same c2 c3 -> pools_same c1 c3.
Proof. unfold pools_same. intuition congruence. Qed.

Lemma io_same_trans k1 k2 k3 : io_same k1 k2 -> io_same k2 k3 -> io_same k1 k3.
Proof.
  unfold io_same, same_object. intros (?&?&?&?&?&?&?&Hc1) (?&?&?&?&?&?&?&Hc2).
  split_and!; try congruence. intros E. rewrite Hc2, Hc1; congruence.
Qed.

Lemma io_eff_trans a1 a2 c1 ar1 k1 c2 ar2 k2 c3 ar3 k3 :
  io_eff a1 c1 ar1 k1 c2 ar2 k2 -> io_eff a2 c2 ar2 k2 c3 ar3 k3 ->
  io_eff (a2 ++ a1) c1 ar1 k1 c3 ar3 k3.
Proof.
  intros [Hg1 Hp1 Hk1 [Hz1 Hs1]] [Hg2 Hp2 Hk2 [Hz2 Hs2]]. constructor.
  - by eapply grow_trans.
  - by eapply pools_same_trans.
  - by eapply io_same_trans.
  - split; [congruence|]. intros o n Ho Hr Hw. rewrite <- Hs1 by done.
    destruct Hp1 as (_ & _ & Eb & _). destruct Hk1 as (_ & _ & _ & Ei & Ep & Ef & Ex & Ec).
    apply Hs2; [done|..].
    + intros Hf. rewrite Ef in Hf. unfold window in *. rewrite Ex, Ec by done. auto.
    + unfold BufSize. rewrite Ei, Ep, Eb. auto.
Qed.

(** The effects of the pieces operations are made of. *)
Lemma io_eff_tick c ar k : io_eff [] c ar k (tick c) ar k.
Proof. apply io_eff_ctx; [apply grow_tick|done]. Qed.

Lemma AllocRequestData_pools c h r req c' : AllocRequestData c h r = Ok (req, c') -> pools_same c c'.
Proof.
  unfold AllocRequestData. destruct (req_pool_head_ c) as [l|].
  - destruct (heap c !! l); cbn; [|done]. by intros [= _ <-].
  - by intros [= _ <-].
Qed.

Lemma Submit_pools c o fixed h r c' : Submit c o fixed h r = Ok c' -> pools_same c c'.
Proof.
  unfold Submit. destruct (AllocRequestData c h r) as [[req c1]| |] eqn:E; cbn; [|done..].
  intros [= <-]. exact (AllocRequestData_pools _ _ _ _ _ E).
Qed.

Lemma await_suspend_pools c aw h r c' aw' :
  await_suspend c aw h r = Ok (c', aw') -> pools_same c c'.
Proof.
  unfold await_suspend. cbn. destruct (Submit _ _ _ _ _) as [c1| |] eqn:E; cbn; [|done..].
  intros [= <- _]. exact (Submit_pools _ _ _ _ _ _ E).
Qed.

Lemma io_eff_suspend c ar k aw h r c' aw' :
  await_suspend c aw h r = Ok (c', aw') -> io_eff [(h, r)] c ar k c' ar k.
Proof. intros E. apply io_eff_ctx; [by eapply grow_suspend|by eapply await_suspend_pools]. Qed.

Lemma Write_loop_ctx {K : Kernel} c ar k f st c' ar' k' :
  Write_loop c ar k f = Ok (st, c', ar', k') -> c' = c \/ c' = tick c.
Proof.
  unfold Write_loop. destruct (0 <? w_remaining f); [|by intros [= _ <- _ _]; left].
  destruct (WriteOnce _ _ _ _ _) as [[[[aw c1] ar1] k1]| |] eqn:E; cbn; [|done..].
  intros [= _ <- _ _]. right. revert E. unfold WriteOnce, io_uring_get_sqe.
  destruct (0 <=? write_buf_idx_ k); destruct (mem_read _ _ _); cbn; try done.
  - destruct (store _ _ _ _) as [[]| |]; cbn; try done.
    destruct (guard_ub _ _); cbn; [|done..]. by intros [= _ <- _ _].
  - destruct (mem_write _ _ _); cbn; try done.
    destruct (guard_ub _ _); cbn; [|done..]. by intros [= _ <- _ _].
Qed.

Lemma io_eff_write {K : Kernel} c ar k f st c' ar' k' :
  Write_loop c ar k f = Ok (st, c', ar', k') -> wr_ok c ar k -> same_conn k k' ->
  wr_frame c k ar ar' -> io_eff [] c ar k c' ar' k'.
Proof.
  intros HW Hwr Hk (Hz & Hd & Hs). constructor.
  - destruct (Write_loop_ctx _ _ _ _ _ _ _ _ HW) as [->| ->]; [apply grow_refl|apply grow_tick].
  - by destruct (Write_loop_ctx _ _ _ _ _ _ _ _ HW) as [->| ->].
  - rewrite Hk. by split_and!.
  - split; [done|]. intros o n Ho _ Hw.
    destruct (Z_lt_ge_dec (write_buf_idx_ k) 0) as [Hn|Hn]; [by rewrite Hd|].
    destruct (Hwr ltac:(lia)) as (a & Ha & _). by eapply Hs; [done..|]; apply Hw; [lia|].
Qed.

Lemma io_eff_read c ar k ar' k' :
  k' = set_read_buffer k (read_buffer_ k') -> same_object (read_buffer_ k) (read_buffer_ k') ->
  frame ar ar' (read_buffer_ k) -> io_eff [] c ar k c ar' k'.
Proof.
  intros Hk Hso (Hz & Hd & Hs). constructor; [apply grow_refl|done|..].
  - rewrite Hk. by split_and!.
  - split; [done|]. intros o n Ho Hr _.
    destruct (is_fixed_ (read_buffer_ k)) eqn:Ef; [apply Hs; auto|by rewrite Hd].
Qed.

(** * Properties *)

#[local] Instance open_kernel : Kernel :=
  {| k_get_sqe _ := true; k_files_update _ _ _ := 0 |}.

Lemma open_kernel_room : sq_never_full open_kernel.
Proof. intros n. reflexivity. Qed.

(** A context with four registered buffers of 8 bytes, and its arena. *)
Definition small_ctx : IoContext :=
  match IoContext_new all_ok true 4 8 with Ok c => c | _ => ctx_empty end.
Definition small_arena : Arena := replicate 32 Byte.x00.

(** The first connection on it, the context after, and a second one. *)
Definition conn1 : CoroConnection * IoContext :=
  match CoroConnection_new small_ctx 9 with Ok r => r | _ => (mkConn 0 true 0 0 nullptr 0 nullptr
    Buffer_default Buffer_default, ctx_empty) end.
Definition conn2 : CoroConnection * IoContext :=
  match CoroConnection_new conn1.2 10 with Ok r => r | _ => conn1 end.

Definition hello : bytes :=
  [Byte.x68; Byte.x65; Byte.x6c; Byte.x6c; Byte.x6f; Byte.x2c; Byte.x20; Byte.x77; Byte.x6f;
   Byte.x72; Byte.x6c; Byte.x64].

Lemma conn1_wr_ok : wr_ok conn1.2 small_arena conn1.1.
Proof. intros _. exists 16. vm_compute. intuition discriminate. Qed.

(** C18: Whatever partial writes the kernel makes, the bytes [Write] puts on
    the wire are a prefix of the caller's data, in order, without gaps or
    repetitions.  It returns the length once all of it is sent, the first
    non-positive result before that, and is suspended otherwise; memory outside
    its staging buffer is not touched. *)
Theorem write_sends_data_in_order (K : Kernel) c ar k data ws :
  sq_never_full K -> wr_ok c ar k -> zlen data <= VECTOR_MAX ->
  writes_valid c k ws (zlen data) ->
  exists r sent c' ar' k', Write c ar k data ws = Ok (r, sent, c', ar', k') /\
    wr_frame c k ar ar' /\ same_conn k k' /\
    exists unsent, data = sent ++ unsent /\
      (unsent = [] /\ r = Some (i32 (zlen data)) \/
       unsent <> [] /\ (r = None \/ exists w, r = Some w /\ w <= 0 /\ w ∈ ws)).
Proof.
  intros Hsq Hwr Hmax Hv. unfold Write, Write_start.
  destruct (Write_loop_ok c ar k data 0 (zlen data) data)
    as (st & c1 & ar1 & k1 & -> & Hst & Hbs & Hk & Hf); [done..|].
  cbn [mbind outcome_bind].
  destruct (Write_run_ok ws st c1 ar1 k1 (zlen data) data [])
    as (r & sent & c2 & ar2 & k2 & HR & Hspec & Hk2 & Hf2 & Hbs2); try done.
  { eapply wr_ok_same; [done|done|apply Hf|done]. }
  { by eapply writes_valid_same. }
  exists r, sent, c2, ar2, k2. split; [done|].
  destruct (write_spec_prefix ws data (zlen data) []) as (p & q & Hd & Hs & Hr).
  rewrite <- Hspec in Hs, Hr. cbn in Hs, Hr. subst p. split; [|split].
  - eapply wr_frame_trans; [done|]. destruct Hf2 as (? & ? & Hs2). rewrite Hk in *.
    unfold BufSize in *. rewrite Hbs in Hs2. done.
  - by eapply same_conn_trans.
  - by exists q.
Qed.

Lemma write_sends_data_in_order_witness :
  exists r sent c' ar' k', Write conn1.2 small_arena conn1.1 hello [5; 4; -32]
                           = Ok (r, sent, c', ar', k') /\
    wr_frame conn1.2 conn1.1 small_arena ar' /\ same_conn conn1.1 k' /\
    exists unsent, hello = sent ++ unsent /\
      (unsent = [] /\ r = Some (i32 (zlen hello)) \/
       unsent <> [] /\ (r = None \/ exists w, r = Some w /\ w <= 0 /\ w ∈ [5; 4; -32])).
Proof.
  apply (write_sends_data_in_order open_kernel conn1.2 small_arena conn1.1 hello [5; 4; -32]).
  - exact open_kernel_room.
  - exact conn1_wr_ok.
  - vm_compute; discriminate.
  - vm_compute. repeat split; discriminate.
Defined.

(** [Write] terminates: if every completion accepts at least one byte,
    then after at most as many completions as there are bytes it has sent all
    of the data and returned its length. *)
Theorem write_completes (K : Kernel) c ar k data ws :
  sq_never_full K -> wr_ok c ar k -> zlen data < 2 ^ 31 ->
  writes_valid c k ws (zlen data) -> Forall (fun w => 0 < w) ws -> zlen data <= zlen ws ->
  exists c' ar' k', Write c ar k data ws = Ok (Some (zlen data), data, c', ar', k').
Proof.
  intros Hsq Hwr Hmax Hv Hpos Hlen. pose proof (zlen_nonneg data). unfold Write, Write_start.
  destruct (Write_loop_ok c ar k data 0 (zlen data) data)
    as (st & c1 & ar1 & k1 & -> & Hst & Hbs & Hk & Hf); [done..|unfold VECTOR_MAX; lia|].
  cbn [mbind outcome_bind].
  destruct (Write_run_ok ws st c1 ar1 k1 (zlen data) data [])
    as (r & sent & c2 & ar2 & k2 & HR & Hspec & _); try done.
  { eapply wr_ok_same; [done|done|apply Hf|done]. }
  { unfold VECTOR_MAX; lia. }
  { by eapply writes_valid_same. }
  rewrite write_spec_finishes in Hspec by done. injection Hspec as -> ->.
  rewrite i32_small in HR by lia. eauto.
Qed.

Lemma write_completes_witness :
  exists c' ar' k', Write conn1.2 small_arena conn1.1 (take 3 hello) [1; 1; 1]
                    = Ok (Some 3, take 3 hello, c', ar', k').
Proof.
  apply (write_completes open_kernel conn1.2 small_arena conn1.1 (take 3 hello) [1; 1; 1]).
  - exact open_kernel_room.
  - exact conn1_wr_ok.
  - reflexivity.
  - vm_compute. repeat split; discriminate.
  - repeat constructor.
  - discriminate.
Defined.

(** A read that delivers bytes appends exactly those bytes to the
    connection's read buffer, behind whatever was left unread, and returns
    their number; and [Read] always leaves the kernel room for at least one
    byte unless the registered buffer is full of unread bytes. *)
Theorem read_appends_delivered_bytes (K : Kernel) c ar k bs :
  sq_never_full K -> rd_ok ar k -> zlen (received ar k) + 4096 <= VECTOR_MAX ->
  exists aw ar1 k1, Read c ar k = Ok (aw, tick c, ar1, k1) /\
    (sqe_len (sqe aw) = 0 <->
     is_fixed_ (read_buffer_ k) = true /\ zlen (received ar k) = capacity_ (read_buffer_ k)) /\
    (0 < zlen bs <= sqe_len (sqe aw) ->
     exists ar2 k2 k3, kernel_read ar1 k1 aw bs = Ok (ar2, k2) /\
       read_resume (complete aw (zlen bs)) k2 = (zlen bs, k3) /\ rd_ok ar2 k3 /\
       received ar2 k3 = received ar k ++ bs).
Proof.
  intros Hsq Hrd Hmax.
  destruct (Read_ok c ar k Hsq Hrd Hmax)
    as (aw & ar1 & k1 & HR & Hrd1 & Hrc & _ & _ & _ & Ha & Hl & Hz).
  exists aw, ar1, k1. split; [done|]. split; [done|]. rewrite Hl. intros Hbs.
  destruct (read_resume_ok ar1 k1 aw bs Hrd1 Ha Hbs) as (ar2 & k2 & k3 & H1 & H2 & H3 & H4 & _).
  exists ar2, k2, k3. rewrite <- Hrc. auto.
Qed.

Lemma conn1_rd_ok : rd_ok small_arena conn1.1.
Proof.
  split; [|split].
  - constructor; vm_compute; intuition discriminate.
  - reflexivity.
  - intros _. vm_compute. split; reflexivity.
Qed.

Lemma read_appends_delivered_bytes_witness :
  exists aw ar1 k1, Read conn1.2 small_arena conn1.1 = Ok (aw, tick conn1.2, ar1, k1) /\
    (sqe_len (sqe aw) = 0 <->
     is_fixed_ (read_buffer_ conn1.1) = true /\
     zlen (received small_arena conn1.1) = capacity_ (read_buffer_ conn1.1)) /\
    (0 < zlen [Byte.x01] <= sqe_len (sqe aw) ->
     exists ar2 k2 k3, kernel_read ar1 k1 aw [Byte.x01] = Ok (ar2, k2) /\
       read_resume (complete aw (zlen [Byte.x01])) k2 = (zlen [Byte.x01], k3) /\ rd_ok ar2 k3 /\
       received ar2 k3 = received small_arena conn1.1 ++ [Byte.x01]).
Proof.
  apply (read_appends_delivered_bytes open_kernel conn1.2 small_arena conn1.1 [Byte.x01]).
  - exact open_kernel_room.
  - exact conn1_rd_ok.
  - vm_compute; discriminate.
Defined.

(** C38: A registered read buffer that is full of unread bytes makes [Read]
    submit a read of length zero, because the failure of [EnsureWritable] is
    ignored.  A kernel read of zero bytes completes with 0, and the resumed
    reader sees the same result as at end of file: a message that does not fit
    the registered buffer ends the connection. *)
Theorem full_read_buffer_looks_like_eof (K : Kernel) c ar k :
  sq_never_full K -> rd_ok ar k -> 0 <= read_buf_idx_ k ->
  zlen (received ar k) = capacity_ (read_buffer_ k) ->
  zlen (received ar k) + 4096 <= VECTOR_MAX ->
  exists aw ar1 k1, Read c ar k = Ok (aw, tick c, ar1, k1) /\ sqe_len (sqe aw) = 0 /\
    exists k2, read_resume (complete aw (sqe_len (sqe aw))) k1 = (0, k2) /\
      received ar1 k2 = received ar k.
Proof.
  intros Hsq Hrd Hi Hfull Hmax.
  destruct (Read_ok c ar k Hsq Hrd Hmax)
    as (aw & ar1 & k1 & HR & Hrd1 & Hrc & _ & _ & _ & _ & _ & Hz).
  assert (Hl : sqe_len (sqe aw) = 0).
  { apply Hz. split; [|done]. destruct Hrd as (_ & -> & _). by apply Z.leb_le. }
  exists aw, ar1, k1. split; [done|]. split; [done|]. rewrite Hl.
  unfold read_resume, ReadAwaitable_await_resume, complete. cbn. eexists. split; [done|].
  by destruct k1.
Qed.

Definition full_conn : CoroConnection :=
  set_read_buffer conn1.1 (set_indices (read_buffer_ conn1.1) 8 0).

Lemma full_read_buffer_looks_like_eof_witness :
  exists aw ar1 k1, Read conn1.2 small_arena full_conn = Ok (aw, tick conn1.2, ar1, k1) /\
    sqe_len (sqe aw) = 0 /\
    exists k2, read_resume (complete aw (sqe_len (sqe aw))) k1 = (0, k2) /\
      received ar1 k2 = received small_arena full_conn.
Proof.
  apply (full_read_buffer_looks_like_eof open_kernel conn1.2 small_arena full_conn).
  - exact open_kernel_room.
  - split; [|split].
    + constructor; vm_compute; intuition discriminate.
    + reflexivity.
    + intros _. vm_compute. split; reflexivity.
  - discriminate.
  - reflexivity.
  - vm_compute; discriminate.
Defined.

(** C13: Pooled resources are conserved.  Starting from a new context, however
    connections are constructed, used for I/O, closed and destroyed, every
    registered buffer and every file slot is either free or held by exactly
    one connection, and once all connections are closed the pools are complete
    again: nothing leaks and nothing is freed twice. *)
Theorem connection_pools_conserved (K : Kernel) c0 ks c :
  reachable c0 (ks, c) ->
  free_buf_indices_ c ++ (ks ≫= conn_bufs) ≡ₚ free_buf_indices_ c0 /\
  free_file_indices_ c ++ (ks ≫= conn_files) ≡ₚ free_file_indices_ c0 /\
  NoDup (free_buf_indices_ c ++ (ks ≫= conn_bufs)) /\
  (Forall (fun k => closed_ k = true) ks ->
   free_buf_indices_ c ≡ₚ free_buf_indices_ c0 /\ free_file_indices_ c ≡ₚ free_file_indices_ c0).
Proof.
  intros HR. destruct (reachable_ok _ _ HR) as (pool & n & Hb0 & Hf0 & [[Hb Hf _] Hcl] & Ht).
  cbn in *. unfold files_ok in Hf, Hf0. unfold table in Ht. injection Ht as Ht1 Ht2.
  rewrite Ht1, Ht2 in Hf. pose proof (bufs_perm _ _ _ _ Hb) as Hp.
  pose proof (bufs_perm _ _ _ _ Hb0) as Hp0. rewrite app_nil_r in Hp0, Hf0.
  split_and!.
  - by rewrite Hp, Hp0.
  - by rewrite Hf, Hf0.
  - rewrite Hp. apply NoDup_seqZ.
  - intros Hall. destruct (all_closed_empty ks Hcl Hall) as [E1 E2].
    rewrite E1, app_nil_r in Hp. rewrite E2, app_nil_r in Hf. by rewrite Hp, Hp0, Hf, Hf0.
Qed.

Lemma small_reachable : reachable small_ctx ([conn2.1; conn1.1], conn2.2).
Proof.
  split.
  - exists all_ok, true, 4, 8. split_and!; [discriminate..|reflexivity].
  - assert (E1 : CoroConnection_new small_ctx 9 = Ok (conn1.1, conn1.2)) by (vm_compute; reflexivity).
    assert (E2 : CoroConnection_new conn1.2 10 = Ok (conn2.1, conn2.2)) by (vm_compute; reflexivity).
    eapply rtc_l; [exact (step_new [] small_ctx 9 _ _ E1)|].
    eapply rtc_l; [exact (step_new [conn1.1] conn1.2 10 _ _ E2)|]. apply rtc_refl.
Qed.

Lemma connection_pools_conserved_witness :
  free_buf_indices_ conn2.2 ++ ([conn2.1; conn1.1] ≫= conn_bufs) ≡ₚ free_buf_indices_ small_ctx /\
  free_file_indices_ conn2.2 ++ ([conn2.1; conn1.1] ≫= conn_files) ≡ₚ free_file_indices_ small_ctx /\
  NoDup (free_buf_indices_ conn2.2 ++ ([conn2.1; conn1.1] ≫= conn_bufs)) /\
  (Forall (fun k => closed_ k = true) [conn2.1; conn1.1] ->
   free_buf_indices_ conn2.2 ≡ₚ free_buf_indices_ small_ctx /\
   free_file_indices_ conn2.2 ≡ₚ free_file_indices_ small_ctx).
Proof.
  apply (connection_pools_conserved open_kernel small_ctx [conn2.1; conn1.1] conn2.2).
  exact small_reachable.
Defined.

(** Writing on one connection disturbs no reader: in every reachable
    state, staging data for a write of connection [k1] leaves the unread bytes
    of every connection, its own included, as they were, although staging and
    read buffers share the registered memory. *)
Theorem writes_do_not_disturb_reads (K : Kernel) c0 ks c ar k1 k2 data len aw c' ar' k1' :
  reachable c0 (ks, c) -> k1 ∈ ks -> k2 ∈ ks ->
  sq_never_full K -> wr_ok c ar k1 -> rd_ok ar k2 ->
  0 < len <= zlen data -> len <= VECTOR_MAX ->
  WriteOnce c ar k1 data len = Ok (aw, c', ar', k1') ->
  received ar' k2 = received ar k2.
Proof.
  intros HR H1 H2 Hsq Hwr Hrd Hlen Hmax HW.
  destruct (reachable_ok _ _ HR) as (pool & n & _ & _ & [[Hb _ Hwin] _] & _). cbn [fst snd] in *.
  destruct (WriteOnce_ok c ar k1 data len Hsq Hwr Hlen Hmax)
    as (aw1 & ar1 & k1'' & E & _ & _ & _ & _ & Hz & Hdyn & Hfr).
  rewrite HW in E. injection E as _ _ <- _.
  rewrite Forall_forall in Hwin. pose proof (Hwin k1 H1) as [_ Hw1 _].
  pose proof (Hwin k2 H2) as [Hr2 _ _].
  unfold received, contents, block.
  destruct (is_fixed_ (read_buffer_ k2)) eqn:Ef; [|done].
  destruct Hrd as (Hwf2 & Hfix & _). destruct (wf_win _ _ Hwf2 Ef) as [Hw0 _].
  rewrite Ef in Hfix. symmetry in Hfix. apply Z.leb_le in Hfix.
  destruct (Hr2 Hfix) as (Hext & Hcap & _).
  destruct (Z_lt_ge_dec (write_buf_idx_ k1) 0) as [Hneg|Hpos]; [by rewrite Hdyn|].
  assert (Hpos' : 0 <= write_buf_idx_ k1) by lia.
  destruct (Hwr Hpos') as (a & Ha & Ha0 & _ & Hbs).
  pose proof (Hw1 Hpos') as Hw1'. rewrite Ha in Hw1'. injection Hw1' as ->.
  pose proof (read_write_distinct ks k1 k2 (bufs_nodup _ _ _ _ Hb) H1 H2 Hpos' Hfix) as Hne.
  unfold window in *. rewrite Hext in *. rewrite Hcap. unfold BufSize in *.
  destruct (windows_disjoint pool (buf_size_ c) (write_buf_idx_ k1) (read_buf_idx_ k2)) as [Hd|Hd];
    [lia|done| |]; f_equal; (eapply Hfr; [done|lia|lia]).
Qed.

Lemma writes_do_not_disturb_reads_witness :
  exists aw ar' k',
    WriteOnce conn2.2 small_arena conn1.1 hello 12 = Ok (aw, tick conn2.2, ar', k') /\
    received ar' conn2.1 = received small_arena conn2.1.
Proof.
  destruct (WriteOnce_ok conn2.2 small_arena conn1.1 hello 12) as (aw & ar' & k' & E & _).
  - exact open_kernel_room.
  - intros _. exists 16. vm_compute. intuition discriminate.
  - vm_compute. split; [reflexivity|discriminate].
  - vm_compute; discriminate.
  - exists aw, ar', k'. split; [exact E|].
    apply (writes_do_not_disturb_reads open_kernel small_ctx [conn2.1; conn1.1] conn2.2 small_arena
             conn1.1 conn2.1 hello 12 aw (tick conn2.2) ar' k').
    + exact small_reachable.
    + right. left.
    + left.
    + exact open_kernel_room.
    + intros _. exists 16. vm_compute. intuition discriminate.
    + split; [|split].
      * constructor; vm_compute; intuition discriminate.
      * reflexivity.
      * intros _. vm_compute. split; reflexivity.
    + vm_compute. split; [reflexivity|discriminate].
    + vm_compute; discriminate.
    + exact E.
Defined.

(** [Close] is idempotent: closing again, as the destructor does after an
    explicit [Close], changes neither the connection nor the pools and does
    not close the descriptor a second time. *)
Theorem close_idempotent c k k' c' o :
  Close c k = (k', c', o) -> Close c' k' = (k', c', None) /\ closed_ k' = true /\
  (o = None <-> closed_ k = true).
Proof.
  destruct (closed_ k) eqn:E.
  - unfold Close. rewrite E. intros [= <- <- <-]. by rewrite E.
  - destruct (Close_open c k E) as (rp & wp & ->). by intros [= <- <- <-].
Qed.

Lemma close_idempotent_witness :
  exists k' c' o, Close conn1.2 conn1.1 = (k', c', o) /\ Close c' k' = (k', c', None) /\
    closed_ k' = true /\ (o = None <-> closed_ conn1.1 = true).
Proof.
  destruct (Close conn1.2 conn1.1) as [[k' c'] o] eqn:E. exists k', c', o.
  split; [reflexivity|]. apply (close_idempotent conn1.2 conn1.1 k' c' o). exact E.
Defined.
