(* ===== verification/ResponseQueue.v ===== *)
(** The queue between handler coroutines and the write loop of a connection
    ([src/response_queue.h]).

    [Push] and [Close] end by resuming the waiting coroutine on the caller's
    stack; the functions return the handle to resume, and whoever calls them
    runs it as the next thing. *)
From S2P Require Import Prelude IoContext.

Record ResponseQueue := mkQueue {
  items_ : list bytes;
  waiter_ : option coro;
  closed_ : bool
}.

Definition ResponseQueue_new : ResponseQueue := mkQueue [] None false.

(** * PopAwaitable *)

Definition pop_await_ready (q : ResponseQueue) : bool :=
  negb (bool_decide (items_ q = [])) || closed_ q.

Definition pop_await_suspend (q : ResponseQueue) (h : coro) : ResponseQueue :=
  mkQueue (items_ q) (Some h) (closed_ q).

Definition pop_await_resume (q : ResponseQueue) : option bytes * ResponseQueue :=
  match items_ q with
  | [] => (None, q)
  | item :: rest => (Some item, mkQueue rest (waiter_ q) (closed_ q))
  end.

(** * Producer side *)

(** [std::exchange(waiter_, {})] *)
Definition take_waiter (q : ResponseQueue) : ResponseQueue * option coro :=
  (mkQueue (items_ q) None (closed_ q), waiter_ q).

Definition Push (q : ResponseQueue) (data : bytes) : ResponseQueue * option coro :=
  take_waiter (mkQueue (items_ q ++ [data]) (waiter_ q) (closed_ q)).

Definition Close (q : ResponseQueue) : ResponseQueue * option coro :=
  take_waiter (mkQueue (items_ q) (waiter_ q) true).

(** * The queue with its consumer

    The consumer is the documented loop: pop, process the item, repeat until
    [Pop] yields nothing or processing fails.  Between two events it is
    waiting in [Pop], busy with an item, or gone. *)

Inductive consumer : Type :=
| Waiting
| Busy (item : bytes)
| Exited (failed : bool).

Record QSys := mkQSys { queue : ResponseQueue; cons : consumer; delivered : list bytes }.

Inductive qevent : Type :=
| EvPush (data : bytes)
| EvClose
| EvDone (ok : bool).       (* processing of the current item ended *)

Section Machine.
Context (h : coro).

(** [co_await queue->Pop()] once it does not (or no longer) suspend. *)
Definition after_pop (s : QSys) : QSys :=
  let '(item, q) := pop_await_resume (queue s) in
  mkQSys q (match item with Some d => Busy d | None => Exited false end) (delivered s).

(** The head of the consumer's loop. *)
Definition at_pop (s : QSys) : QSys :=
  if pop_await_ready (queue s) then after_pop s
  else mkQSys (pop_await_suspend (queue s) h) Waiting (delivered s).

Definition wake (r : ResponseQueue * option coro) (s : QSys) : QSys :=
  let '(q, w) := r in
  let s := mkQSys q (cons s) (delivered s) in
  match w with Some _ => after_pop s | None => s end.

Definition qstep (s : QSys) (e : qevent) : QSys :=
  match e with
  | EvPush d => wake (Push (queue s) d) s
  | EvClose => wake (Close (queue s)) s
  | EvDone ok =>
      match cons s with
      | Busy d =>
          if ok then at_pop (mkQSys (queue s) (cons s) (delivered s ++ [d]))
          else mkQSys (queue s) (Exited true) (delivered s)
      | _ => s
      end
  end.

Definition qinit : QSys := at_pop (mkQSys ResponseQueue_new Waiting []).

Definition qrun (es : list qevent) : QSys := fold_left qstep es qinit.

End Machine.

Definition in_progress (c : consumer) : list bytes :=
  match c with Busy d => [d] | _ => [] end.

(** Everything pushed by a sequence of events. *)
Definition pushed (es : list qevent) : list bytes :=
  es ≫= (fun e => match e with EvPush d => [d] | _ => [] end).

Definition was_closed (es : list qevent) : bool :=
  existsb (fun e => match e with EvClose => true | _ => false end) es.

(** * Invariant *)

(** [lost] is the item whose processing failed. *)
Record q_ok (h : coro) (all : list bytes) (closed : bool) (s : QSys) : Prop := {
  qo_closed : closed_ (queue s) = closed;
  qo_waiter : waiter_ (queue s) = (if cons s is Waiting then Some h else None);
  qo_waiting : cons s = Waiting -> items_ (queue s) = [] /\ closed = false;
  qo_fifo : match cons s with
            | Exited true => exists lost, all = delivered s ++ lost :: items_ (queue s)
            | _ => all = delivered s ++ in_progress (cons s) ++ items_ (queue s)
            end;
  qo_exit : cons s = Exited false -> closed = true
}.

Lemma after_pop_ok h all closed q d :
  closed_ q = closed -> waiter_ q = None -> all = d ++ items_ q ->
  (items_ q = [] -> closed = true) ->
  forall c, q_ok h all closed (after_pop (mkQSys q c d)).
Proof.
  intros Hc Hw Ha He c. unfold after_pop, pop_await_resume. cbn.
  destruct (items_ q) as [|x rest] eqn:E; constructor; cbn; rewrite ?E; auto; done.
Qed.

Lemma at_pop_ok h all closed q d c :
  closed_ q = closed -> waiter_ q = None -> all = d ++ items_ q ->
  q_ok h all closed (at_pop h (mkQSys q c d)).
Proof.
  intros Hc Hw Ha. unfold at_pop, pop_await_ready. cbn.
  destruct (bool_decide (items_ q = [])) eqn:E; cbn.
  - apply bool_decide_eq_true in E. destruct (closed_ q) eqn:Ec.
    + apply after_pop_ok; auto; congruence.
    + constructor; cbn; rewrite ?E, ?Ec in *; try done; auto.
  - apply bool_decide_eq_false in E. apply after_pop_ok; auto; congruence.
Qed.

Lemma qstep_ok h all closed s e :
  q_ok h all closed s ->
  q_ok h (all ++ pushed [e]) (closed || was_closed [e]) (qstep h s e).
Proof.
  intros [Hc Hw Hwt Hf He]. destruct s as [q c d]. cbn [queue cons delivered] in *.
  destruct e as [x| |ok]; cbn [qstep pushed was_closed existsb mbind list_bind orb]; cbn;
    rewrite ?app_nil_r, ?orb_false_r, ?orb_true_r.
  - rewrite Hw. destruct c as [|y|[]]; cbn.
    + destruct (Hwt eq_refl) as [E1 E2]. apply after_pop_ok; cbn; auto.
      * rewrite Hf. cbn. by rewrite E1, app_nil_r.
      * by destruct (items_ q).
    + constructor; cbn; auto; try done. rewrite Hf. cbn. by rewrite <- app_assoc.
    + constructor; cbn; auto; try done. destruct Hf as [lost ->]. exists lost.
      by rewrite <- app_assoc.
    + constructor; cbn; auto; try done. rewrite Hf. cbn. by rewrite <- app_assoc.
  - rewrite Hw. destruct c as [|y|[]]; cbn.
    + destruct (Hwt eq_refl) as [E1 E2]. by apply after_pop_ok; cbn; auto.
    + by constructor; cbn; auto.
    + by constructor; cbn; auto.
    + by constructor; cbn; auto.
  - destruct c as [|y|f]; try by constructor.
    destruct ok.
    + apply at_pop_ok; [done|done|]. rewrite Hf. cbn. by rewrite <- app_assoc.
    + constructor; cbn; auto; try done. exists y. by rewrite Hf.
Qed.

Lemma pushed_app es es' : pushed (es ++ es') = pushed es ++ pushed es'.
Proof. apply bind_app. Qed.

Lemma qrun_ok h es : q_ok h (pushed es) (was_closed es) (qrun h es).
Proof.
  induction es as [|e es IH] using rev_ind.
  - by apply at_pop_ok.
  - unfold qrun in *. rewrite fold_left_app. cbn [fold_left].
    rewrite pushed_app. unfold was_closed. rewrite existsb_app. by apply qstep_ok.
Qed.

(** ** Progress after Close *)

Lemma qrun_app h es es' : qrun h (es ++ es') = fold_left (qstep h) es' (qrun h es).
Proof. apply fold_left_app. Qed.

Definition backlog (s : QSys) : list bytes := in_progress (cons s) ++ items_ (queue s).

(** On a closed queue the consumer is busy, or gone with nothing left. *)
Definition draining (s : QSys) : Prop :=
  closed_ (queue s) = true /\
  match cons s with
  | Waiting => False
  | Busy _ => True
  | Exited failed => failed = false /\ items_ (queue s) = []
  end.

Lemma qdone_draining h s :
  draining s ->
  draining (qstep h s (EvDone true)) /\
  backlog (qstep h s (EvDone true)) = tail (backlog s) /\
  delivered (qstep h s (EvDone true)) ++ backlog (qstep h s (EvDone true)) = delivered s ++ backlog s.
Proof.
  destruct s as [q c d]. unfold draining, backlog. cbn. intros [Hc Hs].
  destruct c as [|y|[]]; cbn in *; [done| |by destruct Hs|].
  - unfold at_pop, pop_await_ready. cbn. rewrite Hc, orb_true_r.
    unfold after_pop, pop_await_resume. cbn.
    destruct (items_ q) eqn:E; cbn; rewrite ?Hc, ?E; split_and!; try done.
    all: by rewrite ?app_nil_r, <- ?app_assoc.
  - destruct Hs as [_ ->]. done.
Qed.

Lemma drain_done h n : forall s,
  draining s -> (length (backlog s) <= n)%nat ->
  let s' := fold_left (qstep h) (replicate n (EvDone true)) s in
  cons s' = Exited false /\ delivered s' = delivered s ++ backlog s.
Proof.
  induction n as [|n IH]; intros s Hd Hl; cbn zeta; cbn [replicate fold_left].
  - destruct Hd as [_ Hd]. unfold backlog in *. destruct (cons s) as [|y|[]]; cbn in *; [done|lia|by destruct Hd|].
    destruct Hd as [_ ->]. by rewrite app_nil_r.
  - destruct (qdone_draining h s Hd) as (Hd' & Hb & Ha).
    destruct (IH _ Hd') as [H1 H2]; [rewrite Hb; destruct (backlog s); cbn in *; lia|].
    split; [done|]. by rewrite H2, Ha.
Qed.

Lemma was_closed_open h all s : q_ok h all false s -> cons s <> Exited false.
Proof. intros Hok E. by apply qo_exit in Hok. Qed.

(** Closing an open queue whose consumer has not failed starts the drain. *)
Lemma close_draining h all s :
  q_ok h all false s -> cons s <> Exited true ->
  draining (qstep h s EvClose) /\
  all = delivered (qstep h s EvClose) ++ backlog (qstep h s EvClose).
Proof.
  intros Hok Hnf. pose proof (was_closed_open _ _ _ Hok) as Hne.
  destruct Hok as [Hc Hw Hwt Hf _]. destruct s as [q c d]. cbn [queue cons delivered] in *.
  unfold draining, backlog. cbn. rewrite Hw.
  destruct c as [|y|[]]; cbn; [|done..].
  destruct (Hwt eq_refl) as [E _]. unfold after_pop, pop_await_resume. cbn. rewrite E. cbn.
  rewrite Hf. cbn. by rewrite E.
Qed.

(** Once the consumer is gone, it stays gone. *)
Lemma exited_stays h es : forall all closed s f,
  q_ok h all closed s -> cons s = Exited f ->
  let s' := fold_left (qstep h) es s in
  cons s' = Exited f /\ delivered s' = delivered s /\
  items_ (queue s') = items_ (queue s) ++ pushed es.
Proof.
  induction es as [|e es IH]; intros all closed s f Hok Hc; cbn zeta; cbn [fold_left].
  { by rewrite app_nil_r. }
  pose proof (qstep_ok h all closed s e Hok) as Hok'.
  assert (Hs : cons (qstep h s e) = Exited f /\ delivered (qstep h s e) = delivered s /\
               items_ (queue (qstep h s e)) = items_ (queue s) ++ pushed [e]).
  { pose proof (qo_waiter _ _ _ _ Hok) as Hw. rewrite Hc in Hw.
    destruct s as [q c d]. cbn [queue cons delivered] in *. subst c.
    destruct e; cbn; rewrite ?Hw, ?app_nil_r; cbn; done. }
  destruct Hs as (H1 & H2 & H3). destruct (IH _ _ _ _ Hok' H1) as (I1 & I2 & I3).
  split_and!; [done|congruence|]. rewrite I3, H3, <- app_assoc, <- pushed_app. done.
Qed.

(** * Properties *)

(** C19: The queue is a FIFO without loss, duplication or missed wake-up, for
    every interleaving of pushes, closes and completions: what was pushed is
    what was delivered, then the item being processed (or the one whose
    processing failed), then the queued items, in order; and the consumer is
    only ever asleep on an empty, open queue, with its handle registered. *)
Theorem queue_fifo_no_lost_wakeup h es :
  let s := qrun h es in
  (match cons s with
   | Exited true => exists lost, pushed es = delivered s ++ lost :: items_ (queue s)
   | _ => pushed es = delivered s ++ in_progress (cons s) ++ items_ (queue s)
   end) /\
  (cons s = Waiting -> items_ (queue s) = [] /\ was_closed es = false /\ waiter_ (queue s) = Some h) /\
  (cons s <> Waiting -> waiter_ (queue s) = None).
Proof.
  destruct (qrun_ok h es) as [Hc Hw Hwt Hf He]. cbn zeta. split_and!; [done| |].
  - intros E. rewrite E in Hw. destruct (Hwt E). done.
  - intros E. rewrite Hw. by destruct (cons _).
Qed.

(** [Close] does not discard anything: after it, one successful
    completion per outstanding item makes the consumer deliver everything that
    was pushed and leave its loop. *)
Theorem close_drains_queue h es n :
  was_closed es = false -> cons (qrun h es) <> Exited true ->
  (length (pushed es) <= n)%nat ->
  let s := qrun h (es ++ EvClose :: replicate n (EvDone true)) in
  cons s = Exited false /\ delivered s = pushed es.
Proof.
  intros Hcl Hnf Hn. cbn zeta. rewrite qrun_app. cbn [fold_left].
  pose proof (qrun_ok h es) as Hok. rewrite Hcl in Hok.
  destruct (close_draining _ _ _ Hok Hnf) as [Hd Ha].
  destruct (drain_done h n _ Hd) as [H1 H2].
  - rewrite Ha, length_app in Hn. lia.
  - split; [done|]. by rewrite H2, <- Ha.
Qed.

Lemma close_drains_queue_witness :
  let s := qrun 1%positive ([EvPush [Byte.x01]; EvPush [Byte.x02]] ++
                            EvClose :: replicate 2 (EvDone true)) in
  cons s = Exited false /\ delivered s = pushed [EvPush [Byte.x01]; EvPush [Byte.x02]].
Proof.
  apply (close_drains_queue 1%positive [EvPush [Byte.x01]; EvPush [Byte.x02]] 2).
  - reflexivity.
  - vm_compute. discriminate.
  - vm_compute. repeat constructor.
Defined.

(** A response pushed after the consumer has left its loop is never
    delivered: it stays in the queue, whatever happens afterwards.  A handler
    that is still working when the read loop closes an empty queue loses its
    response. *)
Theorem late_pushes_are_dropped h es es' f :
  cons (qrun h es) = Exited f ->
  delivered (qrun h (es ++ es')) = delivered (qrun h es) /\
  items_ (queue (qrun h (es ++ es'))) = items_ (queue (qrun h es)) ++ pushed es'.
Proof.
  intros Hc. rewrite qrun_app.
  destruct (exited_stays h es' _ _ _ f (qrun_ok h es) Hc) as (_ & ? & ?). done.
Qed.

Lemma late_pushes_are_dropped_witness :
  cons (qrun 1%positive [EvClose]) = Exited false /\
  delivered (qrun 1%positive ([EvClose] ++ [EvPush [Byte.x01]; EvDone true])) = [] /\
  items_ (queue (qrun 1%positive ([EvClose] ++ [EvPush [Byte.x01]; EvDone true]))) = [[Byte.x01]].
Proof.
  split; [reflexivity|].
  apply (late_pushes_are_dropped 1%positive [EvClose] [EvPush [Byte.x01]; EvDone true] false).
  reflexivity.
Defined.
