(* ===== verification/Echo.v ===== *)
(** The echo server's connection handler ([examples/coro_echo.cpp]): the read
    loop with its frame dispatcher, the request handler, and the write loop,
    as the coroutines of one connection.

    Between two completions a session is described by where its two
    long-lived coroutines are suspended.  [Sess] holds that together with the
    connection, the queue they share, and the context and arena the session
    works on.  [sent] records the bytes the kernel has taken, in order.  The
    generated protobuf classes are a parameter ([Protobuf]). *)
From S2P Require Import Prelude Buffer Protocol IoContext Coro Ledger Connection ResponseQueue.

(** [EchoRequest::ParseFromArray] (the [message] field, or failure) and
    [EchoResponse::SerializeToString]. *)
Class Protobuf := {
  ParseFromArray : bytes -> option bytes;
  SerializeToString : bytes -> bytes
}.

(** "Echo: " *)
Definition echo_prefix : bytes :=
  [Byte.x45; Byte.x63; Byte.x68; Byte.x6f; Byte.x3a; Byte.x20].

Inductive reader : Type :=
| Reading (aw : IoAwaitable)        (* suspended in co_await conn->Read() *)
| ReaderDone.

Inductive writer : Type :=
| InPop                             (* suspended in co_await queue->Pop() *)
| InWrite (f : WriteFrame) (aw : IoAwaitable)   (* suspended in co_await conn->Write() *)
| WriterDone.

Record Sess := mkSess {
  ctx : IoContext;
  arena : Arena;
  conn : CoroConnection;
  rq : ResponseQueue;
  rd : reader;
  wr : writer;
  sent : bytes
}.

Definition set_io s c ar k := mkSess c ar k (rq s) (rd s) (wr s) (sent s).
Definition set_rq s q := mkSess (ctx s) (arena s) (conn s) q (rd s) (wr s) (sent s).
Definition set_rd s r := mkSess (ctx s) (arena s) (conn s) (rq s) r (wr s) (sent s).
Definition set_wr s w := mkSess (ctx s) (arena s) (conn s) (rq s) (rd s) w (sent s).
Definition set_sent s b := mkSess (ctx s) (arena s) (conn s) (rq s) (rd s) (wr s) b.

(** The header object [handleConnection] declares before it is parsed into. *)
Definition blank_header : RpcHeader := mkHeader 0 0 0 0 0.

Section Session.
Context {K : Kernel} {HO : HostOrder} {PB : Protobuf}.
(** The handles of the two coroutines and the addresses of the results of
    their awaitables. *)
Context (h_read h_write : coro) (r_read r_write : cell).

(** * writeLoop *)

(** What follows [Write] inside [writeLoop]: suspend with it, or look at the
    value it returned. *)
Definition after_write (again : Sess -> outcome Sess) (s : Sess) (st : write_status)
  : outcome Sess :=
  match st with
  | WriteReturns v => if v <=? 0 then Ok (set_wr s WriterDone) else again s
  | WriteSuspended f aw =>
      '(c, aw) ← await_suspend (ctx s) aw h_write r_write;
      Ok (set_wr (set_io s c (arena s) (conn s)) (InWrite f aw))
  end.

(** The loop, from [co_await queue->Pop()]; [resumed] when it was suspended
    there and has been resumed.  Each turn takes an item, so one more than the
    number of items is enough fuel. *)
Fixpoint writeLoop (fuel : nat) (resumed : bool) (s : Sess) : outcome Sess :=
  match fuel with
  | O => UB "out of fuel"
  | S fuel =>
      if resumed || pop_await_ready (rq s) then
        let '(item, q) := pop_await_resume (rq s) in
        let s := set_rq s q in
        match item with
        | None => Ok (set_wr s WriterDone)
        | Some d =>
            '(st, c, ar, k) ← Write_start (ctx s) (arena s) (conn s) d;
            after_write (writeLoop fuel false) (set_io s c ar k) st
        end
      else Ok (set_wr (set_rq s (pop_await_suspend (rq s) h_write)) InPop)
  end.

Definition run_writer (resumed : bool) (s : Sess) : outcome Sess :=
  writeLoop (S (length (items_ (rq s)))) resumed s.

(** [h.resume()] at the end of [Push] and [Close]. *)
Definition wake_writer (r : ResponseQueue * option coro) (s : Sess) : outcome Sess :=
  let '(q, w) := r in
  match w with
  | Some _ => run_writer true (set_rq s q)
  | None => Ok (set_rq s q)
  end.

(** * handleRequest *)

(** The part that can throw: build the response and encode it. *)
Definition encode_response (ar : Arena) (h : RpcHeader) (msg : bytes) : outcome bytes :=
  let resp_bytes := SerializeToString (echo_prefix ++ msg) in
  let resp_header := mkHeader (magic h) (version h) 1 (seq_id h) (payload_len h) in
  '(ar, b) ← EncodeMessage ar Buffer_default resp_header resp_bytes;
  load ar b (ReadBegin b) (ReadableBytes b).

(** A [Task]: an exception ends it and is swallowed; the only code that can
    throw runs before the queue is touched. *)
Definition handleRequest (h : RpcHeader) (payload : bytes) (s : Sess) : outcome Sess :=
  Task_body
    (match ParseFromArray payload with
     | None => Ok s
     | Some msg =>
         data ← encode_response (arena s) h msg;
         wake_writer (Push (rq s) data) s
     end) s.

(** * handleConnection *)

(** The inner loop: parse and dispatch complete frames.  Every turn but the
    last consumes a frame, so one more than the readable bytes is enough
    fuel. *)
Fixpoint dispatch (fuel : nat) (s : Sess) : outcome Sess :=
  match fuel with
  | O => UB "out of fuel"
  | S fuel =>
      let buf := read_buffer_ (conn s) in
      if HEADER_SIZE <=? ReadableBytes buf then
        '(payload_opt, header, buf) ← ParseMessage (arena s) buf blank_header;
        let s := set_io s (ctx s) (arena s) (set_read_buffer (conn s) buf) in
        match payload_opt with
        | None => Ok s
        | Some payload =>
            s ← (if msg_type header =? 0 then handleRequest header payload s else Ok s);
            dispatch fuel s
        end
      else Ok s
  end.

(** [int n = co_await conn->Read();] up to the suspension. *)
Definition start_read (s : Sess) : outcome Sess :=
  '(aw, c, ar, k) ← Read (ctx s) (arena s) (conn s);
  '(c, aw) ← await_suspend c aw h_read r_read;
  Ok (set_rd (set_io s c ar k) (Reading aw)).

(** When both coroutines are gone the last reference to the connection is
    dropped, and its destructor closes it. *)
Definition release (s : Sess) : Sess :=
  match rd s, wr s with
  | ReaderDone, WriterDone =>
      let '(k, c, _) := Connection.Close (ctx s) (conn s) in set_io s c (arena s) k
  | _, _ => s
  end.

(** From the call by the accept loop to the first suspension of the read
    loop: create the queue, start the write loop, start reading. *)
Definition handleConnection (c : IoContext) (ar : Arena) (k : CoroConnection) : outcome Sess :=
  s ← run_writer false (mkSess c ar k ResponseQueue_new ReaderDone WriterDone []);
  start_read s.

(** The read loop resumed with result [n] in its awaitable. *)
Definition reader_resume (n : Z) (s : Sess) : outcome Sess :=
  match rd s with
  | ReaderDone => UB "resumed a finished coroutine"
  | Reading aw =>
      let '(n, k) := read_resume (complete aw n) (conn s) in
      let s := set_io s (ctx s) (arena s) k in
      if n <=? 0 then
        s ← wake_writer (Close (rq s)) (set_rd s ReaderDone);
        Ok (release s)
      else
        s ← dispatch (S (Z.to_nat (ReadableBytes (read_buffer_ (conn s))))) s;
        start_read s
  end.

(** The write loop resumed, inside [Write], with result [w]. *)
Definition writer_resume (w : Z) (s : Sess) : outcome Sess :=
  match wr s with
  | InWrite f aw =>
      bs ← taken (arena s) (conn s) aw w;
      let s := set_sent s (sent s ++ bs) in
      '(st, c, ar, k) ← Write_resume (ctx s) (arena s) (conn s) f w;
      s ← after_write (run_writer false) (set_io s c ar k) st;
      Ok (release s)
  | _ => UB "resumed a coroutine that is not writing"
  end.

(** * Completions *)

Inductive completion : Type :=
| ReadDone (bs : bytes)     (* the kernel stored [bs]; result = length *)
| ReadFail (n : Z)          (* end of file or an error *)
| WriteDone (w : Z).

Definition sess_step (s : Sess) (e : completion) : outcome Sess :=
  match e with
  | ReadDone bs =>
      match rd s with
      | Reading aw =>
          '(ar, k) ← kernel_read (arena s) (conn s) aw bs;
          reader_resume (zlen bs) (set_io s (ctx s) ar k)
      | ReaderDone => UB "no read in flight"
      end
  | ReadFail n => reader_resume n s
  | WriteDone w => writer_resume w s
  end.

Fixpoint sess_run (s : Sess) (es : list completion) : outcome Sess :=
  match es with
  | [] => Ok s
  | e :: es => s ← sess_step s e; sess_run s es
  end.

(** * Specification

    What the dispatcher makes of the bytes in the read buffer: the messages it
    hands out and the bytes it leaves. *)
Fixpoint drain_spec (fuel : nat) (bs : bytes) : list (RpcHeader * bytes) * bytes :=
  match fuel with
  | O => ([], bs)
  | S fuel =>
      match parse_spec bs with
      | PMessage h p =>
          let '(ms, rest) := drain_spec fuel (drop (Z.to_nat (HEADER_SIZE + zlen p)) bs) in
          ((h, p) :: ms, rest)
      | o => ([], drop (Z.to_nat (consumed o)) bs)
      end
  end.

Definition drain_bytes (bs : bytes) : list (RpcHeader * bytes) * bytes :=
  drain_spec (S (length bs)) bs.

(** The response to one message on the wire; [[]] for none. *)
Definition response (m : RpcHeader * bytes) : bytes :=
  let '(h, p) := m in
  if msg_type h =? 0 then
    match ParseFromArray p with
    | Some msg => wire_frame (mkHeader (magic h) (version h) 1 (seq_id h) (payload_len h))
                    (SerializeToString (echo_prefix ++ msg))
    | None => []
    end
  else [].

Definition responses (ms : list (RpcHeader * bytes)) : bytes := ms ≫= response.

(** The messages dispatched when the peer's bytes arrive in [chunks], after
    [left] bytes were left unread, and the bytes then left. *)
Fixpoint feed (left : bytes) (chunks : list bytes) : list (RpcHeader * bytes) * bytes :=
  match chunks with
  | [] => ([], left)
  | ch :: chunks =>
      let '(ms, rest) := drain_bytes (left ++ ch) in
      let '(ms', rest') := feed rest chunks in (ms ++ ms', rest')
  end.

(** The chunks a list of completions delivers. *)
Definition delivered_chunks (es : list completion) : list bytes :=
  omap (fun e => match e with ReadDone bs => Some bs | _ => None end) es.

Definition write_ok (e : completion) : bool :=
  match e with WriteDone w => 0 <? w | _ => true end.

(** What the kernel may report in a state: the completion belongs to an
    operation in flight, and no more bytes are transferred than were asked
    for. *)
Definition possible (s : Sess) (e : completion) : bool :=
  match e, rd s, wr s with
  | ReadDone bs, Reading aw, _ => (0 <? zlen bs) && (zlen bs <=? sqe_len (sqe aw))
  | ReadFail n, Reading _, _ => n <=? 0
  | WriteDone w, _, InWrite f _ => w <=? chunk_limit (ctx s) (conn s) (w_remaining f)
  | _, _, _ => false
  end.

Fixpoint possible_run (s : outcome Sess) (es : list completion) : bool :=
  match s, es with
  | Ok s, e :: es => possible s e && possible_run (sess_step s e) es
  | _, _ => true
  end.

(** What the write loop still has to send: the rest of the response being
    written and the queued ones. *)
Definition unsent (s : Sess) : bytes :=
  match wr s with
  | InWrite f _ => drop (Z.to_nat (w_off f)) (w_data f) ++ concat (items_ (rq s))
  | _ => []
  end.

(** A response below the 2 GiB limit of protobuf messages, header included. *)
Definition small_response (m : RpcHeader * bytes) : Prop := zlen (response m) < 2 ^ 31.

End Session.

(** * Invariant *)

(** Queued responses are non-empty and below the size limit. *)
Definition item_ok (d : bytes) : Prop := 0 < zlen d < 2 ^ 31.

(** The read window and the staging window do not overlap. *)
Definition apart (c : IoContext) (k : CoroConnection) : Prop :=
  0 <= read_buf_idx_ k -> 0 <= write_buf_idx_ k ->
  forall a, write_fixed_ptr_ k = ArenaPtr a ->
    a + BufSize c <= window (read_buffer_ k) \/
    window (read_buffer_ k) + capacity_ (read_buffer_ k) <= a.

(** [left] are the unread bytes, [closed] whether the queue is closed. *)
Record base (left : bytes) (closed : bool) (s : Sess) : Prop := {
  ba_pool : exists O fl, pool_ok O fl (ctx s);
  ba_rd : rd_ok (arena s) (conn s);
  ba_left : received (arena s) (conn s) = left;
  ba_wr : wr_ok (ctx s) (arena s) (conn s);
  ba_apart : apart (ctx s) (conn s);
  ba_items : Forall item_ok (items_ (rq s));
  ba_closed : ResponseQueue.closed_ (rq s) = closed
}.

(** [out] is everything the handlers have produced, [ok] that no write has
    failed: what is sent, being sent and queued makes up [out]. *)
Definition writer_inv (h_write : coro) (out : bytes) (ok closed : bool) (s : Sess) : Prop :=
  match wr s with
  | InPop => items_ (rq s) = [] /\ waiter_ (rq s) = Some h_write /\ closed = false /\ out = sent s
  | InWrite f aw =>
      waiter_ (rq s) = None /\
      exists rest, writing (ctx s) (arena s) (conn s) (w_len f) rest (WriteSuspended f aw) /\
        0 < w_len f < 2 ^ 31 /\ zlen rest <= w_len f /\
        out = sent s ++ rest ++ concat (items_ (rq s))
  | WriterDone =>
      waiter_ (rq s) = None /\
      (if ok then out = sent s /\ closed = true else exists lost, out = sent s ++ lost)
  end.

(** The coroutines of a session that wait for a completion. *)
Definition pend_r (h_read : coro) (r_read : cell) (s : Sess) : list waiter :=
  match rd s with Reading _ => [(h_read, r_read)] | ReaderDone => [] end.

Definition pend_w (h_write : coro) (r_write : cell) (s : Sess) : list waiter :=
  match wr s with InWrite _ _ => [(h_write, r_write)] | _ => [] end.

(** The effect of a piece of a session on the system around it. *)
Definition sess_eff (add : list waiter) (s s' : Sess) : Prop :=
  io_eff add (ctx s) (arena s) (conn s) (ctx s') (arena s') (conn s').

(** The writer, of which [p] waits at the start, has come to wait as it does
    in [s']. *)
Definition writer_eff (h_write : coro) (r_write : cell) (p : list waiter) (s s' : Sess) : Prop :=
  exists add, sess_eff add s s' /\ pend_w h_write r_write s' = add ++ p.

(** What a step of the writer preserves. *)
Definition good h_write r_write p left out ok closed (s s' : Sess) : Prop :=
  base left closed s' /\ writer_inv h_write out ok closed s' /\
  (rd s', read_buffer_ (conn s')) = (rd s, read_buffer_ (conn s)) /\
  writer_eff h_write r_write p s s'.

Lemma sess_eff_refl s s' :
  ctx s' = ctx s -> arena s' = arena s -> conn s' = conn s -> sess_eff [] s s'.
Proof. intros E1 E2 E3. unfold sess_eff. rewrite E1, E2, E3. apply io_eff_refl. Qed.

Lemma sess_eff_trans a1 a2 s1 s2 s3 :
  sess_eff a1 s1 s2 -> sess_eff a2 s2 s3 -> sess_eff (a2 ++ a1) s1 s3.
Proof. apply io_eff_trans. Qed.

Lemma writer_eff_trans h_write r_write p s1 s2 s3 :
  sess_eff [] s1 s2 -> writer_eff h_write r_write p s2 s3 -> writer_eff h_write r_write p s1 s3.
Proof.
  intros H1 (add & H2 & E). exists add. split; [|done].
  rewrite <- (app_nil_r add). by eapply sess_eff_trans.
Qed.

Lemma writer_eff_comp h_write r_write p s1 s2 s3 :
  writer_eff h_write r_write p s1 s2 ->
  writer_eff h_write r_write (pend_w h_write r_write s2) s2 s3 ->
  writer_eff h_write r_write p s1 s3.
Proof.
  intros (a1 & H1 & E1) (a2 & H2 & E2). exists (a2 ++ a1). split; [by eapply sess_eff_trans|].
  by rewrite E2, E1, app_assoc.
Qed.

Lemma writer_eff_same h_write r_write s s' :
  ctx s' = ctx s -> arena s' = arena s -> conn s' = conn s -> wr s' = wr s ->
  writer_eff h_write r_write (pend_w h_write r_write s) s s'.
Proof.
  intros E1 E2 E3 E4. exists []. split; [by apply sess_eff_refl|]. unfold pend_w. by rewrite E4.
Qed.

Lemma received_wr_frame c ar ar' k k' :
  rd_ok ar k -> wr_ok c ar k -> apart c k -> wr_frame c k ar ar' -> same_conn k k' ->
  rd_ok ar' k' /\ received ar' k' = received ar k.
Proof.
  intros Hrd Hwr Hap (Hz & Hd & Hs) Hk.
  assert (Hk' : read_buffer_ k' = read_buffer_ k) by (rewrite Hk; done).
  assert (Hi' : read_buf_idx_ k' = read_buf_idx_ k) by (rewrite Hk; done).
  destruct Hrd as (Hwf & Hfix & Hcap). unfold rd_ok, received, contents, block. rewrite Hk', Hi'.
  destruct (is_fixed_ (read_buffer_ k)) eqn:Ef.
  - destruct (wf_win _ _ Hwf Ef). symmetry in Hfix. apply Z.leb_le in Hfix as Hi.
    assert (Hsl : slice ar' (window (read_buffer_ k)) (capacity_ (read_buffer_ k))
                  = slice ar (window (read_buffer_ k)) (capacity_ (read_buffer_ k))).
    { destruct (Z_lt_ge_dec (write_buf_idx_ k) 0) as [Hn|Hn]; [by rewrite Hd|].
      destruct (Hwr ltac:(lia)) as (a & Ha & _). eapply Hs; [done|lia|].
      destruct (Hap Hi ltac:(lia) a Ha); lia. }
    rewrite Hsl. split; [|done]. split_and!; [|done|done].
    destruct Hwf. constructor; try done. intros _. lia.
  - split; [|done]. split_and!; [|done|done]. destruct Hwf. constructor; try done.
    intros E. congruence.
Qed.

(** Changing context, arena and connection the way a write does. *)
Lemma base_write left cl s c' ar' k' :
  base left cl s -> (exists O fl, pool_ok O fl c') -> buf_size_ c' = buf_size_ (ctx s) ->
  wr_frame (ctx s) (conn s) (arena s) ar' -> same_conn (conn s) k' ->
  base left cl (set_io s c' ar' k').
Proof.
  intros [Hp Hrd Hl Hwr Hap Hit Hcl] Hp' Hbs Hfr Hk.
  destruct (received_wr_frame _ _ _ _ _ Hrd Hwr Hap Hfr Hk) as [Hrd' Hrc].
  constructor; cbn; try done.
  - by rewrite Hrc.
  - by apply (wr_ok_same (ctx s) c' (conn s) k' (arena s) ar'); [..|apply Hfr|].
  - unfold apart, BufSize in *. by rewrite Hk, Hbs.
Qed.

(** Changing only the position of the writer, the queue's items or the wire. *)
Lemma base_same left cl s s' :
  base left cl s -> ctx s' = ctx s -> arena s' = arena s -> conn s' = conn s ->
  Forall item_ok (items_ (rq s')) -> ResponseQueue.closed_ (rq s') = cl -> base left cl s'.
Proof. intros [] E1 E2 E3 Hi Hc. constructor; rewrite ?E1, ?E2, ?E3; done. Qed.

Lemma pool_tick O fl c : pool_ok O fl c -> pool_ok O fl (tick c).
Proof. by apply pool_same. Qed.

(** Every operation the session uses on the context keeps the pool. *)
Lemma await_suspend_ok c aw h r :
  (exists O fl, pool_ok O fl c) ->
  exists c' aw', await_suspend c aw h r = Ok (c', aw') /\ (exists O fl, pool_ok O fl c') /\
    buf_size_ c' = buf_size_ c /\ sqe aw' = sqe aw.
Proof.
  intros (O & fl & Hp). unfold await_suspend. cbn.
  destruct (Submit_ok O fl c (sqe aw) (sqe_fixed_file aw) h r Hp)
    as (req & c' & -> & _ & Hp' & _ & _ & Hs).
  cbn. eexists _, _. split; [done|]. split_and!; [by eauto|apply Hs|done].
Qed.

Section WriterProofs.
Context {K : Kernel} {HO : HostOrder} {PB : Protobuf}.
Context (h_read h_write : coro) (r_read r_write : cell).
Context (Hsq : sq_never_full K).

Lemma Write_loop_pool c ar k f st c' ar' k' :
  (exists O fl, pool_ok O fl c) -> Write_loop c ar k f = Ok (st, c', ar', k') ->
  exists O fl, pool_ok O fl c'.
Proof.
  intros (O & fl & Hp) HW. exists O, fl.
  destruct (Write_loop_ctx _ _ _ _ _ _ _ _ HW) as [->| ->]; [done|by apply pool_tick].
Qed.

(** From a state of [Write] to the next suspension of the write loop. *)
Lemma after_write_ok again left out ok cl s len rest st :
  base left cl s -> waiter_ (rq s) = None ->
  writing (ctx s) (arena s) (conn s) len rest st -> 0 < len < 2 ^ 31 -> zlen rest <= len ->
  out = sent s ++ rest ++ concat (items_ (rq s)) ->
  (rest = [] -> exists s', again s = Ok s' /\ good h_write r_write [] left out ok cl s s') ->
  exists s', after_write h_write r_write again s st = Ok s' /\
    good h_write r_write [] left out ok cl s s'.
Proof.
  intros Hb Hw Hst Hlen Hrl Hout Hag. destruct st as [v|f aw]; cbn [after_write].
  - destruct Hst as [-> ->]. rewrite i32_small by lia.
    rewrite (proj2 (Z.leb_gt _ _)) by lia. by apply Hag.
  - destruct (await_suspend_ok (ctx s) aw h_write r_write (ba_pool _ _ _ Hb))
      as (c' & aw' & Eaw & Hp' & Hbs & Hsqe).
    rewrite Eaw. cbn [mbind outcome_bind]. eexists. split; [done|].
    assert (Hw' : writing c' (arena s) (conn s) len rest (WriteSuspended f aw')).
    { destruct Hst as (H1 & H2 & H3 & H4 & H5 & Hsg & Htk). cbn. unfold staged, taken in *.
      rewrite Hsqe. split_and!; try done. intros m Hm. apply Htk.
      unfold chunk_limit, BufSize in *. by rewrite <- Hbs. }
    pose proof Hst as (_ & _ & _ & _ & Hwl & _).
    split; [|split; [split; [done|]|split; [done|]]].
    + apply (base_same left cl (set_io s c' (arena s) (conn s))); try done; [|apply Hb..].
      by apply base_write; auto using wr_frame_refl, same_conn_refl.
    + exists rest. rewrite Hwl. done.
    + exists [(h_write, r_write)]. split; [|done]. by eapply io_eff_suspend.
Qed.

(** The write loop from its head (or from the resumption of [Pop]). *)
Lemma writeLoop_ok fuel resumed left out ok cl s :
  base left cl s -> waiter_ (rq s) = None -> out = sent s ++ concat (items_ (rq s)) ->
  (resumed = true -> items_ (rq s) <> [] \/ cl = true) ->
  exists s', writeLoop h_write r_write (S fuel) resumed s = Ok s' /\
    good h_write r_write [] left out ok cl s s'.
Proof.
  intros Hb Hw Hout Hres. cbn [writeLoop]. unfold pop_await_resume.
  destruct (items_ (rq s)) as [|d items] eqn:Ei.
  - cbn in Hout. rewrite app_nil_r in Hout.
    assert (Hrdy : pop_await_ready (rq s) = cl)
      by (unfold pop_await_ready; rewrite Ei; apply Hb).
    rewrite Hrdy. destruct (resumed || cl) eqn:Er.
    + assert (cl = true) as ->.
      { destruct cl; [done|]. rewrite orb_false_r in Er. by destruct (Hres Er). }
      eexists. split; [done|].
      split; [|split; [split; [done|]|split; [done|by exists []; split; [apply sess_eff_refl|]]]].
      * apply (base_same left true s); try done; [|apply Hb]. cbn. by rewrite Ei.
      * destruct ok; [done|]. exists []. by rewrite app_nil_r.
    + apply orb_false_iff in Er as [_ ->].
      eexists. split; [done|].
      split; [|split; [by split_and!|split; [done|by exists []; split; [apply sess_eff_refl|]]]].
      apply (base_same left false s); try done; [|apply Hb]. cbn. by rewrite Ei.
  - assert (pop_await_ready (rq s) = true) as -> by (unfold pop_await_ready; by rewrite Ei).
    rewrite orb_true_r. pose proof (ba_items _ _ _ Hb) as Hit. rewrite Ei in Hit.
    apply Forall_cons in Hit as [Hd Hit]. unfold item_ok in Hd.
    set (s1 := set_rq s _). unfold Write_start.
    assert (Hb1 : base left cl s1) by (apply (base_same left cl s); try done; apply Hb).
    destruct (Write_loop_ok (ctx s1) (arena s1) (conn s1) d 0 (zlen d) d)
      as (st & c1 & ar1 & k1 & HW & Hst & Hbs & Hk & Hf);
      [done|apply Hb|lia|done|unfold VECTOR_MAX; lia|].
    pose proof (Write_loop_pool _ _ _ _ _ _ _ _ (ba_pool _ _ _ Hb1) HW) as Hp1.
    rewrite HW. cbn [mbind outcome_bind].
    destruct (after_write_ok (writeLoop h_write r_write fuel false) left out ok cl
                (set_io s1 c1 ar1 k1) (zlen d) d st) as (s2 & E & Hg); try done.
    + by apply base_write.
    + intros Hn. rewrite Hn in Hd. unfold zlen in Hd. cbn in Hd. lia.
    + exists s2. split; [done|]. destruct Hg as (? & ? & Hr & Hef). do 2 (split; [done|]).
      split; [rewrite Hr; cbn; by rewrite Hk|]. eapply writer_eff_trans, Hef.
      by apply (io_eff_write _ _ _ _ _ _ _ _ HW); [apply Hb|..].
Qed.

Lemma run_writer_ok resumed left out ok cl s :
  base left cl s -> waiter_ (rq s) = None -> out = sent s ++ concat (items_ (rq s)) ->
  (resumed = true -> items_ (rq s) <> [] \/ cl = true) ->
  exists s', run_writer h_write r_write resumed s = Ok s' /\
    good h_write r_write [] left out ok cl s s'.
Proof. apply writeLoop_ok. Qed.

(** Handing a response to the queue. *)
Lemma push_ok left out ok cl s d :
  base left cl s -> writer_inv h_write out ok cl s -> item_ok d ->
  (wr s = WriterDone -> cl = false) ->
  exists s', wake_writer h_write r_write (Push (rq s) d) s = Ok s' /\
    good h_write r_write (pend_w h_write r_write s) left (out ++ d) ok cl s s'.
Proof.
  intros Hb Hwi Hd Hal. unfold wake_writer, Push, take_waiter. cbn [waiter_ items_ ResponseQueue.closed_].
  assert (Hb1 : base left cl (set_rq s (mkQueue (items_ (rq s) ++ [d]) None
                                  (ResponseQueue.closed_ (rq s))))).
  { apply (base_same left cl s); try done; [|apply Hb]. cbn. apply Forall_app.
    split; [apply Hb|by constructor]. }
  unfold writer_inv in Hwi. destruct (wr s) as [|f aw|] eqn:Ew.
  - destruct Hwi as (Ei & -> & -> & ->). rewrite Ei in *.
    destruct (run_writer_ok true left (sent s ++ d) ok false _ Hb1) as (s' & E & Hg); cbn; try done.
    + by rewrite app_nil_r.
    + by left.
    + exists s'. split; [done|]. unfold pend_w. rewrite Ew. exact Hg.
  - destruct Hwi as (-> & rest & Hw & Hl & Hr & ->). eexists. split; [done|].
    split; [done|]. split; [|split; [done|by apply writer_eff_same]]. unfold writer_inv. cbn. rewrite Ew. split; [done|].
    exists rest. split; [done|]. split; [done|]. split; [done|]. rewrite concat_app. cbn. by rewrite app_nil_r, <- !app_assoc.
  - destruct Hwi as (-> & Hlost). eexists. split; [done|].
    split; [done|]. split; [|split; [done|by apply writer_eff_same]].
    unfold writer_inv. cbn. rewrite Ew. split; [done|]. destruct ok; [destruct Hlost as [_ ->]; by specialize (Hal eq_refl)|].
    destruct Hlost as [lost ->]. exists (lost ++ d). by rewrite app_assoc.
Qed.

(** Closing the queue. *)
Lemma close_ok left out ok s :
  base left false s -> writer_inv h_write out ok false s ->
  exists s', wake_writer h_write r_write (ResponseQueue.Close (rq s)) s = Ok s' /\
    good h_write r_write (pend_w h_write r_write s) left out ok true s s' /\
    pend_w h_write r_write s' = pend_w h_write r_write s.
Proof.
  intros Hb Hwi. unfold wake_writer, ResponseQueue.Close, take_waiter.
  cbn [waiter_ items_ ResponseQueue.closed_].
  assert (Hb1 : base left true (set_rq s (mkQueue (items_ (rq s)) None true))).
  { destruct Hb. by constructor. }
  unfold writer_inv in Hwi. destruct (wr s) as [|f aw|] eqn:Ew.
  - destruct Hwi as (Ei & -> & _ & ->).
    destruct (run_writer_ok true left (sent s) ok true _ Hb1) as (s' & E & Hg); cbn; try done.
    + by rewrite Ei, app_nil_r.
    + by right.
    + exists s'. unfold pend_w. rewrite Ew. split; [done|]. split; [exact Hg|].
      rewrite Ei in E. by injection E as <-.
  - destruct Hwi as (-> & Hrest). eexists. split; [done|]. split; [|done].
    split; [done|]. split; [|split; [done|by apply writer_eff_same]].
    unfold writer_inv. cbn [wr rq sent set_rq]. by rewrite Ew.
  - destruct Hwi as (-> & Hlost). eexists. split; [done|]. split; [|done].
    split; [done|]. split; [|split; [done|by apply writer_eff_same]].
    unfold writer_inv. cbn. rewrite Ew. split; [done|]. by destruct ok; [destruct Hlost|].
Qed.

End WriterProofs.

(** ** The read side *)

Section ReaderProofs.
Context {K : Kernel} {HO : HostOrder} {PB : Protobuf}.
Context (h_read h_write : coro) (r_read r_write : cell).
Context (Hsq : sq_never_full K).

(** Changing context, arena and connection the way the reader does: the write
    in progress is not disturbed. *)
Lemma base_read left left' cl s c' ar' k' :
  base left cl s -> (exists O fl, pool_ok O fl c') -> buf_size_ c' = buf_size_ (ctx s) ->
  rd_ok ar' k' -> received ar' k' = left' -> k' = set_read_buffer (conn s) (read_buffer_ k') ->
  same_object (read_buffer_ (conn s)) (read_buffer_ k') ->
  frame (arena s) ar' (read_buffer_ (conn s)) ->
  base left' cl (set_io s c' ar' k') /\
  forall out ok, writer_inv h_write out ok cl s -> writer_inv h_write out ok cl (set_io s c' ar' k').
Proof.
  intros [Hp Hrd Hl Hwr Hap Hit Hcl] Hp' Hbs Hrd' Hl' Hk Hso (Hz & Hd & Hs).
  assert (Hwin : window (read_buffer_ k') = window (read_buffer_ (conn s)))
    by (unfold window; destruct Hso as (_ & -> & _); done).
  set (b := read_buffer_ k') in *. clearbody b. subst k'. split.
  - constructor; try done.
    + intros Hi. destruct (Hwr Hi) as (a & ? & ?). exists a. unfold BufSize in *. cbn.
      by rewrite Hbs, Hz.
    + intros Hi Hj a Ha. cbn in *. rewrite Hwin. unfold BufSize. rewrite Hbs.
      rewrite (proj2 (proj2 Hso)); [by apply Hap|].
      destruct Hrd as (_ & -> & _). by apply Z.leb_le.
  - intros out ok. unfold writer_inv. cbn [wr rq sent ctx arena conn set_io].
    destruct (wr s) as [|f aw|] eqn:Ew; [done| |done].
    intros (Hw & rest & Hwi & Hrest). split; [done|]. exists rest. split; [|done].
    apply (writing_frame (ctx s) _ (arena s) _ (conn s) _ _ _ _ Hwi); try done.
    intros a n Ha Hj Hn. destruct (Hwr Hj) as (a' & Ha' & Hpos & _).
    assert (a' = a) as -> by congruence.
    destruct Hrd as (_ & Hfix & _).
    destruct (Z.leb_spec 0 (read_buf_idx_ (conn s))) as [Hi|Hi]; [|by rewrite Hd].
    apply Hs; [done|]. destruct (Hap Hi Hj a Ha); [left|right]; lia.
Qed.

Lemma encode_response_ok ar h msg :
  let d := SerializeToString (echo_prefix ++ msg) in
  zlen d < 2 ^ 31 - HEADER_SIZE ->
  encode_response ar h msg =
    Ok (wire_frame (mkHeader (magic h) (version h) 1 (seq_id h) (payload_len h)) d).
Proof. cbn zeta. intros Hd. apply encode_fresh. unfold HEADER_SIZE in *. lia. Qed.

Lemma handleRequest_ok left out ok s h p :
  base left false s -> writer_inv h_write out ok false s -> msg_type h = 0 ->
  small_response (h, p) ->
  exists s', handleRequest h_write r_write h p s = Ok s' /\
    good h_write r_write (pend_w h_write r_write s) left (out ++ response (h, p)) ok false s s'.
Proof.
  intros Hb Hw Ht Hsm. unfold handleRequest, small_response in *. unfold response in *.
  rewrite Ht in *. cbn [Z.eqb] in *.
  destruct (ParseFromArray p) as [msg|].
  - rewrite zlen_wire_frame in Hsm. rewrite encode_response_ok by lia.
    cbn [mbind outcome_bind]. set (d := wire_frame _ _) in *.
    assert (Hd : item_ok d).
    { unfold item_ok, d. rewrite zlen_wire_frame. pose proof (zlen_nonneg (SerializeToString (echo_prefix ++ msg))).
      unfold HEADER_SIZE in *. lia. }
    destruct (push_ok h_write r_write Hsq left out ok false s d Hb Hw Hd) as (s' & -> & Hg); [done|].
    by exists s'.
  - rewrite app_nil_r. exists s. split; [done|]. do 3 (split; [done|]). by apply writer_eff_same.
Qed.

Lemma dispatch_ok fuel : forall left out ok s,
  base left false s -> writer_inv h_write out ok false s ->
  Forall small_response (drain_spec fuel left).1 -> (length left < fuel)%nat ->
  exists s', dispatch h_write r_write fuel s = Ok s' /\
    base (drain_spec fuel left).2 false s' /\
    writer_inv h_write (out ++ responses (drain_spec fuel left).1) ok false s' /\ rd s' = rd s /\
    writer_eff h_write r_write (pend_w h_write r_write s) s s'.
Proof.
  induction fuel as [|fuel IH]; intros left out ok s Hb Hw Hsm Hf; [lia|].
  cbn [dispatch drain_spec] in *. pose proof (ba_rd _ _ _ Hb) as (Hwf & _).
  pose proof (ba_left _ _ _ Hb) as Hl. unfold received in Hl.
  rewrite (ReadableBytes_contents (arena s)), Hl by done.
  destruct (Z.leb_spec HEADER_SIZE (zlen left)) as [H1|H1].
  2:{ assert (parse_spec left = PNeedHeader) as Hps
        by (unfold parse_spec; by rewrite (proj2 (Z.ltb_lt _ _))).
      rewrite Hps in *. cbn in *. rewrite app_nil_r. exists s.
      do 4 (split; [done|]). by apply writer_eff_same. }
  destruct (ParseMessage_ok (arena s) (read_buffer_ (conn s)) blank_header Hwf)
    as (b & -> & Hwf' & Hc' & Hso & _). rewrite Hl in *. cbn [mbind outcome_bind].
  destruct (base_read left (drop (Z.to_nat (consumed (parse_spec left))) left) false s
              (ctx s) (arena s) (set_read_buffer (conn s) b)) as [Hb1 Hw1]; try done.
  { apply Hb. } { by apply (rd_ok_set (arena s)); [apply Hb|..]. }
  specialize (Hw1 out ok Hw). set (s1 := set_io s _ _ _) in *.
  assert (Hef1 : sess_eff [] s s1) by (by apply io_eff_read; [..|split_and!]).
  destruct (parse_spec left) as [|h|h|h p] eqn:Hps; cbn [returned fst snd] in *;
    try (rewrite app_nil_r; exists s1; do 4 (split; [done|]); by exists []).
  destruct (drain_spec fuel _) as [ms rest] eqn:Ed. cbn [fst snd consumed] in *.
  apply Forall_cons in Hsm as [Hm Hsm].
  assert (Hh : exists s2, (if msg_type h =? 0 then handleRequest h_write r_write h p s1 else Ok s1)
                 = Ok s2 /\
            good h_write r_write (pend_w h_write r_write s1)
              (drop (Z.to_nat (HEADER_SIZE + zlen p)) left) (out ++ response (h, p)) ok false s1 s2).
  { destruct (Z.eqb_spec (msg_type h) 0) as [Ht|Ht].
    - by apply handleRequest_ok.
    - exists s1. split; [done|]. unfold response. rewrite (proj2 (Z.eqb_neq _ _)) by done.
      rewrite app_nil_r. do 3 (split; [done|]). by apply writer_eff_same. }
  destruct Hh as (s2 & -> & Hb2 & Hw2 & Hr2 & Hef2). cbn [mbind outcome_bind].
  destruct (IH _ _ ok s2 Hb2 Hw2) as (s3 & -> & Hb3 & Hw3 & Hr3 & Hef3).
  - by rewrite Ed.
  - rewrite length_drop. unfold HEADER_SIZE, zlen in *. lia.
  - exists s3. split; [done|]. rewrite Ed in *. cbn [fst snd] in *.
    unfold responses in *. cbn. rewrite app_assoc. do 2 (split; [done|]).
    split; [rewrite Hr3; by injection Hr2 as -> _|].
    eapply writer_eff_trans; [exact Hef1|]. by eapply writer_eff_comp.
Qed.

(** ** The invariant of a session and its steps *)

(** While a read is in flight the kernel has the writable part of the read
    buffer, and the queue is open. *)
Definition reader_inv (cl : bool) (s : Sess) : Prop :=
  match rd s with
  | Reading aw => cl = false /\ sqe_addr (sqe aw) = WriteBegin (read_buffer_ (conn s)) /\
                  sqe_len (sqe aw) = WritableBytes (read_buffer_ (conn s))
  | ReaderDone => cl = true
  end.

Definition inv (left out : bytes) (ok : bool) (s : Sess) : Prop :=
  match rd s, wr s with
  | ReaderDone, WriterDone =>
      Connection.closed_ (conn s) = true /\ waiter_ (rq s) = None /\
      exists lost, out = sent s ++ lost /\ (ok = true -> lost = [])
  | _, _ => exists cl, base left cl s /\ writer_inv h_write out ok cl s /\ reader_inv cl s
  end.

Lemma Close_closes c k : Connection.closed_ (Connection.Close c k).1.1 = true.
Proof.
  unfold Connection.Close. destruct (Connection.closed_ k) eqn:Ec; [done|].
  by repeat case_match; simplify_eq.
Qed.

Lemma release_rd s : rd (release s) = rd s.
Proof.
  unfold release. destruct (rd s) eqn:Er; [done|]. destruct (wr s); try done.
  destruct (Connection.Close _ _) as [[k c] o]. done.
Qed.

Lemma release_ok left out ok cl s :
  base left cl s -> writer_inv h_write out ok cl s -> reader_inv cl s ->
  inv left out ok (release s).
Proof.
  intros Hb Hw Hr. unfold release, inv.
  destruct (rd s) eqn:Er; [rewrite Er; by exists cl|].
  destruct (wr s) eqn:Ew; try (rewrite Er, Ew; by exists cl).
  pose proof (Close_closes (ctx s) (conn s)).
  destruct (Connection.Close _ _) as [[k' c'] o]. cbn [fst rd wr set_io conn sent] in *.
  rewrite Er, Ew. split; [done|]. unfold writer_inv in Hw. rewrite Ew in Hw.
  destruct Hw as [Hwt Hw]. split; [done|]. destruct ok.
  - destruct Hw as [-> _]. exists []. by rewrite app_nil_r.
  - destruct Hw as [lost ->]. by exists lost.
Qed.

(** ** The effect of a step on the system

    [p] are the coroutines of the session still waiting when the step starts;
    [quiet] tells that it does not submit anything. *)
Definition pend (s : Sess) : list waiter := pend_r h_read r_read s ++ pend_w h_write r_write s.

Definition stepped (p : list waiter) (quiet : Prop) (s s' : Sess) : Prop :=
  exists s1 add, s' = release s1 /\ sess_eff add s s1 /\ pend s1 ≡ₚ add ++ p /\
    (quiet -> add = []).

Lemma release_reading s : rd s <> ReaderDone -> release s = s.
Proof. unfold release. by destruct (rd s). Qed.

Lemma start_read_ok left out ok s :
  base left false s -> writer_inv h_write out ok false s -> zlen left + 4096 <= VECTOR_MAX ->
  exists s', start_read h_read r_read s = Ok s' /\ inv left out ok s' /\ rd s' <> ReaderDone /\
    sess_eff [(h_read, r_read)] s s' /\ wr s' = wr s.
Proof.
  intros Hb Hw Hmax. unfold start_read. pose proof (ba_left _ _ _ Hb) as Hl.
  destruct (Read_ok (ctx s) (arena s) (conn s) Hsq (ba_rd _ _ _ Hb))
    as (aw & ar' & k' & -> & Hrd & Hrc & Hk & Hso & Hfr & Ha & Hn & _); [by rewrite Hl|].
  cbn [mbind outcome_bind].
  destruct (await_suspend_ok (tick (ctx s)) aw h_read r_read) as (c' & aw' & Eaw & Hp & Hbs & Hsqe).
  { destruct (ba_pool _ _ _ Hb) as (O & fl & Hp). exists O, fl. by apply pool_tick. }
  rewrite Eaw. cbn [mbind outcome_bind]. eexists. split; [done|]. rewrite Hl in Hrc.
  destruct (base_read left left false s c' ar' k' Hb Hp Hbs Hrd Hrc Hk Hso Hfr) as [Hb' Hw'].
  split; [exists false; split_and!|split; [done|split; [|done]]].
  - by destruct Hb'.
  - exact (Hw' out ok Hw).
  - split_and!; [done|..]; cbn; by rewrite Hsqe.
  - unfold sess_eff. cbn. change [(h_read, r_read)] with ([(h_read, r_read)] ++ [] ++ []).
    eapply io_eff_trans; [eapply io_eff_trans; [apply io_eff_tick|by apply io_eff_read]|].
    by eapply io_eff_suspend.
Qed.

Lemma drain_spec_le fuel : forall bs, (length (drain_spec fuel bs).2 <= length bs)%nat.
Proof.
  induction fuel as [|fuel IH]; intros bs; cbn; [done|].
  destruct (parse_spec bs) as [| | |h p]; cbn [fst snd]; rewrite ?length_drop; try lia.
  destruct (drain_spec fuel _) as [ms rest] eqn:E. cbn.
  specialize (IH (drop (Z.to_nat (HEADER_SIZE + zlen p)) bs)). rewrite E, length_drop in IH.
  cbn in IH. lia.
Qed.

Lemma read_done_ok left out ok s bs :
  inv left out ok s -> possible s (ReadDone bs) = true ->
  zlen (left ++ bs) + 4096 <= VECTOR_MAX ->
  Forall small_response (drain_bytes (left ++ bs)).1 ->
  exists s', sess_step h_read h_write r_read r_write s (ReadDone bs) = Ok s' /\
    inv (drain_bytes (left ++ bs)).2 (out ++ responses (drain_bytes (left ++ bs)).1) ok s' /\
    stepped (pend_w h_write r_write s) False s s'.
Proof.
  intros Hi Hp Hmax Hsm. cbn in Hp. unfold inv in Hi. cbn [sess_step].
  destruct (rd s) as [aw|] eqn:Er; [|done].
  destruct Hi as (cl & Hb & Hw & Hr). unfold reader_inv in Hr. rewrite Er in Hr.
  destruct Hr as (-> & Ha & Hn). rewrite Hn in Hp.
  apply andb_true_iff in Hp as [Hp1%Z.ltb_lt Hp2%Z.leb_le]. pose proof (conj Hp1 Hp2) as Hp.
  destruct (read_resume_ok (arena s) (conn s) aw bs (ba_rd _ _ _ Hb) Ha Hp)
    as (ar' & k1 & k2 & -> & Hrr & Hrd & Hrc & Hk & Hso & Hfr).
  cbn [mbind outcome_bind]. unfold reader_resume. set (s0 := set_io s _ _ _).
  change (rd s0) with (rd s). rewrite Er. change (conn s0) with k1. rewrite Hrr.
  change (set_io s0 (ctx s0) (arena s0) k2) with (set_io s (ctx s) ar' k2). clear s0.
  rewrite (proj2 (Z.leb_gt _ _)) by lia. rewrite (ba_left _ _ _ Hb) in Hrc.
  destruct (base_read left (left ++ bs) false s (ctx s) ar' k2) as [Hb' Hw']; try done; [apply Hb|].
  specialize (Hw' out ok Hw).
  set (s1 := set_io s (ctx s) ar' k2) in *.
  assert (Hz : ReadableBytes (read_buffer_ (conn s1)) = zlen (left ++ bs)).
  { rewrite (ReadableBytes_contents (arena s1)) by apply Hb'. f_equal. apply Hb'. }
  rewrite Hz. unfold zlen at 1. rewrite Nat2Z.id.
  destruct (dispatch_ok (S (length (left ++ bs))) (left ++ bs) out ok s1 Hb' Hw')
    as (s2 & -> & Hb2 & Hw2 & Hr2 & Hef2); [done|lia|]. cbn [mbind outcome_bind].
  destruct (start_read_ok (drain_bytes (left ++ bs)).2 (out ++ responses (drain_bytes (left ++ bs)).1)
              ok s2) as (s3 & E3 & Hi3 & Hr3 & Hef3 & Hw3); [done..| |].
  { enough (zlen (drain_bytes (left ++ bs)).2 <= zlen (left ++ bs)) by (unfold drain_bytes in *; lia).
    unfold drain_bytes, zlen. apply inj_le, drain_spec_le. }
  exists s3. split; [done|]. split; [done|].
  assert (Hef1 : sess_eff [] s s1) by (by apply io_eff_read).
  destruct (writer_eff_trans _ _ _ _ _ _ Hef1 Hef2) as (add & Hef & Epw).
  exists s3, ([(h_read, r_read)] ++ add). split; [by rewrite release_reading|].
  split; [by eapply sess_eff_trans|]. split; [|done].
  unfold pend, pend_r, pend_w at 1. rewrite Hw3. destruct (rd s3); [|done].
  cbn [app]. constructor. exact (Permutation_refl' Epw).
Qed.

Lemma read_fail_ok left out ok s n :
  inv left out ok s -> possible s (ReadFail n) = true ->
  exists s', sess_step h_read h_write r_read r_write s (ReadFail n) = Ok s' /\ inv left out ok s' /\
    stepped (pend_w h_write r_write s) True s s'.
Proof.
  intros Hi Hp. cbn in Hp. unfold inv in Hi. cbn [sess_step]. unfold reader_resume.
  destruct (rd s) as [aw|] eqn:Er; [|done].
  apply Z.leb_le in Hp.
  destruct Hi as (cl & Hb & Hw & Hr). unfold reader_inv in Hr. rewrite Er in Hr.
  destruct Hr as (-> & Ha & Hn).
  assert (Hrr : read_resume (complete aw n) (conn s) = (n, conn s)).
  { unfold read_resume, ReadAwaitable_await_resume, complete. cbn.
    rewrite (proj2 (Z.ltb_ge _ _)) by lia. by destruct (conn s). }
  rewrite Hrr. rewrite (proj2 (Z.leb_le _ _)) by lia.
  destruct (close_ok h_write r_write Hsq left out ok
              (set_rd (set_io s (ctx s) (arena s) (conn s)) ReaderDone)) as (s' & E & (Hb' & Hw' & Hr' & add & Hef & Epw) & Epw').
  { by destruct Hb. } { exact Hw. }
  cbn [rq set_io set_rd] in *. rewrite E. cbn [mbind outcome_bind]. eexists. split; [done|].
  injection Hr' as Hr1 Hr2. split.
  { apply (release_ok left out ok true); [done..|]. unfold reader_inv. by rewrite Hr1. }
  assert (add = []) as ->.
  { rewrite Epw' in Epw. apply (f_equal length) in Epw. rewrite length_app in Epw.
    apply nil_length_inv. lia. }
  exists s', []. split; [done|]. split; [exact Hef|]. split; [|done].
  unfold pend, pend_r. rewrite Hr1. cbn [app]. by rewrite Epw'.
Qed.

Lemma write_done_ok left out ok s w :
  inv left out ok s -> possible s (WriteDone w) = true ->
  exists s', sess_step h_read h_write r_read r_write s (WriteDone w) = Ok s' /\
    inv left out (ok && (0 <? w)) s' /\ rd s' = rd s /\
    stepped (pend_r h_read r_read s) (w <= 0) s s'.
Proof.
  intros Hi Hp. cbn in Hp. unfold inv in Hi. cbn [sess_step]. unfold writer_resume.
  destruct (wr s) as [|f aw|] eqn:Ew; [by destruct (rd s)| |by destruct (rd s)].
  assert (exists cl, base left cl s /\ writer_inv h_write out ok cl s /\ reader_inv cl s)
    as (cl & Hb & Hw & Hr) by (by destruct (rd s)).
  assert (Hp' : w <= chunk_limit (ctx s) (conn s) (w_remaining f))
    by (apply Z.leb_le; by destruct (rd s)). clear Hp Hi.
  unfold writer_inv in Hw. rewrite Ew in Hw. destruct Hw as (Hwt & rest & Hwi & Hlen & Hrl & Hout).
  pose proof Hwi as (Hne & Hoff & Hdrop & Hrem & _ & Hsg & Htk). rewrite Hrem in Hp'.
  unfold Write_resume. destruct (Z.leb_spec w 0) as [Hw0|Hw0].
  - assert (taken (arena s) (conn s) aw w = Ok []) as ->
      by (unfold taken; by rewrite (proj2 (Z.ltb_ge _ _)) by lia).
    cbn [mbind outcome_bind after_write]. rewrite (proj2 (Z.leb_le _ _)) by lia.
    cbn [mbind outcome_bind]. eexists. split; [done|].
    rewrite (proj2 (Z.ltb_ge _ _)), andb_false_r by lia.
    split; [|split; [by rewrite release_rd|]].
    + apply (release_ok left out false cl); [by destruct Hb| |exact Hr].
      split; [done|]. cbn. rewrite app_nil_r. by eexists.
    + eexists _, []. split; [done|]. split; [by apply sess_eff_refl|]. split; [|done].
      unfold pend. cbn. by rewrite app_nil_r.
  - rewrite (Htk w) by lia. cbn [mbind outcome_bind].
    rewrite (proj2 (Z.ltb_lt _ _)), andb_true_r by lia.
    pose proof (chunk_limit_le (ctx s) (conn s) (zlen rest)).
    assert (Hd : drop (Z.to_nat (w_off f + w)) (w_data f) = drop (Z.to_nat w) rest)
      by (rewrite <- Hdrop, drop_drop; f_equal; lia).
    assert (Hz : zlen (drop (Z.to_nat w) rest) = zlen rest - w)
      by (unfold zlen in *; rewrite length_drop; lia).
    rewrite Hrem, u64_small by (unfold SIZE_MOD; lia). rewrite <- Hz.
    set (s1 := set_sent s _).
    destruct (Write_loop_ok (ctx s1) (arena s1) (conn s1) (w_data f) (w_off f + w) (w_len f)
                (drop (Z.to_nat w) rest)) as (st & c1 & ar1 & k1 & HW & Hst & Hbs & Hk & Hf);
      [done|apply Hb|lia|done|unfold VECTOR_MAX; lia|].
    pose proof (Write_loop_pool _ _ _ _ _ _ _ _ (ba_pool _ _ _ Hb : exists O fl, pool_ok O fl (ctx s1)) HW) as Hp1.
    rewrite HW. cbn [mbind outcome_bind].
    assert (Hb1 : base left cl (set_io s1 c1 ar1 k1)) by (apply base_write; [by destruct Hb|done..]).
    assert (Hout1 : out = (sent s ++ take (Z.to_nat w) rest) ++ drop (Z.to_nat w) rest ++
                          concat (items_ (rq s))).
    { rewrite Hout, <- app_assoc. f_equal. by rewrite app_assoc, take_drop. }
    destruct (after_write_ok h_write r_write (run_writer h_write r_write false) left out ok cl
                (set_io s1 c1 ar1 k1) (w_len f) (drop (Z.to_nat w) rest) st)
      as (s2 & -> & Hb2 & Hw2 & Hr2 & Hef2); try done; [lia| |].
    { intros Hnil. apply run_writer_ok; try done. cbn. by rewrite Hout1, Hnil. }
    cbn [mbind outcome_bind]. eexists. split; [done|].
    injection Hr2 as Hr3 Hr4. split; [|split; [by rewrite release_rd|]].
    + apply (release_ok left out ok cl); [done..|].
      unfold reader_inv in *. rewrite Hr3, Hr4. cbn. by rewrite Hk.
    + assert (Hef1 : sess_eff [] s (set_io s1 c1 ar1 k1))
        by (by apply (io_eff_write _ _ _ _ _ _ _ _ HW); [apply Hb|..]).
      destruct (writer_eff_trans _ _ _ _ _ _ Hef1 Hef2) as (add & Hef & Epw).
      exists s2, add. do 2 (split; [done|]). split; [|lia].
      unfold pend. rewrite Epw, app_nil_r. unfold pend_r at 1. rewrite Hr3. apply Permutation_app_comm.
Qed.

Lemma feed_cons left ch chunks :
  feed left (ch :: chunks) =
    ((drain_bytes (left ++ ch)).1 ++ (feed (drain_bytes (left ++ ch)).2 chunks).1,
     (feed (drain_bytes (left ++ ch)).2 chunks).2).
Proof. cbn [feed]. destruct (drain_bytes (left ++ ch)) as [ms rest]. cbn [fst snd]. by destruct (feed rest chunks). Qed.

Lemma feed_app left chunks1 : forall chunks2,
  feed left (chunks1 ++ chunks2) =
    ((feed left chunks1).1 ++ (feed (feed left chunks1).2 chunks2).1,
     (feed (feed left chunks1).2 chunks2).2).
Proof.
  revert left. induction chunks1 as [|ch chunks1 IH]; intros left chunks2.
  { cbn [app feed fst snd]. by destruct (feed left chunks2). }
  cbn [app]. rewrite !feed_cons, IH. cbn [fst snd]. by rewrite app_assoc.
Qed.

Lemma feed_left_le chunks : forall left, zlen (feed left chunks).2 <= zlen (left ++ concat chunks).
Proof.
  induction chunks as [|ch chunks IH]; intros left; [by rewrite app_nil_r|].
  rewrite feed_cons. cbn [fst snd concat]. rewrite app_assoc, zlen_app.
  etrans; [apply IH|]. rewrite zlen_app. apply Z.add_le_mono_r.
  unfold drain_bytes, zlen. apply inj_le, drain_spec_le.
Qed.

Lemma sess_run_ok es : forall left out ok s,
  inv left out ok s -> possible_run h_read h_write r_read r_write (Ok s) es = true ->
  zlen (left ++ concat (delivered_chunks es)) + 4096 <= VECTOR_MAX ->
  Forall small_response (feed left (delivered_chunks es)).1 ->
  exists s', sess_run h_read h_write r_read r_write s es = Ok s' /\
    inv (feed left (delivered_chunks es)).2
        (out ++ responses (feed left (delivered_chunks es)).1)
        (ok && forallb write_ok es) s'.
Proof.
  induction es as [|e es IH]; intros left out ok s Hi Hp Hmax Hsm.
  { cbn. rewrite app_nil_r, andb_true_r. by exists s. }
  cbn [possible_run] in Hp. apply andb_true_iff in Hp as [Hp Hps]. cbn [sess_run].
  destruct e as [bs|n|w].
  - change (delivered_chunks (ReadDone bs :: es)) with (bs :: delivered_chunks es) in *.
    rewrite feed_cons in *. cbn [fst snd concat] in *. apply Forall_app in Hsm as [Hs1 Hs2].
    pose proof (zlen_nonneg (concat (delivered_chunks es))).
    rewrite app_assoc, zlen_app in Hmax.
    destruct (read_done_ok left out ok s bs Hi Hp) as (s1 & E & Hi1 & _); [lia|done|].
    rewrite E in *. cbn [mbind outcome_bind].
    destruct (IH _ _ ok s1 Hi1 Hps) as (s2 & -> & Hi2); [|done|].
    { rewrite zlen_app.
      enough (zlen (drain_bytes (left ++ bs)).2 <= zlen (left ++ bs)) by lia.
      unfold drain_bytes, zlen. apply inj_le, drain_spec_le. }
    exists s2. split; [done|]. unfold responses in *. by rewrite bind_app, app_assoc.
  - destruct (read_fail_ok left out ok s n Hi Hp) as (s1 & E & Hi1 & _).
    rewrite E in *. exact (IH _ _ ok s1 Hi1 Hps Hmax Hsm).
  - destruct (write_done_ok left out ok s w Hi Hp) as (s1 & E & Hi1 & _).
    rewrite E in *. cbn [forallb write_ok]. rewrite andb_assoc.
    exact (IH _ _ _ s1 Hi1 Hps Hmax Hsm).
Qed.

Lemma inv_sent left out ok s :
  inv left out ok s ->
  sent s `prefix_of` out /\ (ok = true -> out = sent s ++ unsent s).
Proof.
  unfold inv, unsent. intros Hi.
  assert (Hw : (exists cl, writer_inv h_write out ok cl s) \/ wr s = WriterDone /\
             exists lost, out = sent s ++ lost /\ (ok = true -> lost = [])).
  { destruct (rd s), (wr s) eqn:Ew; try (left; destruct Hi as (cl & _ & ? & _); by exists cl).
    right. by destruct Hi as (_ & _ & Hi). }
  destruct Hw as [[cl Hw]|(-> & lost & -> & Hl)].
  2:{ split; [by apply prefix_app_r|]. intros E. by rewrite Hl. }
  unfold writer_inv in Hw. destruct (wr s) as [|f aw|].
  - destruct Hw as (_ & _ & _ & ->). split; [done|]. by rewrite app_nil_r.
  - destruct Hw as (_ & rest & (_ & _ & <- & _) & _ & _ & ->). split; [by apply prefix_app_r|done].
  - destruct Hw as (_ & Hw). destruct ok.
    + destruct Hw as [-> _]. split; [done|]. by rewrite app_nil_r.
    + destruct Hw as [lost ->]. split; [by apply prefix_app_r|done].
Qed.

(** A connection as the accept loop hands it over. *)
Record fresh (c : IoContext) (ar : Arena) (k : CoroConnection) : Prop := {
  fr_pool : exists O fl, pool_ok O fl c;
  fr_rd : rd_ok ar k;
  fr_empty : received ar k = [];
  fr_wr : wr_ok c ar k;
  fr_apart : apart c k
}.

Lemma handleConnection_ok c ar k :
  fresh c ar k ->
  exists s, handleConnection h_read h_write r_read r_write c ar k = Ok s /\ inv [] [] true s /\
    rd s <> ReaderDone /\
    io_eff (pend s) c ar k (ctx s) (arena s) (conn s).
Proof.
  intros []. unfold handleConnection.
  destruct (run_writer_ok h_write r_write Hsq false [] [] true false
              (mkSess c ar k ResponseQueue_new ReaderDone WriterDone [])) as (s & -> & Hb & Hw & _ & add & Hef & Epw);
    [by constructor|done..|].
  cbn [mbind outcome_bind].
  destruct (start_read_ok [] [] true s Hb Hw) as (s' & E & Hi & Hr & Hef' & Hwr); [by vm_compute|].
  exists s'. do 3 (split; [done|]). rewrite app_nil_r in Epw. subst add.
  unfold pend, pend_r. destruct (rd s'); [|done]. unfold pend_w at 1. rewrite Hwr.
  exact (sess_eff_trans _ _ _ _ _ Hef Hef').
Qed.

End ReaderProofs.

(** * A session as a server sees it *)

(** The completion that a result [n] of a read stands for, when [rest] is what
    the peer still sends. *)
Definition read_event (rest : bytes) (n : Z) : completion :=
  if 0 <? n then ReadDone (take (Z.to_nat n) rest) else ReadFail n.

(** The kernel delivers, after [d], what the peer sends next. *)
Definition in_stream (stream d : bytes) (e : completion) : Prop :=
  match e with ReadDone bs => d ++ bs `prefix_of` stream | _ => True end.

Lemma read_event_in_stream stream d m :
  d `prefix_of` stream -> in_stream stream d (read_event (drop (length d) stream) m).
Proof.
  intros [rest ->]. unfold read_event, in_stream. destruct (0 <? m); [|done].
  rewrite drop_app_length. apply prefix_app, prefix_take.
Qed.

Lemma release_cases s :
  release s = s \/
  exists k c o, Connection.Close (ctx s) (conn s) = (k, c, o) /\ release s = set_io s c (arena s) k.
Proof.
  unfold release. destruct (rd s); [by left|]. destruct (wr s); [by left..|]. right.
  destruct (Connection.Close (ctx s) (conn s)) as [[k c] o]. by exists k, c, o.
Qed.

Lemma release_ctx s :
  arena (release s) = arena s /\ rd (release s) = rd s /\ wr (release s) = wr s.
Proof. by destruct (release_cases s) as [->|(k & c & o & E & ->)]. Qed.

(** A live session's connection has well-formed buffers. *)
Lemma inv_live h left out ok s aw :
  inv h left out ok s -> rd s = Reading aw \/ (exists f, wr s = InWrite f aw) ->
  exists cl, base left cl s /\ writer_inv h out ok cl s /\ reader_inv cl s.
Proof. unfold inv. intros Hi [Er|[f Ew]]; [by rewrite Er in Hi|]. rewrite Ew in Hi. by destruct (rd s). Qed.

Lemma inv_rd_ok h left out ok s e :
  inv h left out ok s -> possible s e = true -> rd_ok (arena s) (conn s).
Proof.
  unfold inv, possible. intros Hi Hp.
  destruct e, (rd s), (wr s); try done; destruct Hi as (cl & Hb & _); apply Hb.
Qed.

(** A cancelled operation is among what the kernel may report. *)
Lemma cancel_write_possible h left out ok s f aw :
  inv h left out ok s -> wr s = InWrite f aw -> possible s (WriteDone (- ECANCELED)) = true.
Proof.
  intros Hi Ew. destruct (inv_live _ _ _ _ _ aw Hi) as (cl & Hb & Hwi & _); [right; by exists f|].
  unfold writer_inv in Hwi. rewrite Ew in Hwi. destruct Hwi as (_ & rest & (_ & _ & _ & Hrem & _) & _).
  assert (Hlim : - ECANCELED <=? chunk_limit (ctx s) (conn s) (w_remaining f) = true).
  { apply Z.leb_le. rewrite Hrem. pose proof (zlen_nonneg rest). unfold chunk_limit, ECANCELED.
    destruct (Z.leb_spec 0 (write_buf_idx_ (conn s))) as [Hi'|]; [|lia].
    destruct (ba_wr _ _ _ Hb Hi') as (_ & _ & _ & _ & Hbs). cbn in Hbs. unfold BufSize in *. lia. }
  unfold possible. rewrite Ew. by destruct (rd s).
Qed.

(** A connection of which no coroutine waits is closed. *)
Lemma inv_idle h left out ok s :
  inv h left out ok s -> rd s = ReaderDone -> pend_w h h s = [] -> Connection.closed_ (conn s) = true.
Proof.
  unfold inv, pend_w. intros Hinv Er Hw. rewrite Er in Hinv. destruct (wr s) eqn:Ew; [|done|by destruct Hinv].
  destruct Hinv as (cl & _ & Hwi & Hr). unfold writer_inv, reader_inv in *.
  rewrite Er in Hr. rewrite Ew in Hwi. destruct Hwi as (_ & _ & -> & _). done.
Qed.

(** * Framing

    The receiver's view of a sequence of frames is independent of how the
    network cuts it into reads. *)

(** A sequence of messages on the wire, and as the receiver sees them. *)
Definition wire (ms : list (RpcHeader * bytes)) : bytes := ms ≫= fun m => wire_frame m.1 m.2.

Definition seen (ms : list (RpcHeader * bytes)) : list (RpcHeader * bytes) :=
  map (fun m => (received_header m.1 m.2, m.2)) ms.

Definition sendable (m : RpcHeader * bytes) : Prop := header_ok m.1 /\ zlen m.2 < 2 ^ 32.

(** [t] is what has arrived of the first of [ms], short of a whole frame. *)
Definition partial (t : bytes) (ms : list (RpcHeader * bytes)) : Prop :=
  match ms with
  | [] => t = []
  | m :: _ => exists r, wire_frame m.1 m.2 = t ++ r /\ r <> []
  end.

Lemma drain_partial fuel t ms :
  Forall sendable ms -> partial t ms -> drain_spec (S fuel) t = ([], t).
Proof.
  intros Hs Hp. cbn [drain_spec]. destruct ms as [|[h p] ms]; [cbn in Hp; by subst t|].
  destruct Hp as (r & E & Hr). apply Forall_cons in Hs as [[Hh Hl] _].
  by destruct (parse_spec_prefix h p t r Hh Hl E Hr) as [->| ->].
Qed.

Lemma drain_wire ms1 ms2 t : forall fuel,
  Forall sendable ms1 -> Forall sendable ms2 -> partial t ms2 ->
  (length (wire ms1 ++ t) < fuel)%nat ->
  drain_spec fuel (wire ms1 ++ t) = (seen ms1, t).
Proof.
  induction ms1 as [|[h p] ms1 IH]; intros [|fuel] Hs1 Hs2 Hp Hf; try (cbn in Hf; lia).
  { by apply (drain_partial _ _ ms2). }
  apply Forall_cons in Hs1 as [[Hh Hl] Hs1]. cbn [fst snd] in *.
  change (wire ((h, p) :: ms1)) with (wire_frame h p ++ wire ms1) in *.
  rewrite <- app_assoc in *. cbn [drain_spec]. rewrite parse_spec_frame by done.
  rewrite <- (zlen_wire_frame h p). unfold zlen at 1. rewrite Nat2Z.id, drop_app_length.
  rewrite IH; [done..|]. rewrite length_app in Hf. pose proof (zlen_wire_frame h p).
  pose proof (zlen_nonneg p). unfold zlen, HEADER_SIZE in *. lia.
Qed.

(** Any prefix of the stream is some whole frames and a partial one. *)
Lemma wire_prefix ms : forall bs rest,
  bs ++ rest = wire ms ->
  exists ms1 ms2 t, ms = ms1 ++ ms2 /\ bs = wire ms1 ++ t /\ t ++ rest = wire ms2 /\ partial t ms2.
Proof.
  induction ms as [|m ms IH]; intros bs rest E.
  { apply app_eq_nil in E as [-> ->]. by exists [], [], []. }
  change (wire (m :: ms)) with (wire_frame m.1 m.2 ++ wire ms) in E.
  destruct (decide (length bs < length (wire_frame m.1 m.2))%nat) as [Hl|Hl].
  - exists [], (m :: ms), bs. split_and!; [done..|].
    exists (drop (length bs) (wire_frame m.1 m.2)). split.
    + rewrite <- (take_drop (length bs) (wire_frame m.1 m.2)) at 1. f_equal.
      apply (f_equal (take (length bs))) in E. rewrite take_app_length, take_app_le in E by lia. done.
    + intros Hn. apply (f_equal length) in Hn. rewrite length_drop in Hn. change (length []) with 0%nat in Hn. lia.
  - destruct (IH (drop (length (wire_frame m.1 m.2)) bs) rest) as (ms1 & ms2 & t & -> & Ht & Hr & Hp).
    { apply (f_equal (drop (length (wire_frame m.1 m.2)))) in E.
      rewrite drop_app_length, drop_app_le in E by lia. done. }
    exists (m :: ms1), ms2, t. split_and!; [done| |done..].
    change (wire (m :: ms1)) with (wire_frame m.1 m.2 ++ wire ms1).
    rewrite <- app_assoc, <- Ht.
    rewrite <- (take_drop (length (wire_frame m.1 m.2)) bs) at 1. f_equal.
    apply (f_equal (take (length (wire_frame m.1 m.2)))) in E.
    rewrite take_app_length, take_app_le in E by lia. done.
Qed.

Lemma feed_wire chunks : forall ms left rest,
  Forall sendable ms -> partial left ms -> left ++ concat chunks ++ rest = wire ms ->
  exists ms1 ms2 t, ms = ms1 ++ ms2 /\ left ++ concat chunks = wire ms1 ++ t /\ partial t ms2 /\
    feed left chunks = (seen ms1, t).
Proof.
  induction chunks as [|ch chunks IH]; intros ms left rest Hs Hp E.
  { exists [], ms, left. by rewrite app_nil_r. }
  cbn [concat] in *. rewrite <- app_assoc, (app_assoc left ch) in E.
  destruct (wire_prefix _ _ _ E) as (ms1 & ms2 & t & -> & Ht & Hr & Hp2).
  apply Forall_app in Hs as [Hs1 Hs2].
  destruct (IH ms2 t rest Hs2 Hp2 Hr) as (ms3 & ms4 & t' & -> & Ht' & Hp4 & Hf).
  exists (ms1 ++ ms3), ms4, t'. rewrite app_assoc. unfold wire, seen in *. split_and!; [done| |done|].
  - rewrite bind_app, <- (app_assoc _ _ t'), <- Ht', !app_assoc. f_equal. done.
  - rewrite feed_cons. unfold drain_bytes. rewrite Ht.
    pose proof (drain_wire ms1 (ms3 ++ ms4) t) as Hd. unfold wire, seen in Hd.
    rewrite Hd by (try done; lia). cbn [fst snd]. by rewrite Hf, map_app.
Qed.

(** A byte of garbage before a frame is recognised as such. *)
Lemma parse_spec_garbage x h p rest :
  exists hd, parse_spec (x :: wire_frame h p ++ rest) = PBadMagic hd.
Proof.
  pose proof (zlen_nonneg (p ++ rest)). unfold parse_spec, wire_frame.
  rewrite zlen_cons, <- app_assoc, zlen_app, zlen_wire_header, (proj2 (Z.ltb_ge _ _)) by lia.
  assert (Hm : magic (decode_header (take 12 (x :: wire_header h (zlen p) ++ p ++ rest)))
               =? MAGIC_NUMBER = false).
  { cbn [decode_header magic]. apply Z.eqb_neq. by destruct x. }
  rewrite Hm. by eexists.
Qed.

Lemma partial_nil ms : partial [] ms.
Proof.
  destruct ms as [|m ms]; [done|]. exists (wire_frame m.1 m.2). split; [done|].
  intros Hn. apply (f_equal zlen) in Hn. rewrite zlen_wire_frame in Hn.
  pose proof (zlen_nonneg m.2). unfold HEADER_SIZE in Hn. change (zlen []) with 0 in Hn. lia.
Qed.


(** When the chunks are the whole stream, every message is dispatched. *)
Lemma feed_wire_all chunks ms :
  Forall sendable ms -> concat chunks = wire ms -> feed [] chunks = (seen ms, []).
Proof.
  intros Hs E. destruct (feed_wire chunks ms [] []) as (ms1 & ms2 & t & -> & Ht & Hp & ->);
    [done|by apply partial_nil|by rewrite app_nil_r|].
  cbn [app] in Ht. rewrite E in Ht. unfold wire in Ht. rewrite bind_app in Ht.
  apply app_inv_head in Ht. destruct ms2 as [|m ms2]; unfold partial in Hp.
  { subst t. by rewrite app_nil_r. }
  destruct Hp as (r & Hr & Hne). rewrite bind_cons, Hr, <- app_assoc in Ht.
  rewrite <- (app_nil_r t) in Ht at 2. apply app_inv_head, app_eq_nil in Ht as [? _]. done.
Qed.

(** The run of a session on a sequence of complete messages. *)
Lemma sess_run_requests {K : Kernel} {HO : HostOrder} {PB : Protobuf}
    h_read h_write r_read r_write (Hsq : sq_never_full K) c ar k es ms :
  fresh c ar k ->
  possible_run h_read h_write r_read r_write
    (handleConnection h_read h_write r_read r_write c ar k) es = true ->
  Forall sendable ms -> concat (delivered_chunks es) = wire ms ->
  zlen (wire ms) + 4096 <= VECTOR_MAX -> Forall small_response (seen ms) ->
  forallb write_ok es = true ->
  exists s', (s ← handleConnection h_read h_write r_read r_write c ar k;
              sess_run h_read h_write r_read r_write s es) = Ok s' /\
    sent s' ++ unsent s' = responses (seen ms) /\
    ((forall f aw, wr s' <> InWrite f aw) -> sent s' = responses (seen ms)).
Proof.
  intros Hfr Hp Hs Hc Hmax Hsm Hok.
  assert (Hf : (feed [] (delivered_chunks es)).1 = seen ms).
  { by rewrite (feed_wire_all _ ms Hs Hc). }
  destruct (handleConnection_ok h_read h_write r_read r_write Hsq c ar k Hfr) as (s & E & Hi & _).
  rewrite E in *. cbn [mbind outcome_bind]. rewrite <- Hc in Hmax. rewrite <- Hf in *.
  destruct (sess_run_ok h_read h_write r_read r_write Hsq es [] [] true s Hi Hp Hmax Hsm)
    as (s' & -> & Hi'). cbn [app andb] in Hi'.
  destruct (inv_sent h_write _ _ _ _ Hi') as [_ H2]. specialize (H2 Hok).
  exists s'. split_and!; [done..|]. intros Hnw. rewrite H2. unfold unsent.
  destruct (wr s') as [|f aw|]; [by rewrite app_nil_r|by destruct (Hnw f aw)|by rewrite app_nil_r].
Qed.

(** * Properties *)

(** Every message field is the payload itself. *)
#[local] Instance plain_messages : Protobuf :=
  {| ParseFromArray p := Some p; SerializeToString m := m |}.
#[local] Instance little : HostOrder := {| host_le := true |}.

(** A context with four registered buffers of 32 bytes, and a connection. *)
Definition echo_ctx : IoContext :=
  match IoContext_new all_ok true 4 32 with Ok c => c | _ => ctx_empty end.
Definition echo_arena : Arena := replicate 128 Byte.x00.
Definition echo_conn : CoroConnection * IoContext :=
  match @CoroConnection_new open_kernel echo_ctx 9 with Ok r => r | _ => conn1 end.

Lemma echo_fresh : fresh echo_conn.2 echo_arena echo_conn.1.
Proof.
  constructor.
  - exists ∅, []. constructor; [done|constructor|set_solver|done|done|set_solver].
  - split; [|split].
    + constructor; vm_compute; intuition discriminate.
    + reflexivity.
    + intros _. vm_compute. split; reflexivity.
  - reflexivity.
  - intros _. exists 64. vm_compute. intuition discriminate.
  - intros _ _ a Ha. left. vm_compute in Ha. injection Ha as <-. vm_compute. discriminate.
Qed.

(** A request with payload [hi], and its two halves. *)
Definition request : RpcHeader * bytes := (sample_header, sample_payload).
Definition request_wire : bytes := wire [request].

(** The request arrives in two reads, the second of which also brings the
    start of another; the answer goes out in two writes. *)
Definition echo_events : list completion :=
  [ReadDone (take 5 request_wire); ReadDone (drop 5 request_wire ++ [Byte.x54]);
   WriteDone 16; WriteDone 4].

Definition echo_start : outcome Sess :=
  @handleConnection open_kernel 1%positive 2%positive 1%positive 2%positive
    echo_conn.2 echo_arena echo_conn.1.

(** C10: Whatever the interleaving of reads and partial writes, a session runs
    without undefined behaviour, and the bytes it puts on the wire are a prefix
    of the responses to the messages dispatched so far, in the order of the
    requests; as long as no write fails nothing is lost (what is not yet sent
    is in the write in progress or queued); and once both coroutines are gone
    the connection is closed. *)
Theorem echo_session_sends_responses (K : Kernel) (HO : HostOrder) (PB : Protobuf)
    h_read h_write r_read r_write c ar k es :
  let s0 := handleConnection h_read h_write r_read r_write c ar k in
  let ms := (feed [] (delivered_chunks es)).1 in
  sq_never_full K -> fresh c ar k ->
  possible_run h_read h_write r_read r_write s0 es = true ->
  zlen (concat (delivered_chunks es)) + 4096 <= VECTOR_MAX ->
  Forall small_response ms ->
  exists s', (s ← s0; sess_run h_read h_write r_read r_write s es) = Ok s' /\
    sent s' `prefix_of` responses ms /\
    (forallb write_ok es = true -> responses ms = sent s' ++ unsent s') /\
    (rd s' = ReaderDone -> wr s' = WriterDone -> Connection.closed_ (conn s') = true).
Proof.
  cbn zeta. intros Hsq Hfr Hp Hmax Hsm.
  destruct (handleConnection_ok h_read h_write r_read r_write Hsq c ar k Hfr) as (s & E & Hi & _).
  rewrite E in *. cbn [mbind outcome_bind].
  destruct (sess_run_ok h_read h_write r_read r_write Hsq es [] [] true s Hi Hp Hmax Hsm)
    as (s' & -> & Hi'). cbn [app andb] in Hi'.
  exists s'. split; [done|]. destruct (inv_sent h_write _ _ _ _ Hi') as [H1 H2].
  split_and!; [done..|]. intros Er Ew. unfold inv in Hi'. rewrite Er, Ew in Hi'. by destruct Hi'.
Qed.

Lemma echo_session_sends_responses_witness :
  let ms := (feed [] (delivered_chunks echo_events)).1 in
  exists s', (s ← echo_start; @sess_run open_kernel _ _ 1 2 1 2 s echo_events)%positive = Ok s' /\
    sent s' `prefix_of` responses ms /\
    (forallb write_ok echo_events = true -> responses ms = sent s' ++ unsent s') /\
    (rd s' = ReaderDone -> wr s' = WriterDone -> Connection.closed_ (conn s') = true).
Proof.
  apply (echo_session_sends_responses open_kernel little plain_messages 1 2 1 2
           echo_conn.2 echo_arena echo_conn.1 echo_events).
  - exact open_kernel_room.
  - exact echo_fresh.
  - vm_compute. reflexivity.
  - vm_compute. discriminate.
  - repeat constructor.
Defined.

Lemma request_sendable : Forall sendable [request].
Proof. repeat constructor; vm_compute; intuition discriminate. Qed.

(** However the network cuts a stream of well-formed frames into reads,
    at any point the handler has been run exactly on the messages that have
    arrived in full, once each and in order, and while the session is reading
    the read buffer holds exactly the part of the next frame that has
    arrived. *)
Theorem dispatch_independent_of_fragmentation (K : Kernel) (HO : HostOrder) (PB : Protobuf)
    h_read h_write r_read r_write c ar k es ms rest :
  let s0 := handleConnection h_read h_write r_read r_write c ar k in
  sq_never_full K -> fresh c ar k ->
  possible_run h_read h_write r_read r_write s0 es = true ->
  Forall sendable ms -> concat (delivered_chunks es) ++ rest = wire ms ->
  zlen (wire ms) + 4096 <= VECTOR_MAX -> Forall small_response (seen ms) ->
  exists ms1 ms2 t s', ms = ms1 ++ ms2 /\ concat (delivered_chunks es) = wire ms1 ++ t /\
    partial t ms2 /\ (s ← s0; sess_run h_read h_write r_read r_write s es) = Ok s' /\
    (rd s' <> ReaderDone -> received (arena s') (conn s') = t) /\
    (forallb write_ok es = true -> sent s' ++ unsent s' = responses (seen ms1)).
Proof.
  cbn zeta. intros Hsq Hfr Hp Hs Hc Hmax Hsm.
  destruct (feed_wire (delivered_chunks es) ms [] rest Hs (partial_nil ms) Hc)
    as (ms1 & ms2 & t & -> & Ht & Hpt & Hf).
  destruct (handleConnection_ok h_read h_write r_read r_write Hsq c ar k Hfr) as (s & E & Hi & _).
  rewrite E in *. cbn [mbind outcome_bind]. unfold seen in Hsm. rewrite map_app in Hsm.
  apply Forall_app in Hsm as [Hsm _]. rewrite <- Hc, zlen_app in Hmax. pose proof (zlen_nonneg rest).
  destruct (sess_run_ok h_read h_write r_read r_write Hsq es [] [] true s Hi Hp)
    as (s' & -> & Hi'); [cbn [app]; lia|by rewrite Hf|].
  rewrite Hf in Hi'. cbn [app andb fst snd] in Hi'.
  exists ms1, ms2, t, s'. split_and!; [done..| |].
  - intros Hr. unfold inv in Hi'. destruct (rd s'); [|done].
    destruct Hi' as (cl & Hb & _). apply Hb.
  - intros Hok. symmetry. by apply (inv_sent h_write _ _ _ _ Hi').
Qed.

Lemma dispatch_independent_of_fragmentation_witness :
  exists ms1 ms2 t s', [request; request] = ms1 ++ ms2 /\
    concat (delivered_chunks echo_events) = wire ms1 ++ t /\ partial t ms2 /\
    (s ← echo_start; @sess_run open_kernel _ _ 1 2 1 2 s echo_events)%positive = Ok s' /\
    (rd s' <> ReaderDone -> received (arena s') (conn s') = t) /\
    (forallb write_ok echo_events = true -> sent s' ++ unsent s' = responses (seen ms1)).
Proof.
  apply (dispatch_independent_of_fragmentation open_kernel little plain_messages 1 2 1 2
           echo_conn.2 echo_arena echo_conn.1 echo_events [request; request] (drop 1 request_wire)).
  - exact open_kernel_room.
  - exact echo_fresh.
  - vm_compute. reflexivity.
  - apply Forall_cons. split; [|exact request_sendable]. apply (Forall_cons_1 _ _ _ request_sendable).
  - vm_compute. reflexivity.
  - vm_compute. discriminate.
  - repeat constructor.
Defined.

(** C9: End to end: if the peer sends a sequence of well-formed frames, in
    whatever fragments, and no write fails, then what has been sent together
    with what is still to be sent is exactly the responses to these frames,
    in order; so when the write loop is not in the middle of a write the peer
    has been sent every response. *)
Theorem echo_answers_every_request (K : Kernel) (HO : HostOrder) (PB : Protobuf)
    h_read h_write r_read r_write c ar k es ms :
  let s0 := handleConnection h_read h_write r_read r_write c ar k in
  sq_never_full K -> fresh c ar k ->
  possible_run h_read h_write r_read r_write s0 es = true ->
  Forall sendable ms -> concat (delivered_chunks es) = wire ms ->
  zlen (wire ms) + 4096 <= VECTOR_MAX -> Forall small_response (seen ms) ->
  forallb write_ok es = true ->
  exists s', (s ← s0; sess_run h_read h_write r_read r_write s es) = Ok s' /\
    sent s' ++ unsent s' = responses (seen ms) /\
    ((forall f aw, wr s' <> InWrite f aw) -> sent s' = responses (seen ms)).
Proof.
  cbn zeta. intros Hsq Hfr Hp Hs Hc Hmax Hsm Hok. by apply sess_run_requests.
Qed.

(** The same request, answered and followed by the end of the stream. *)
Definition whole_exchange : list completion :=
  [ReadDone (take 5 request_wire); ReadDone (drop 5 request_wire);
   WriteDone 16; WriteDone 4; ReadFail 0].

Lemma echo_answers_every_request_witness :
  exists s', (s ← echo_start; @sess_run open_kernel _ _ 1 2 1 2 s whole_exchange)%positive = Ok s' /\
    sent s' ++ unsent s' = responses (seen [request]) /\
    ((forall f aw, wr s' <> InWrite f aw) -> sent s' = responses (seen [request])).
Proof.
  apply (echo_answers_every_request open_kernel little plain_messages 1 2 1 2
           echo_conn.2 echo_arena echo_conn.1 whole_exchange [request]).
  - exact open_kernel_room.
  - exact echo_fresh.
  - vm_compute. reflexivity.
  - exact request_sendable.
  - vm_compute. reflexivity.
  - vm_compute. discriminate.
  - repeat constructor.
  - vm_compute. reflexivity.
Defined.

(** C37: Resynchronisation takes one read per byte: with one stray byte in
    front of a complete frame the dispatcher drops the byte and goes back to
    waiting for input, although the frame is in the buffer and would parse. *)
Theorem resync_waits_for_next_read (K : Kernel) (HO : HostOrder) (PB : Protobuf)
    h_write r_write fuel s x h p rest :
  rd_ok (arena s) (conn s) -> header_ok h -> zlen p < 2 ^ 32 ->
  received (arena s) (conn s) = x :: wire_frame h p ++ rest ->
  exists k', dispatch h_write r_write (S fuel) s = Ok (set_io s (ctx s) (arena s) k') /\
    received (arena s) k' = wire_frame h p ++ rest /\
    parse_spec (received (arena s) k') = PMessage (received_header h p) p.
Proof.
  intros (Hwf & _) Hh Hl Hr. cbn [dispatch]. unfold received in Hr.
  rewrite (ReadableBytes_contents (arena s)), Hr by done.
  rewrite zlen_cons, zlen_app, zlen_wire_frame. pose proof (zlen_nonneg p).
  pose proof (zlen_nonneg rest). rewrite (proj2 (Z.leb_le _ _)) by lia.
  destruct (ParseMessage_ok (arena s) (read_buffer_ (conn s)) blank_header Hwf)
    as (b & -> & _ & Hc & _). rewrite Hr in *.
  destruct (parse_spec_garbage x h p rest) as [hd Hps]. rewrite Hps in *.
  cbn [mbind outcome_bind returned]. eexists. split; [done|]. unfold received.
  cbn [read_buffer_ set_read_buffer]. rewrite Hc. split; [done|]. by apply parse_spec_frame.
Qed.

(** A session whose read buffer holds a stray byte and a request. *)
Definition stray_conn : CoroConnection :=
  set_read_buffer (mkConn 9 false (-1) (-1) nullptr (-1) nullptr Buffer_default Buffer_default)
    (mkBuffer (Byte.x00 :: request_wire) nullptr 15 false 15 0).
Definition stray : Sess :=
  mkSess echo_ctx echo_arena stray_conn ResponseQueue_new ReaderDone InPop [].

Lemma resync_waits_for_next_read_witness :
  exists k', @dispatch open_kernel _ _ 2%positive 2%positive 16 stray
      = Ok (set_io stray (ctx stray) (arena stray) k') /\
    received (arena stray) k' = request_wire /\
    parse_spec (received (arena stray) k') =
      PMessage (received_header sample_header sample_payload) sample_payload.
Proof.
  apply (resync_waits_for_next_read open_kernel little plain_messages 2 2 15 stray Byte.x00
           sample_header sample_payload []).
  - split; [|split]; [|reflexivity|intros H; exfalso; apply H; reflexivity].
    constructor; vm_compute; intuition discriminate.
  - vm_compute. intuition discriminate.
  - vm_compute. reflexivity.
  - vm_compute. reflexivity.
Defined.
