(* ===== verification/Isolation.v ===== *)
(** Connections of one server do not interfere: what one does to the context
    and to the registered memory leaves the invariant of every other intact.
    Also what the constructor of a connection establishes for a new session.
    These are the facts the whole-server proof puts sessions together with. *)
From S2P Require Import Prelude Buffer Protocol IoContext Coro Ledger Connection ResponseQueue Echo.

(** * Windows *)

(** The windows of [k] hold in [ar'] what they hold in [ar]. *)
Definition same_windows (c : IoContext) (k : CoroConnection) (ar ar' : Arena) : Prop :=
  zlen ar' = zlen ar /\
  (is_fixed_ (read_buffer_ k) = true ->
   slice ar' (window (read_buffer_ k)) (capacity_ (read_buffer_ k))
   = slice ar (window (read_buffer_ k)) (capacity_ (read_buffer_ k))) /\
  (forall a n, write_fixed_ptr_ k = ArenaPtr a -> 0 <= write_buf_idx_ k -> n <= BufSize c ->
   slice ar' a n = slice ar a n).

Lemma same_windows_refl c k ar : same_windows c k ar ar.
Proof. done. Qed.

(** The pool lies in the arena. *)
Definition arena_ok (pool n : Z) (c : IoContext) (ar : Arena) : Prop :=
  0 <= pool /\ 0 <= n /\ pool + n * buf_size_ c <= zlen ar /\ 0 <= buf_size_ c < 2 ^ 32 /\
  (0 < n -> 0 < buf_size_ c).

Lemma sys_ok_perm pool n ks ks' c : ks ≡ₚ ks' -> sys_ok pool n (ks, c) -> sys_ok pool n (ks', c).
Proof.
  intros Hp [[[Hb Hi] Hf Hw] Hc]. cbn [fst snd] in *. split; [constructor|]; cbn [fst snd].
  - constructor; [|done]. rewrite <- Hb. by rewrite Hp.
  - unfold files_ok in *. by rewrite <- Hf, Hp.
  - by rewrite <- Hp.
  - by rewrite <- Hp.
Qed.

Lemma conn_bufs_read k : 0 <= read_buf_idx_ k -> read_buf_idx_ k ∈ conn_bufs k.
Proof. intros. unfold conn_bufs. rewrite (held_pos (read_buf_idx_ k)) by done. by left. Qed.

Lemma conn_bufs_write k : 0 <= write_buf_idx_ k -> write_buf_idx_ k ∈ conn_bufs k.
Proof.
  intros. unfold conn_bufs. rewrite (held_pos (write_buf_idx_ k)) by done.
  apply elem_of_app. right. by left.
Qed.

(** Indices held by different connections are different. *)
Lemma bufs_distinct (ks : list CoroConnection) i j k1 k2 x y :
  NoDup (ks ≫= conn_bufs) -> ks !! i = Some k1 -> ks !! j = Some k2 -> i <> j ->
  x ∈ conn_bufs k1 -> y ∈ conn_bufs k2 -> x <> y.
Proof.
  revert i j. induction ks as [|k ks IH]; intros i j Hn H1 H2 Hij Hx Hy; [done|].
  rewrite bind_cons in Hn. apply NoDup_app in Hn as (_ & Hd & Hn).
  destruct i as [|i], j as [|j]; cbn in H1, H2; [done|..|by eapply IH; eauto].
  - injection H1 as <-. intros <-. apply (Hd x Hx). apply list_elem_of_bind. eauto using list_elem_of_lookup_2.
  - injection H2 as <-. intros <-. apply (Hd x Hy). apply list_elem_of_bind. eauto using list_elem_of_lookup_2.
Qed.

(** What connection [i] does inside its windows, connection [j] does not
    see. *)
Lemma other_windows pool n ks c ar ar' i j k1 k2 :
  pools_ok pool n ks c -> arena_ok pool n c ar -> ks !! i = Some k1 -> ks !! j = Some k2 -> i <> j ->
  rd_ok ar k1 -> wr_ok c ar k2 -> rd_ok ar k2 -> conn_frame c k1 ar ar' -> same_windows c k2 ar ar'.
Proof.
  intros [Hb _ Hw] (Hpool & _ & _ & Hbs & _) H1 H2 Hij (_ & Hfix1 & _) Hwr2 (Hwf2 & Hfix2 & _) [Hz Hs].
  pose proof (bufs_nodup _ _ _ _ Hb) as Hnd.
  pose proof (bufs_distinct ks i j k1 k2) as Hne.
  pose proof (Forall_lookup_1 _ _ _ _ Hw H1) as [Hr1 Hw1 _].
  pose proof (Forall_lookup_1 _ _ _ _ Hw H2) as [Hr2 Hw2 _].
  split; [done|]. split.
  - intros Hf2. destruct (wf_win _ _ Hwf2 Hf2). symmetry in Hfix2. rewrite Hf2 in Hfix2.
    apply Z.leb_le in Hfix2. destruct (Hr2 Hfix2) as (E2 & Hc2 & _). apply Hs; [done|..].
    + intros Hf1. rewrite Hfix1 in Hf1. apply Z.leb_le in Hf1. destruct (Hr1 Hf1) as (E1 & Hc1 & _).
      unfold window. rewrite E1, E2, Hc1, Hc2. apply windows_disjoint; [lia|].
      intros E. by apply (Hne (read_buf_idx_ k1) (read_buf_idx_ k2)); auto using conn_bufs_read.
    + intros a Hi Ha. rewrite (Hw1 Hi) in Ha. injection Ha as <-. unfold BufSize, window.
      rewrite E2, Hc2. apply windows_disjoint; [lia|].
      intros E. apply (Hne (write_buf_idx_ k1) (read_buf_idx_ k2));
        auto using conn_bufs_read, conn_bufs_write.
  - intros a m Ha Hi Hm. unfold BufSize in *. destruct (Hwr2 Hi) as (a' & Ha' & Hpos & _).
    assert (a' = a) as -> by congruence. rewrite (Hw2 Hi) in Ha. injection Ha as Ha. apply Hs; [done|..].
    + intros Hf1. rewrite Hfix1 in Hf1. apply Z.leb_le in Hf1. destruct (Hr1 Hf1) as (E1 & Hc1 & _).
      unfold window. rewrite E1, Hc1.
      destruct (windows_disjoint pool (buf_size_ c) (read_buf_idx_ k1) (write_buf_idx_ k2)); [lia| |lia..].
      apply Hne; auto using conn_bufs_read, conn_bufs_write.
    + intros b Hi1 Hb1. rewrite (Hw1 Hi1) in Hb1. injection Hb1 as <-. unfold BufSize.
      destruct (windows_disjoint pool (buf_size_ c) (write_buf_idx_ k1) (write_buf_idx_ k2)); [lia| |lia..].
      apply Hne; auto using conn_bufs_write.
Qed.

(** * Moving a session to a changed context and arena *)

Lemma inv_move h_write left out ok s c' ar' `{HostOrder, Protobuf} :
  inv h_write left out ok s -> (exists O fl, pool_ok O fl c') -> buf_size_ c' = buf_size_ (ctx s) ->
  (forall cl, base left cl s -> same_windows (ctx s) (conn s) (arena s) ar') ->
  inv h_write left out ok (set_io s c' ar' (conn s)).
Proof.
  intros Hi Hp Hbs Hwin.
  assert (Hlive : forall cl, base left cl s /\ writer_inv h_write out ok cl s /\ reader_inv cl s ->
            base left cl (set_io s c' ar' (conn s)) /\
            writer_inv h_write out ok cl (set_io s c' ar' (conn s)) /\
            reader_inv cl (set_io s c' ar' (conn s))).
  { intros cl (Hb & Hw & Hr). destruct (Hwin cl Hb) as (Hz & Hwr & Hww).
    destruct Hb as [_ (Hwf & Hfix & Hcap) Hl Hwo Hap Hit Hcl]. split; [|split; [|exact Hr]].
    - constructor; cbn [ctx arena conn rq set_io]; try done.
      + split_and!; try done. destruct Hwf. constructor; try done. by rewrite Hz.
      + rewrite <- Hl. unfold received, contents, block.
        destruct (is_fixed_ (read_buffer_ (conn s))); [|done]. by rewrite Hwr.
      + intros Hi'. destruct (Hwo Hi') as (a & ? & ?). exists a. unfold BufSize in *. by rewrite Hbs, Hz.
      + unfold apart, BufSize in *. by rewrite Hbs.
    - unfold writer_inv in *. cbn [wr rq sent ctx arena conn set_io].
      destruct (wr s) as [|f aw|]; [done| |done]. destruct Hw as (Hwt & rest & Hwi & Hrest).
      split; [done|]. exists rest. split; [|done].
      by apply (writing_frame (ctx s) _ (arena s) _ (conn s) _ _ _ _ Hwi). }
  unfold inv in *. cbn [rd wr conn rq sent set_io].
  destruct (rd s) eqn:Er, (wr s) eqn:Ew; try done; destruct Hi as (cl & Hi); exists cl; by apply Hlive.
Qed.

(** * A new connection *)

Lemma CoroConnection_new_shape {K : Kernel} c fd k c' :
  CoroConnection_new c fd = Ok (k, c') ->
  buf_size_ c' = buf_size_ c /\ exists rp wp fi ri wi,
    k = mkConn fd false fi ri rp wi wp
          (if 0 <=? ri then Buffer_fixed rp (buf_size_ c) else Buffer_dynamic 65536)
          (if 0 <=? wi then Buffer_fixed wp (buf_size_ c) else Buffer_dynamic 8192).
Proof.
  unfold CoroConnection_new, BufSize. destruct (RegisterFile c fd) as [fi c1] eqn:ER.
  destruct (RegisterFile_frame _ _ _ _ ER) as (_ & _ & E3).
  assert (HA : forall c p i q c', AllocateBuffer c p = Ok (i, q, c') -> buf_size_ c' = buf_size_ c).
  { clear. intros c p i q c'. unfold AllocateBuffer. destruct (last _); [|by intros [= <- <- <-]].
    destruct (_ !! _); cbn; [|done]. by intros [= <- <- <-]. }
  destruct (AllocateBuffer c1 nullptr) as [[[ri rp] c2]| |] eqn:E4; cbn [mbind outcome_bind]; [|done..].
  destruct (AllocateBuffer c2 nullptr) as [[[wi wp] c3]| |] eqn:E5; cbn [mbind outcome_bind]; [|done..].
  apply HA in E4, E5. intros [= <- <-]. split; [congruence|]. exists rp, wp, fi, ri, wi.
  by rewrite E5, E4, E3.
Qed.

Lemma CoroConnection_new_fresh {K : Kernel} pool n ks c ar fd k c' :
  pools_ok pool n ks c -> arena_ok pool n c ar -> (exists O fl, pool_ok O fl c') ->
  CoroConnection_new c fd = Ok (k, c') -> fresh c' ar k.
Proof.
  intros Hp (Hpool & Hn & Hlen & Hbs & Hbs') HO E.
  destruct (CoroConnection_new_ok pool n ks c fd Hp) as (k2 & c2 & E2 & Hp2 & _).
  rewrite E in E2. injection E2 as <- <-.
  destruct Hp2 as [Hb _ Hw]. apply Forall_cons in Hw as [Hw _].
  assert (Hdist : 0 <= write_buf_idx_ k -> 0 <= read_buf_idx_ k -> write_buf_idx_ k <> read_buf_idx_ k)
    by (apply (read_write_distinct (k :: ks)); [exact (bufs_nodup _ _ _ _ Hb)|by left..]).
  assert (Hin : forall x, x ∈ conn_bufs k -> 0 <= x < n).
  { intros x Hx. assert (Hs : x ∈ seqZ 0 n); [|apply elem_of_seqZ in Hs; lia].
    rewrite <- (bufs_perm _ _ _ _ Hb). apply elem_of_app. right. rewrite bind_cons. apply elem_of_app. by left. }
  destruct (CoroConnection_new_shape _ _ _ _ E) as (Esz & rp & wp & fi & ri & wi & ->). destruct Hw as [Hr Hwr _].
  cbn [read_buf_idx_ write_buf_idx_ read_buffer_ write_fixed_ptr_] in *. rewrite Esz in *.
  assert (Hri : 0 <= ri -> 0 <= ri < n) by (intros; by apply Hin, (conn_bufs_read (mkConn _ _ _ _ _ _ _ _ _))).
  assert (Hwi : 0 <= wi -> 0 <= wi < n) by (intros; by apply Hin, (conn_bufs_write (mkConn _ _ _ _ _ _ _ _ _))).
  constructor; cbn [read_buf_idx_ write_buf_idx_ read_buffer_ write_fixed_ptr_]; try done.
  - unfold rd_ok. cbn. destruct (Z.leb_spec 0 ri) as [Hi|Hi].
    + destruct (Hr Hi) as (Ep & _). cbn in Ep. rewrite Ep. specialize (Hri Hi). specialize (Hbs' ltac:(lia)).
      split; [|split; [done|intros _; cbn; lia]].
      constructor; cbn; unfold window, VECTOR_MAX; cbn; try done; [lia..|nia].
    + split_and!; [|done|lia]. constructor; cbn; try done; unfold VECTOR_MAX; lia.
  - unfold received, contents. cbn. by destruct (0 <=? ri).
  - intros Hi. cbn in *. exists (pool + wi * buf_size_ c). unfold BufSize. rewrite Esz.
    specialize (Hwi Hi). specialize (Hbs' ltac:(lia)). split; [by apply Hwr|]. nia.
  - intros Hi Hj a Ha. cbn in *. rewrite (Hwr Hj) in Ha. injection Ha as <-. unfold BufSize. rewrite Esz.
    rewrite (proj2 (Z.leb_le _ _)) in * by done. destruct (Hr Hi) as (Ep & _). cbn in Ep. rewrite Ep.
    unfold window. cbn.
    destruct (windows_disjoint pool (buf_size_ c) wi ri); [lia|by apply Hdist|auto..].
Qed.

(** * What is sent depends only on the completions

    The bytes a session has put on the wire are counted by the writes that
    completed, whatever context and buffers it works on. *)
Definition written (e : completion) : Z := match e with WriteDone w => Z.max 0 w | _ => 0 end.

Fixpoint total_written (es : list completion) : Z :=
  match es with [] => 0 | e :: es => written e + total_written es end.

Lemma total_written_snoc es e : total_written (es ++ [e]) = total_written es + written e.
Proof. induction es as [|e' es IH]; cbn; lia. Qed.

Section Sent.
Context {K : Kernel} {HO : HostOrder} {PB : Protobuf}.
Context (h_read h_write : coro) (r_read r_write : cell).

(** A piece of a session that sends nothing. *)
Definition silent (f : Sess -> outcome Sess) : Prop := forall s s', f s = Ok s' -> sent s' = sent s.

Lemma after_write_silent again s st s' :
  silent again -> after_write h_write r_write again s st = Ok s' -> sent s' = sent s.
Proof.
  intros Ha. unfold after_write. destruct st as [v|f aw].
  - destruct (v <=? 0); [by intros [= <-]|apply Ha].
  - destruct (await_suspend _ _ _ _) as [[c aw']| |]; cbn; [|done..]. by intros [= <-].
Qed.

Lemma writeLoop_silent fuel : forall resumed, silent (writeLoop h_write r_write fuel resumed).
Proof.
  induction fuel as [|fuel IH]; intros resumed s s'; cbn [writeLoop]; [done|].
  destruct (resumed || pop_await_ready (rq s)); [|by intros [= <-]].
  destruct (pop_await_resume (rq s)) as [[d|] q]; [|by intros [= <-]].
  destruct (Write_start _ _ _ _) as [[[[st c] ar] k]| |]; cbn [mbind outcome_bind]; [|done..].
  intros E. exact (after_write_silent _ _ _ _ (IH false) E).
Qed.

Lemma wake_writer_silent r s s' : wake_writer h_write r_write r s = Ok s' -> sent s' = sent s.
Proof.
  unfold wake_writer. destruct r as [q [w|]]; [|by intros [= <-]].
  intros E. exact (writeLoop_silent _ _ _ _ E).
Qed.

Lemma handleRequest_silent h p : silent (handleRequest h_write r_write h p).
Proof.
  intros s s'. unfold handleRequest, Task_body. destruct (ParseFromArray p) as [msg|]; [|by intros [= <-]].
  destruct (encode_response _ _ _) as [d| |]; cbn [mbind outcome_bind]; [|by intros [= <-]|done].
  destruct (wake_writer _ _ _ _) as [s1| |] eqn:E; [|by intros [= <-]|done].
  intros [= <-]. by apply wake_writer_silent in E.
Qed.

Lemma dispatch_silent fuel : silent (dispatch h_write r_write fuel).
Proof.
  induction fuel as [|fuel IH]; intros s s'; cbn [dispatch]; [done|].
  destruct (HEADER_SIZE <=? _); [|by intros [= <-]].
  destruct (ParseMessage _ _ _) as [[[o h] b]| |]; cbn [mbind outcome_bind]; [|done..].
  destruct o as [p|]; [|by intros [= <-]]. destruct (msg_type h =? 0).
  - destruct (handleRequest _ _ _ _ _) as [s1| |] eqn:E; cbn [mbind outcome_bind]; [|done..].
    intros E2. apply IH in E2. apply handleRequest_silent in E. by rewrite E2, E.
  - cbn [mbind outcome_bind]. intros E2. by apply IH in E2.
Qed.

Lemma start_read_silent : silent (start_read h_read r_read).
Proof.
  intros s s'. unfold start_read. destruct (Read _ _ _) as [[[[aw c] ar] k]| |]; cbn; [|done..].
  destruct (await_suspend _ _ _ _) as [[c1 aw']| |]; cbn; [|done..]. by intros [= <-].
Qed.

Lemma release_sent s : sent (release s) = sent s.
Proof.
  unfold release. destruct (rd s); [done|]. destruct (wr s); try done.
  by destruct (Connection.Close _ _) as [[k c] o].
Qed.

Lemma reader_resume_silent n : silent (reader_resume h_read h_write r_read r_write n).
Proof.
  intros s s'. unfold reader_resume. destruct (rd s) as [aw|]; [|done].
  destruct (read_resume _ _) as [m k]. destruct (m <=? 0).
  - destruct (wake_writer _ _ _ _) as [s1| |] eqn:E; cbn [mbind outcome_bind]; [|done..].
    intros [= <-]. rewrite release_sent. by apply wake_writer_silent in E.
  - destruct (dispatch _ _ _ _) as [s1| |] eqn:E; cbn [mbind outcome_bind]; [|done..].
    intros E2. apply start_read_silent in E2. apply dispatch_silent in E. by rewrite E2, E.
Qed.

Lemma taken_zlen ar k aw w bs : taken ar k aw w = Ok bs -> zlen bs = Z.max 0 w.
Proof.
  unfold taken, load, mem_read. destruct (Z.ltb_spec 0 w); [|intros [= <-]; rewrite zlen_nil; lia].
  destruct (sqe_addr (sqe aw)) as [|a|o]; [by rewrite (proj2 (Z.eqb_neq _ _)) by lia|..];
    (destruct (in_bounds _ _ _) eqn:E; [|done]; apply in_bounds_true in E as (? & ? & ?);
     intros [= <-]; rewrite zlen_slice by lia; lia).
Qed.

Lemma sess_step_sent s e s' :
  sess_step h_read h_write r_read r_write s e = Ok s' -> zlen (sent s') = zlen (sent s) + written e.
Proof.
  destruct e as [bs|n|w]; cbn [sess_step written].
  - destruct (rd s); [|done]. destruct (kernel_read _ _ _ _) as [[ar k]| |]; cbn [mbind outcome_bind]; [|done..].
    intros E. apply reader_resume_silent in E. rewrite E. cbn. lia.
  - intros E. apply reader_resume_silent in E. rewrite E. lia.
  - unfold writer_resume. destruct (wr s) as [|f aw|]; [done| |done].
    destruct (taken _ _ _ _) as [bs| |] eqn:Et; cbn [mbind outcome_bind]; [|done..].
    destruct (Write_resume _ _ _ _ _) as [[[[st c] ar] k]| |]; cbn [mbind outcome_bind]; [|done..].
    destruct (after_write _ _ _ _ _) as [s1| |] eqn:E; cbn [mbind outcome_bind]; [|done..].
    intros [= <-]. rewrite release_sent. apply after_write_silent in E; [|intros ? ?; apply writeLoop_silent].
    rewrite E. cbn. rewrite zlen_app. by apply taken_zlen in Et as ->.
Qed.

Lemma sess_run_sent es : forall s s',
  sess_run h_read h_write r_read r_write s es = Ok s' -> zlen (sent s') = zlen (sent s) + total_written es.
Proof.
  induction es as [|e es IH]; intros s s'; cbn [sess_run total_written]; [intros [= <-]; lia|].
  destruct (sess_step _ _ _ _ _ _) as [s1| |] eqn:E; cbn [mbind outcome_bind]; [|done..].
  intros E2. apply IH in E2. apply sess_step_sent in E. lia.
Qed.

Lemma handleConnection_sent c ar k s :
  handleConnection h_read h_write r_read r_write c ar k = Ok s -> sent s = [].
Proof.
  unfold handleConnection. destruct (run_writer _ _ _ _) as [s1| |] eqn:E; cbn [mbind outcome_bind]; [|done..].
  intros E2. apply start_read_silent in E2. unfold run_writer in E. apply writeLoop_silent in E. by rewrite E2, E.
Qed.

End Sent.
