(* ===== verification/AsyncEcho.v ===== *)
(** The asynchronous echo server ([examples/coro_echo_async.cpp]): its request
    handlers suspend in [AsyncSleep] before they push their response, so
    responses are sent in the order in which the handlers finish.

    The write loop and everything around the dispatcher are textually those of
    [examples/coro_echo.cpp] and are taken from [Echo].  A session has in
    addition the handlers that are asleep, by the number of their request. *)
From S2P Require Import Prelude Buffer Protocol IoContext Coro Ledger Connection ResponseQueue Echo.

(** What a suspended [handleRequest] keeps: the header and the message. *)
Abbreviation sleeper := (RpcHeader * bytes)%type.

Record ASess := mkASess {
  sess : Sess;
  sleeping : gmap nat sleeper;
  started : nat                      (* handlers suspended so far *)
}.

Definition set_sess (a : ASess) s := mkASess s (sleeping a) (started a).

Section AsyncSession.
Context {K : Kernel} {HO : HostOrder} {PB : Protobuf}.
Context (h_read h_write : coro) (r_read r_write : cell).
(** The handle and the result cell of the [n]-th handler. *)
Context (h_req : nat -> coro) (r_req : nat -> cell).

(** * handleRequest *)

(** Up to [co_await AsyncSleep(ctx, 10)]. *)
Definition handleRequest_start (header : RpcHeader) (payload : bytes) (a : ASess) : outcome ASess :=
  Task_body
    (match ParseFromArray payload with
     | None => Ok a
     | Some msg =>
         let s := sess a in
         let n := started a in
         c ← SleepAwaitable_await_suspend (ctx s) (AsyncSleep 10) (h_req n) (r_req n);
         Ok (mkASess (set_io s c (arena s) (conn s)) (<[n := (header, msg)]> (sleeping a)) (S n))
     end) a.

(** From there to the end; the frame is gone afterwards. *)
Definition handleRequest_resume (n : nat) (a : ASess) : outcome ASess :=
  match sleeping a !! n with
  | None => UB "resumed a coroutine that is not asleep"
  | Some (header, msg) =>
      let a := mkASess (sess a) (delete n (sleeping a)) (started a) in
      Task_body
        (data ← encode_response (arena (sess a)) header msg;
         s ← wake_writer h_write r_write (Push (rq (sess a)) data) (sess a);
         Ok (set_sess a (release s))) a
  end.

(** * handleConnection *)

Fixpoint dispatch_async (fuel : nat) (a : ASess) : outcome ASess :=
  match fuel with
  | O => UB "out of fuel"
  | S fuel =>
      let s := sess a in
      let buf := read_buffer_ (conn s) in
      if HEADER_SIZE <=? ReadableBytes buf then
        '(payload_opt, header, buf) ← ParseMessage (arena s) buf blank_header;
        let a := set_sess a (set_io s (ctx s) (arena s) (set_read_buffer (conn s) buf)) in
        match payload_opt with
        | None => Ok a
        | Some payload =>
            a ← (if msg_type header =? 0 then handleRequest_start header payload a else Ok a);
            dispatch_async fuel a
        end
      else Ok a
  end.

(** The read loop resumed with result [n] in its awaitable. *)
Definition reader_resume_async (n : Z) (a : ASess) : outcome ASess :=
  let s := sess a in
  match rd s with
  | ReaderDone => UB "resumed a finished coroutine"
  | Reading aw =>
      let '(n, k) := read_resume (complete aw n) (conn s) in
      let s := set_io s (ctx s) (arena s) k in
      if n <=? 0 then
        s ← wake_writer h_write r_write (Close (rq s)) (set_rd s ReaderDone);
        Ok (set_sess a (release s))
      else
        a ← dispatch_async (S (Z.to_nat (ReadableBytes (read_buffer_ k)))) (set_sess a s);
        s ← start_read h_read r_read (sess a);
        Ok (set_sess a s)
  end.

Definition handleConnection_async (c : IoContext) (ar : Arena) (k : CoroConnection) : outcome ASess :=
  s ← handleConnection h_read h_write r_read r_write c ar k;
  Ok (mkASess s ∅ 0).

(** * Completions *)

Inductive acompletion : Type :=
| Io (e : completion)
| SleepDone (n : nat).

Definition a_step (a : ASess) (e : acompletion) : outcome ASess :=
  match e with
  | Io (ReadDone bs) =>
      match rd (sess a) with
      | Reading aw =>
          '(ar, k) ← kernel_read (arena (sess a)) (conn (sess a)) aw bs;
          reader_resume_async (zlen bs) (set_sess a (set_io (sess a) (ctx (sess a)) ar k))
      | ReaderDone => UB "no read in flight"
      end
  | Io (ReadFail n) => reader_resume_async n a
  | Io (WriteDone w) => s ← writer_resume h_write r_write w (sess a); Ok (set_sess a s)
  | SleepDone n => handleRequest_resume n a
  end.

Fixpoint a_run (a : ASess) (es : list acompletion) : outcome ASess :=
  match es with
  | [] => Ok a
  | e :: es => a ← a_step a e; a_run a es
  end.

(** * Specification *)

Definition a_possible (a : ASess) (e : acompletion) : bool :=
  match e with
  | Io e => possible (sess a) e
  | SleepDone n => match sleeping a !! n with Some _ => true | None => false end
  end.

Fixpoint a_possible_run (a : outcome ASess) (es : list acompletion) : bool :=
  match a, es with
  | Ok a, e :: es => a_possible a e && a_possible_run (a_step a e) es
  | _, _ => true
  end.

Definition a_chunks (es : list acompletion) : list bytes :=
  omap (fun e => match e with Io (ReadDone bs) => Some bs | _ => None end) es.

(** The message becomes a request that is answered. *)
Definition accept (m : RpcHeader * bytes) : option sleeper :=
  if msg_type m.1 =? 0 then (fun msg => (m.1, msg)) <$> ParseFromArray m.2 else None.

Definition reply (x : sleeper) : bytes :=
  wire_frame (mkHeader (magic x.1) (version x.1) 1 (seq_id x.1) (payload_len x.1))
    (SerializeToString (echo_prefix ++ x.2)).

(** The replies in the order in which the handlers wake up; [acc] are the
    requests in the order of their arrival. *)
Definition reply_order (acc : list sleeper) (es : list acompletion) : bytes :=
  concat (omap (fun e => match e with SleepDone n => reply <$> (acc !! n) | _ => None end) es).

Definition small_reply (x : sleeper) : Prop :=
  zlen (SerializeToString (echo_prefix ++ x.2)) < 2 ^ 31 - HEADER_SIZE.

(** Nothing went wrong so far: no write failed and the peer has not closed. *)
Definition undisturbed (e : acompletion) : bool :=
  match e with Io (ReadFail _) => false | Io e => write_ok e | SleepDone _ => true end.

End AsyncSession.

(** * Invariant *)

(** Every sleeping handler works on the request of its number. *)
Definition sleepers_ok (acc : list sleeper) (a : ASess) : Prop :=
  started a = length acc /\ forall n x, sleeping a !! n = Some x -> acc !! n = Some x.

(** The handlers that are asleep, and the one a completion wakes. *)
Definition dozing (a : ASess) : list nat := (map_to_list (sleeping a)).*1.

Definition wakes (e : acompletion) : list nat :=
  match e with SleepDone n => [n] | Io _ => [] end.

(** The handlers between two states: [ws] have woken up, those that started in
    between have fallen asleep. *)
Definition handlers_ok (ws : list nat) (a a' : ASess) : Prop :=
  exists k, started a' = (started a + k)%nat /\ ws ++ dozing a' ≡ₚ seq (started a) k ++ dozing a.

Lemma handlers_refl a s : handlers_ok [] a (set_sess a s).
Proof. exists 0%nat. split; [cbn; lia|done]. Qed.

Lemma handlers_trans a1 a2 a3 : handlers_ok [] a1 a2 -> handlers_ok [] a2 a3 -> handlers_ok [] a1 a3.
Proof.
  intros (k1 & E1 & H1) (k2 & E2 & H2). exists (k1 + k2)%nat. split; [lia|]. cbn [app] in *.
  rewrite H2, H1, E1, seq_app, <- app_assoc. apply Permutation_app_swap_app.
Qed.

Lemma handlers_wake a n x s :
  sleeping a !! n = Some x -> handlers_ok [n] a (mkASess s (delete n (sleeping a)) (started a)).
Proof.
  intros Hn. exists 0%nat. split; [cbn; lia|]. unfold dozing. cbn [sleeping seq app].
  by rewrite <- (map_to_list_delete _ _ _ Hn).
Qed.

Section AsyncProofs.
Context {K : Kernel} {HO : HostOrder} {PB : Protobuf}.
Context (h_read h_write : coro) (r_read r_write : cell) (h_req : nat -> coro) (r_req : nat -> cell).
Context (Hsq : sq_never_full K).

(** The coroutines that wait for their sleep to end. *)
Definition asleep (a : ASess) : list waiter := (fun n => (h_req n, r_req n)) <$> dozing a.

Lemma asleep_insert s m n x k :
  m !! n = None -> asleep (mkASess s (<[n := x]> m) k) ≡ₚ (h_req n, r_req n) :: asleep (mkASess s m k).
Proof. intros Hn. unfold asleep, dozing. cbn [sleeping]. by rewrite map_to_list_insert. Qed.

Lemma asleep_delete a n x s k :
  sleeping a !! n = Some x ->
  asleep a ≡ₚ (h_req n, r_req n) :: asleep (mkASess s (delete n (sleeping a)) k).
Proof. intros Hn. unfold asleep, dozing. cbn [sleeping]. by rewrite <- (map_to_list_delete _ _ _ Hn). Qed.

(** Handlers fall asleep, nothing else starts to wait. *)
Definition grown (a a' : ASess) : Prop :=
  exists add, sess_eff add (sess a) (sess a') /\ asleep a' ≡ₚ add ++ asleep a /\
    wr (sess a') = wr (sess a) /\ handlers_ok [] a a'.

Lemma grown_same a s : 
  ctx s = ctx (sess a) -> arena s = arena (sess a) -> conn s = conn (sess a) -> wr s = wr (sess a) ->
  grown a (set_sess a s).
Proof. intros E1 E2 E3 E4. exists []. split_and!; [by apply sess_eff_refl|done|done|apply handlers_refl]. Qed.

Lemma grown_trans a1 a2 a3 : grown a1 a2 -> grown a2 a3 -> grown a1 a3.
Proof.
  intros (ad1 & He1 & Hp1 & Hw1 & Hh1) (ad2 & He2 & Hp2 & Hw2 & Hh2). exists (ad2 ++ ad1).
  split_and!; [by eapply sess_eff_trans| |congruence|by eapply handlers_trans].
  by rewrite Hp2, Hp1, app_assoc.
Qed.

(** The effect of a completion, of which [p] still waits when it starts;
    [quiet] tells that it does not submit anything, [woken] that it submits at
    most a write. *)
Definition a_stepped (p : list waiter) (quiet woken : Prop) (a a' : ASess) : Prop :=
  exists s1 add, sess a' = release s1 /\ sess_eff add (sess a) s1 /\
    pend h_read h_write r_read r_write s1 ++ asleep a' ≡ₚ add ++ p /\
    (arena s1 = arena (sess a) \/ rd_ok (arena (sess a)) (conn (sess a))) /\
    (quiet -> add = []) /\ (woken -> forall w, w ∈ add -> w = (h_write, r_write)).

Lemma sleep_suspend_ok c aw h r :
  (exists O fl, pool_ok O fl c) ->
  exists c', SleepAwaitable_await_suspend c aw h r = Ok c' /\ (exists O fl, pool_ok O fl c') /\
    buf_size_ c' = buf_size_ c /\ forall ar k, io_eff [(h, r)] c ar k c' ar k.
Proof.
  intros (O & fl & Hp). unfold SleepAwaitable_await_suspend, io_uring_get_sqe. rewrite Hsq.
  cbn [guard_ub mbind outcome_bind].
  destruct (Submit_ok O fl (tick c) (OpTimeout (tv_sec aw) (tv_nsec aw)) false h r)
    as (req & c' & E & _ & Hp' & _ & _ & Hs); [by apply pool_tick|].
  exists c'. split_and!; [done|by eauto|apply Hs|]. intros ar k.
  apply (io_eff_trans [] [(h, r)] c ar k (tick c) ar k); [apply io_eff_tick|].
  apply io_eff_ctx; [|by eapply Submit_pools]. intros M L HM.
  destruct (ledger_submit M L (tick c) (OpTimeout (tv_sec aw) (tv_nsec aw)) false h r HM)
    as (c1 & l & E1 & Hn & HM' & _). rewrite E in E1. injection E1 as <-.
  eexists. split; [done|]. by apply insert_subseteq.
Qed.

(** Starting a handler changes neither the connection nor the output. *)
Lemma handleRequest_start_ok left out ok a header payload acc :
  base left false (sess a) -> writer_inv h_write out ok false (sess a) -> sleepers_ok acc a ->
  msg_type header = 0 ->
  exists a', handleRequest_start h_req r_req header payload a = Ok a' /\
    base left false (sess a') /\ writer_inv h_write out ok false (sess a') /\
    rd (sess a') = rd (sess a) /\
    sleepers_ok (acc ++ option_list (accept (header, payload))) a' /\ grown a a'.
Proof.
  intros Hb Hw [Hn Hs] Ht. unfold handleRequest_start, accept. cbn [fst snd]. rewrite Ht.
  cbn [Z.eqb]. destruct (ParseFromArray payload) as [msg|]; cbn [fmap option_fmap option_map option_list].
  2:{ exists a. rewrite app_nil_r. split_and!; try done. by destruct a; apply grown_same. }
  destruct (sleep_suspend_ok (ctx (sess a)) (AsyncSleep 10) (h_req (started a)) (r_req (started a))
              (ba_pool _ _ _ Hb)) as (c' & -> & Hp' & Hbs & Hef).
  cbn [mbind outcome_bind Task_body]. eexists. split; [done|].
  destruct (base_read h_write left left false (sess a) c' (arena (sess a)) (conn (sess a)) Hb Hp' Hbs)
    as [Hb' Hw']; [apply Hb|apply Hb|by destruct (conn (sess a))|done..|].
  split_and!; [done|by apply Hw'|done|split|].
  3:{ exists [(h_req (started a), r_req (started a))]. destruct a as [s m k]. cbn [started] in *.
      assert (Hk : m !! k = None).
      { destruct (m !! k) as [x|] eqn:E; [|done]. apply Hs in E. apply lookup_lt_Some in E. lia. }
      split_and!; [apply Hef|by apply asleep_insert|done|]. exists 1%nat. split; [cbn; lia|].
      unfold dozing. cbn. by rewrite map_to_list_insert. }
  all: cbn [started sleeping].
  - rewrite length_app. cbn. lia.
  - intros n x. rewrite lookup_insert. case_decide as E.
    + intros [= <-]. subst n. rewrite lookup_app_r by lia. by rewrite Hn, Nat.sub_diag.
    + intros Hx. apply lookup_app_l_Some. auto.
Qed.

Lemma dispatch_async_ok fuel : forall left out ok a acc,
  base left false (sess a) -> writer_inv h_write out ok false (sess a) -> sleepers_ok acc a ->
  (length left < fuel)%nat ->
  exists a', dispatch_async h_req r_req fuel a = Ok a' /\
    base (drain_spec fuel left).2 false (sess a') /\ writer_inv h_write out ok false (sess a') /\
    rd (sess a') = rd (sess a) /\ sleepers_ok (acc ++ omap accept (drain_spec fuel left).1) a' /\
    grown a a'.
Proof.
  induction fuel as [|fuel IH]; intros left out ok a acc Hb Hw Hs Hf; [lia|].
  cbn [dispatch_async drain_spec]. set (s := sess a) in *.
  pose proof (ba_rd _ _ _ Hb) as (Hwf & _).
  pose proof (ba_left _ _ _ Hb) as Hl. unfold received in Hl.
  rewrite (ReadableBytes_contents (arena s)), Hl by done.
  destruct (Z.leb_spec HEADER_SIZE (zlen left)) as [H1|H1].
  2:{ assert (parse_spec left = PNeedHeader) as Hps
        by (unfold parse_spec; by rewrite (proj2 (Z.ltb_lt _ _))).
      rewrite Hps. cbn. rewrite app_nil_r. exists a. split_and!; try done. by destruct a; apply grown_same. }
  destruct (ParseMessage_ok (arena s) (read_buffer_ (conn s)) blank_header Hwf)
    as (b & -> & Hwf' & Hc' & Hso & _). rewrite Hl in *. cbn [mbind outcome_bind].
  destruct (base_read h_write left (drop (Z.to_nat (consumed (parse_spec left))) left) false s
              (ctx s) (arena s) (set_read_buffer (conn s) b)) as [Hb1 Hw1]; try done.
  { apply Hb. } { by apply (rd_ok_set (arena s)); [apply Hb|..]. }
  specialize (Hw1 out ok Hw). set (a1 := set_sess a _).
  assert (Hs1 : sleepers_ok acc a1) by exact Hs.
  assert (Hg1 : grown a a1).
  { exists []. split_and!; [by apply io_eff_read; [..|split_and!]|done..|apply handlers_refl]. }
  destruct (parse_spec left) as [|h|h|h p] eqn:Hps; cbn [returned fst snd] in *;
    try (exists a1; cbn [omap list_omap]; rewrite app_nil_r; by split_and!).
  destruct (drain_spec fuel _) as [ms rest] eqn:Ed. cbn [fst snd consumed] in *.
  assert (Hh : exists a2, (if msg_type h =? 0 then handleRequest_start h_req r_req h p a1 else Ok a1)
                 = Ok a2 /\
            base (drop (Z.to_nat (HEADER_SIZE + zlen p)) left) false (sess a2) /\
            writer_inv h_write out ok false (sess a2) /\ rd (sess a2) = rd s /\
            sleepers_ok (acc ++ option_list (accept (h, p))) a2 /\ grown a1 a2).
  { destruct (Z.eqb_spec (msg_type h) 0) as [Ht|Ht].
    - by apply (handleRequest_start_ok _ out ok a1 h p acc).
    - exists a1. unfold accept. cbn [fst snd]. rewrite (proj2 (Z.eqb_neq _ _)) by done.
      cbn [option_list]. rewrite app_nil_r. split_and!; try done. by apply (grown_same a1 (sess a1)). }
  destruct Hh as (a2 & -> & Hb2 & Hw2 & Hr2 & Hs2 & Hg2). cbn [mbind outcome_bind].
  destruct (IH _ _ ok a2 _ Hb2 Hw2 Hs2) as (a3 & -> & Hb3 & Hw3 & Hr3 & Hs3 & Hg3).
  { rewrite length_drop. unfold HEADER_SIZE, zlen in *. lia. }
  exists a3. rewrite Ed in *. cbn [fst snd] in *. split_and!; [done..|by rewrite Hr3, Hr2| |].
  2:{ eapply grown_trans; [exact Hg1|]. by eapply grown_trans. }
  rewrite <- app_assoc in Hs3. cbn [omap list_omap]. by destruct (accept (h, p)).
Qed.

Lemma read_done_async left out ok a bs acc :
  inv h_write left out ok (sess a) -> sleepers_ok acc a ->
  possible (sess a) (ReadDone bs) = true -> zlen (left ++ bs) + 4096 <= VECTOR_MAX ->
  exists a', a_step h_read h_write r_read r_write h_req r_req a (Io (ReadDone bs)) = Ok a' /\
    inv h_write (drain_bytes (left ++ bs)).2 out ok (sess a') /\
    sleepers_ok (acc ++ omap accept (drain_bytes (left ++ bs)).1) a' /\ rd (sess a') <> ReaderDone /\
    a_stepped (pend_w h_write r_write (sess a) ++ asleep a) False False a a' /\ handlers_ok [] a a'.
Proof.
  intros Hi Hs Hp Hmax. cbn in Hp. unfold inv in Hi. cbn [a_step].
  destruct (rd (sess a)) as [aw|] eqn:Er; [|done].
  destruct Hi as (cl & Hb & Hw & Hr). unfold reader_inv in Hr. rewrite Er in Hr.
  destruct Hr as (-> & Ha & Hn). rewrite Hn in Hp.
  apply andb_true_iff in Hp as [Hp1%Z.ltb_lt Hp2%Z.leb_le].
  destruct (read_resume_ok (arena (sess a)) (conn (sess a)) aw bs (ba_rd _ _ _ Hb) Ha (conj Hp1 Hp2))
    as (ar' & k1 & k2 & -> & Hrr & Hrd & Hrc & Hk & Hso & Hfr).
  cbn [mbind outcome_bind]. unfold reader_resume_async. set (a0 := set_sess a _).
  change (rd (sess a0)) with (rd (sess a)). rewrite Er. change (conn (sess a0)) with k1. rewrite Hrr.
  rewrite (proj2 (Z.leb_gt _ _)) by lia. rewrite (ba_left _ _ _ Hb) in Hrc.
  set (a1 := set_sess a0 _).
  destruct (base_read h_write left (left ++ bs) false (sess a) (ctx (sess a)) ar' k2) as [Hb' Hw'];
    try done; [apply Hb|]. specialize (Hw' out ok Hw).
  change (set_io (sess a) (ctx (sess a)) ar' k2) with (sess a1) in Hb', Hw'.
  assert (Hz : ReadableBytes (read_buffer_ k2) = zlen (left ++ bs)).
  { rewrite (ReadableBytes_contents (arena (sess a1))) by apply Hb'. f_equal. apply Hb'. }
  rewrite Hz. unfold zlen at 1. rewrite Nat2Z.id.
  destruct (dispatch_async_ok (S (length (left ++ bs))) (left ++ bs) out ok a1 acc Hb' Hw')
    as (a2 & -> & Hb2 & Hw2 & Hr2 & Hs2 & ad & Hef2 & Hsl2 & Hwr2 & Hh2); [done|lia|]. cbn [mbind outcome_bind].
  destruct (start_read_ok h_read h_write r_read Hsq (drain_bytes (left ++ bs)).2 out ok (sess a2))
    as (s3 & -> & Hi3 & Hr3 & Hef3 & Hwr3); [done..| |].
  { enough (zlen (drain_bytes (left ++ bs)).2 <= zlen (left ++ bs)) by lia.
    unfold drain_bytes, zlen. apply inj_le, drain_spec_le. }
  cbn [mbind outcome_bind]. eexists. split; [done|]. split_and!; [done..| |].
  2:{ eapply handlers_trans; [apply (handlers_refl a (sess a1))|].
      eapply handlers_trans; [exact Hh2|apply handlers_refl]. }
  exists s3, ([(h_read, r_read)] ++ ad ++ []). split; [by rewrite release_reading|]. split_and!; [| | |done..].
  - eapply sess_eff_trans; [|exact Hef3]. eapply sess_eff_trans; [|exact Hef2]. by apply io_eff_read.
  - change (asleep (set_sess a2 s3)) with (asleep a2). rewrite Hsl2. change (asleep a1) with (asleep a).
    unfold pend, pend_r, pend_w. rewrite Hwr3, Hwr2. change (wr (sess a1)) with (wr (sess a)).
    destruct (rd s3); [|done]. rewrite app_nil_r. solve_Permutation.
  - right. apply Hb.
Qed.

(** The other completions of the connection are those of the plain server. *)
Lemma read_fail_async a n :
  n <= 0 ->
  a_step h_read h_write r_read r_write h_req r_req a (Io (ReadFail n)) =
    (s ← sess_step h_read h_write r_read r_write (sess a) (ReadFail n); Ok (set_sess a s)).
Proof.
  intros Hn. cbn [a_step sess_step]. unfold reader_resume_async, reader_resume.
  destruct (rd (sess a)) as [aw|]; [|done].
  unfold read_resume, ReadAwaitable_await_resume, complete. cbn [aw_result].
  rewrite (proj2 (Z.ltb_ge _ _)), (proj2 (Z.leb_le _ _)) by lia.
  by destruct (wake_writer _ _ _ _).
Qed.

(** A response pushed when the write loop has left stays in the queue. *)
Lemma push_dead left out ok s d :
  inv h_write left out ok s -> wr s = WriterDone -> item_ok d ->
  exists s', wake_writer h_write r_write (Push (rq s) d) s = Ok s' /\
    inv h_write left (out ++ d) false (release s') /\ sent (release s') = sent s /\
    s' = set_rq s (mkQueue (items_ (rq s) ++ [d]) None (ResponseQueue.closed_ (rq s))).
Proof.
  intros Hi Ew Hd. unfold inv in Hi. rewrite Ew in Hi.
  assert (Hwt : waiter_ (rq s) = None).
  { destruct (rd s); [|by destruct Hi as (_ & ? & _)].
    destruct Hi as (cl & _ & Hw & _). unfold writer_inv in Hw. rewrite Ew in Hw. by destruct Hw. }
  unfold wake_writer, Push, take_waiter. cbn [waiter_ items_ ResponseQueue.closed_]. rewrite Hwt.
  eexists. split; [done|]. set (s' := set_rq s _).
  assert (Hsent : sent (release s') = sent s).
  { unfold release, s'. cbn [rd wr set_rq]. rewrite Ew. destruct (rd s); [done|].
    by destruct (Connection.Close _ _) as [[? ?] ?]. }
  split; [|split; done]. destruct (rd s) eqn:Er.
  - destruct Hi as (cl & Hb & Hw & Hr). apply (release_ok h_write left (out ++ d) false cl).
    + apply (base_same left cl s); try done; [|apply Hb]. cbn. apply Forall_app.
      split; [apply Hb|by constructor].
    + unfold writer_inv in *. cbn [s' wr rq sent set_rq]. rewrite Ew in *. destruct Hw as [_ Hw].
      split; [done|]. destruct ok; [destruct Hw as [-> _]; by exists d|].
      destruct Hw as [lost ->]. exists (lost ++ d). by rewrite app_assoc.
    + exact Hr.
  - destruct Hi as (Hc & _ & lost & -> & _). unfold inv.
    rewrite release_rd. unfold release, s'. cbn [rd wr set_rq]. rewrite Er, Ew.
    unfold Connection.Close. cbn [conn set_rq ctx arena]. rewrite Hc. cbn. rewrite Ew. split_and!; [done..|].
    exists (lost ++ d). by rewrite app_assoc.
Qed.

(** A handler that pushes its response can only wake the writer. *)
Lemma woken_ok a n x m s' add :
  sleeping a !! n = Some x -> m = delete n (sleeping a) ->
  sess_eff add (sess a) s' -> pend_w h_write r_write s' = add ++ pend_w h_write r_write (sess a) ->
  rd s' = rd (sess a) -> rd_ok (arena (sess a)) (conn (sess a)) ->
  exists p, pend h_read h_write r_read r_write (sess a) ++ asleep a ≡ₚ (h_req n, r_req n) :: p /\
    a_stepped p False True a (mkASess (release s') m (started a)) /\
    handlers_ok [n] a (mkASess (release s') m (started a)).
Proof.
  intros Hn -> Hef Epw Er Hrd.
  exists (pend h_read h_write r_read r_write (sess a) ++
          asleep (mkASess (sess a) (delete n (sleeping a)) (started a))).
  split; [rewrite (asleep_delete a n x (sess a) (started a)) by done; solve_Permutation|].
  split; [|by eapply handlers_wake]. exists s', add. split_and!; [done..| |by right|done|].
  - unfold pend. rewrite Epw. unfold pend_r. rewrite Er. unfold asleep. cbn [sleeping]. solve_Permutation.
  - intros _ w Hw. assert (Hin : w ∈ pend_w h_write r_write s') by (rewrite Epw; apply elem_of_app; by left).
    unfold pend_w in Hin. destruct (wr s'); try by apply elem_of_nil in Hin.
    by apply list_elem_of_singleton in Hin.
Qed.

Lemma sleep_done_async left out ok a n x acc :
  inv h_write left out ok (sess a) -> sleepers_ok acc a -> sleeping a !! n = Some x -> small_reply x ->
  exists a' ok', a_step h_read h_write r_read r_write h_req r_req a (SleepDone n) = Ok a' /\
    inv h_write left (out ++ reply x) ok' (sess a') /\ sleepers_ok acc a' /\
    rd (sess a') = rd (sess a) /\ (ok = true -> rd (sess a) <> ReaderDone -> ok' = true) /\
    exists p, pend h_read h_write r_read r_write (sess a) ++ asleep a ≡ₚ (h_req n, r_req n) :: p /\
      a_stepped p False True a a' /\ handlers_ok [n] a a'.
Proof.
  intros Hi Hs Hn Hsm. cbn [a_step]. unfold handleRequest_resume. rewrite Hn. destruct x as [h msg].
  cbn [sess arena rq]. rewrite encode_response_ok by exact Hsm. cbn [mbind outcome_bind].
  set (d := wire_frame _ _). change (reply (h, msg)) with d.
  assert (Hd : item_ok d).
  { unfold item_ok, d. rewrite zlen_wire_frame. unfold small_reply in Hsm. cbn [snd] in Hsm.
    pose proof (zlen_nonneg (SerializeToString (echo_prefix ++ msg))). unfold HEADER_SIZE in *. lia. }
  assert (Hs' : forall s, sleepers_ok acc (mkASess s (delete n (sleeping a)) (started a))).
  { intros s. destruct Hs as [Hs1 Hs2]. split; [done|]. cbn. intros m y Hm.
    apply lookup_delete_Some in Hm as [_ Hm]. auto. }
  destruct (wr (sess a)) as [| |] eqn:Ew.
  3:{ destruct (push_dead left out ok (sess a) d Hi Ew Hd) as (s' & -> & Hi' & _ & Es').
      cbn [mbind outcome_bind Task_body]. eexists _, false. split; [done|]. split_and!; [done|apply Hs'| | |].
      3:{ exists (pend h_read h_write r_read r_write (sess a) ++
                  asleep (mkASess (sess a) (delete n (sleeping a)) (started a))).
          split; [rewrite (asleep_delete a n (h, msg) (sess a) (started a)) by done; solve_Permutation|].
          split; [|exact (handlers_wake a n (h, msg) (release s') Hn)]. exists s', []. split_and!; [done|subst s'; by apply sess_eff_refl|by subst s'|subst s'; by left|done|].
          by intros _ w ?%elem_of_nil. }
      - cbn [sess set_sess]. rewrite release_rd. by subst s'.
      - intros -> Hnr. unfold inv in Hi. rewrite Ew in Hi. destruct (rd (sess a)) eqn:Er; [|done].
        destruct Hi as (cl & _ & Hw & Hr). unfold writer_inv in Hw. unfold reader_inv in Hr.
        rewrite Ew in Hw. rewrite Er in Hr. destruct Hw as (_ & _ & ->). by destruct Hr. }
  all: assert (Hb : exists cl, base left cl (sess a) /\ writer_inv h_write out ok cl (sess a) /\
                      reader_inv cl (sess a))
         by (unfold inv in Hi; rewrite Ew in Hi; by destruct (rd (sess a))).
  all: destruct Hb as (cl & Hb & Hw & Hr).
  all: destruct (push_ok h_write r_write Hsq left out ok cl (sess a) d Hb Hw Hd) as (s' & -> & Hb' & Hw' & Hr' & ad & Hef & Epw);
         [by rewrite Ew|].
  all: cbn [mbind outcome_bind Task_body]; eexists _, ok; split; [done|].
  all: injection Hr' as Hr1 Hr2; cbn [sess set_sess].
  all: split_and!; [|apply Hs'|by rewrite release_rd|done|].
  1,3: apply (release_ok h_write left (out ++ d) ok cl); [done..|].
  1,2: unfold reader_inv in *; by rewrite Hr1, Hr2.
  all: apply (woken_ok a n (h, msg) _ s' ad); try done; apply Hb.
Qed.

(** The coroutine a completion resumes; what kinds of completion submit nothing
    new, or only a write. *)
Definition a_self (e : acompletion) : waiter :=
  match e with
  | Io (ReadDone _) | Io (ReadFail _) => (h_read, r_read)
  | Io (WriteDone _) => (h_write, r_write)
  | SleepDone n => (h_req n, r_req n)
  end.

Definition a_quiet (e : acompletion) : Prop :=
  match e with Io (ReadFail _) => True | Io (WriteDone w) => w <= 0 | _ => False end.

Definition a_wakes (e : acompletion) : Prop :=
  match e with SleepDone _ | Io (WriteDone _) => True | Io _ => False end.

Definition a_effect (e : acompletion) (a a' : ASess) : Prop :=
  exists p, pend h_read h_write r_read r_write (sess a) ++ asleep a ≡ₚ a_self e :: p /\
    a_stepped p (a_quiet e) (a_wakes e) a a' /\ handlers_ok (wakes e) a a'.

(** A step of the plain server as one of this server. *)
Lemma a_effect_io e a s' p :
  stepped h_read h_write r_read r_write p (a_quiet (Io e)) (sess a) s' ->
  pend h_read h_write r_read r_write (sess a) ≡ₚ a_self (Io e) :: p ->
  (a_wakes (Io e) -> p = pend_r h_read r_read (sess a) /\ rd s' = rd (sess a)) -> rd_ok (arena (sess a)) (conn (sess a)) -> a_effect (Io e) a (set_sess a s').
Proof.
  intros (s1 & add & -> & Hef & Hp & Hq) Hself Hwk Hrd. exists (p ++ asleep a).
  split; [by rewrite Hself|]. split; [|apply handlers_refl]. exists s1, add. split_and!; [done|done| |by right|done|].
  - change (asleep (set_sess a _)) with (asleep a). by rewrite Hp, app_assoc.
  - intros Hwa w Hw. destruct (Hwk Hwa) as [-> Er]. rewrite release_rd in Er.
    unfold pend, pend_r in Hp. rewrite Er, Permutation_app_comm in Hp. apply Permutation_app_inv_r in Hp.
    rewrite <- Hp in Hw. unfold pend_w in Hw. destruct (wr s1); try by apply elem_of_nil in Hw.
    by apply list_elem_of_singleton in Hw.
Qed.

(** One completion: [left'] and [acc'] are what the dispatcher makes of it. *)
Lemma a_step_ok left out ok a e acc acc' left' :
  inv h_write left out ok (sess a) -> sleepers_ok acc a -> a_possible a e = true ->
  feed left (a_chunks [e]) = (acc', left') ->
  zlen (left ++ concat (a_chunks [e])) + 4096 <= VECTOR_MAX ->
  Forall small_reply acc ->
  exists a' ok', a_step h_read h_write r_read r_write h_req r_req a e = Ok a' /\
    inv h_write left' (out ++ reply_order acc [e]) ok' (sess a') /\
    sleepers_ok (acc ++ omap accept acc') a' /\
    (undisturbed e = true -> ok = true -> rd (sess a) <> ReaderDone ->
     ok' = true /\ rd (sess a') <> ReaderDone) /\
    a_effect e a a'.
Proof.
  intros Hi Hs Hp Hf Hmax Hsm. unfold reply_order. destruct e as [[bs|n|w]|n].
  - cbn [a_chunks omap list_omap concat] in Hmax. rewrite app_nil_r in Hmax.
    destruct (read_done_async left out ok a bs acc Hi Hs Hp) as (a' & E & Hi' & Hs' & Hr' & Hst); [done|].
    change (a_chunks [Io (ReadDone bs)]) with [bs] in Hf. rewrite feed_cons in Hf.
    cbn [feed fst snd] in Hf. rewrite app_nil_r in Hf. injection Hf as <- <-. exists a', ok. cbn [omap list_omap concat].
    rewrite app_nil_r. split_and!; [done..|]. eexists. split; [|exact Hst].
    cbn [a_possible possible] in Hp. unfold pend, pend_r. by destruct (rd (sess a)).
  - injection Hf as <- <-. cbn [a_possible] in Hp.
    assert (Hn : n <= 0) by (apply Z.leb_le; unfold possible in Hp; by destruct (rd (sess a))).
    rewrite read_fail_async by done.
    destruct (read_fail_ok h_read h_write r_read r_write Hsq left out ok (sess a) n Hi Hp) as (s' & -> & Hi' & Hst).
    eexists _, ok. split; [done|]. cbn [omap list_omap concat]. rewrite !app_nil_r. split_and!; [done..|].
    apply (a_effect_io (ReadFail n) _ _ _ Hst); [|done|by eapply inv_rd_ok].
    cbn [possible] in Hp. unfold pend, pend_r. by destruct (rd (sess a)).
  - injection Hf as <- <-.
    destruct (write_done_ok h_read h_write r_read r_write Hsq left out ok (sess a) w Hi Hp)
      as (s' & E & Hi' & Hr' & Hst). cbn [a_step]. cbn [sess_step] in E. rewrite E. cbn [mbind outcome_bind].
    eexists _, _. split; [done|]. cbn [omap list_omap concat sess set_sess]. rewrite !app_nil_r.
    split_and!; [done..| |].
    { intros Hu -> Hr. rewrite Hr'. split; [exact Hu|done]. }
    apply (a_effect_io (WriteDone w) _ _ _ Hst); [|done|exact (inv_rd_ok _ _ _ _ _ (WriteDone w) Hi Hp)].
    cbn [a_possible possible] in Hp. unfold pend, pend_w. destruct (wr (sess a)); try by destruct (rd (sess a)).
    solve_Permutation.
  - injection Hf as <- <-. cbn [a_possible] in Hp. destruct (sleeping a !! n) as [x|] eqn:Ex; [|done].
    destruct Hs as [Hs1 Hs2]. pose proof (Hs2 n x Ex) as Hx.
    pose proof (Forall_lookup_1 _ _ _ _ Hsm Hx) as Hsx.
    destruct (sleep_done_async left out ok a n x acc Hi (conj Hs1 Hs2) Ex Hsx)
      as (a' & ok' & E & Hi' & Hs' & Hr' & Hok' & Hst). exists a', ok'. split; [done|].
    cbn [omap list_omap]. rewrite Hx. cbn [fmap option_fmap option_map concat]. rewrite !app_nil_r.
    split_and!; [done..| |exact Hst]. intros _ H1 H2. rewrite Hr'. split; [by apply Hok'|done].
Qed.

Lemma a_chunks_cons e es : a_chunks (e :: es) = a_chunks [e] ++ a_chunks es.
Proof. by destruct e as [[]|]. Qed.

Lemma reply_order_cons acc acc' e es :
  (forall n, e = SleepDone n -> (n < length acc)%nat) ->
  reply_order (acc ++ acc') (e :: es) = reply_order acc [e] ++ reply_order (acc ++ acc') es.
Proof.
  intros He. unfold reply_order. destruct e as [e|n]; [done|]. cbn [omap list_omap].
  rewrite lookup_app_l by by apply He.
  destruct (lookup_lt_is_Some_2 acc n (He n eq_refl)) as [x ->]. cbn. by rewrite app_nil_r.
Qed.

Lemma a_run_ok es : forall left out ok a acc,
  inv h_write left out ok (sess a) -> sleepers_ok acc a ->
  a_possible_run h_read h_write r_read r_write h_req r_req (Ok a) es = true ->
  zlen (left ++ concat (a_chunks es)) + 4096 <= VECTOR_MAX ->
  let acc' := acc ++ omap accept (feed left (a_chunks es)).1 in
  Forall small_reply acc' ->
  exists a' ok', a_run h_read h_write r_read r_write h_req r_req a es = Ok a' /\
    inv h_write (feed left (a_chunks es)).2 (out ++ reply_order acc' es) ok' (sess a') /\
    sleepers_ok acc' a' /\
    (forallb undisturbed es = true -> ok = true -> rd (sess a) <> ReaderDone -> ok' = true).
Proof.
  induction es as [|e es IH]; intros left out ok a acc Hi Hs Hp Hmax; cbn zeta; intros Hsm.
  { exists a, ok. unfold reply_order. cbn in *. rewrite !app_nil_r in *. by split_and!. }
  cbn [a_possible_run] in Hp. apply andb_true_iff in Hp as [Hp Hps]. cbn [a_run].
  rewrite a_chunks_cons in *. rewrite feed_app in *. rewrite concat_app, app_assoc, zlen_app in Hmax.
  destruct (feed left (a_chunks [e])) as [ms1 left1] eqn:Hf. cbn [fst snd] in *.
  rewrite omap_app in *. rewrite app_assoc in *.
  pose proof (zlen_nonneg (concat (a_chunks es))).
  assert (Hsm1 : Forall small_reply acc) by (apply Forall_app in Hsm as [[? _]%Forall_app _]; done).
  destruct (a_step_ok left out ok a e acc ms1 left1 Hi Hs Hp Hf) as (a1 & ok1 & E & Hi1 & Hs1 & Hu1 & _);
    [lia|done|]. rewrite E in *. cbn [mbind outcome_bind].
  pose proof (feed_left_le (a_chunks [e]) left) as Hle. rewrite Hf in Hle. cbn [snd] in Hle.
  destruct (IH left1 _ ok1 a1 _ Hi1 Hs1 Hps) as (a2 & ok2 & -> & Hi2 & Hs2 & Hu2);
    [rewrite zlen_app; lia|done|].
  exists a2, ok2. split; [done|]. split_and!; [|done|].
  - rewrite <- !app_assoc in *. rewrite reply_order_cons; [done|].
    intros n ->. destruct Hs as [_ Hs]. cbn in Hp. destruct (sleeping a !! n) as [x|] eqn:Ex; [|done].
    by apply lookup_lt_Some with x, Hs.
  - cbn [forallb]. intros [Hu Hus]%andb_true_iff Hok Hr. destruct (Hu1 Hu Hok Hr). by apply Hu2.
Qed.

End AsyncProofs.

(** * Properties *)

#[local] Existing Instance plain_messages.
#[local] Existing Instance little.

(** Whatever the order in which reads, partial writes and the sleeps of
    the handlers complete, what is sent is a prefix of the replies in the
    order in which the handlers woke up: replies may overtake each other, but
    frames are never interleaved, corrupted or duplicated; and while the peer
    has not closed and no write has failed, none is lost. *)
Theorem async_replies_in_completion_order (K : Kernel) (HO : HostOrder) (PB : Protobuf)
    h_read h_write r_read r_write h_req r_req c ar k es :
  let a0 := handleConnection_async h_read h_write r_read r_write c ar k in
  let acc := omap accept (feed [] (a_chunks es)).1 in
  sq_never_full K -> fresh c ar k ->
  a_possible_run h_read h_write r_read r_write h_req r_req a0 es = true ->
  zlen (concat (a_chunks es)) + 4096 <= VECTOR_MAX -> Forall small_reply acc ->
  exists a', (a ← a0; a_run h_read h_write r_read r_write h_req r_req a es) = Ok a' /\
    sent (sess a') `prefix_of` reply_order acc es /\
    (forallb undisturbed es = true -> reply_order acc es = sent (sess a') ++ unsent (sess a')).
Proof.
  cbn zeta. intros Hsq Hfr Hp Hmax Hsm. unfold handleConnection_async in *.
  destruct (handleConnection_ok h_read h_write r_read r_write Hsq c ar k Hfr) as (s & E & Hi & Hr & _).
  rewrite E in *. cbn [mbind outcome_bind] in *.
  destruct (a_run_ok h_read h_write r_read r_write h_req r_req Hsq es [] [] true (mkASess s ∅ 0) []
              Hi) as (a' & ok' & -> & Hi' & _ & Hu); [done..|].
  exists a'. split; [done|]. cbn [app] in Hi'.
  destruct (inv_sent h_write _ _ _ _ Hi') as [H1 H2]. split; [done|]. intros Hun. apply H2. by apply Hu.
Qed.

(** Two requests in one read, answered in the opposite order. *)
Definition second_request : RpcHeader * bytes := (mkHeader 0 1 0 8 0, [Byte.x79]).
Definition overtaking : list acompletion :=
  [Io (ReadDone (wire [request; second_request])); SleepDone 1; SleepDone 0;
   Io (WriteDone 19); Io (WriteDone 20)].
Definition h_reqs (n : nat) : coro := Pos.of_nat (n + 3).

Definition async_start : outcome ASess :=
  @handleConnection_async open_kernel 1%positive 2%positive 1%positive 2%positive
    echo_conn.2 echo_arena echo_conn.1.

Lemma async_replies_in_completion_order_witness :
  let acc := omap accept (feed [] (a_chunks overtaking)).1 in
  exists a', (a ← async_start;
              @a_run open_kernel _ _ 1%positive 2%positive 1%positive 2%positive h_reqs h_reqs
                a overtaking) = Ok a' /\
    sent (sess a') `prefix_of` reply_order acc overtaking /\
    (forallb undisturbed overtaking = true ->
     reply_order acc overtaking = sent (sess a') ++ unsent (sess a')).
Proof.
  apply (async_replies_in_completion_order open_kernel little plain_messages 1 2 1 2 h_reqs h_reqs
           echo_conn.2 echo_arena echo_conn.1 overtaking).
  - exact open_kernel_room.
  - exact echo_fresh.
  - vm_compute. reflexivity.
  - vm_compute. discriminate.
  - repeat constructor.
Defined.

(** C40: Replies can be lost without any error: once the peer has closed its
    side and the write loop has drained the queue and left, a handler that
    wakes up pushes its reply into the dead queue, and the connection is
    already closed. *)
Theorem async_late_reply_lost (K : Kernel) (HO : HostOrder) (PB : Protobuf)
    h_read h_write r_read r_write h_req r_req left out ok a acc n x :
  inv h_write left out ok (sess a) -> sleepers_ok acc a ->
  rd (sess a) = ReaderDone -> wr (sess a) = WriterDone ->
  sleeping a !! n = Some x -> small_reply x ->
  exists a', a_step h_read h_write r_read r_write h_req r_req a (SleepDone n) = Ok a' /\
    sent (sess a') = sent (sess a) /\ Connection.closed_ (conn (sess a')) = true /\
    rd (sess a') = ReaderDone /\ wr (sess a') = WriterDone /\ sleeping a' !! n = None.
Proof.
  intros Hi Hs Er Ew Hn Hsm. cbn [a_step]. unfold handleRequest_resume. rewrite Hn.
  destruct x as [h msg]. cbn [sess arena rq]. rewrite encode_response_ok by exact Hsm.
  cbn [mbind outcome_bind]. unfold inv in Hi. rewrite Er, Ew in Hi. destruct Hi as (Hc & Hwt & _).
  unfold wake_writer, Push, take_waiter. cbn [waiter_ items_ ResponseQueue.closed_]. rewrite Hwt.
  cbn [mbind outcome_bind Task_body]. eexists. split; [done|]. cbn [sess set_sess sleeping].
  unfold release. cbn [rd wr set_rq ctx conn]. rewrite Er, Ew. unfold Connection.Close. rewrite Hc.
  cbn. split_and!; [done..|]. by rewrite lookup_delete_eq.
Qed.

(** The peer sends a request and closes; the handler is still asleep. *)
Definition hasty : list acompletion := [Io (ReadDone request_wire); Io (ReadFail 0)].
Definition hasty_state : ASess :=
  match (a ← async_start;
         @a_run open_kernel _ _ 1%positive 2%positive 1%positive 2%positive h_reqs h_reqs a hasty) with
  | Ok a => a
  | _ => mkASess (mkSess ctx_empty [] echo_conn.1 ResponseQueue_new ReaderDone WriterDone []) ∅ 0
  end.

Lemma async_late_reply_lost_witness :
  exists a', @a_step open_kernel _ _ 1%positive 2%positive 1%positive 2%positive h_reqs h_reqs
      hasty_state (SleepDone 0) = Ok a' /\
    sent (sess a') = [] /\ Connection.closed_ (conn (sess a')) = true /\
    rd (sess a') = ReaderDone /\ wr (sess a') = WriterDone /\ sleeping a' !! 0%nat = None.
Proof.
  apply (async_late_reply_lost open_kernel little plain_messages 1 2 1 2 h_reqs h_reqs [] [] true
           hasty_state [(received_header sample_header sample_payload, sample_payload)] 0
           (received_header sample_header sample_payload, sample_payload)).
  - vm_compute. split_and!; [reflexivity..|]. exists []. split; reflexivity.
  - split; [reflexivity|]. intros n x Hn.
    assert (Hsl : sleeping hasty_state =
              {[0%nat := (received_header sample_header sample_payload, sample_payload)]})
      by (vm_compute; reflexivity).
    rewrite Hsl in Hn. apply lookup_singleton_Some in Hn as [<- <-]. reflexivity.
  - vm_compute. reflexivity.
  - vm_compute. reflexivity.
  - vm_compute. reflexivity.
  - vm_compute. reflexivity.
Defined.
