(* ===== verification/Server.v ===== *)
(** The TCP server of [src/coro_tcp_server.h] and [src/coro_tcp_server.cpp]:
    construction of the listening socket, [Start], [Stop], and the accept
    loop, which runs as a coroutine on the event loop.

    The socket calls are recorded in a list; their results are parameters
    ([SocketAnswers]).  The connection handler is any function on the context,
    the arena and the handlers' own state [W]; class [HandlerSpec] states what
    the accept loop relies on from it. *)
From S2P Require Import Prelude Buffer IoContext Coro Ledger Connection.

(** * Construction *)

Inductive syscall : Type :=
| SysSocket
| SysSetsockopt (fd : Z) (option : string)
| SysBind (fd port : Z)
| SysListen (fd : Z)
| SysClose (fd : Z).

Record SocketAnswers := { a_socket : Z; a_bind : Z; a_listen : Z }.

(** The handler is called with the new connection; it runs the handler's
    coroutine to its first suspension. *)
Definition ConnectionHandler (W : Type) : Type :=
  IoContext -> Arena -> CoroConnection -> W -> outcome (IoContext * Arena * W).

Record CoroTcpServer (W : Type) := mkServer {
  listen_fd_ : Z;
  port_ : Z;
  srv_running_ : bool;
  handler_ : option (ConnectionHandler W)
}.
Arguments mkServer {W}.
Arguments listen_fd_ {W}.
Arguments port_ {W}.
Arguments srv_running_ {W}.
Arguments handler_ {W}.

(** The calls made, and the server or the exception.  The results of
    [setsockopt] are not looked at. *)
Definition CoroTcpServer_new {W} (ans : SocketAnswers) (port : Z)
  : outcome (CoroTcpServer W) * list syscall :=
  let fd := a_socket ans in
  if fd <? 0 then (Throw "socket error", [SysSocket])
  else
    let calls := [SysSocket; SysSetsockopt fd "SO_REUSEADDR"; SysSetsockopt fd "SO_REUSEPORT";
                  SysBind fd port] in
    if a_bind ans <? 0 then (Throw "bind error", calls)
    else
      let calls := calls ++ [SysListen fd] in
      if a_listen ans <? 0 then (Throw "listen error", calls)
      else (Ok (mkServer fd port false None), calls).

Definition SetConnectionHandler {W} (s : CoroTcpServer W) (f : ConnectionHandler W)
  : CoroTcpServer W := mkServer (listen_fd_ s) (port_ s) (srv_running_ s) (Some f).

Definition Server_Stop {W} (s : CoroTcpServer W) : CoroTcpServer W * list syscall :=
  if 0 <=? listen_fd_ s
  then (mkServer (-1) (port_ s) false (handler_ s), [SysClose (listen_fd_ s)])
  else (mkServer (listen_fd_ s) (port_ s) false (handler_ s), []).

Definition CoroTcpServer_delete {W} (s : CoroTcpServer W) : CoroTcpServer W * list syscall :=
  Server_Stop s.

(** Descriptors opened and not closed by a list of calls, [fd] being what
    [socket] returned. *)
Fixpoint left_open (fd : Z) (calls : list syscall) : bool :=
  match calls with
  | [] => false
  | SysSocket :: calls => negb (existsb (fun x => match x with SysClose f => f =? fd | _ => false end) calls)
  | _ :: calls => left_open fd calls
  end.

(** * The accept loop *)

Inductive acceptor : Type :=
| Accepting (aw : IoAwaitable)     (* suspended in co_await IoAwaitable{io_ctx_, sqe} *)
| AcceptDone.

Record ServerState (W : Type) := mkSS {
  server : CoroTcpServer W;
  sctx : IoContext;
  sarena : Arena;
  handlers : W;
  acc : acceptor
}.
Arguments mkSS {W}.
Arguments server {W}.
Arguments sctx {W}.
Arguments sarena {W}.
Arguments handlers {W}.
Arguments acc {W}.

Definition set_acc {W} (s : ServerState W) a := mkSS (server s) (sctx s) (sarena s) (handlers s) a.
Definition set_server {W} (s : ServerState W) v := mkSS v (sctx s) (sarena s) (handlers s) (acc s).
Definition set_world {W} (s : ServerState W) c ar w := mkSS (server s) c ar w (acc s).

Section AcceptLoop.
Context {K : Kernel} {W : Type} (h_accept : coro) (r_accept : cell).

(** From the loop test to the suspension or the end. *)
Definition accept_next (s : ServerState W) : outcome (ServerState W) :=
  if srv_running_ (server s) then
    let '(ok, c) := io_uring_get_sqe (sctx s) in
    if negb ok then Ok (set_acc (set_world s c (sarena s) (handlers s)) AcceptDone)
    else
      '(c, aw) ← await_suspend c (io_awaitable (OpAccept (listen_fd_ (server s))) false)
                   h_accept r_accept;
      Ok (set_acc (set_world s c (sarena s) (handlers s)) (Accepting aw))
  else Ok (set_acc s AcceptDone).

(** The rest of the loop body with a new connection.  Without a handler the
    connection is dropped at the end of the iteration, and its destructor
    closes it. *)
Definition accept_body (s : ServerState W) (client_fd : Z) : outcome (ServerState W) :=
  '(k, c) ← CoroConnection_new (sctx s) client_fd;
  s ← match handler_ (server s) with
      | Some f =>
          '(c, ar, w) ← f c (sarena s) k (handlers s);
          Ok (set_world s c ar w)
      | None =>
          let '(_, c, _) := Connection.Close c k in
          Ok (set_world s c (sarena s) (handlers s))
      end;
  accept_next s.

(** Resumed with result [n] in the awaitable.  The loop is a [Task]: an
    exception ends it. *)
Definition AcceptLoop_resume (n : Z) (s : ServerState W) : outcome (ServerState W) :=
  match acc s with
  | AcceptDone => UB "resumed a finished coroutine"
  | Accepting aw =>
      let client_fd := IoAwaitable_await_resume (complete aw n) in
      if client_fd <? 0 then Ok (set_acc s AcceptDone)
      else Task_body (accept_body s client_fd) (set_acc s AcceptDone)
  end.

Definition Start (s : ServerState W) : outcome (ServerState W) :=
  let v := server s in
  Task_body (accept_next (set_server s (mkServer (listen_fd_ v) (port_ v) true (handler_ v))))
    (set_acc s AcceptDone).

(** A sequence of accept completions. *)
Fixpoint serve (ns : list Z) (s : ServerState W) : outcome (ServerState W) :=
  match ns with
  | [] => Ok s
  | n :: ns => s ← AcceptLoop_resume n s; serve ns s
  end.

(** * What the accept loop relies on *)

(** A handler keeps an invariant that includes the invariants of the request
    pool and of the pooled resources, and that does not depend on the parts of
    the context the accept loop itself changes. *)
Class HandlerSpec (f : ConnectionHandler W) := {
  hs_inv : IoContext -> Arena -> W -> Prop;
  hs_pools c ar w : hs_inv c ar w ->
    (exists O fl, pool_ok O fl c) /\ exists pool n ks, pools_ok pool n ks c;
  hs_same c c' ar w : hs_inv c ar w -> pools_same c c' -> (exists O fl, pool_ok O fl c') ->
    hs_inv c' ar w;
  hs_call c ar w fd k c1 : hs_inv c ar w -> CoroConnection_new c fd = Ok (k, c1) ->
    exists c2 ar2 w2, f c1 ar k w = Ok (c2, ar2, w2) /\ hs_inv c2 ar2 w2
}.

(** The accept loop in steady state: one accept in flight on the listening
    descriptor. *)
Definition listening (s : ServerState W) : Prop :=
  srv_running_ (server s) = true /\
  exists aw, acc s = Accepting aw /\ sqe aw = OpAccept (listen_fd_ (server s)).

(** The handler was called once for each descriptor, in order, on a new open
    connection for it. *)
Inductive handled (f : ConnectionHandler W) : list Z -> Arena * W -> Arena * W -> Prop :=
| handled_nil aw : handled f [] aw aw
| handled_cons fd fds c ar w k c1 c2 ar2 w2 aw3 :
    CoroConnection_new c fd = Ok (k, c1) -> fd_ k = fd -> closed_ k = false ->
    f c1 ar k w = Ok (c2, ar2, w2) ->
    handled f fds (ar2, w2) aw3 -> handled f (fd :: fds) (ar, w) aw3.

Context (Hsq : sq_never_full K).

Lemma accept_next_ok f `{!HandlerSpec f} s :
  hs_inv (sctx s) (sarena s) (handlers s) -> srv_running_ (server s) = true ->
  exists s', accept_next s = Ok s' /\ listening s' /\ server s' = server s /\
    sarena s' = sarena s /\ handlers s' = handlers s /\
    hs_inv (sctx s') (sarena s') (handlers s') /\
    grow [(h_accept, r_accept)] (sctx s) (sctx s').
Proof.
  intros Hi Hr. unfold accept_next, io_uring_get_sqe. rewrite Hr, Hsq. cbn [negb].
  destruct (hs_pools _ _ _ Hi) as [(O & fl & Hp) _].
  destruct (Submit_ok O fl (tick (sctx s)) (OpAccept (listen_fd_ (server s))) false h_accept r_accept)
    as (req & c' & E & _ & Hp2 & _ & _ & Hs); [by apply (pool_same O fl (sctx s))|].
  assert (Eaw : exists aw, await_suspend (tick (sctx s))
                  (io_awaitable (OpAccept (listen_fd_ (server s))) false) h_accept r_accept
                = Ok (c', aw) /\ sqe aw = OpAccept (listen_fd_ (server s))).
  { unfold await_suspend. cbn [sqe sqe_fixed_file io_awaitable]. rewrite E. by eexists. }
  destruct Eaw as (aw & Eaw & Haw). rewrite Eaw. cbn [mbind outcome_bind].
  pose proof (grow_suspend _ _ _ _ _ _ Eaw) as Hg.
  pose proof (await_suspend_pools _ _ _ _ _ _ Eaw) as Hps.
  eexists. split; [reflexivity|]. split; [split; [exact Hr|by eexists]|].
  do 3 (split; [done|]). split; [|exact (grow_trans _ _ _ _ _ (grow_tick _) Hg)].
  cbn. apply (hs_same (sctx s)); [done| |by eauto]. exact Hps.
Qed.

Lemma accept_ok f `{!HandlerSpec f} s fd :
  hs_inv (sctx s) (sarena s) (handlers s) -> listening s -> handler_ (server s) = Some f -> 0 <= fd ->
  exists s', AcceptLoop_resume fd s = Ok s' /\ listening s' /\ server s' = server s /\
    hs_inv (sctx s') (sarena s') (handlers s') /\
    exists k c1 c2, CoroConnection_new (sctx s) fd = Ok (k, c1) /\ fd_ k = fd /\ closed_ k = false /\
      f c1 (sarena s) k (handlers s) = Ok (c2, sarena s', handlers s') /\
      grow [(h_accept, r_accept)] c2 (sctx s').
Proof.
  intros Hi [Hr (aw & Ha & _)] Hf Hfd. unfold AcceptLoop_resume. rewrite Ha. cbn [complete IoAwaitable_await_resume aw_result].
  rewrite (proj2 (Z.ltb_ge _ _)) by done. unfold accept_body.
  destruct (hs_pools _ _ _ Hi) as [_ (pool & n & ks & Hp)].
  destruct (CoroConnection_new_ok pool n ks (sctx s) fd Hp) as (k & c1 & Hn & _ & Hk & Hcl).
  destruct (hs_call _ _ _ _ _ _ Hi Hn) as (c2 & ar2 & w2 & Hcall & Hi2).
  rewrite Hn. cbn [mbind outcome_bind]. rewrite Hf, Hcall. cbn [mbind outcome_bind].
  destruct (accept_next_ok f (set_world s c2 ar2 w2) Hi2 Hr) as (s' & -> & Hl & Hsv & Har & Hw & Hi' & Hg).
  exists s'. do 4 (split; [done|]). exists k, c1, c2. rewrite Har, Hw. by do 4 (split; [done|]).
Qed.

Lemma serve_ok f `{!HandlerSpec f} fds : forall s,
  hs_inv (sctx s) (sarena s) (handlers s) -> listening s -> handler_ (server s) = Some f ->
  Forall (fun fd => 0 <= fd) fds ->
  exists s', serve fds s = Ok s' /\ listening s' /\ server s' = server s /\
    handled f fds (sarena s, handlers s) (sarena s', handlers s').
Proof.
  induction fds as [|fd fds IH]; intros s Hi Hl Hf Hpos.
  { exists s. split_and!; [done..|constructor]. }
  apply Forall_cons in Hpos as [Hfd Hpos]. cbn [serve].
  destruct (accept_ok f s fd Hi Hl Hf Hfd) as (s1 & -> & Hl1 & Hs1 & Hi1 & k & c1 & c2 & Hn & Hk & Hc & Hcall & _).
  cbn [mbind outcome_bind].
  destruct (IH s1 Hi1 Hl1) as (s2 & -> & Hl2 & Hs2 & Hh); [by rewrite Hs1|done|].
  exists s2. split_and!; [done|done|congruence|]. by econstructor.
Qed.

End AcceptLoop.

(** ** A handler that meets the specification: it keeps the connections *)

Lemma RegisterFile_pool {K : Kernel} O fl c fd i c' :
  RegisterFile c fd = (i, c') -> pool_ok O fl c -> pool_ok O fl c'.
Proof.
  unfold RegisterFile. intros E [].
  repeat (case_match; simplify_eq); by constructor.
Qed.

Lemma AllocateBuffer_pool O fl c p i q c' :
  AllocateBuffer c p = Ok (i, q, c') -> pool_ok O fl c -> pool_ok O fl c'.
Proof.
  unfold AllocateBuffer. intros E [].
  case_match; [destruct (or_ub _ _); cbn in E; [|done..]|]; simplify_eq; by constructor.
Qed.

Lemma CoroConnection_new_pool {K : Kernel} O fl c fd k c' :
  CoroConnection_new c fd = Ok (k, c') -> pool_ok O fl c -> pool_ok O fl c'.
Proof.
  unfold CoroConnection_new. intros E Hp. destruct (RegisterFile c fd) as [fi c1] eqn:E1.
  destruct (AllocateBuffer c1 nullptr) as [[[ri rp] c2]| |] eqn:E2; cbn in E; [|done..].
  destruct (AllocateBuffer c2 nullptr) as [[[wi wp] c3]| |] eqn:E3; cbn in E; [|done..].
  injection E as <- <-. eauto using RegisterFile_pool, AllocateBuffer_pool.
Qed.

Definition keep : ConnectionHandler (list CoroConnection) :=
  fun c ar k w => Ok (c, ar, k :: w).

#[export] Instance keep_spec {K : Kernel} : HandlerSpec keep.
Proof.
  refine {| hs_inv c ar w := (exists O fl, pool_ok O fl c) /\ exists pool n, pools_ok pool n w c |}.
  - intros c ar w [Hp (pool & n & Hq)]. split; [done|]. by exists pool, n, w.
  - intros c c' ar w [_ (pool & n & [Hb Hf Hw])] (E1 & E2 & E3 & E4 & E5 & E6) Hp'.
    split; [done|]. exists pool, n. constructor.
    + by apply (bufs_ok_same _ _ _ c).
    + unfold files_ok in *. by rewrite E4, E5, E6.
    + eapply Forall_impl; [done|]. intros k Hk. by apply (conn_windows_same _ c).
  - intros c ar w fd k c1 [(O & fl & Hp) (pool & n & Hq)] E.
    destruct (CoroConnection_new_ok pool n w c fd Hq) as (k' & c' & E' & Hq' & _).
    rewrite E in E'. injection E' as <- <-. exists c1, ar, (k :: w). split; [done|].
    split; [|by eauto]. exists O, fl. by apply (CoroConnection_new_pool O fl c fd k).
Defined.

(** * Properties *)

Definition good_socket : SocketAnswers := {| a_socket := 5; a_bind := 0; a_listen := 0 |}.

(** The server after its constructor, on a context with four buffers. *)
Definition new_server : CoroTcpServer (list CoroConnection) :=
  SetConnectionHandler
    (match fst (CoroTcpServer_new good_socket 8080) with Ok s => s | _ => mkServer 0 0 false None end)
    keep.
Definition idle_server : ServerState (list CoroConnection) :=
  mkSS new_server small_ctx small_arena [] AcceptDone.

Lemma small_ctx_inv : hs_inv (HandlerSpec := @keep_spec open_kernel) small_ctx small_arena [].
Proof.
  split.
  - exists ∅, []. constructor; [done|constructor|set_solver|done|done|set_solver].
  - exists 0, 4. constructor; [|by vm_compute|constructor]. constructor.
    + vm_compute. reflexivity.
    + intros i Hi. assert (i = 0 \/ i = 1 \/ i = 2 \/ i = 3) as Hc by lia.
      by destruct Hc as [->|[->|[->| ->]]].
Qed.

(** C21: Every client is served: a started server whose handler meets the
    handler interface turns any sequence of accepted descriptors into as many
    calls of the handler, in order and each on a new open connection for that
    descriptor, and has an accept in flight again after each. *)
Theorem accept_loop_serves_every_client (K : Kernel) (W : Type) h r
    (f : ConnectionHandler W) (H : HandlerSpec f) s fds :
  sq_never_full K -> hs_inv (sctx s) (sarena s) (handlers s) ->
  handler_ (server s) = Some f -> Forall (fun fd => 0 <= fd) fds ->
  exists s0 s', Start h r s = Ok s0 /\ listening s0 /\ serve h r fds s0 = Ok s' /\ listening s' /\
    listen_fd_ (server s') = listen_fd_ (server s) /\
    handled f fds (sarena s, handlers s) (sarena s', handlers s').
Proof.
  intros Hsq Hi Hf Hpos. unfold Start. set (v := mkServer _ _ true _).
  destruct (accept_next_ok h r Hsq f (set_server s v) Hi eq_refl)
    as (s0 & -> & Hl & Hs & Har & Hw & Hi0 & _). cbn [Task_body].
  destruct (serve_ok h r Hsq f fds s0 Hi0 Hl) as (s' & E & Hl' & Hs' & Hh); [by rewrite Hs|done|].
  exists s0, s'. rewrite Hs', Hs. rewrite Har, Hw in Hh. by split_and!.
Qed.

Lemma accept_loop_serves_every_client_witness :
  exists s0 s', @Start open_kernel _ 1 1 idle_server = Ok s0 /\ listening s0 /\
    @serve open_kernel _ 1 1 [7%Z; 9%Z] s0 = Ok s' /\ listening s' /\
    listen_fd_ (server s') = 5%Z /\
    handled (K := open_kernel) keep [7%Z; 9%Z] (small_arena, []) (sarena s', handlers s').
Proof.
  apply (accept_loop_serves_every_client open_kernel (list CoroConnection) 1 1 keep keep_spec
           idle_server [7; 9]).
  - exact open_kernel_room.
  - exact small_ctx_inv.
  - reflexivity.
  - repeat constructor; discriminate.
Defined.

(** Any error reported by an accept, transient ones such as an aborted
    connection or a shortage of descriptors included, ends the accept loop for
    good: nothing is submitted any more although the server still counts as
    running and its socket stays open. *)
Theorem accept_error_ends_service (K : Kernel) (W : Type) h r (s : ServerState W) n :
  listening s -> n < 0 ->
  exists s', AcceptLoop_resume h r n s = Ok s' /\ acc s' = AcceptDone /\
    server s' = server s /\ srv_running_ (server s') = true /\
    sctx s' = sctx s /\ handlers s' = handlers s.
Proof.
  intros [Hr (aw & Ha & _)] Hn. unfold AcceptLoop_resume. rewrite Ha.
  cbn [complete IoAwaitable_await_resume aw_result]. rewrite (proj2 (Z.ltb_lt _ _)) by done.
  eexists. split; [done|]. done.
Qed.

(** A server with an accept in flight, which fails with ECONNABORTED. *)
Definition started_server : ServerState (list CoroConnection) :=
  match @Start open_kernel _ 1 1 idle_server with Ok s => s | _ => idle_server end.

Lemma accept_error_ends_service_witness :
  exists s', @AcceptLoop_resume open_kernel _ 1 1 (-103)%Z started_server = Ok s' /\
    acc s' = AcceptDone /\ server s' = server started_server /\
    srv_running_ (server s') = true /\ sctx s' = sctx started_server /\
    handlers s' = handlers started_server.
Proof.
  apply (accept_error_ends_service open_kernel (list CoroConnection) 1 1 started_server (-103)).
  - split; [reflexivity|]. eexists. split; [vm_compute; reflexivity|reflexivity].
  - lia.
Defined.

(** The constructor makes its calls in order and yields a server that is
    not yet running, and [Stop] closes the socket exactly once; but when
    [bind] or [listen] fails the exception leaves the new socket open, since
    no destructor runs for an object whose constructor threw. *)
Theorem server_socket_lifecycle (W : Type) ans port :
  let '(r, calls) := @CoroTcpServer_new W ans port in
  match r with
  | Ok s =>
      0 <= a_socket ans /\ 0 <= a_bind ans /\ 0 <= a_listen ans /\
      listen_fd_ s = a_socket ans /\ srv_running_ s = false /\
      left_open (a_socket ans) calls = true /\
      left_open (a_socket ans) (calls ++ snd (Server_Stop s)) = false /\
      snd (CoroTcpServer_delete (fst (Server_Stop s))) = []
  | Throw _ =>
      (a_socket ans < 0 /\ calls = [SysSocket]) \/
      (0 <= a_socket ans /\ left_open (a_socket ans) calls = true)
  | UB _ => False
  end.
Proof.
  unfold CoroTcpServer_new. destruct (Z.ltb_spec (a_socket ans) 0); [by left|].
  destruct (Z.ltb_spec (a_bind ans) 0); [by right|].
  destruct (Z.ltb_spec (a_listen ans) 0); [by right|].
  unfold CoroTcpServer_delete, Server_Stop. cbn. rewrite (proj2 (Z.leb_le _ _)) by done. cbn.
  rewrite Z.eqb_refl. by split_and!.
Qed.
