(* ===== verification/Service.v ===== *)
(** A server thread for any service: one event loop, the accept loop and any
    number of connections of a service, as one program for [IoContext.Run].

    [Service] is what a service is made of: the state of a connection, the
    handler that opens it, and the coroutines it can have suspended, by label,
    with the code that resumes them.  [ServiceSpec] states what the thread
    relies on.  The two echo servers are instances ([EchoServer],
    [AsyncServer]); safety, accounting and shutdown are proved here once.

    [World] is what the coroutines of the thread share: the server object, the
    registered memory, the connections (the [i]-th accepted is [slots !! i]),
    the accept loop, and the result cells of the awaitables.  A coroutine is
    named by the code of its connection and label; its result cell has the
    same name.  What the [i]-th client sends over the life of its connection
    is the parameter [peer i]. *)
From S2P Require Import Prelude Buffer Protocol IoContext Coro Ledger Connection.
From S2P Require Import ResponseQueue Echo Isolation Server.

(** [X] is the state of a connection, [L] names its coroutines.  The names are
    passed to the code, which submits with them; [stream] is what the client
    sends. *)
Class Service (X L : Type) := {
  sv_conn : X -> CoroConnection;
  sv_open (ids : L -> coro) (c : IoContext) (ar : Arena) (k : CoroConnection)
    : outcome (IoContext * Arena * X);
  sv_resume (ids : L -> coro) (stream : bytes) (l : L) (n : Z) (c : IoContext) (ar : Arena) (x : X)
    : outcome (IoContext * Arena * X)
}.

Record World (X : Type) := mkWorld {
  w_server : CoroTcpServer (list X);
  w_arena : Arena;
  slots : list X;
  w_acc : acceptor;
  cells : gmap cell Z
}.
Arguments mkWorld {X}.
Arguments w_server {X}.
Arguments w_arena {X}.
Arguments slots {X}.
Arguments w_acc {X}.
Arguments cells {X}.

(** * Names of the coroutines *)

Section Names.
Context {L : Type} `{Countable L}.

Definition name_of (t : option (nat * L)) : coro := encode t.
Definition accept_id : coro := name_of None.
Definition ids (i : nat) (l : L) : coro := name_of (Some (i, l)).
Definition task_of (h : coro) : option (option (nat * L)) := decode h.

Lemma task_of_accept : task_of accept_id = Some None.
Proof. apply decode_encode. Qed.

Lemma task_of_ids i l : task_of (ids i l) = Some (Some (i, l)).
Proof. apply decode_encode. Qed.

End Names.

Section Thread.
Context {K : Kernel} {X L : Type} `{Countable L} {V : Service X L} (peer : nat -> bytes).

(** * The connection handler the server is given *)
Definition service_handler : ConnectionHandler (list X) := fun c ar k xs =>
  '(c, ar, x) ← sv_open (ids (length xs)) c ar k;
  Ok (c, ar, xs ++ [x]).

(** * Resuming a coroutine *)
Definition service_resume (h : coro) (c : IoContext) (w : World X) : outcome (IoContext * World X) :=
  n ← or_ub "no result" (cells w !! h);
  match task_of (L := L) h with
  | Some None =>
      s ← AcceptLoop_resume (accept_id (L := L)) (accept_id (L := L)) n
            (mkSS (w_server w) c (w_arena w) (slots w) (w_acc w));
      Ok (sctx s, mkWorld (server s) (sarena s) (handlers s) (acc s) (cells w))
  | Some (Some (i, l)) =>
      x ← or_ub "resumed a coroutine that does not exist" (slots w !! i);
      '(c, ar, x) ← sv_resume (ids i) (peer i) l n c (w_arena w) x;
      Ok (c, mkWorld (w_server w) ar (<[i := x]> (slots w)) (w_acc w) (cells w))
  | None => UB "resumed a coroutine that does not exist"
  end.

Definition store_cell (r : cell) (z : Z) (w : World X) : World X :=
  mkWorld (w_server w) (w_arena w) (slots w) (w_acc w) (<[r := z]> (cells w)).

#[export] Instance service_program : Program (World X) :=
  {| set_cell := store_cell; resume := service_resume |}.

(** * The thread

    The body of a thread: construct the server, set its handler, start the
    accept loop, run the event loop.  At the end of the thread the server is
    destroyed, which closes its socket. *)
Definition start_world (v : CoroTcpServer (list X)) (c : IoContext) (ar : Arena)
  : outcome (IoContext * World X) :=
  s ← Start (accept_id (L := L)) (accept_id (L := L))
        (mkSS (SetConnectionHandler v service_handler) c ar [] AcceptDone);
  Ok (sctx s, mkWorld (server s) (sarena s) (handlers s) (acc s) ∅).

Definition thread_main (ans : SocketAnswers) (c : IoContext) (ar : Arena) (evs : list event)
  : outcome (status * IoContext * World X * list syscall) :=
  let '(r, calls) := CoroTcpServer_new ans 8080 in
  v ← r;
  '(c, w) ← start_world v c ar;
  '(st, c, w) ← Run evs c w;
  match st with
  | Returned _ => Ok (st, c, w, calls ++ snd (CoroTcpServer_delete (w_server w)))
  | Blocked => Ok (st, c, w, calls)
  end.

End Thread.

(** * How connections evolve

    The slot of a connection stays at its place, and only the resumption of one
    of its coroutines changes it. *)
Section Evolution.
Context {K : Kernel} {X L : Type} `{Countable L} {V : Service X L} (peer : nat -> bytes).
Context (R : X -> X -> Prop) (Hrefl : forall x, R x x).
Context (Hresume : forall ids st l m c ar x c' ar' x',
  sv_resume ids st l m c ar x = Ok (c', ar', x') -> R x x').

Lemma accept_next_handlers {W} h r (s s' : ServerState W) :
  accept_next h r s = Ok s' -> handlers s' = handlers s.
Proof.
  unfold accept_next. destruct (srv_running_ (server s)); [|by intros [= <-]].
  destruct (io_uring_get_sqe (sctx s)) as [ok c]. destruct ok; cbn [negb]; [|by intros [= <-]].
  destruct (await_suspend _ _ _ _) as [[? ?]| |]; cbn [mbind outcome_bind]; [|done..]. by intros [= <-].
Qed.

Lemma accept_slots h r m (s s' : ServerState (list X)) :
  handler_ (server s) = Some service_handler -> AcceptLoop_resume h r m s = Ok s' ->
  exists xs, handlers s' = handlers s ++ xs.
Proof.
  intros Hh. unfold AcceptLoop_resume. destruct (acc s); [|done].
  assert (Hsame : forall a, Ok (set_acc s a) = Ok s' -> exists xs, handlers s' = handlers s ++ xs)
    by (intros a [= <-]; exists []; by rewrite app_nil_r).
  destruct (_ <? 0); [apply Hsame|]. unfold Task_body, accept_body.
  destruct (CoroConnection_new _ _) as [[k c1]| |]; cbn [mbind outcome_bind]; [|apply Hsame|done].
  rewrite Hh. unfold service_handler.
  destruct (sv_open _ _ _ _) as [[[c2 ar2] x]| |]; cbn [mbind outcome_bind]; [|apply Hsame|done].
  destruct (accept_next _ _ _) as [s1| |] eqn:E; cbn [mbind outcome_bind]; [|apply Hsame|done].
  intros [= <-]. apply accept_next_handlers in E. rewrite E. by exists [x].
Qed.

Lemma service_resume_slots h c w c' w' i x :
  handler_ (w_server w) = Some service_handler -> service_resume peer h c w = Ok (c', w') ->
  slots w !! i = Some x -> exists x', slots w' !! i = Some x' /\ R x x'.
Proof.
  intros Hh E Hx. unfold service_resume in E.
  destruct (or_ub _ (cells w !! h)) as [m| |]; cbn [mbind outcome_bind] in E; [|done..].
  destruct (task_of h) as [[[i' l]|]|]; [| |done].
  - destruct (slots w !! i') as [y|] eqn:Ey; cbn [or_ub mbind outcome_bind] in E; [|done].
    destruct (sv_resume _ _ _ _ _ _ _) as [[[c1 ar1] y1]| |] eqn:Er; cbn [mbind outcome_bind] in E; [|done..].
    injection E as <- <-. cbn [slots]. destruct (decide (i = i')) as [->|Hne].
    + rewrite Hx in Ey. injection Ey as <-. rewrite list_lookup_insert_eq by (by eapply lookup_lt_Some).
      eexists. split; [done|]. by eapply Hresume.
    + rewrite list_lookup_insert_ne by done. eauto.
  - destruct (AcceptLoop_resume _ _ _ _) as [s| |] eqn:Ea; cbn [mbind outcome_bind] in E; [|done..].
    injection E as <- <-. cbn [slots]. apply accept_slots in Ea as [xs ->]; [|done]. cbn [handlers].
    exists x. split; [by apply lookup_app_l_Some|done].
Qed.

Lemma handle_cqe_slots c w q c' w' i x :
  handler_ (w_server w) = Some service_handler ->
  handle_cqe (P := service_program peer) c w q = Ok (c', w') ->
  slots w !! i = Some x -> exists x', slots w' !! i = Some x' /\ R x x'.
Proof.
  unfold handle_cqe. intros Hh E Hx. destruct (cqe_user_data q) as [req|]; [|injection E as <- <-; eauto].
  destruct (or_ub _ (heap c !! req)) as [rd| |]; cbn [mbind outcome_bind] in E; [|done..].
  destruct (or_ub _ (result rd)) as [r| |]; cbn [mbind outcome_bind] in E; [|done..].
  destruct (or_ub _ (handle rd)) as [h| |]; cbn [mbind outcome_bind] in E; [|done..].
  destruct (FreeRequestData c req) as [c1| |]; cbn [mbind outcome_bind] in E; [|done..].
  exact (service_resume_slots h _ (store_cell r (cqe_res q) w) c' w' i x Hh E Hx).
Qed.

End Evolution.

(** * What the thread relies on *)

Definition waiters {L} (ids : L -> coro) (ls : list L) : list waiter := (fun l => (ids l, ids l)) <$> ls.

(** The connection is left as it is, or its last owner has gone and it is
    closed. *)
Definition released (c : IoContext) (k : CoroConnection) (c' : IoContext) (k' : CoroConnection) : Prop :=
  (c' = c /\ k' = k) \/ exists o, Connection.Close c k = (k', c', o).

Class ServiceSpec {K : Kernel} (X L : Type) `{Countable L} {V : Service X L} := {
  (** The invariant of a connection, the coroutines it has suspended, and what
      the kernel may report to them. *)
  sv_inv : (L -> coro) -> bytes -> IoContext -> Arena -> X -> Prop;
  sv_pend : X -> list L;
  sv_possible : bytes -> IoContext -> Arena -> X -> L -> Z -> bool;
  (** What is assumed of what a client sends. *)
  sv_stream_ok : bytes -> Prop;
  (** What a cancelled coroutine can still cause to be submitted, and a bound on
      how often such a coroutine can be resumed. *)
  sv_late : L -> Prop;
  sv_debt : X -> nat;
  (** A connection is not affected by what happens outside its windows. *)
  sv_move ids st c ar x c' ar' :
    sv_inv ids st c ar x -> (exists O fl, pool_ok O fl c') -> buf_size_ c' = buf_size_ c ->
    (rd_ok ar (sv_conn x) -> wr_ok c ar (sv_conn x) -> same_windows c (sv_conn x) ar ar') ->
    sv_inv ids st c' ar' x;
  sv_possible_ctx st c c' ar x l n :
    buf_size_ c' = buf_size_ c -> sv_possible st c' ar x l n = sv_possible st c ar x l n;
  sv_open_ok ids st c ar k :
    fresh c ar k -> sv_stream_ok st ->
    exists c' ar' x, sv_open ids c ar k = Ok (c', ar', x) /\ sv_inv ids st c' ar' x /\
      (exists O fl, pool_ok O fl c') /\
      io_eff (waiters ids (sv_pend x)) c ar k c' ar' (sv_conn x);
  (** A completion: the coroutine is taken from the waiting ones, [add] are
      those that have come to wait. *)
  sv_resume_ok ids st c ar x l n :
    sv_inv ids st c ar x -> sv_stream_ok st -> (exists O fl, pool_ok O fl c) ->
    l ∈ sv_pend x -> sv_possible st c ar x l n = true ->
    exists add rest c1 k1 c' ar' x', sv_resume ids st l n c ar x = Ok (c', ar', x') /\
      sv_inv ids st c' ar' x' /\
      io_eff add c ar (sv_conn x) c1 ar' k1 /\ (ar' = ar \/ rd_ok ar (sv_conn x)) /\
      released c1 k1 c' (sv_conn x') /\
      sv_pend x ≡ₚ l :: rest /\ waiters ids (sv_pend x') ≡ₚ add ++ waiters ids rest /\
      (n < 0 \/ sv_late l -> forall w, w ∈ add -> exists l', w = (ids l', ids l') /\ sv_late l') /\
      (sv_late l -> (sv_debt x' < sv_debt x)%nat);
  sv_cancel ids st c ar x l :
    sv_inv ids st c ar x -> l ∈ sv_pend x -> sv_possible st c ar x l (- ECANCELED) = true;
  sv_idle ids st c ar x :
    sv_inv ids st c ar x -> sv_pend x = [] -> Connection.closed_ (sv_conn x) = true
}.

(** ** Effects of construction and release *)

Lemma Close_ctx c k k' c' o :
  Connection.Close c k = (k', c', o) ->
  heap c' = heap c /\ req_pool_head_ c' = req_pool_head_ c /\ in_flight_ c' = in_flight_ c /\
  buf_size_ c' = buf_size_ c.
Proof.
  destruct (Connection.closed_ k) eqn:E.
  - unfold Connection.Close. rewrite E. by intros [= _ <- _].
  - destruct (Close_open c k E) as (rp & wp & ->). intros [= _ <- _].
    unfold release_buf, release_file. by destruct (0 <=? _), (0 <=? _), (0 <=? _).
Qed.

Lemma sys_ok_io {K : Kernel} pool n ks c i k k' c' :
  sys_ok pool n (ks, c) -> ks !! i = Some k -> io_same k k' -> pools_same c c' ->
  sys_ok pool n (<[i := k']> ks, c').
Proof.
  intros Hs Hk Hio Hps. eapply conn_step_ok; [exact Hs|].
  rewrite <- (take_drop_middle _ _ _ Hk) at 1.
  rewrite insert_take_drop by (by eapply lookup_lt_Some). by apply step_io.
Qed.

Lemma sys_ok_close {K : Kernel} pool n ks c i k k' c' o :
  sys_ok pool n (ks, c) -> ks !! i = Some k -> Connection.Close c k = (k', c', o) ->
  sys_ok pool n (<[i := k']> ks, c').
Proof.
  intros Hs Hk HC. eapply conn_step_ok; [exact Hs|].
  rewrite <- (take_drop_middle _ _ _ Hk) at 1.
  rewrite insert_take_drop by (by eapply lookup_lt_Some). by eapply step_close.
Qed.

Lemma CoroConnection_new_heap {K : Kernel} c fd k c' :
  CoroConnection_new c fd = Ok (k, c') -> grow [] c c'.
Proof.
  unfold CoroConnection_new. intros E. destruct (RegisterFile c fd) as [fi c1] eqn:E1.
  destruct (AllocateBuffer c1 nullptr) as [[[ri rp] c2]| |] eqn:E2; cbn in E; [|done..].
  destruct (AllocateBuffer c2 nullptr) as [[[wi wp] c3]| |] eqn:E3; cbn in E; [|done..].
  injection E as <- <-.
  assert (H1 : grow [] c c1)
    by (unfold RegisterFile in E1; repeat (case_match; simplify_eq); by apply grow_same).
  assert (HA : forall c p i q c', AllocateBuffer c p = Ok (i, q, c') -> grow [] c c').
  { clear. intros c p i q c' E. unfold AllocateBuffer in E.
    case_match; [destruct (or_ub _ _); cbn in E; [|done..]|]; simplify_eq; by apply grow_same. }
  eapply (grow_trans [] []); [|by eapply HA]. eapply (grow_trans [] []); [|by eapply HA]. done.
Qed.

(** * Invariant *)

Section Waiting.
Context {K : Kernel} {X L : Type} `{Countable L} {V : Service X L} {Spec : ServiceSpec X L}.

(** The coroutines of a connection that wait, and those of the server. *)
Definition slot_pend (i : nat) (x : X) : list waiter := waiters (ids i) (sv_pend x).

Definition pend_acc (a : acceptor) : list waiter :=
  match a with
  | Accepting _ => [(accept_id (L := L), accept_id (L := L))]
  | AcceptDone => []
  end.

Definition waiting (w : World X) : list waiter :=
  pend_acc (w_acc w) ++ concat (imap slot_pend (slots w)).

Definition conns (xs : list X) : list CoroConnection := sv_conn <$> xs.

Lemma conns_lookup xs i x : xs !! i = Some x -> conns xs !! i = Some (sv_conn x).
Proof. intros Hi. unfold conns. by rewrite list_lookup_fmap, Hi. Qed.

(** The waiters of one connection among those of all. *)
Lemma waiting_split xs i x :
  xs !! i = Some x ->
  exists others, concat (imap slot_pend xs) ≡ₚ slot_pend i x ++ others /\
    forall y, concat (imap slot_pend (<[i := y]> xs)) ≡ₚ slot_pend i y ++ others.
Proof.
  intros Hx. pose proof (lookup_lt_Some _ _ _ Hx) as Hl.
  exists (concat (imap slot_pend (take i xs)) ++
          concat (imap (fun j => slot_pend (S i + j)) (drop (S i) xs))).
  assert (Hsplit : forall y, concat (imap slot_pend (take i xs ++ y :: drop (S i) xs)) ≡ₚ
            slot_pend i y ++ concat (imap slot_pend (take i xs)) ++
              concat (imap (fun j => slot_pend (S i + j)) (drop (S i) xs))).
  { intros y. rewrite imap_app. cbn [imap]. rewrite concat_app. cbn [concat].
    rewrite length_take, Nat.min_l, Nat.add_0_r by lia.
    assert (E : imap ((fun j => slot_pend (i + j)) ∘ S) (drop (S i) xs)
                = imap (fun j => slot_pend (S i + j)) (drop (S i) xs)).
    { apply imap_ext. intros j z _. cbn. by replace (i + S j)%nat with (S (i + j)) by lia. }
    rewrite E. rewrite !app_assoc. apply Permutation_app_tail, Permutation_app_comm. }
  split; [rewrite <- (take_drop_middle _ _ _ Hx) at 1; apply Hsplit|].
  intros y. rewrite insert_take_drop by done. apply Hsplit.
Qed.

Lemma waiting_elem xs h r :
  (h, r) ∈ concat (imap slot_pend xs) -> exists i x, xs !! i = Some x /\ (h, r) ∈ slot_pend i x.
Proof.
  rewrite list_elem_of_In, in_concat. intros (l & Hl%list_elem_of_In & Hin%list_elem_of_In).
  apply list_elem_of_lookup in Hl as [i Hl]. rewrite list_lookup_imap in Hl.
  destruct (xs !! i) as [x|] eqn:Ex; [|done]. injection Hl as <-. eauto.
Qed.

Lemma slot_pend_elem i x h r :
  (h, r) ∈ slot_pend i x -> exists l, l ∈ sv_pend x /\ h = ids i l /\ r = ids i l.
Proof. unfold slot_pend, waiters. intros (l & [= -> ->] & Hl)%list_elem_of_fmap. eauto. Qed.

(** What the kernel may report for a request of coroutine [h]; an accept
    returns anything. *)
Definition result_possible (peer : nat -> bytes) (c : IoContext) (w : World X) (h : coro) (n : Z) : bool :=
  match task_of (L := L) h with
  | Some None => true
  | Some (Some (i, l)) =>
      match slots w !! i with
      | Some x => sv_possible (peer i) c (w_arena w) x l n
      | None => false
      end
  | None => false
  end.

Definition streams_ok (peer : nat -> bytes) : Prop := forall i, sv_stream_ok (peer i).

End Waiting.

Section ServerProofs.
Context {K : Kernel} {X L : Type} `{Countable L} {V : Service X L} {Spec : ServiceSpec X L}.
Context (peer : nat -> bytes) (pool n : Z) (Hsq : sq_never_full K) (Hpeer : streams_ok peer).

Record slots_inv (c : IoContext) (ar : Arena) (xs : list X) : Prop := {
  si_pool : exists O fl, pool_ok O fl c;
  si_sys : sys_ok pool n (conns xs, c);
  si_arena : arena_ok pool n c ar;
  si_each : forall i x, xs !! i = Some x -> sv_inv (ids i) (peer i) c ar x
}.

(** [M] is the ledger of the requests in flight. *)
Record world_inv (M : gmap loc waiter) (c : IoContext) (w : World X) : Prop := {
  wi_ledger : ledger M (waiting w) c;
  wi_slots : slots_inv c (w_arena w) (slots w);
  wi_handler : handler_ (w_server w) = Some service_handler;
  wi_accept : forall aw, w_acc w = Accepting aw ->
    srv_running_ (w_server w) = true /\ sqe aw = OpAccept (listen_fd_ (w_server w))
}.

(** All connections survive a change of the context that keeps the pools. *)
Lemma slots_inv_ctx c c' ar xs :
  slots_inv c ar xs -> pools_same c c' -> (exists O fl, pool_ok O fl c') -> slots_inv c' ar xs.
Proof.
  intros [_ [[Hb Hf Hw] Hc] Har Hx] Hps Hp. pose proof Hps as (E1 & E2 & E3 & E4 & E5 & E6).
  constructor; [done|..].
  - split; [constructor|done]; cbn [fst snd] in *.
    + by apply (bufs_ok_same _ _ _ c).
    + unfold files_ok in *. by rewrite E4, E5, E6.
    + eapply Forall_impl; [exact Hw|]. intros k. by apply conn_windows_same.
  - unfold arena_ok in *. by rewrite E3.
  - intros i x Hi. apply (sv_move _ _ c ar); auto using same_windows_refl.
Qed.

(** The others are not affected by what one connection does. *)
Lemma others_inv (ks : list CoroConnection) c ar (xs : list X) c' ar' k i (f : nat -> nat) :
  pools_ok pool n ks c -> arena_ok pool n c ar -> ks !! i = Some k ->
  (ar' = ar \/ rd_ok ar k) -> conn_frame c k ar ar' ->
  (exists O fl, pool_ok O fl c') -> buf_size_ c' = buf_size_ c ->
  (forall j x, xs !! j = Some x -> sv_inv (ids j) (peer j) c ar x) ->
  (forall j x, xs !! j = Some x -> f j <> i -> ks !! f j = Some (sv_conn x)) ->
  forall j x, xs !! j = Some x -> f j <> i -> sv_inv (ids j) (peer j) c' ar' x.
Proof.
  intros Hp Har Hk Hrd Hfr Hp' Hbs Hx Hks j x Hj Hji.
  apply (sv_move _ _ c ar); [by apply Hx|done|done|]. intros Hrd2 Hwr2.
  destruct Hrd as [->|Hrd]; [apply same_windows_refl|].
  by apply (other_windows pool n ks c ar ar' i (f j) k (sv_conn x)); auto.
Qed.

(** One connection has made a step. *)
Lemma slots_inv_step c ar xs i x add c1 k1 c' ar' x' :
  slots_inv c ar xs -> xs !! i = Some x ->
  io_eff add c ar (sv_conn x) c1 ar' k1 -> (ar' = ar \/ rd_ok ar (sv_conn x)) ->
  released c1 k1 c' (sv_conn x') -> (exists O fl, pool_ok O fl c') ->
  sv_inv (ids i) (peer i) c' ar' x' -> slots_inv c' ar' (<[i := x']> xs).
Proof.
  intros [_ Hsys Har Hx] Hi [_ Hps Hio Hfr] Hrd Hrel Hp Hnew.
  pose proof (conns_lookup _ _ _ Hi) as Hk. pose proof Hps as (_ & _ & Eb & _).
  assert (Hbs : buf_size_ c' = buf_size_ c).
  { destruct Hrel as [[-> _]|[o HC]]; [done|]. destruct (Close_ctx _ _ _ _ _ HC) as (_ & _ & _ & E). congruence. }
  constructor; [done|..].
  - unfold conns. rewrite list_fmap_insert.
    pose proof (sys_ok_io _ _ _ _ _ _ _ _ Hsys Hk Hio Hps) as Hsys1.
    destruct Hrel as [[-> ->]|[o HC]]; [done|].
    rewrite <- (list_insert_insert_eq (sv_conn <$> xs) i (sv_conn x') k1).
    eapply sys_ok_close; [exact Hsys1| |exact HC]. apply list_lookup_insert_eq.
    rewrite length_fmap. by eapply lookup_lt_Some.
  - unfold arena_ok in *. rewrite Hbs. by destruct Hfr as [-> _].
  - intros j y Hj. destruct (decide (j = i)) as [->|Hne].
    + rewrite list_lookup_insert_eq in Hj by (by eapply lookup_lt_Some). by injection Hj as <-.
    + rewrite list_lookup_insert_ne in Hj by done.
      apply (others_inv (conns xs) c ar xs _ _ (sv_conn x) i id (proj1 Hsys)); try done.
      intros j' y' Hj' _. exact (conns_lookup _ _ _ Hj').
Qed.

(** A new connection joins. *)
Lemma service_handler_ok c ar xs fd k c1 :
  slots_inv c ar xs -> CoroConnection_new c fd = Ok (k, c1) ->
  exists c2 ar2 x, service_handler c1 ar k xs = Ok (c2, ar2, xs ++ [x]) /\
    slots_inv c2 ar2 (xs ++ [x]) /\ grow (slot_pend (length xs) x) c c2.
Proof.
  intros Hinv Hnew. pose proof Hinv as [(O & fl & HpO) Hsys Har Hx]. set (i := length xs).
  assert (Hp1 : exists O fl, pool_ok O fl c1)
    by (exists O, fl; by eapply CoroConnection_new_pool).
  pose proof (CoroConnection_new_fresh pool n _ _ ar _ _ _ (proj1 Hsys) Har Hp1 Hnew) as Hfresh.
  pose proof (conn_step_ok _ _ _ _ Hsys (step_new _ _ _ _ _ Hnew)) as Hsys1.
  destruct (sv_open_ok (ids i) (peer i) c1 ar k Hfresh (Hpeer i))
    as (c2 & ar2 & x & E & Hi & Hp2 & [Hg Hps Hio Hfr]).
  destruct (CoroConnection_new_shape _ _ _ _ Hnew) as [Ebs _].
  pose proof Hps as (_ & _ & Ebs2 & _).
  assert (Hx1 : forall j y, xs !! j = Some y -> sv_inv (ids j) (peer j) c1 ar y).
  { intros j y Hj. apply (sv_move _ _ c ar); auto using same_windows_refl. }
  assert (Har1 : arena_ok pool n c1 ar) by (unfold arena_ok in *; by rewrite Ebs).
  exists c2, ar2, x. unfold service_handler. fold i. rewrite E. cbn [mbind outcome_bind].
  split; [done|]. split.
  - constructor; [done|..].
    + apply (sys_ok_perm _ _ (sv_conn x :: conns xs)).
      { unfold conns. rewrite fmap_app. apply Permutation_cons_append. }
      exact (sys_ok_io _ _ _ _ 0 _ _ _ Hsys1 eq_refl Hio Hps).
    + unfold arena_ok in *. rewrite Ebs2. by destruct Hfr as [-> _].
    + intros j y Hj. apply lookup_app_Some in Hj as [Hj|[Hj Hj2]].
      * apply (others_inv (k :: conns xs) c1 ar xs _ _ k 0 S (proj1 Hsys1)); try done;
          [right; apply Hfresh|].
        intros j' z Hj' _. exact (conns_lookup _ _ _ Hj').
      * apply list_lookup_singleton_Some in Hj2 as [Hj2 <-].
        assert (j = i) as -> by (unfold i; lia). done.
  - rewrite <- (app_nil_r (slot_pend _ _)).
    exact (grow_trans [] _ _ _ _ (CoroConnection_new_heap _ _ _ _ Hnew) Hg).
Qed.

(** The handler meets the interface of the accept loop. *)
#[export] Instance service_handler_spec : HandlerSpec service_handler.
Proof.
  refine {| hs_inv c ar xs := slots_inv c ar xs |}.
  - intros c ar xs Hi. split; [apply Hi|]. exists pool, n, (conns xs). apply Hi.
  - intros c c' ar xs Hi Hps Hp. by apply (slots_inv_ctx c).
  - intros c ar xs fd k c1 Hi Hnew.
    destruct (service_handler_ok _ _ _ _ _ _ Hi Hnew) as (c2 & ar2 & x & E & Hi' & _). eauto.
Defined.

(** ** One completion in the server *)

(** A waiter that is there only because of a cancellation. *)
Definition late (w : waiter) : Prop :=
  match task_of (L := L) w.1 with
  | Some (Some (_, l)) => sv_late l
  | _ => False
  end.

Definition all_late (M : gmap loc waiter) : Prop := forall req wt, M !! req = Some wt -> late wt.

Definition world_debt (w : World X) : nat := sum_list (sv_debt <$> slots w).

(** What a result [m] delivered to waiter [wt] does to the ledger and the
    debt. *)
Definition calms (m : Z) (wt : waiter) (M M' : gmap loc waiter) (w w' : World X) : Prop :=
  (m < 0 \/ late wt -> forall req u, M' !! req = Some u -> M !! req = Some u \/ late u) /\
  (late wt -> (world_debt w' < world_debt w)%nat).

Lemma world_debt_insert w i x y v ar a cs :
  slots w !! i = Some x -> (sv_debt y < sv_debt x)%nat ->
  (world_debt (mkWorld v ar (<[i := y]> (slots w)) a cs) < world_debt w)%nat.
Proof.
  intros Hx Hy. unfold world_debt. cbn [slots].
  rewrite insert_take_drop by (by eapply lookup_lt_Some).
  assert (E : sum_list (sv_debt <$> slots w)
              = sum_list (sv_debt <$> (take i (slots w) ++ x :: drop (S i) (slots w))))
    by (by rewrite (take_drop_middle _ _ _ Hx)).
  rewrite E, !fmap_app, !fmap_cons, !sum_list_with_app. cbn [sum_list_with id]. lia.
Qed.

Lemma accept_resume_ok M c w aw m :
  ledger M (concat (imap slot_pend (slots w))) c -> slots_inv c (w_arena w) (slots w) ->
  handler_ (w_server w) = Some service_handler -> w_acc w = Accepting aw ->
  srv_running_ (w_server w) = true /\ sqe aw = OpAccept (listen_fd_ (w_server w)) ->
  exists M' s, AcceptLoop_resume (accept_id (L := L)) (accept_id (L := L)) m
                 (mkSS (w_server w) c (w_arena w) (slots w) (w_acc w)) = Ok s /\
    world_inv M' (sctx s) (mkWorld (server s) (sarena s) (handlers s) (acc s) (cells w)) /\
    M ⊆ M' /\ (m < 0 -> M' = M).
Proof.
  intros HM Hsl Hh Hacc [Hrun Haw]. destruct (Z_lt_ge_dec m 0) as [Hm|Hm].
  { unfold AcceptLoop_resume. cbn [acc]. rewrite Hacc. cbn [complete IoAwaitable_await_resume aw_result].
    rewrite (proj2 (Z.ltb_lt _ _)) by done. eexists M, _. split; [done|]. by split; [constructor|]. }
  set (s0 := mkSS _ _ _ _ _).
  assert (Hl : listening s0) by (split; [done|by exists aw]).
  destruct (@accept_ok _ _ (accept_id (L := L)) (accept_id (L := L)) Hsq service_handler service_handler_spec
              s0 m Hsl Hl Hh ltac:(lia))
    as (s & E & [Hr (aw' & Ha' & Haw')] & Hsv & Hinv & k & c1 & c2 & Hnew & _ & _ & Hcall & Hg).
  destruct (service_handler_ok _ _ _ _ _ _ Hsl Hnew) as (c2' & ar2 & x & Ecall & _ & Hg1).
  cbn [sctx sarena handlers s0] in *. rewrite Hcall in Ecall. injection Ecall as <- Ear Exs.
  destruct (grow_trans _ _ _ _ _ Hg1 Hg M _ HM) as (M' & HM' & Hs'). exists M', s.
  split; [done|]. split; [|split; [done|lia]].
  constructor; cbn [w_server w_arena slots w_acc]; [|exact Hinv|by rewrite Hsv|].
  - unfold waiting. cbn [w_acc slots]. rewrite Ha', Exs, imap_app, concat_app. cbn [imap concat pend_acc].
    rewrite app_nil_r, Nat.add_0_r. rewrite <- app_assoc in HM'. cbn [app] in *.
    rewrite Permutation_app_comm. exact HM'.
  - intros aw2 Haw2. rewrite Ha' in Haw2. by injection Haw2 as <-.
Qed.

(** The completed request taken off the ledger, the rest of the server is as
    before. *)
Lemma complete_world M c w req h r c' :
  world_inv M c w -> M !! req = Some (h, r) -> FreeRequestData c req = Ok c' ->
  let c1 := set_in_flight c' (in_flight_ c' - 1) in
  exists Lw, waiting w ≡ₚ (h, r) :: Lw /\ ledger (delete req M) Lw c1 /\
    slots_inv c1 (w_arena w) (slots w) /\ buf_size_ c1 = buf_size_ c.
Proof.
  cbn zeta. intros [HM Hsl _ _] Hreq Hfree.
  destruct (ledger_complete _ _ _ _ _ _ _ HM Hreq Hfree) as (Lw & HL & HM1 & Hs).
  exists Lw. split; [done|]. split; [done|].
  destruct Hs as (E1 & E2 & E3 & E4 & E5 & E6 & E7 & E8 & E9). cbn in *.
  split; [|done]. apply (slots_inv_ctx c); [done|by split_and!|].
  destruct (lg_pool _ _ _ HM1) as [fl Hp]. eauto.
Qed.

Lemma released_grow c k c' k' : released c k c' k' -> grow [] c c'.
Proof.
  intros [[-> _]|[o HC]]; [apply grow_refl|].
  destruct (Close_ctx _ _ _ _ _ HC) as (E1 & E2 & E3 & _). by apply grow_same.
Qed.

(** Resuming a coroutine of a connection. *)
Lemma slot_complete_ok M c w req m c' i x l :
  world_inv M c w -> M !! req = Some (ids i l, ids i l) -> FreeRequestData c req = Ok c' ->
  slots w !! i = Some x -> l ∈ sv_pend x -> sv_possible (peer i) c (w_arena w) x l m = true ->
  exists M' c2 w2,
    service_resume peer (ids i l) (set_in_flight c' (in_flight_ c' - 1)) (store_cell (ids i l) m w)
    = Ok (c2, w2) /\
    world_inv M' c2 w2 /\ delete req M ⊆ M' /\ calms m (ids i l, ids i l) (delete req M) M' w w2.
Proof.
  intros Hw Hreq Hfree Hx Hl Hp.
  destruct (complete_world _ _ _ _ _ _ _ Hw Hreq Hfree) as (Lw & HL & HM & Hsl & Ebs).
  set (c1 := set_in_flight c' _) in *.
  destruct (sv_resume_ok (ids i) (peer i) c1 (w_arena w) x l m)
    as (add & rest & c2 & k2 & c3 & ar' & x' & E & Hi' & Hef & Har & Hrel & Hpx & Hpx' & Hq & Hdebt);
    [by apply Hsl|apply Hpeer|apply Hsl|done|by rewrite (sv_possible_ctx _ c)|].
  destruct (waiting_split _ _ _ Hx) as (others & Ho & Hoth).
  assert (HL' : Lw ≡ₚ pend_acc (L := L) (w_acc w) ++ waiters (ids i) rest ++ others).
  { unfold waiting in HL. rewrite Ho in HL. unfold slot_pend in HL.
    assert (Hpw : waiters (ids i) (sv_pend x) ≡ₚ (ids i l, ids i l) :: waiters (ids i) rest)
      by (unfold waiters; by rewrite Hpx).
    rewrite Hpw in HL. cbn [app] in HL. rewrite <- Permutation_middle in HL.
    by apply Permutation_cons_inv in HL. }
  destruct (ef_grow _ _ _ _ _ _ _ Hef _ _ HM) as (M1 & HM1 & Hs1).
  destruct (released_grow _ _ _ _ Hrel M1 _ HM1) as (M2 & HM2 & Hs2). cbn [app] in HM2.
  assert (Hs : delete req M ⊆ M2) by (by etrans).
  unfold service_resume. cbn [cells store_cell slots w_arena]. rewrite lookup_insert_eq.
  cbn [or_ub mbind outcome_bind]. rewrite task_of_ids, Hx. cbn [or_ub mbind outcome_bind].
  rewrite E. cbn [mbind outcome_bind]. exists M2. eexists _, _. split; [done|]. split; [|split; [done|]].
  - constructor; cbn [w_server w_arena slots w_acc]; [|..|apply Hw|apply Hw].
    + unfold waiting. cbn [w_acc slots]. rewrite Hoth. unfold slot_pend. rewrite Hpx'.
      rewrite HL' in HM2. rewrite <- app_assoc, Permutation_app_swap_app. exact HM2.
    + apply (slots_inv_step c1 (w_arena w) _ i x add c2 k2); try done.
      destruct (lg_pool _ _ _ HM2) as [fl Hpl]. eauto.
  - unfold calms, late. cbn [fst]. rewrite task_of_ids. split.
    + intros Hneg req' w' Hr'. destruct (ledger_new _ _ _ _ _ _ _ _ HM HM2 Hs Hr') as [?|Hin]; [by left|right].
      destruct (Hq Hneg _ Hin) as (l' & -> & Hl'). cbn [fst]. by rewrite task_of_ids.
    + intros Hl0. by apply (world_debt_insert w i x x'); [|apply Hdebt].
Qed.

(** Resuming the coroutine a completed request belongs to. *)
Lemma world_resume_ok M c w req h r res c' :
  world_inv M c w -> M !! req = Some (h, r) -> result_possible peer c w h res = true ->
  FreeRequestData c req = Ok c' ->
  exists M' c2 w2,
    service_resume peer h (set_in_flight c' (in_flight_ c' - 1)) (store_cell r res w) = Ok (c2, w2) /\
    world_inv M' c2 w2 /\ delete req M ⊆ M' /\ calms res (h, r) (delete req M) M' w w2.
Proof.
  intros Hw Hreq Hres Hfree. pose proof (ledger_elem _ _ _ _ _ _ (wi_ledger _ _ _ Hw) Hreq) as Hin.
  unfold waiting in Hin. apply elem_of_app in Hin as [Hin|Hin].
  - destruct (complete_world _ _ _ _ _ _ _ Hw Hreq Hfree) as (Lw & HL & HM & Hsl & _).
    unfold pend_acc in Hin. destruct (w_acc w) as [aw|] eqn:Hacc; [|by apply elem_of_nil in Hin].
    apply list_elem_of_singleton in Hin as [= -> ->].
    unfold waiting in HL. rewrite Hacc in HL. cbn [pend_acc app] in HL. apply Permutation_cons_inv in HL.
    rewrite <- HL in HM.
    destruct (accept_resume_ok _ _ (store_cell (accept_id (L := L)) res w) aw res HM Hsl)
      as (M' & s & E & Hw' & Hs & Hq); [apply Hw|done|by apply Hw|].
    unfold service_resume. cbn [cells store_cell]. rewrite lookup_insert_eq. cbn [or_ub mbind outcome_bind].
    rewrite task_of_accept. rewrite E. cbn [mbind outcome_bind].
    eexists M', _, _. split; [done|]. split; [done|]. split; [done|].
    unfold calms, late. cbn [fst]. rewrite task_of_accept. split; [|done].
    intros [Hneg|[]]. rewrite (Hq Hneg). by left.
  - apply waiting_elem in Hin as (i & x & Hx & Hin).
    destruct (slot_pend_elem _ _ _ _ Hin) as (l & Hl & -> & ->).
    unfold result_possible in Hres. rewrite task_of_ids, Hx in Hres.
    by apply (slot_complete_ok M c w req res c' i x l).
Qed.

Lemma world_inv_same M c c' w : same_resources c c' -> world_inv M c w -> world_inv M c' w.
Proof.
  intros (E1 & E2 & E3 & E4 & E5 & E6 & E7 & E8 & E9) [Hl Hsl Hh Ha].
  assert (Hl' : ledger M (waiting w) c') by (by eapply ledger_heap_same).
  constructor; [done| |done..]. apply (slots_inv_ctx c); [done|by split_and!|].
  destruct (lg_pool _ _ _ Hl') as [fl Hp]. eauto.
Qed.

(** The server meets the interface of the event loop. *)
#[export] Instance service_spec : ProgramSpec (World X) (P := service_program peer).
Proof.
  refine {|
    prog_inv O c w := exists M, dom M = O /\ world_inv M c w;
    prog_res_ok c w req res :=
      match (heap c !! req) ≫= handle with
      | Some h => result_possible peer c w h res = true
      | None => False
      end
  |}.
  - intros O c w (M & <- & Hw). apply Hw.
  - intros O c c' w Hs (M & HM & Hw). exists M. split; [done|]. by eapply world_inv_same.
  - intros O c w req h r res c' (M & <- & Hw) Hreq Hl Hres Hfree.
    rewrite Hl in Hres. cbn [mbind option_bind handle] in Hres.
    pose proof (ledger_lookup _ _ _ _ _ _ (wi_ledger _ _ _ Hw) Hreq Hl) as HMr.
    destruct (world_resume_ok _ _ _ _ _ _ _ _ Hw HMr Hres Hfree) as (M' & c2 & w2 & E & Hw' & Hs & _).
    exists (dom M'), c2, w2. split; [exact E|]. split; [by exists M'|].
    rewrite <- dom_delete_L. by apply subseteq_dom.
Defined.

(** A cancelled operation is among what the kernel may report. *)
Lemma cancel_possible M c w req h r :
  world_inv M c w -> M !! req = Some (h, r) -> result_possible peer c w h (- ECANCELED) = true.
Proof.
  intros Hw Hreq. pose proof (ledger_elem _ _ _ _ _ _ (wi_ledger _ _ _ Hw) Hreq) as Hin.
  unfold waiting in Hin. unfold result_possible. apply elem_of_app in Hin as [Hin|Hin].
  - unfold pend_acc in Hin. destruct (w_acc w); [|by apply elem_of_nil in Hin].
    apply list_elem_of_singleton in Hin as [= -> ->]. by rewrite task_of_accept.
  - apply waiting_elem in Hin as (i & x & Hx & Hin).
    destruct (slot_pend_elem _ _ _ _ Hin) as (l & Hl & -> & ->). rewrite task_of_ids, Hx.
    apply (sv_cancel (ids i)); [|done]. by apply (wi_slots _ _ _ Hw).
Qed.

(** ** Cancellation *)

(** A completion of a request in flight, as the loop handles it. *)
Lemma complete_one M c w req wt res :
  world_inv M c w -> M !! req = Some wt -> result_possible peer c w wt.1 res = true ->
  exists M' c' w', handle_cqe (P := service_program peer) c w (mkCqe (Some req) res) = Ok (c', w') /\
    world_inv M' c' w' /\ delete req M ⊆ M' /\ calms res wt (delete req M) M' w w'.
Proof.
  intros Hw Hreq Hres. destruct wt as [h r].
  pose proof (lg_heap _ _ _ (wi_ledger _ _ _ Hw) _ _ _ Hreq) as Hh.
  destruct (lg_pool _ _ _ (wi_ledger _ _ _ Hw)) as [fl Hp].
  destruct (complete_ok _ fl c req Hp) as (c1 & Hfree & _); [apply elem_of_dom; by eexists|].
  destruct (world_resume_ok _ _ _ _ _ _ _ _ Hw Hreq Hres Hfree) as (M' & c2 & w2 & E & Hw' & Hs & Hq).
  exists M', c2, w2. split; [|done]. unfold handle_cqe. cbn [cqe_user_data cqe_res]. rewrite Hh.
  cbn [or_ub mbind outcome_bind handle result]. rewrite Hfree. exact E.
Qed.

(** Cancelling everything leaves only what cancelled coroutines have caused to
    be submitted. *)
Lemma cancel_all reqs : forall M c w,
  world_inv M c w -> NoDup reqs -> (forall req, req ∈ reqs -> is_Some (M !! req)) ->
  (forall req wt, M !! req = Some wt -> req ∈ reqs \/ late wt) ->
  exists M' c' w', handle_batch (P := service_program peer) c w (cancelled reqs) = Ok (c', w') /\
    world_inv M' c' w' /\ all_late M'.
Proof.
  induction reqs as [|req reqs IH]; intros M c w Hw Hn Hin Hset.
  { exists M, c, w. split; [done|]. split; [done|]. intros req wt Hr. by destruct (Hset _ _ Hr) as [?%elem_of_nil|?]. }
  apply NoDup_cons in Hn as [Hnin Hn]. destruct (Hin req) as [[h r] Hwt]; [by left|].
  destruct (complete_one _ _ _ _ _ _ Hw Hwt (cancel_possible _ _ _ _ _ _ Hw Hwt))
    as (M1 & c1 & w1 & E & Hw1 & Hs & Hnew & _).
  cbn [cancelled fmap list_fmap handle_batch]. rewrite E. cbn [mbind outcome_bind].
  apply (IH M1 c1 w1); [done|done|..].
  - intros req' Hr'. destruct (Hin req') as [wt' Hwt']; [by right|]. exists wt'.
    eapply lookup_weaken, Hs. rewrite lookup_delete_ne; [done|]. by intros ->.
  - intros req' wt' Hr'. destruct (Hnew (or_introl (eq_refl : - ECANCELED < 0)) _ _ Hr') as [Hold|?]; [|by right].
    apply lookup_delete_Some in Hold as [Hne Hold]. destruct (Hset _ _ Hold) as [Hr0|?]; [|by right].
    apply elem_of_cons in Hr0 as [->|?]; [done|by left].
Qed.

(** ** The end of the drain phase

    Whatever the kernel then reports, each completion pays off some of the
    debt. *)
Definition tracked (q : io_uring_cqe) : nat :=
  match cqe_user_data q with Some _ => 1 | None => 0 end.

Fixpoint completions (evs : list event) : nat :=
  match evs with
  | [] => 0
  | WaitBatch qs :: evs => sum_list (tracked <$> qs) + completions evs
  | _ :: evs => completions evs
  end.

Definition no_wait_error (e : event) : Prop :=
  match e with WaitErr _ => False | _ => True end.

Lemma late_batch qs : forall M c w,
  world_inv M c w -> all_late M -> batch_valid (P := service_program peer) (S := service_spec) c w qs ->
  exists M' c' w', handle_batch (P := service_program peer) c w qs = Ok (c', w') /\
    world_inv M' c' w' /\ all_late M' /\ (world_debt w' + sum_list (tracked <$> qs) <= world_debt w)%nat.
Proof.
  induction qs as [|[[req|] res] qs IH]; intros M c w Hw HM Hv.
  - exists M, c, w. split_and!; [done..|]. cbn. lia.
  - cbn [batch_valid] in Hv. destruct Hv as [[Hreq Hres] Hv]. cbn [cqe_user_data cqe_res] in *.
    destruct (lg_pool _ _ _ (wi_ledger _ _ _ Hw)) as [fl Hp]. rewrite (pool_outstanding _ _ _ Hp) in Hreq.
    apply elem_of_dom in Hreq as [[h r] Hwt].
    pose proof (lg_heap _ _ _ (wi_ledger _ _ _ Hw) _ _ _ Hwt) as Hh.
    cbn [prog_res_ok service_spec] in Hres. rewrite Hh in Hres. cbn [mbind option_bind handle] in Hres.
    destruct (complete_one _ _ _ _ _ _ Hw Hwt Hres) as (M1 & c1 & w1 & E & Hw1 & _ & Hnew & Hdebt).
    specialize (Hdebt (HM _ _ Hwt)). cbn [handle_batch]. rewrite E in *. cbn [mbind outcome_bind].
    destruct (IH M1 c1 w1 Hw1) as (M2 & c2 & w2 & E2 & Hw2 & HM2 & Hd2); [|done|].
    { intros req' u Hu. destruct (Hnew (or_intror (HM _ _ Hwt)) _ _ Hu) as [[_ Hold]%lookup_delete_Some|?]; [|done].
      by eapply HM. }
    exists M2, c2, w2. split_and!; [done..|]. rewrite fmap_cons. cbn [sum_list_with tracked cqe_user_data id]. lia.
  - cbn [batch_valid handle_batch handle_cqe cqe_user_data mbind outcome_bind] in *. destruct Hv as [_ Hv].
    destruct (IH M c w Hw HM Hv) as (M' & c' & w' & E & Hw' & HM' & Hd). exists M', c', w'. by split_and!.
Qed.

(** Where something is in flight, there is debt. *)
Lemma late_debt M c w : world_inv M c w -> all_late M -> dom M <> ∅ -> (0 < world_debt w)%nat.
Proof.
  intros Hw HM Hd. destruct (set_choose_L _ Hd) as [req [[h r] Hwt]%elem_of_dom].
  destruct (complete_one _ _ _ _ _ _ Hw Hwt (cancel_possible _ _ _ _ _ _ Hw Hwt))
    as (M1 & c1 & w1 & _ & _ & _ & _ & Hdebt). specialize (Hdebt (HM _ _ Hwt)). lia.
Qed.

(** ** The end of a thread *)

(** With nothing in flight, every connection is closed and the pools are
    whole. *)
Lemma idle_world M c w :
  world_inv M c w -> dom M = ∅ ->
  w_acc w = AcceptDone /\
  Forall (fun x => sv_pend x = [] /\ Connection.closed_ (sv_conn x) = true) (slots w) /\
  free_buf_indices_ c ≡ₚ seqZ 0 n /\
  free_file_indices_ c ≡ₚ (if files_enabled_ c then seqZ 0 (max_fixed_files_ c) else []).
Proof.
  intros [Hl [_ [[Hb Hf _] Hce] _ Hx] _ _] HM. pose proof (ledger_nothing _ _ _ Hl HM) as Hn.
  unfold waiting in Hn. apply app_eq_nil in Hn as [Hacc Hn].
  assert (Hcl : Forall (fun x => sv_pend x = [] /\ Connection.closed_ (sv_conn x) = true) (slots w)).
  { apply Forall_lookup_2. intros i x Hi. assert (Hpe : sv_pend x = []).
    2:{ split; [done|]. apply (sv_idle (ids i) (peer i) c (w_arena w)); [by apply Hx|done]. }
    destruct (waiting_split _ _ _ Hi) as (others & Ho & _). rewrite Hn in Ho.
    apply Permutation_nil_l in Ho. symmetry in Ho. apply app_eq_nil in Ho as [Ho _].
    by apply fmap_nil_inv in Ho. }
  destruct (all_closed_empty (conns (slots w)) Hce) as [E1 E2].
  { unfold conns. apply Forall_fmap. eapply Forall_impl; [exact Hcl|]. by intros x []. }
  split; [by destruct (w_acc w)|]. split; [done|]. cbn [fst snd] in *. split.
  - rewrite <- (bufs_perm _ _ _ _ Hb), E1. by rewrite app_nil_r.
  - unfold files_ok in Hf. by rewrite E2, app_nil_r in Hf.
Qed.

(** The server as it starts. *)
Lemma start_world_ok v c ar :
  pool_ok ∅ [] c -> bufs_ok pool n [] c -> files_ok [] c -> arena_ok pool n c ar ->
  exists c0 w0 M, start_world v c ar = Ok (c0, w0) /\ world_inv M c0 w0 /\ slots w0 = [].
Proof.
  intros Hp Hb Hf Har.
  assert (Hsl : slots_inv c ar []).
  { constructor; [by eauto| |done|done]. split; [by constructor|constructor]. }
  assert (HM : ledger ∅ [] c).
  { constructor; [exists []; by rewrite dom_empty_L|done|]. by rewrite map_to_list_empty. }
  unfold start_world, Start. set (v' := mkServer _ _ true _).
  destruct (@accept_next_ok _ _ (accept_id (L := L)) (accept_id (L := L)) Hsq service_handler service_handler_spec
              (set_server (mkSS (SetConnectionHandler v service_handler) c ar [] AcceptDone) v') Hsl eq_refl)
    as (s & -> & [Hr (aw & Ha & Haw)] & Hsv & Ear & Eh & Hinv & Hg).
  cbn [Task_body mbind outcome_bind]. destruct (Hg ∅ [] HM) as (M & HM' & _).
  eexists _, _, M. split; [done|]. split; [|exact Eh].
  constructor; cbn [w_server w_arena slots w_acc]; [|exact Hinv|by rewrite Hsv|].
  - unfold waiting. cbn [w_acc slots]. rewrite Ha, Eh. exact HM'.
  - intros aw2 Haw2. rewrite Ha in Haw2. by injection Haw2 as <-.
Qed.

(** A context as its constructor leaves it, with its registered memory in the
    arena. *)
Definition new_context (c : IoContext) (ar : Arena) : Prop :=
  pool_ok ∅ [] c /\ bufs_ok pool n [] c /\ files_ok [] c /\ arena_ok pool n c ar.

(** A thread runs without undefined behaviour, and its invariant tells the
    rest. *)
Lemma thread_safe v c ar evs :
  new_context c ar ->
  match start_world v c ar with
  | Ok (c0, w0) => run_valid (P := service_program peer) (S := service_spec) evs (set_running c0 true) w0
  | _ => True
  end ->
  exists c0 w0 st c' w' M, start_world v c ar = Ok (c0, w0) /\
    Run (P := service_program peer) evs c0 w0 = Ok (st, c', w') /\ world_inv M c' w' /\
    in_flight_ c' = zlen (waiting w').
Proof.
  intros (Hp & Hb & Hf & Har) Hv.
  destruct (start_world_ok v c ar Hp Hb Hf Har) as (c0 & w0 & M & E & Hw & _). rewrite E in Hv.
  destruct (Run_ok (S := service_spec) evs c0 w0) as (st & c' & w' & HR & O & M' & _ & Hw');
    [by exists (dom M), M|done|].
  exists c0, w0, st, c', w', M'. do 3 (split; [done|]). destruct Hw' as [Hl _ _ _].
  destruct (lg_pool _ _ _ Hl) as [fl Hpl]. rewrite (pool_count _ _ _ Hpl), size_dom.
  unfold zlen. rewrite <- (Permutation_length (lg_waiters _ _ _ Hl)).
  by rewrite length_fmap, length_map_to_list.
Qed.

(** Nothing is left of a thread that ran on context [c]: no request is in
    flight, no coroutine waits, every connection is closed, the pools are whole
    again, and the destructor of the context frees every request object. *)
Definition clean_end (c c' : IoContext) (w : World X) : Prop :=
  in_flight_ c' = 0 /\ w_acc w = AcceptDone /\
  Forall (fun x => sv_pend x = [] /\ Connection.closed_ (sv_conn x) = true) (slots w) /\
  free_buf_indices_ c' ≡ₚ free_buf_indices_ c /\
  free_file_indices_ c' ≡ₚ (if files_enabled_ c' then seqZ 0 (max_fixed_files_ c') else []) /\
  exists c'' ub uf, IoContext_delete c' = Ok (c'', ub, uf) /\ heap c'' = ∅.

Lemma idle_clean c ar c' w : new_context c ar -> world_inv ∅ c' w -> clean_end c c' w.
Proof.
  intros (_ & Hb & _ & _) Hw. destruct (idle_world ∅ c' w Hw) as (Hacc & Hcl & Hbufs & Hfiles);
    [apply dom_empty_L|].
  destruct (lg_pool _ _ _ (wi_ledger _ _ _ Hw)) as [fl Hpl]. rewrite dom_empty_L in Hpl.
  destruct (delete_pool_ok fl (size (heap c')) (heap c') (req_pool_head_ c') ∅) as (h' & Hdel & Hd);
    [rewrite (pool_heap_size _ _ _ Hpl); lia|apply Hpl..|].
  split; [by rewrite (pool_count _ _ _ Hpl), size_empty|]. do 2 (split; [done|]). split.
  { rewrite Hbufs, <- (bufs_perm _ _ _ _ Hb). by rewrite app_nil_r. }
  split; [done|]. unfold IoContext_delete. cbn [Stop set_running heap req_pool_head_]. rewrite Hdel.
  eexists _, _, _. split; [done|]. by apply (dom_empty_inv_L (D:=gset loc)).
Qed.

Lemma outstanding_dom M c w : world_inv M c w -> outstanding c = dom M.
Proof. intros Hw. destruct (lg_pool _ _ _ (wi_ledger _ _ _ Hw)) as [fl Hp]. by eapply pool_outstanding. Qed.

Lemma in_flight_dom M c w : world_inv M c w -> in_flight_ c = Z.of_nat (size (dom M)).
Proof. intros Hw. destruct (lg_pool _ _ _ (wi_ledger _ _ _ Hw)) as [fl Hp]. by rewrite (pool_count _ _ _ Hp). Qed.

Lemma drained M c w evs : world_inv M c w -> dom M = ∅ ->
  drain_loop (P := service_program peer) evs c w = Ok (Returned evs, c, w).
Proof. intros Hw Hd. apply drain_loop_done. rewrite (in_flight_dom _ _ _ Hw), Hd, size_empty. lia. Qed.

(** The thread when a stop reaches it: it is done, or it drains. *)
Lemma stop_and_drain v c ar evs evs' c0 w0 c1 w1 :
  new_context c ar -> start_world v c ar = Ok (c0, w0) ->
  run_valid (P := service_program peer) (S := service_spec) evs (set_running c0 true) w0 ->
  run_loop (P := service_program peer) evs (set_running c0 true) w0 = Ok (Blocked, c1, w1) ->
  exists M, world_inv M (post_cancel (Stop c1)) w1 /\ outstanding c1 = dom M /\
    ((world_inv ∅ (Stop c1) w1 /\
      Run (P := service_program peer) (evs ++ Signal :: evs') c0 w0 = Ok (Returned evs', Stop c1, w1)) \/
     (0 < in_flight_ (post_cancel (Stop c1)) /\
      Run (P := service_program peer) (evs ++ Signal :: evs') c0 w0
      = drain_loop (P := service_program peer) evs' (post_cancel (Stop c1)) w1)).
Proof.
  intros (Hp & Hb & Hf & Har) E Hv HR.
  destruct (start_world_ok v c ar Hp Hb Hf Har) as (c0' & w0' & M & E' & Hw & _).
  rewrite E in E'. injection E' as <- <-.
  destruct (run_loop_ok (S := service_spec) evs (set_running c0 true) w0)
    as (st & c1' & w1' & E1 & (O & M1 & _ & Hw1) & _);
    [apply (inv_same c0); [done|by exists (dom M), M]|done|].
  rewrite HR in E1. injection E1 as <- <- <-. unfold Run.
  destruct (run_loop_app evs (Signal :: evs') _ _ _ _ HR) as [Hrun ->].
  cbn [run_loop]. rewrite Hrun. cbn [negb].
  replace (run_loop evs' (Stop c1) w1) with (Ok (Returned evs', Stop c1, w1) : outcome (status * IoContext * World X))
    by (by destruct evs').
  cbn [mbind outcome_bind].
  pose proof (same_post_cancel (Stop c1)) as Hsame.
  exists M1. split; [by apply (world_inv_same _ c1)|]. split; [by eapply outstanding_dom|].
  assert (Hfl : in_flight_ (post_cancel (Stop c1)) = in_flight_ c1).
  { rewrite (in_flight_dom _ _ _ Hw1). eapply in_flight_dom. by apply (world_inv_same _ c1). }
  unfold drain. change (in_flight_ (Stop c1)) with (in_flight_ c1).
  destruct (Z.ltb_spec 0 (in_flight_ c1)) as [Hz|Hz]; [right; split; [lia|done]|left]. split; [|done].
  rewrite (in_flight_dom _ _ _ Hw1) in Hz.
  assert (M1 = ∅) as ->.
  { apply (dom_empty_inv_L (D:=gset loc)), leibniz_equiv, size_empty_inv. lia. }
  by apply (world_inv_same _ c1).
Qed.

Lemma all_requests (M : gmap loc waiter) reqs : reqs ≡ₚ elements (dom M : gset loc) ->
  NoDup reqs /\ list_to_set reqs = dom M /\ (forall req, req ∈ reqs <-> is_Some (M !! req)).
Proof.
  intros Hr. split_and!.
  - rewrite Hr. apply NoDup_elements.
  - rewrite Hr. apply list_to_set_elements_L.
  - intros req. by rewrite Hr, elem_of_elements, elem_of_dom.
Qed.

(** A batch of the drain phase. *)
Lemma drain_batch qs evs c w c' w' :
  0 < in_flight_ c -> handle_batch (P := service_program peer) c w qs = Ok (c', w') ->
  drain_loop (P := service_program peer) (WaitBatch qs :: evs) c w
  = drain_loop (P := service_program peer) evs c' w'.
Proof. intros Hf E. cbn [drain_loop]. rewrite (proj2 (Z.leb_gt _ _)) by done. by rewrite E. Qed.

Lemma in_flight_pos M c w : world_inv M c w -> dom M <> ∅ -> 0 < in_flight_ c.
Proof.
  intros Hw Hd. rewrite (in_flight_dom _ _ _ Hw). assert (size (dom M) <> 0%nat); [|lia].
  intros H0%size_empty_inv. by apply leibniz_equiv in H0.
Qed.

(** The drain phase is over, or the kernel has completed fewer requests than
    there was debt. *)
Definition drains (D : nat) (evs : list event) (r : outcome (status * IoContext * World X)) : Prop :=
  exists st c w, r = Ok (st, c, w) /\
    match st with
    | Returned _ => world_inv ∅ c w
    | Blocked => (completions evs < D)%nat
    end.

Lemma drain_ends evs : forall M c w,
  world_inv M c w -> all_late M -> drain_valid (P := service_program peer) (S := service_spec) evs c w ->
  Forall no_wait_error evs ->
  drains (world_debt w) evs (drain_loop (P := service_program peer) evs c w).
Proof.
  induction evs as [|e evs IH]; intros M c w Hw HM Hv Hne;
    (destruct (decide (dom M = ∅)) as [He|He];
      [rewrite (drained _ _ _ _ Hw He); apply dom_empty_inv_L in He as ->; by eexists _, _, _|]);
    pose proof (in_flight_pos _ _ _ Hw He) as Hpos.
  { exists Blocked, c, w. split; [|exact (late_debt _ _ _ Hw HM He)].
    cbn [drain_loop]. by rewrite (proj2 (Z.leb_gt _ _)) by done. }
  apply Forall_cons in Hne as [He1 Hne]. destruct e as [| |qs]; [|done|].
  - cbn [drain_loop]. rewrite (proj2 (Z.leb_gt _ _)) by done. apply (IH M); try done.
    by apply (world_inv_same _ c).
  - cbn [drain_valid] in Hv. destruct Hv as [Hb Hv].
    destruct (late_batch qs M c w Hw HM Hb) as (M1 & c1 & w1 & E & Hw1 & HM1 & Hd1).
    rewrite (drain_batch _ _ _ _ _ _ Hpos E). rewrite E in Hv.
    destruct (IH M1 c1 w1 Hw1 HM1 Hv Hne) as (st & c2 & w2 & E2 & H2). exists st, c2, w2. split; [done|].
    destruct st; [done|cbn [completions]; lia].
Qed.

(** A stop, the completions of the cancel request, and then what the kernel
    reports for whatever these have caused to be submitted. *)
Lemma service_shutdown v c ar evs evs' c0 w0 c1 w1 reqs c2 w2 :
  new_context c ar -> start_world v c ar = Ok (c0, w0) ->
  run_valid (P := service_program peer) (S := service_spec) evs (set_running c0 true) w0 ->
  run_loop (P := service_program peer) evs (set_running c0 true) w0 = Ok (Blocked, c1, w1) ->
  reqs ≡ₚ elements (outstanding c1) ->
  handle_batch (P := service_program peer) (post_cancel (Stop c1)) w1 (cancelled reqs) = Ok (c2, w2) ->
  (0 < in_flight_ c2 ->
   drain_valid (P := service_program peer) (S := service_spec) evs' c2 w2 /\ Forall no_wait_error evs') ->
  exists st c3 w3,
    Run (P := service_program peer) (evs ++ Signal :: WaitBatch (cancelled reqs) :: evs') c0 w0
    = Ok (st, c3, w3) /\
    match st with
    | Returned _ => clean_end c c3 w3
    | Blocked => (completions evs' < world_debt w2)%nat
    end.
Proof.
  intros Hnew E Hv HR Hreqs H1 Hv'.
  destruct (stop_and_drain v c ar evs (WaitBatch (cancelled reqs) :: evs') c0 w0 c1 w1 Hnew E Hv HR)
    as (M1 & Hw1 & Hout & [[Hw ->]|[Hpos ->]]).
  { eexists _, _, _. split; [done|]. by apply (idle_clean c ar). }
  rewrite Hout in Hreqs. destruct (all_requests M1 reqs Hreqs) as (Hn & _ & Hin).
  destruct (cancel_all reqs M1 (post_cancel (Stop c1)) w1) as (M2 & c2' & w2' & H1' & Hw2 & HM2); try done.
  { intros req Hr. by apply Hin. } { intros req wt Hr. left. apply Hin. by eexists. }
  rewrite H1 in H1'. injection H1' as <- <-. rewrite (drain_batch _ _ _ _ _ _ Hpos H1).
  destruct (decide (dom M2 = ∅)) as [He|He].
  { rewrite (drained _ _ _ _ Hw2 He). apply dom_empty_inv_L in He as ->.
    eexists _, _, _. split; [done|]. by apply (idle_clean c ar). }
  destruct (Hv' (in_flight_pos _ _ _ Hw2 He)) as [Hdv Hne].
  destruct (drain_ends evs' M2 c2 w2 Hw2 HM2 Hdv Hne) as (st & c3 & w3 & -> & Hw3).
  eexists _, _, _. split; [done|]. destruct st; [by apply (idle_clean c ar)|done].
Qed.

(** The completions of the cancel request are enough for a service whose
    cancelled coroutines submit nothing. *)
Lemma service_shutdown_once v c ar evs evs' c0 w0 c1 w1 reqs :
  (forall l, ~ sv_late l) -> new_context c ar -> start_world v c ar = Ok (c0, w0) ->
  run_valid (P := service_program peer) (S := service_spec) evs (set_running c0 true) w0 ->
  run_loop (P := service_program peer) evs (set_running c0 true) w0 = Ok (Blocked, c1, w1) ->
  reqs ≡ₚ elements (outstanding c1) ->
  exists rest c2 w2,
    Run (P := service_program peer) (evs ++ Signal :: WaitBatch (cancelled reqs) :: evs') c0 w0
    = Ok (Returned rest, c2, w2) /\ clean_end c c2 w2.
Proof.
  intros Hnl Hnew E Hv HR Hreqs.
  destruct (stop_and_drain v c ar evs (WaitBatch (cancelled reqs) :: evs') c0 w0 c1 w1 Hnew E Hv HR)
    as (M1 & Hw1 & Hout & [[Hw ->]|[Hpos ->]]).
  { eexists _, _, _. split; [done|]. by apply (idle_clean c ar). }
  rewrite Hout in Hreqs. destruct (all_requests M1 reqs Hreqs) as (Hn & _ & Hin).
  destruct (cancel_all reqs M1 (post_cancel (Stop c1)) w1) as (M2 & c2 & w2 & H1 & Hw2 & HM2); try done.
  { intros req Hr. by apply Hin. } { intros req wt Hr. left. apply Hin. by eexists. }
  assert (M2 = ∅) as ->.
  { apply map_empty. intros req. destruct (M2 !! req) as [wt|] eqn:Er; [|done].
    pose proof (HM2 _ _ Er) as Hl. unfold late in Hl. destruct (task_of _) as [[[i l]|]|]; [|done..].
    by apply Hnl in Hl. }
  rewrite (drain_batch _ _ _ _ _ _ Hpos H1), (drained ∅ _ _ _ Hw2) by apply dom_empty_L.
  eexists _, _, _. split; [done|]. by apply (idle_clean c ar).
Qed.

End ServerProofs.
