(* ===== verification/EchoServer.v ===== *)
(** The echo server as a service: one thread of [examples/coro_echo.cpp] with
    its event loop, its accept loop and any number of connections.

    A connection of the server is a session of [Echo]; its two coroutines are
    the read loop and the write loop.  What the client sends is a stream; a
    read that completes with [n] takes the next [n] bytes of it. *)
From S2P Require Import Prelude Buffer Protocol IoContext Coro Ledger Connection.
From S2P Require Import ResponseQueue Echo Isolation Server Service.

(** * State *)

(** A connection as its coroutines keep it, and the completions it has seen
    (which no code reads). *)
Record Slot := mkSlot {
  slot_conn : CoroConnection;
  slot_rq : ResponseQueue;
  slot_rd : reader;
  slot_wr : writer;
  slot_sent : bytes;
  history : list completion
}.

(** The session on the context and memory all connections share. *)
Definition sess_of (c : IoContext) (ar : Arena) (x : Slot) : Sess :=
  mkSess c ar (slot_conn x) (slot_rq x) (slot_rd x) (slot_wr x) (slot_sent x).

Definition slot_of (es : list completion) (s : Sess) : Slot :=
  mkSlot (conn s) (rq s) (rd s) (wr s) (sent s) es.

(** The coroutines of a connection. *)
Inductive echo_task : Type := Reader | Writer.

#[export] Instance echo_task_eq_dec : EqDecision echo_task.
Proof. solve_decision. Defined.

#[export] Instance echo_task_countable : Countable echo_task.
Proof.
  refine (inj_countable' (fun l => match l with Reader => true | Writer => false end)
            (fun b : bool => if b then Reader else Writer) _); by intros [].
Defined.

(** The bytes the kernel has delivered on a connection, and the others. *)
Definition delivered (x : Slot) : bytes := concat (delivered_chunks (history x)).

Definition undelivered (stream : bytes) (x : Slot) : bytes := drop (length (delivered x)) stream.

Section EchoService.
Context {K : Kernel} {HO : HostOrder} {PB : Protobuf}.

(** * The connection handler the server is given: [handleConnection] *)
Definition echo_open (ids : echo_task -> coro) (c : IoContext) (ar : Arena) (k : CoroConnection)
  : outcome (IoContext * Arena * Slot) :=
  s ← handleConnection (ids Reader) (ids Writer) (ids Reader) (ids Writer) c ar k;
  Ok (ctx s, arena s, slot_of [] s).

(** * Resuming a coroutine *)
Definition slot_step (ids : echo_task -> coro) (x : Slot) (e : completion) (c : IoContext) (ar : Arena)
  : outcome (IoContext * Arena * Slot) :=
  s ← sess_step (ids Reader) (ids Writer) (ids Reader) (ids Writer) (sess_of c ar x) e;
  Ok (ctx s, arena s, slot_of (history x ++ [e]) s).

Definition echo_resume (ids : echo_task -> coro) (stream : bytes) (l : echo_task) (n : Z)
    (c : IoContext) (ar : Arena) (x : Slot) : outcome (IoContext * Arena * Slot) :=
  match l with
  | Reader => slot_step ids x (read_event (undelivered stream x) n) c ar
  | Writer => slot_step ids x (WriteDone n) c ar
  end.

#[export] Instance echo_service : Service Slot echo_task :=
  {| sv_conn := slot_conn; sv_open := echo_open; sv_resume := echo_resume |}.

(** * The kernel's contract *)

(** A read returns at most the bytes asked for and at most what the client has
    sent, a write takes at most what was submitted. *)
Definition echo_possible (stream : bytes) (c : IoContext) (ar : Arena) (x : Slot) (l : echo_task) (n : Z) : bool :=
  match l with
  | Reader => possible (sess_of c ar x) (read_event (undelivered stream x) n) && (n <=? zlen (undelivered stream x))
  | Writer => possible (sess_of c ar x) (WriteDone n)
  end.

(** * Invariant *)

Definition echo_pend (x : Slot) : list echo_task :=
  match slot_rd x with Reading _ => [Reader] | ReaderDone => [] end ++
  match slot_wr x with InWrite _ _ => [Writer] | _ => [] end.

(** A connection has received a prefix of what its client sends, and has sent,
    is sending or will send the responses to the messages in it. *)
Definition slot_inv (ids : echo_task -> coro) (stream : bytes) (c : IoContext) (ar : Arena) (x : Slot) : Prop :=
  let f := feed [] (delivered_chunks (history x)) in
  inv (ids Writer) f.2 (responses f.1) (forallb write_ok (history x)) (sess_of c ar x) /\
  delivered x `prefix_of` stream /\ zlen (slot_sent x) = total_written (history x).

(** What is assumed of a client: its stream does not exceed what a vector can
    hold and no request asks for a response above the 2 GiB limit of
    protobuf. *)
Definition stream_ok (stream : bytes) : Prop :=
  zlen stream + 4096 <= VECTOR_MAX /\
  forall chunks, concat chunks `prefix_of` stream -> Forall small_response (feed [] chunks).1.

End EchoService.

Section EchoProofs.
Context {K : Kernel} {HO : HostOrder} {PB : Protobuf} (Hsq : sq_never_full K).
Context (ids : echo_task -> coro) (stream : bytes).

(** The coroutine of the connection that does not run, and whether the step can
    submit anything. *)
Definition bystander (x : Slot) (e : completion) : list echo_task :=
  match e with
  | WriteDone _ => match slot_rd x with Reading _ => [Reader] | ReaderDone => [] end
  | _ => match slot_wr x with InWrite _ _ => [Writer] | _ => [] end
  end.

Definition fails (e : completion) : Prop :=
  match e with ReadDone _ => False | ReadFail _ => True | WriteDone w => w <= 0 end.

Lemma bystander_pend c ar x e :
  waiters ids (bystander x e)
  = match e with
    | WriteDone _ => pend_r (ids Reader) (ids Reader) (sess_of c ar x)
    | _ => pend_w (ids Writer) (ids Writer) (sess_of c ar x)
    end.
Proof. destruct e; unfold pend_r, pend_w; cbn; by destruct (slot_rd x), (slot_wr x). Qed.

Lemma delivered_snoc (x : Slot) e :
  delivered_chunks (history x ++ [e]) = delivered_chunks (history x) ++ delivered_chunks [e].
Proof. apply omap_app. Qed.

Lemma slot_event_ok c ar x e :
  let s := sess_of c ar x in
  slot_inv ids stream c ar x -> stream_ok stream -> possible s e = true -> in_stream stream (delivered x) e ->
  exists s', sess_step (ids Reader) (ids Writer) (ids Reader) (ids Writer) s e = Ok s' /\
    stepped (ids Reader) (ids Writer) (ids Reader) (ids Writer) (waiters ids (bystander x e)) (fails e) s s' /\
    slot_inv ids stream (ctx s') (arena s') (slot_of (history x ++ [e]) s').
Proof.
  cbn zeta. intros (Hi & Hd & Hz) Hst0 Hp Hin. set (s := sess_of c ar x) in *. destruct Hst0 as [Hmax Hsm].
  assert (Hz' : forall s', sess_step (ids Reader) (ids Writer) (ids Reader) (ids Writer) s e = Ok s' ->
            zlen (sent s') = total_written (history x ++ [e])).
  { intros s' E. apply sess_step_sent in E. rewrite total_written_snoc, E. cbn [sent s sess_of]. lia. }
  assert (Hs : forall s' : Sess, sess_of (ctx s') (arena s') (slot_of (history x ++ [e]) s') = s')
    by (by intros []).
  rewrite (bystander_pend c ar x e). fold s.
  unfold slot_inv, delivered. cbn [history slot_sent slot_of]. setoid_rewrite Hs. rewrite delivered_snoc, forallb_app, feed_app.
  unfold responses in *. cbn [fst snd]. rewrite bind_app.
  set (f := feed [] (delivered_chunks (history x))) in *. destruct e as [bs|m|m].
  - change (delivered_chunks [ReadDone bs]) with [bs]. cbn [concat forallb write_ok andb].
    rewrite feed_cons. cbn [feed fst snd]. rewrite app_nil_r, andb_true_r.
    cbn [in_stream] in Hin. unfold delivered in Hin.
    assert (Hcat : concat (delivered_chunks (history x) ++ [bs]) `prefix_of` stream)
      by (rewrite concat_app; cbn [concat]; by rewrite app_nil_r).
    specialize (Hsm _ Hcat). rewrite feed_app in Hsm. fold f in Hsm.
    rewrite feed_cons in Hsm. cbn [feed fst snd] in Hsm. rewrite app_nil_r in Hsm.
    apply Forall_app in Hsm as [_ Hsm].
    destruct (read_done_ok (ids Reader) (ids Writer) (ids Reader) (ids Writer) Hsq _ _ _ s bs Hi Hp)
      as (s' & E & Hi' & Hst); [|done|exists s'; do 4 (split; [done|]); by apply Hz'].
    pose proof (feed_left_le (delivered_chunks (history x)) []) as Hle. fold f in Hle. cbn [app] in Hle.
    apply prefix_length in Hin. rewrite length_app in Hin.
    rewrite zlen_app. unfold zlen in *. lia.
  - change (delivered_chunks [ReadFail m]) with (@nil bytes). rewrite !app_nil_r. cbn [feed fst snd forallb write_ok].
    cbn [mbind list_bind]. rewrite !andb_true_r.
    destruct (read_fail_ok (ids Reader) (ids Writer) (ids Reader) (ids Writer) Hsq _ _ _ s m Hi Hp)
      as (s' & E & Hi' & Hst). exists s'. do 4 (split; [done|]). by apply Hz'.
  - change (delivered_chunks [WriteDone m]) with (@nil bytes). rewrite !app_nil_r. cbn [feed fst snd forallb write_ok].
    cbn [mbind list_bind]. rewrite !andb_true_r.
    destruct (write_done_ok (ids Reader) (ids Writer) (ids Reader) (ids Writer) Hsq _ _ _ s m Hi Hp)
      as (s' & E & Hi' & _ & Hst). exists s'. do 4 (split; [done|]). by apply Hz'.
Qed.

(** A step as the server sees it. *)
Lemma slot_step_ok c ar x l rest e :
  slot_inv ids stream c ar x -> stream_ok stream -> (exists O fl, pool_ok O fl c) ->
  echo_pend x ≡ₚ l :: rest -> rest = bystander x e ->
  possible (sess_of c ar x) e = true -> in_stream stream (delivered x) e ->
  exists add c1 k1 c' ar' x', slot_step ids x e c ar = Ok (c', ar', x') /\
    slot_inv ids stream c' ar' x' /\
    io_eff add c ar (slot_conn x) c1 ar' k1 /\ rd_ok ar (slot_conn x) /\
    released c1 k1 c' (slot_conn x') /\
    waiters ids (echo_pend x') ≡ₚ add ++ waiters ids rest /\ (fails e -> add = []).
Proof.
  intros Hi Hst Hpool Hpd -> Hp Hin. set (s := sess_of c ar x).
  destruct (slot_event_ok c ar x e Hi Hst Hp Hin) as (s' & E & (s1 & add & -> & Hef & Hpend & Hq) & Hi').
  assert (Hrd : rd_ok ar (slot_conn x)).
  { destruct Hi as [Hi _].
    assert (exists aw, rd s = Reading aw \/ exists f, wr s = InWrite f aw) as [aw Hl].
    { unfold possible in Hp. fold s in Hp.
      destruct e; destruct (rd s); try done; destruct (wr s); try done; eauto. }
    destruct (inv_live _ _ _ _ _ aw Hi Hl) as (cl & Hb & _). apply Hb. }
  destruct (release_ctx s1) as (Ear & Er & Ew).
  unfold slot_step. fold s. fold s in E. rewrite E. cbn [mbind outcome_bind].
  exists add, (ctx s1), (conn s1). eexists _, _, _. split; [done|]. split; [done|]. rewrite Ear.
  split; [exact Hef|]. split; [done|]. split; [|split; [|done]].
  - destruct (release_cases s1) as [->|(k & c' & o & HC & ->)]; [by left|right; by exists o].
  - etrans; [|exact Hpend]. unfold echo_pend, pend, pend_r, pend_w, waiters.
    cbn [slot_rd slot_wr slot_of]. rewrite Er, Ew, fmap_app. by destruct (rd s1), (wr s1).
Qed.

(** The coroutine that is resumed is taken from the waiting ones. *)
Lemma echo_resume_ok c ar x l m :
  slot_inv ids stream c ar x -> stream_ok stream -> (exists O fl, pool_ok O fl c) ->
  l ∈ echo_pend x -> echo_possible stream c ar x l m = true ->
  exists add rest c1 k1 c' ar' x', echo_resume ids stream l m c ar x = Ok (c', ar', x') /\
    slot_inv ids stream c' ar' x' /\
    io_eff add c ar (slot_conn x) c1 ar' k1 /\ (ar' = ar \/ rd_ok ar (slot_conn x)) /\
    released c1 k1 c' (slot_conn x') /\
    echo_pend x ≡ₚ l :: rest /\ waiters ids (echo_pend x') ≡ₚ add ++ waiters ids rest /\
    (m < 0 \/ False -> forall w, w ∈ add -> exists l', w = (ids l', ids l') /\ False) /\ (False -> (0 < 0)%nat).
Proof.
  intros Hi Hst Hpool Hl Hp.
  set (e := match l with Reader => read_event (undelivered stream x) m | Writer => WriteDone m end).
  assert (Hpd : echo_pend x ≡ₚ l :: bystander x e).
  { revert Hl. unfold echo_pend, e, read_event, bystander.
    destruct l, (slot_rd x), (slot_wr x), (0 <? m); cbn;
      rewrite ?elem_of_cons, ?elem_of_nil; try (intuition congruence); try done; intros _;
      apply Permutation_swap. }
  assert (Hp' : possible (sess_of c ar x) e = true).
  { destruct l; [|exact Hp]. by apply andb_true_iff in Hp as [Hp _]. }
  assert (Hin : in_stream stream (delivered x) e) by (destruct l; [apply read_event_in_stream, Hi|done]).
  destruct (slot_step_ok c ar x l _ e Hi Hst Hpool Hpd eq_refl Hp' Hin)
    as (add & c1 & k1 & c' & ar' & x' & E & Hi' & Hef & Hrd & Hrel & Hpend & Hq).
  exists add, (bystander x e), c1, k1, c', ar', x'. split; [by destruct l|].
  do 2 (split; [done|]). split; [by right|]. do 3 (split; [done|]). split; [|done]. intros [Hm|[]].
  assert (add = []) as ->.
  { apply Hq. destruct l; cbn; [|lia]. unfold e, read_event. by rewrite (proj2 (Z.ltb_ge _ _)) by lia. }
  by intros w ?%elem_of_nil.
Qed.

(** A cancelled operation is among what the kernel may report. *)
Lemma echo_cancel_possible c ar x l :
  slot_inv ids stream c ar x -> l ∈ echo_pend x -> echo_possible stream c ar x l (- ECANCELED) = true.
Proof.
  intros (Hi & _) Hl. unfold echo_pend in Hl. apply elem_of_app in Hl. destruct l; cbn [echo_possible].
  - change (read_event _ (- ECANCELED)) with (ReadFail (- ECANCELED)). unfold possible. cbn [rd sess_of].
    destruct (slot_rd x); [|destruct (slot_wr x); set_solver].
    apply andb_true_iff. split; [done|]. apply Z.leb_le.
    pose proof (zlen_nonneg (undelivered stream x)). unfold ECANCELED. lia.
  - destruct (slot_wr x) as [|f aw|] eqn:Ew; [destruct (slot_rd x); set_solver| |destruct (slot_rd x); set_solver].
    by eapply cancel_write_possible.
Qed.

(** A connection of which no coroutine waits is closed. *)
Lemma echo_idle c ar x : slot_inv ids stream c ar x -> echo_pend x = [] -> Connection.closed_ (slot_conn x) = true.
Proof.
  intros [Hinv _] Ho. unfold echo_pend in Ho. apply app_eq_nil in Ho as [Ho1 Ho2].
  apply (inv_idle _ _ _ _ _ Hinv).
  - cbn. by destruct (slot_rd x).
  - unfold pend_w. cbn. by destruct (slot_wr x).
Qed.

End EchoProofs.

(** * The echo server meets the interface of the server thread *)
#[export] Instance echo_service_spec {K : Kernel} {HO : HostOrder} {PB : Protobuf} (Hsq : sq_never_full K)
  : ServiceSpec Slot echo_task.
Proof.
  refine {| sv_inv := slot_inv; sv_pend := echo_pend; sv_possible := echo_possible;
            sv_stream_ok := stream_ok; sv_late _ := False; sv_debt _ := 0%nat |}.
  - intros ids st c ar x c' ar' [Hi Hd] Hp Hbs Hw. split; [|done].
    apply (inv_move _ _ _ _ _ c' ar' Hi Hp Hbs). intros cl Hb. apply Hw; apply Hb.
  - intros st c c' ar x [] m E; cbn [echo_possible]; unfold possible, chunk_limit, BufSize; cbn; by rewrite E.
  - intros ids st c ar k Hfr _.
    destruct (handleConnection_ok (ids Reader) (ids Writer) (ids Reader) (ids Writer) Hsq c ar k Hfr)
      as (s & E & Hi & Hnr & Hef).
    cbn [sv_open echo_service]. unfold echo_open. rewrite E. cbn [mbind outcome_bind].
    eexists _, _, _. split; [done|]. split.
    { split; [by destruct s|]. split; [apply prefix_nil|]. cbn. by rewrite (handleConnection_sent _ _ _ _ _ _ _ _ E). }
    split.
    { destruct (rd s) as [aw|] eqn:Er; [|done].
      destruct (inv_live _ _ _ _ _ aw Hi) as (cl & Hb & _); [by left|]. exact (ba_pool _ _ _ Hb). }
    replace (waiters ids (echo_pend (slot_of [] s))) with (pend (ids Reader) (ids Writer) (ids Reader) (ids Writer) s);
      [done|].
    unfold echo_pend, waiters, pend, pend_r, pend_w. cbn. rewrite fmap_app. by destruct (rd s), (wr s).
  - intros ids st. apply (echo_resume_ok Hsq).
  - intros ids st c ar x l. by apply echo_cancel_possible.
  - intros ids st c ar x. by apply echo_idle.
Defined.

(** * The server thread *)

Definition peers_ok {HO : HostOrder} {PB : Protobuf} (peer : nat -> bytes) : Prop :=
  forall i, stream_ok (peer i).

Section EchoThread.
Context {K : Kernel} {HO : HostOrder} {PB : Protobuf} (peer : nat -> bytes) (pool n : Z).
Context (Hsq : sq_never_full K) (Hpeer : peers_ok peer).

Definition echo_program : Program (World Slot) := service_program (V := echo_service) peer.

Definition echo_spec : ProgramSpec (World Slot) (P := echo_program) :=
  service_spec (Spec := echo_service_spec Hsq) peer pool n Hsq Hpeer.

End EchoThread.

Abbreviation echo_world := (start_world (L := echo_task)).

(** The coroutines that wait in the kernel. *)
Definition echo_waiting (w : World Slot) : list waiter :=
  pend_acc (L := echo_task) (w_acc w) ++ concat (imap (fun i x => waiters (ids i) (echo_pend x)) (slots w)).

(** The messages a connection has received in full. *)
Definition messages {HO : HostOrder} (x : Slot) : list (RpcHeader * bytes) :=
  (feed [] (delivered_chunks (history x))).1.

(** Two clients: one sends one request, the other two. *)
Definition two_peers (i : nat) : bytes :=
  match i with O => request_wire | 1%nat => request_wire ++ request_wire | _ => [] end.

Definition bound_server : CoroTcpServer (list Slot) :=
  match fst (CoroTcpServer_new good_socket 8080) with Ok v => v | _ => mkServer 0 0 false None end.

(** Both connect, the first request is read and answered while the second
    client's bytes arrive in pieces. *)
Definition server_events : list event :=
  [WaitBatch [mkCqe (Some 1%positive) 9; mkCqe (Some 2%positive) 10];
   WaitBatch [mkCqe (Some 1%positive) 14]; WaitErr EINTR;
   WaitBatch [mkCqe (Some 2%positive) 5; mkCqe (Some 1%positive) 20]].

(** ** Bounded input gives bounded messages *)

Lemma drain_payload_le {HO : HostOrder} fuel : forall bs,
  Forall (fun m => zlen m.2 <= zlen bs) (drain_spec fuel bs).1.
Proof.
  induction fuel as [|fuel IH]; intros bs; cbn; [constructor|].
  destruct (parse_spec bs) as [| | |h p] eqn:Hps; [constructor..|].
  specialize (IH (drop (Z.to_nat (HEADER_SIZE + zlen p)) bs)).
  destruct (drain_spec fuel _) as [ms rest]. cbn [fst snd] in *. constructor; cbn [snd].
  - unfold parse_spec in Hps. repeat (case_match; [done|]). injection Hps as _ <-.
    unfold zlen. rewrite length_slice. lia.
  - eapply Forall_impl; [exact IH|]. cbn. intros m. unfold zlen. rewrite length_drop. lia.
Qed.

Lemma feed_payload_le {HO : HostOrder} chunks : forall left,
  Forall (fun m => zlen m.2 <= zlen (left ++ concat chunks)) (feed left chunks).1.
Proof.
  induction chunks as [|ch chunks IH]; intros left; [constructor|]. rewrite feed_cons. cbn [fst concat].
  apply Forall_app. split.
  - eapply Forall_impl; [apply drain_payload_le|]. cbn. intros m.
    rewrite app_assoc, (zlen_app (left ++ ch)). pose proof (zlen_nonneg (concat chunks)). lia.
  - eapply Forall_impl; [apply IH|]. cbv beta. intros m. rewrite app_assoc, !zlen_app.
    assert (zlen (drain_bytes (left ++ ch)).2 <= zlen (left ++ ch))
      by (unfold drain_bytes, zlen; apply inj_le, drain_spec_le).
    rewrite zlen_app in *. lia.
Qed.

(** Streams below a limit ask only for responses below it, for a message
    format that adds at most [k] bytes. *)
Lemma bounded_peers {HO : HostOrder} {PB : Protobuf} (peer : nat -> bytes) (b k : Z) :
  (forall i, zlen (peer i) <= b) -> 0 <= k -> b + k + 18 < 2 ^ 31 ->
  (forall p msg, ParseFromArray p = Some msg ->
     zlen (SerializeToString (echo_prefix ++ msg)) <= zlen p + k + 6) ->
  peers_ok peer.
Proof.
  intros Hb Hk Hlim Hpb i. split; [specialize (Hb i); unfold VECTOR_MAX; lia|].
  intros chunks Hpre. eapply Forall_impl; [apply feed_payload_le|]. cbn [app]. intros [h p]. cbn [snd].
  intros Hp. apply prefix_length in Hpre. specialize (Hb i). unfold small_response, response.
  assert (Hs : zlen p <= b) by (unfold zlen in *; lia). pose proof (zlen_nonneg p).
  destruct (msg_type h =? 0); [|rewrite zlen_nil; lia].
  destruct (ParseFromArray p) as [msg|] eqn:E; [|rewrite zlen_nil; lia].
  rewrite zlen_wire_frame. specialize (Hpb p msg E). unfold HEADER_SIZE in *. lia.
Qed.

#[local] Existing Instance Echo.little.
#[local] Existing Instance Echo.plain_messages.
#[local] Existing Instance Connection.open_kernel.

Lemma two_peers_ok : peers_ok two_peers.
Proof.
  apply (bounded_peers two_peers 28 0); [|lia|lia|].
  - intros [|[|i]]; vm_compute; discriminate.
  - intros p msg [= <-]. change (SerializeToString (echo_prefix ++ p)) with (echo_prefix ++ p).
    rewrite zlen_app. change (zlen echo_prefix) with 6. lia.
Qed.

Lemma echo_new_context : new_context 0 4 echo_ctx echo_arena.
Proof.
  split; [|split; [|split]].
  - constructor; [done|constructor|set_solver|done|done|set_solver].
  - constructor; [vm_compute; reflexivity|]. intros i Hi.
    assert (i = 0 \/ i = 1 \/ i = 2 \/ i = 3) as Hc by lia. by destruct Hc as [->|[->|[->| ->]]].
  - unfold files_ok. rewrite app_nil_r. vm_compute. reflexivity.
  - vm_compute. intuition discriminate.
Qed.



(** C22: Clean shutdown of the whole server.  Whatever the server has been
    doing, a stop while it waits for the kernel, followed by a cancelled
    completion for every request in flight, makes the event loop return with
    nothing in flight: the accept loop and both coroutines of every connection
    have finished, every connection is closed, every registered buffer and
    file slot is back in its pool, and the destructor of the context leaves no
    request object behind. *)
Theorem server_shuts_down_cleanly (K : Kernel) (HO : HostOrder) (PB : Protobuf) peer pool n
    (Hsq : sq_never_full K) (Hpeer : peers_ok peer) v c ar evs evs' c0 w0 c1 w1 reqs :
  new_context pool n c ar -> echo_world v c ar = Ok (c0, w0) ->
  run_valid (P := echo_program peer) (S := echo_spec peer pool n Hsq Hpeer)
    evs (set_running c0 true) w0 ->
  run_loop (P := echo_program peer) evs (set_running c0 true) w0 = Ok (Blocked, c1, w1) ->
  reqs ≡ₚ elements (outstanding c1) ->
  exists rest c2 w2 c3 ub uf,
    Run (P := echo_program peer) (evs ++ Signal :: WaitBatch (cancelled reqs) :: evs') c0 w0
    = Ok (Returned rest, c2, w2) /\
    in_flight_ c2 = 0 /\ w_acc w2 = AcceptDone /\
    Forall (fun x => Connection.closed_ (slot_conn x) = true) (slots w2) /\
    free_buf_indices_ c2 ≡ₚ free_buf_indices_ c /\
    free_file_indices_ c2 ≡ₚ (if files_enabled_ c2 then seqZ 0 (max_fixed_files_ c2) else []) /\
    IoContext_delete c2 = Ok (c3, ub, uf) /\ heap c3 = ∅.
Proof.
  intros Hnew E Hv HR Hreqs.
  destruct (service_shutdown_once (Spec := echo_service_spec Hsq) peer pool n Hsq Hpeer v c ar evs evs'
              c0 w0 c1 w1 reqs (fun _ F => F) Hnew E Hv HR Hreqs)
    as (rest & c2 & w2 & HR2 & H1 & H2 & H3 & H4 & H5 & c3 & ub & uf & H6 & H7).
  exists rest, c2, w2, c3, ub, uf. split_and!; try done. eapply Forall_impl; [exact H3|]. by intros x [].
Qed.

(** The server of the example when it has started, and after its events. *)
Definition started_echo : IoContext * World Slot :=
  match echo_world bound_server echo_ctx echo_arena with
  | Ok r => r
  | _ => (echo_ctx, mkWorld bound_server [] [] AcceptDone ∅)
  end.

Definition running_server : IoContext * World Slot :=
  match run_loop (P := echo_program two_peers) server_events
          (set_running started_echo.1 true) started_echo.2 with
  | Ok (_, c1, w1) => (c1, w1)
  | _ => started_echo
  end.

Lemma started_echo_eq :
  echo_world bound_server echo_ctx echo_arena = Ok (started_echo.1, started_echo.2).
Proof.
  unfold started_echo.
  assert (E : match echo_world bound_server echo_ctx echo_arena with Ok _ => true | _ => false end = true)
    by (vm_compute; reflexivity).
  by destruct (echo_world bound_server echo_ctx echo_arena) as [[]| |].
Qed.

Lemma running_server_eq :
  run_loop (P := echo_program two_peers) server_events (set_running started_echo.1 true) started_echo.2
  = Ok (Blocked, running_server.1, running_server.2).
Proof.
  unfold running_server.
  assert (E : match run_loop (P := echo_program two_peers) server_events
                      (set_running started_echo.1 true) started_echo.2 with
              | Ok (Blocked, _, _) => true | _ => false end = true) by (vm_compute; reflexivity).
  by destruct (run_loop _ _ _) as [[[[] ?] ?]| |].
Qed.

Lemma server_shuts_down_cleanly_witness :
  exists rest c2 w2 c3 ub uf,
    Run (P := echo_program two_peers)
      (server_events ++ [Signal; WaitBatch (cancelled [3%positive; 4%positive; 2%positive])])
      started_echo.1 started_echo.2 = Ok (Returned rest, c2, w2) /\
    in_flight_ c2 = 0 /\ w_acc w2 = AcceptDone /\
    Forall (fun x => Connection.closed_ (slot_conn x) = true) (slots w2) /\
    free_buf_indices_ c2 ≡ₚ free_buf_indices_ echo_ctx /\
    free_file_indices_ c2 ≡ₚ (if files_enabled_ c2 then seqZ 0 (max_fixed_files_ c2) else []) /\
    IoContext_delete c2 = Ok (c3, ub, uf) /\ heap c3 = ∅.
Proof.
  apply (server_shuts_down_cleanly open_kernel little plain_messages two_peers 0 4 open_kernel_room
           two_peers_ok bound_server echo_ctx echo_arena server_events [] started_echo.1 started_echo.2
           running_server.1 running_server.2 [3%positive; 4%positive; 2%positive] echo_new_context).
  - exact started_echo_eq.
  - vm_compute. repeat split; reflexivity.
  - exact running_server_eq.
  - assert (E : elements (outstanding running_server.1) = [3; 4; 2]%positive)
      by (vm_compute; reflexivity).
    by rewrite E.
Defined.

(** Two prefixes of one string of the same length are equal. *)
Lemma prefix_same_length {A} (l1 l2 l : list A) :
  l1 `prefix_of` l -> l2 `prefix_of` l -> zlen l1 = zlen l2 -> l1 = l2.
Proof.
  intros [k1 ->] [k2 E] Hz. apply app_inj_1 in E; [by destruct E|]. unfold zlen in Hz. lia.
Qed.

(** C5: A connection of the shared server is equivalent to a server of its
    own.  Take any connection of the running server and replay the completions
    it has seen, on a private context and private memory, with or without
    registered buffers, as a session with nothing around it: the replay
    succeeds and has put exactly the same bytes on the wire. *)
Theorem connection_equals_dedicated_session (K : Kernel) (HO : HostOrder) (PB : Protobuf) peer pool n
    (Hsq : sq_never_full K) (Hpeer : peers_ok peer) v c ar evs c0 w0 st c1 w1 i x
    h_read h_write r_read r_write c' ar' k' :
  let s0 := handleConnection h_read h_write r_read r_write c' ar' k' in
  new_context pool n c ar -> echo_world v c ar = Ok (c0, w0) ->
  run_valid (P := echo_program peer) (S := echo_spec peer pool n Hsq Hpeer)
    evs (set_running c0 true) w0 ->
  Run (P := echo_program peer) evs c0 w0 = Ok (st, c1, w1) -> slots w1 !! i = Some x ->
  fresh c' ar' k' -> possible_run h_read h_write r_read r_write s0 (history x) = true ->
  exists s, (s ← s0; sess_run h_read h_write r_read r_write s (history x)) = Ok s /\
    sent s = slot_sent x.
Proof.
  cbn zeta. intros Hnew E Hv HR Hx Hfr Hposs.
  destruct (thread_safe (Spec := echo_service_spec Hsq) peer pool n Hsq Hpeer v c ar evs Hnew)
    as (c0' & w0' & st' & c1' & w1' & M & E' & HR' & Hw & _); [by rewrite E|].
  rewrite E in E'. injection E' as <- <-. unfold echo_program in HR. rewrite HR in HR'. injection HR' as <- <- <-.
  destruct (si_each _ _ _ _ _ _ (wi_slots _ _ _ _ _ _ Hw) i x Hx) as (Hi & Hd & Hz).
  destruct (Hpeer i) as [Hmax Hsm]. specialize (Hsm _ Hd).
  destruct (handleConnection_ok h_read h_write r_read r_write Hsq c' ar' k' Hfr) as (s0 & E0 & Hi0 & _).
  rewrite E0 in *. cbn [mbind outcome_bind].
  destruct (sess_run_ok h_read h_write r_read r_write Hsq (history x) [] [] true s0 Hi0 Hposs)
    as (s & Es & Hi1); [|exact Hsm|].
  { apply prefix_length in Hd. unfold delivered in Hd. cbn [app]. unfold zlen in *. lia. }
  exists s. split; [done|]. cbn [app andb] in Hi1.
  apply (prefix_same_length _ _ _ (proj1 (inv_sent _ _ _ _ _ Hi1)) (proj1 (inv_sent _ _ _ _ _ Hi))).
  apply sess_run_sent in Es. rewrite Es, (handleConnection_sent _ _ _ _ _ _ _ _ E0). cbn [sent sess_of].
  rewrite Hz. done.
Qed.

(** The first connection of the example, replayed on one with unregistered
    buffers. *)
Definition first_slot : Slot :=
  match slots running_server.2 with x :: _ => x | [] => mkSlot echo_conn.1 ResponseQueue_new ReaderDone WriterDone [] [] end.

Definition private_ctx : IoContext :=
  match IoContext_new all_ok false 0 0 with Ok c => c | _ => ctx_empty end.
Definition private_conn : CoroConnection * IoContext :=
  match CoroConnection_new private_ctx 7 with Ok r => r | _ => echo_conn end.

Lemma private_fresh : fresh private_conn.2 [] private_conn.1.
Proof.
  constructor.
  - exists ∅, []. constructor; [done|constructor|set_solver|done|done|set_solver].
  - split; [|split].
    + constructor; vm_compute; intuition discriminate.
    + reflexivity.
    + vm_compute. intuition discriminate.
  - reflexivity.
  - vm_compute. intuition discriminate.
  - vm_compute. intuition discriminate.
Qed.

Lemma running_server_run :
  Run (P := echo_program two_peers) server_events started_echo.1 started_echo.2
  = Ok (Blocked, running_server.1, running_server.2).
Proof. unfold Run. by rewrite running_server_eq. Qed.

Lemma connection_equals_dedicated_session_witness :
  exists s, (s ← handleConnection 1 2 1 2 private_conn.2 [] private_conn.1;
             sess_run 1 2 1 2 s (history first_slot))%positive = Ok s /\
    sent s = slot_sent first_slot.
Proof.
  apply (connection_equals_dedicated_session open_kernel little plain_messages two_peers 0 4
           open_kernel_room two_peers_ok bound_server echo_ctx echo_arena server_events
           started_echo.1 started_echo.2 Blocked running_server.1 running_server.2 0 first_slot
           1 2 1 2 private_conn.2 [] private_conn.1 echo_new_context).
  - exact started_echo_eq.
  - vm_compute. repeat split; reflexivity.
  - exact running_server_run.
  - vm_compute. reflexivity.
  - exact private_fresh.
  - vm_compute. reflexivity.
Defined.
