(* ===== verification/AsyncServer.v ===== *)
(** The asynchronous echo server as a service: one thread of
    [examples/coro_echo_async.cpp] with its event loop, its accept loop and any
    number of connections, each with any number of requests being worked on.

    A connection is a session of [AsyncEcho].  Its coroutines are the read
    loop, the write loop and one handler per request, named by the number of
    the request; a handler waits for the timer of its [AsyncSleep]. *)
From S2P Require Import Prelude Buffer Protocol IoContext Coro Ledger Connection.
From S2P Require Import ResponseQueue Echo AsyncEcho Isolation Server Service EchoServer.

(** * State *)

(** A connection as its coroutines keep it, and the completions it has seen
    (which no code reads). *)
Record ASlot := mkASlot {
  as_conn : CoroConnection;
  as_rq : ResponseQueue;
  as_rd : reader;
  as_wr : writer;
  as_sent : bytes;
  as_sleeping : gmap nat sleeper;
  as_started : nat;
  as_history : list acompletion
}.

(** The session on the context and memory all connections share. *)
Definition asess_of (c : IoContext) (ar : Arena) (x : ASlot) : ASess :=
  mkASess (mkSess c ar (as_conn x) (as_rq x) (as_rd x) (as_wr x) (as_sent x)) (as_sleeping x) (as_started x).

Definition aslot_of (es : list acompletion) (a : ASess) : ASlot :=
  let s := sess a in mkASlot (conn s) (rq s) (rd s) (wr s) (sent s) (sleeping a) (started a) es.

(** The coroutines of a connection. *)
Inductive async_task : Type := AReader | AWriter | AHandler (n : nat).

#[export] Instance async_task_eq_dec : EqDecision async_task.
Proof. solve_decision. Defined.

#[export] Instance async_task_countable : Countable async_task.
Proof.
  refine (inj_countable'
            (fun l => match l with AReader => inl true | AWriter => inl false | AHandler n => inr n end)
            (fun z : bool + nat => match z with inl true => AReader | inl false => AWriter | inr n => AHandler n end) _);
    by intros [].
Defined.

Definition a_delivered (x : ASlot) : bytes := concat (a_chunks (as_history x)).

Definition a_undelivered (stream : bytes) (x : ASlot) : bytes := drop (length (a_delivered x)) stream.

(** The completion a result stands for; the result of a timer is not looked
    at. *)
Definition async_event (stream : bytes) (x : ASlot) (l : async_task) (n : Z) : acompletion :=
  match l with
  | AReader => Io (read_event (a_undelivered stream x) n)
  | AWriter => Io (WriteDone n)
  | AHandler k => SleepDone k
  end.

Section AsyncService.
Context {K : Kernel} {HO : HostOrder} {PB : Protobuf}.

(** * The connection handler the server is given: [handleConnection] *)
Definition async_open (ids : async_task -> coro) (c : IoContext) (ar : Arena) (k : CoroConnection)
  : outcome (IoContext * Arena * ASlot) :=
  a ← handleConnection_async (ids AReader) (ids AWriter) (ids AReader) (ids AWriter) c ar k;
  Ok (ctx (sess a), arena (sess a), aslot_of [] a).

(** * Resuming a coroutine *)
Definition async_resume (ids : async_task -> coro) (stream : bytes) (l : async_task) (n : Z)
    (c : IoContext) (ar : Arena) (x : ASlot) : outcome (IoContext * Arena * ASlot) :=
  let e := async_event stream x l n in
  a ← a_step (ids AReader) (ids AWriter) (ids AReader) (ids AWriter)
        (fun k => ids (AHandler k)) (fun k => ids (AHandler k)) (asess_of c ar x) e;
  Ok (ctx (sess a), arena (sess a), aslot_of (as_history x ++ [e]) a).

#[export] Instance async_service : Service ASlot async_task :=
  {| sv_conn := as_conn; sv_open := async_open; sv_resume := async_resume |}.

(** * The kernel's contract *)

Definition async_possible (stream : bytes) (c : IoContext) (ar : Arena) (x : ASlot) (l : async_task) (n : Z) : bool :=
  a_possible (asess_of c ar x) (async_event stream x l n) &&
  match l with AReader => n <=? zlen (a_undelivered stream x) | _ => true end.

(** * Invariant *)

Definition async_pend (x : ASlot) : list async_task :=
  (match as_rd x with Reading _ => [AReader] | ReaderDone => [] end ++
   match as_wr x with InWrite _ _ => [AWriter] | _ => [] end) ++
  (AHandler <$> (map_to_list (as_sleeping x)).*1).

(** The requests that were accepted, in the order of their arrival. *)
Definition accepted (es : list acompletion) : list sleeper := omap accept (feed [] (a_chunks es)).1.

(** Only handlers of requests that had arrived have woken up. *)
Definition in_range (acc : list sleeper) (e : acompletion) : Prop :=
  match e with SleepDone n => (n < length acc)%nat | Io _ => True end.

Definition aslot_inv (ids : async_task -> coro) (stream : bytes) (c : IoContext) (ar : Arena) (x : ASlot) : Prop :=
  let es := as_history x in
  let a := asess_of c ar x in
  exists ok, inv (ids AWriter) (feed [] (a_chunks es)).2 (reply_order (accepted es) es) ok (sess a) /\
    sleepers_ok (accepted es) a /\ Forall (in_range (accepted es)) es /\
    (forallb undisturbed es = true -> ok = true /\ as_rd x <> ReaderDone) /\
    (es ≫= wakes) ++ dozing a ≡ₚ seq 0 (started a) /\
    a_delivered x `prefix_of` stream.

(** How often the write loop of a connection can still be resumed, once nothing
    else is left of it: a write that completes takes at least a byte, or fails
    and ends the loop. *)
Definition async_debt (x : ASlot) : nat :=
  match as_wr x with
  | InWrite f _ => length (drop (Z.to_nat (w_off f)) (w_data f) ++ concat (items_ (as_rq x)))
  | _ => 0
  end.

(** What is assumed of a client. *)
Definition async_stream_ok (stream : bytes) : Prop :=
  zlen stream + 4096 <= VECTOR_MAX /\
  forall chunks, concat chunks `prefix_of` stream -> Forall small_reply (omap accept (feed [] chunks).1).

End AsyncService.

Section AsyncSlotProofs.
Context {K : Kernel} {HO : HostOrder} {PB : Protobuf} (Hsq : sq_never_full K).
Context (ids : async_task -> coro) (stream : bytes).

Abbreviation hid := (fun k => ids (AHandler k)).

Lemma a_chunks_app es es' : a_chunks (es ++ es') = a_chunks es ++ a_chunks es'.
Proof. apply omap_app. Qed.

Lemma accepted_snoc es e :
  accepted (es ++ [e]) = accepted es ++ omap accept (feed (feed [] (a_chunks es)).2 (a_chunks [e])).1.
Proof. unfold accepted. rewrite a_chunks_app, feed_app. cbn [fst]. by rewrite omap_app. Qed.

(** What woke up before a request arrived does not depend on it. *)
Lemma reply_order_snoc acc acc' es e :
  Forall (in_range acc) es -> in_range acc e ->
  reply_order (acc ++ acc') (es ++ [e]) = reply_order acc es ++ reply_order acc [e].
Proof.
  intros Hes He. unfold reply_order. rewrite omap_app, concat_app.
  assert (Hg : forall l, Forall (in_range acc) l ->
    omap (fun e => match e with SleepDone n => reply <$> ((acc ++ acc') !! n) | _ => None end) l
    = omap (fun e => match e with SleepDone n => reply <$> (acc !! n) | _ => None end) l).
  { induction l as [|[e'|m] l IH]; intros Hl; [done|..]; apply Forall_cons in Hl as [Hm Hl]; cbn [omap list_omap].
    - by apply IH.
    - rewrite lookup_app_l by exact Hm. by rewrite IH. }
  by rewrite (Hg es Hes), (Hg [e]) by (by constructor).
Qed.

Lemma in_range_app acc acc' e : in_range acc e -> in_range (acc ++ acc') e.
Proof. destruct e; cbn; [done|]. rewrite length_app. lia. Qed.

(** The coroutines of the session that wait are those of the slot. *)
Lemma async_pend_waiters c ar x :
  waiters ids (async_pend x)
  = pend (ids AReader) (ids AWriter) (ids AReader) (ids AWriter) (sess (asess_of c ar x)) ++
    asleep hid hid (asess_of c ar x).
Proof.
  unfold waiters, async_pend, pend, pend_r, pend_w, asleep, dozing. cbn.
  rewrite !fmap_app, <- !list_fmap_compose. by destruct (as_rd x), (as_wr x).
Qed.

Lemma aslot_of_pend es a :
  waiters ids (async_pend (aslot_of es a))
  = pend (ids AReader) (ids AWriter) (ids AReader) (ids AWriter) (sess a) ++ asleep hid hid a.
Proof. rewrite (async_pend_waiters (ctx (sess a)) (arena (sess a))). by destruct a as [[] ? ?]. Qed.

Definition a_in_stream (x : ASlot) (e : acompletion) : Prop :=
  match e with Io e => in_stream stream (a_delivered x) e | SleepDone _ => True end.

Lemma async_slot_ok c ar x e :
  aslot_inv ids stream c ar x -> async_stream_ok stream ->
  a_possible (asess_of c ar x) e = true -> a_in_stream x e ->
  exists a', a_step (ids AReader) (ids AWriter) (ids AReader) (ids AWriter) hid hid (asess_of c ar x) e = Ok a' /\
    a_effect (ids AReader) (ids AWriter) (ids AReader) (ids AWriter) hid hid e (asess_of c ar x) a' /\
    aslot_inv ids stream (ctx (sess a')) (arena (sess a')) (aslot_of (as_history x ++ [e]) a').
Proof.
  intros (ok & Hi & Hs & Hr & Hu & Hz & Hd) [Hmax Hsm] Hp Hin. set (a := asess_of c ar x) in *.
  set (es := as_history x) in *. set (left := (feed [] (a_chunks es)).2) in *.
  assert (Hcat : concat (a_chunks (es ++ [e])) `prefix_of` stream).
  { rewrite a_chunks_app, concat_app. unfold a_delivered in *. fold es in Hd, Hin.
    destruct e as [[bs|m|m]|m]; cbn [a_chunks omap list_omap concat]; rewrite ?app_nil_r; done. }
  assert (Hlen : zlen (left ++ concat (a_chunks [e])) + 4096 <= VECTOR_MAX).
  { pose proof (feed_left_le (a_chunks es) []) as Hle. fold left in Hle. cbn [app] in Hle.
    apply prefix_length in Hcat. rewrite a_chunks_app, concat_app, length_app in Hcat.
    rewrite zlen_app. unfold zlen in *. lia. }
  destruct (feed left (a_chunks [e])) as [ms left'] eqn:Hf.
  destruct (a_step_ok (ids AReader) (ids AWriter) (ids AReader) (ids AWriter) hid hid Hsq left
              (reply_order (accepted es) es) ok a e (accepted es) ms left' Hi Hs Hp Hf Hlen)
    as (a' & ok' & E & Hi' & Hs' & Hu' & Heff); [by apply Hsm|].
  exists a'. split; [done|]. split; [done|]. exists ok'. cbn [as_history as_rd aslot_of].
  assert (Ha : asess_of (ctx (sess a')) (arena (sess a')) (aslot_of (es ++ [e]) a') = a')
    by (by destruct a' as [[] ? ?]). rewrite Ha.
  assert (Hre : in_range (accepted es) e).
  { destruct e as [|m]; [done|]. cbn [a_possible in_range] in *. destruct Hs as [_ Hs].
    destruct (sleeping a !! m) as [y|] eqn:Ey; [|done]. by eapply lookup_lt_Some, Hs. }
  rewrite accepted_snoc. fold left. rewrite Hf. cbn [fst]. rewrite (reply_order_snoc _ _ _ _ Hr Hre).
  rewrite a_chunks_app, feed_app. fold left. rewrite Hf. cbn [snd]. split_and!; [done|done|..].
  - apply Forall_app. split; [|by constructor; [apply in_range_app|]].
    eapply Forall_impl; [exact Hr|]. intros e'. apply in_range_app.
  - rewrite forallb_app. cbn [forallb]. intros [Hues [Hue _]%andb_true_iff]%andb_true_iff.
    destruct (Hu Hues) as [-> Hnr]. by destruct (Hu' Hue eq_refl Hnr).
  - destruct Heff as (_ & _ & _ & k & -> & Hk). rewrite bind_app, bind_cons. cbn [mbind list_bind].
    rewrite app_nil_r, <- app_assoc, Hk, seq_app, <- Hz. cbn [Nat.add]. solve_Permutation.
  - exact Hcat.
Qed.

(** A session that is writing has sent all but what is unsent. *)
Lemma inv_writing h left out ok s f aw :
  inv h left out ok s -> wr s = InWrite f aw -> out = sent s ++ unsent s /\ (0 < length (unsent s))%nat.
Proof.
  intros Hi Ew. destruct (inv_live _ _ _ _ _ aw Hi) as (cl & _ & Hw & _); [right; by exists f|].
  unfold writer_inv in Hw. unfold unsent. rewrite Ew in *.
  destruct Hw as (_ & rest & (Hne & _ & <- & _) & _ & _ & ->). split; [done|].
  rewrite length_app. destruct (drop _ _); [done|cbn; lia].
Qed.

Lemma write_fails_done h_read h_write r_read r_write s w s' :
  sess_step h_read h_write r_read r_write s (WriteDone w) = Ok s' -> w <= 0 -> wr s' = WriterDone.
Proof.
  cbn [sess_step]. unfold writer_resume, Write_resume. intros E Hw. destruct (wr s) as [|f aw|]; [done| |done].
  rewrite (proj2 (Z.leb_le _ _)) in E by done.
  destruct (taken _ _ _ _) as [bs| |]; cbn [mbind outcome_bind after_write] in E; [|done..].
  rewrite (proj2 (Z.leb_le _ _)) in E by done. injection E as <-.
  by destruct (release_ctx (set_wr (set_io (set_sent s (sent s ++ bs)) (ctx s) (arena s) (conn s)) WriterDone))
    as (_ & _ & ->).
Qed.

(** Every completion of a write reduces the debt. *)
Lemma async_debt_less c ar x m a' :
  let e := Io (WriteDone m) in
  aslot_inv ids stream c ar x ->
  a_step (ids AReader) (ids AWriter) (ids AReader) (ids AWriter) hid hid (asess_of c ar x) e = Ok a' ->
  aslot_inv ids stream (ctx (sess a')) (arena (sess a')) (aslot_of (as_history x ++ [e]) a') ->
  (async_debt (aslot_of (as_history x ++ [e]) a') < async_debt x)%nat.
Proof.
  cbn zeta. intros (ok & Hi & _) E (ok' & Hi' & _). cbn [a_step] in E.
  destruct (writer_resume _ _ _ _) as [s'| |] eqn:Ew; cbn [mbind outcome_bind] in E; [|done..].
  injection E as <-. cbn [as_history aslot_of sess set_sess] in Hi'.
  assert (Hout : reply_order (accepted (as_history x ++ [Io (WriteDone m)])) (as_history x ++ [Io (WriteDone m)])
                 = reply_order (accepted (as_history x)) (as_history x)).
  { rewrite accepted_snoc. cbn. rewrite app_nil_r. unfold reply_order. by rewrite omap_app, app_nil_r. }
  rewrite Hout in Hi'. clear Hout. set (out := reply_order _ _) in *.
  assert (Es : sess_step (ids AReader) (ids AWriter) (ids AReader) (ids AWriter) (sess (asess_of c ar x)) (WriteDone m)
               = Ok s') by exact Ew.
  pose proof (sess_step_sent _ _ _ _ _ _ _ Es) as Hsent. cbn [written sess asess_of sent] in Hsent.
  unfold async_debt. cbn [as_wr as_rq aslot_of sess set_sess].
  destruct (as_wr x) as [|f aw|] eqn:Ewx.
  { cbn [sess_step] in Es. unfold writer_resume in Es. cbn in Es. by rewrite Ewx in Es. }
  2:{ cbn [sess_step] in Es. unfold writer_resume in Es. cbn in Es. by rewrite Ewx in Es. }
  destruct (inv_writing _ _ _ _ _ _ _ Hi Ewx) as [H1 Hne].
  unfold unsent in Hne. cbn in Hne. rewrite Ewx in Hne.
  destruct (wr s') as [|f' aw'|] eqn:Ew'; [lia| |lia].
  assert (Hm : 0 < m).
  { destruct (Z_lt_ge_dec 0 m) as [|Hm]; [done|]. apply write_fails_done in Es; [congruence|lia]. }
  pose proof (fun E => proj1 (inv_writing _ _ _ _ _ f' aw' Hi' E)) as H2. destruct s'. cbn in *. specialize (H2 Ew').
  rewrite H2 in H1. apply (f_equal zlen) in H1. rewrite !zlen_app, Hsent in H1.
  unfold unsent in H1. cbn in H1. rewrite Ewx, Ew' in H1. unfold zlen in *. lia.
Qed.

(** A completion as the server sees it. *)
Lemma async_resume_ok c ar x l m :
  aslot_inv ids stream c ar x -> async_stream_ok stream -> (exists O fl, pool_ok O fl c) ->
  l ∈ async_pend x -> async_possible stream c ar x l m = true ->
  exists add rest c1 k1 c' ar' x', async_resume ids stream l m c ar x = Ok (c', ar', x') /\
    aslot_inv ids stream c' ar' x' /\
    io_eff add c ar (as_conn x) c1 ar' k1 /\ (ar' = ar \/ rd_ok ar (as_conn x)) /\
    released c1 k1 c' (as_conn x') /\
    async_pend x ≡ₚ l :: rest /\ waiters ids (async_pend x') ≡ₚ add ++ waiters ids rest /\
    (m < 0 \/ l = AWriter -> forall w, w ∈ add -> exists l', w = (ids l', ids l') /\ l' = AWriter) /\
    (l = AWriter -> (async_debt x' < async_debt x)%nat).
Proof.
  intros Hi Hst _ Hl [Hp _]%andb_true_iff. unfold async_resume.
  set (e := async_event stream x l m) in *.
  assert (Hin : a_in_stream x e).
  { destruct l; cbn; [|done..]. apply read_event_in_stream. by destruct Hi as (ok & _ & _ & _ & _ & _ & Hd). }
  destruct (async_slot_ok c ar x e Hi Hst Hp Hin)
    as (a' & E & (p & Hself & (s1 & add & Hrel & Hef & Hpend & Har & Hq & Hwk) & _) & Hi').
  rewrite E. cbn [mbind outcome_bind].
  destruct (release_ctx s1) as (Ear & Er & Ew).
  assert (Hslf : a_self (ids AReader) (ids AWriter) (ids AReader) (ids AWriter) hid hid e = (ids l, ids l)).
  { unfold e. destruct l; cbn; [|done..]. unfold read_event. by destruct (0 <? m). }
  apply elem_of_Permutation in Hl as [rest Hrest].
  assert (Hp' : p ≡ₚ waiters ids rest).
  { apply (Permutation_cons_inv (a := (ids l, ids l))). rewrite <- Hslf, <- Hself.
    rewrite <- async_pend_waiters. unfold waiters. by rewrite Hrest, Hslf. }
  exists add, rest, (ctx s1), (conn s1). eexists _, _, _. split; [done|]. split; [done|].
  rewrite Hrel, Ear. split_and!; [exact Hef|exact Har| |done| | |].
  - cbn [as_conn aslot_of]. rewrite Hrel.
    destruct (release_cases s1) as [->|(k & c' & o & HC & ->)]; [by left|right; by exists o].
  - rewrite aslot_of_pend, Hrel. etrans; [|by rewrite <- Hp'; exact Hpend].
    unfold pend, pend_r, pend_w. by rewrite Er, Ew.
  - intros Hm w Hw. exists AWriter. split; [|done]. destruct l as [| |k]; [|by apply Hwk..].
    destruct Hm as [Hm|]; [|done]. rewrite Hq in Hw; [by apply elem_of_nil in Hw|].
    unfold e. cbn. unfold read_event. by rewrite (proj2 (Z.ltb_ge _ _)) by lia.
  - intros ->. by apply (async_debt_less c ar x m a').
Qed.

Lemma async_cancel_possible c ar x l :
  aslot_inv ids stream c ar x -> l ∈ async_pend x -> async_possible stream c ar x l (- ECANCELED) = true.
Proof.
  intros (ok & Hi & _) Hl. unfold async_pend in Hl. rewrite !elem_of_app in Hl.
  unfold async_possible. destruct l as [| |k]; cbn [async_event a_possible].
  - change (read_event _ (- ECANCELED)) with (ReadFail (- ECANCELED)). unfold possible. cbn.
    destruct (as_rd x); [|destruct (as_wr x); set_solver].
    apply Z.leb_le. pose proof (zlen_nonneg (a_undelivered stream x)). unfold ECANCELED. lia.
  - rewrite andb_true_r. destruct (as_wr x) as [|f aw|] eqn:Ew; [destruct (as_rd x); set_solver| |destruct (as_rd x); set_solver].
    by eapply cancel_write_possible.
  - rewrite andb_true_r. cbn.
    assert (Hk : AHandler k ∈ AHandler <$> (map_to_list (as_sleeping x)).*1)
      by (destruct (as_rd x), (as_wr x); set_solver).
    apply list_elem_of_fmap in Hk as (k' & [= <-] & Hk).
    apply list_elem_of_fmap in Hk as ([k' y] & -> & Hk%elem_of_map_to_list). cbn. by rewrite Hk.
Qed.

Lemma async_idle c ar x :
  aslot_inv ids stream c ar x -> async_pend x = [] -> Connection.closed_ (as_conn x) = true.
Proof.
  intros (ok & Hinv & _) Ho. unfold async_pend in Ho. apply app_eq_nil in Ho as [[Ho1 Ho2]%app_eq_nil _].
  apply (inv_idle _ _ _ _ _ Hinv).
  - cbn. by destruct (as_rd x).
  - unfold pend_w. cbn. by destruct (as_wr x).
Qed.

Lemma async_open_ok c ar k :
  fresh c ar k ->
  exists c' ar' x, async_open ids c ar k = Ok (c', ar', x) /\ aslot_inv ids stream c' ar' x /\
    (exists O fl, pool_ok O fl c') /\ io_eff (waiters ids (async_pend x)) c ar k c' ar' (as_conn x).
Proof.
  intros Hfr. destruct (handleConnection_ok (ids AReader) (ids AWriter) (ids AReader) (ids AWriter) Hsq c ar k Hfr)
    as (s & E & Hi & Hnr & Hef).
  unfold async_open, handleConnection_async. rewrite E. cbn [mbind outcome_bind sess].
  eexists _, _, _. split; [done|]. split_and!.
  - exists true. split_and!; [by destruct s|done|done|done|done|apply prefix_nil].
  - destruct (rd s) as [aw|] eqn:Er; [|done].
    destruct (inv_live _ _ _ _ _ aw Hi) as (cl & Hb & _); [by left|]. exact (ba_pool _ _ _ Hb).
  - rewrite aslot_of_pend. unfold asleep, dozing. cbn [sleeping sess]. rewrite map_to_list_empty. cbn [fmap list_fmap].
    rewrite app_nil_r. exact Hef.
Qed.

End AsyncSlotProofs.

(** * The server meets the interface of the server thread *)
#[export] Instance async_service_spec {K : Kernel} {HO : HostOrder} {PB : Protobuf} (Hsq : sq_never_full K)
  : ServiceSpec ASlot async_task.
Proof.
  refine {| sv_inv := aslot_inv; sv_pend := async_pend; sv_possible := async_possible;
            sv_stream_ok := async_stream_ok; sv_late l := l = AWriter; sv_debt := async_debt |}.
  - intros ids st c ar x c' ar' (ok & Hi & Hd) Hp Hbs Hw. exists ok. split; [|done].
    apply (inv_move _ _ _ _ _ c' ar' Hi Hp Hbs). intros cl Hb. apply Hw; apply Hb.
  - intros st c c' ar x [] m E; unfold async_possible; cbn; unfold possible, chunk_limit, BufSize; cbn; by rewrite ?E.
  - intros ids st c ar k Hfr _. by apply async_open_ok.
  - intros ids st. apply (async_resume_ok Hsq).
  - intros ids st c ar x l. by apply async_cancel_possible.
  - intros ids st c ar x. by apply async_idle.
Defined.

(** * The server thread *)

Definition async_peers_ok {HO : HostOrder} {PB : Protobuf} (peer : nat -> bytes) : Prop :=
  forall i, async_stream_ok (peer i).

Section AsyncThread.
Context {K : Kernel} {HO : HostOrder} {PB : Protobuf} (peer : nat -> bytes) (pool n : Z).
Context (Hsq : sq_never_full K) (Hpeer : async_peers_ok peer).

Definition async_program : Program (World ASlot) := service_program (V := async_service) peer.

Definition async_spec : ProgramSpec (World ASlot) (P := async_program) :=
  service_spec (Spec := async_service_spec Hsq) peer pool n Hsq Hpeer.

End AsyncThread.

Abbreviation async_world := (start_world (L := async_task)).

(** The coroutines that wait in the kernel. *)
Definition async_waiting (w : World ASlot) : list waiter :=
  pend_acc (L := async_task) (w_acc w) ++ concat (imap (fun i x => waiters (ids i) (async_pend x)) (slots w)).

(** ** Bounded input gives bounded replies *)

Lemma async_bounded_peers {HO : HostOrder} {PB : Protobuf} (peer : nat -> bytes) (b k : Z) :
  (forall i, zlen (peer i) <= b) -> 0 <= k -> b + k + 18 < 2 ^ 31 ->
  (forall p msg, ParseFromArray p = Some msg ->
     zlen (SerializeToString (echo_prefix ++ msg)) <= zlen p + k + 6) ->
  async_peers_ok peer.
Proof.
  intros Hb Hk Hlim Hpb i. split; [specialize (Hb i); unfold VECTOR_MAX; lia|].
  intros chunks Hpre. apply Forall_forall. intros y (m & Hm & Hy)%list_elem_of_omap.
  pose proof (feed_payload_le chunks []) as Hle. rewrite Forall_forall in Hle. specialize (Hle m Hm).
  cbn [app] in Hle. apply prefix_length in Hpre. specialize (Hb i). unfold accept in Hy.
  destruct (msg_type m.1 =? 0); [|done]. destruct (ParseFromArray m.2) as [msg|] eqn:E; [|done].
  injection Hy as <-. unfold small_reply. cbn [snd]. specialize (Hpb _ _ E).
  unfold HEADER_SIZE, zlen in *. lia.
Qed.

#[local] Existing Instance Echo.little.
#[local] Existing Instance Echo.plain_messages.
#[local] Existing Instance Connection.open_kernel.

Lemma two_async_peers_ok : async_peers_ok two_peers.
Proof.
  apply (async_bounded_peers two_peers 28 0); [|lia|lia|].
  - intros [|[|i]]; vm_compute; discriminate.
  - intros p msg [= <-]. change (SerializeToString (echo_prefix ++ p)) with (echo_prefix ++ p).
    rewrite zlen_app. change (zlen echo_prefix) with 6. lia.
Qed.

Definition bound_async_server : CoroTcpServer (list ASlot) :=
  match fst (CoroTcpServer_new good_socket 8080) with Ok v => v | _ => mkServer 0 0 false None end.

(** Both clients connect; the handler of the first request sleeps, wakes up and
    its reply is written while the second client's bytes arrive in pieces. *)
Definition async_events : list event :=
  [WaitBatch [mkCqe (Some 1%positive) 9; mkCqe (Some 2%positive) 10];
   WaitBatch [mkCqe (Some 1%positive) 14]; WaitErr EINTR;
   WaitBatch [mkCqe (Some 2%positive) 5; mkCqe (Some 1%positive) (- ETIME)];
   WaitBatch [mkCqe (Some 1%positive) 20]].

(** * Properties *)



(** How many completions the write loops of the server can still take. *)
Definition async_debts (w : World ASlot) : nat := sum_list (async_debt <$> slots w).


(** A client has connected and sent its request, whose handler is asleep; a
    stop arrives, the reply is written in two pieces. *)
Definition asleep_events : list event :=
  [WaitBatch [mkCqe (Some 1%positive) 9]; WaitBatch [mkCqe (Some 1%positive) 14]].

Definition late_writes : list event :=
  [WaitBatch [mkCqe None 3; mkCqe (Some 1%positive) 12]; Signal; WaitBatch [mkCqe (Some 1%positive) 8]].

Definition started_async : IoContext * World ASlot :=
  match async_world bound_async_server echo_ctx echo_arena with
  | Ok r => r
  | _ => (echo_ctx, mkWorld bound_async_server [] [] AcceptDone ∅)
  end.

Definition sleeping_server : IoContext * World ASlot :=
  match run_loop (P := async_program two_peers) asleep_events
          (set_running started_async.1 true) started_async.2 with
  | Ok (_, c1, w1) => (c1, w1)
  | _ => started_async
  end.

Definition cancelled_server : IoContext * World ASlot :=
  match handle_batch (P := async_program two_peers) (post_cancel (Stop sleeping_server.1)) sleeping_server.2
          (cancelled [1; 2; 3]%positive) with
  | Ok r => r
  | _ => sleeping_server
  end.

Lemma ok_pair {A B} (o : outcome (A * B)) (d : A * B) :
  (match o with Ok _ => true | _ => false end) = true ->
  o = Ok ((match o with Ok r => r | _ => d end).1, (match o with Ok r => r | _ => d end).2).
Proof. by destruct o as [[]| |]. Qed.

