(* ===== verification/Process.v ===== *)
(** The server processes: [main] of [examples/coro_echo.cpp] and of
    [examples/coro_echo_async.cpp], which differ only in the service their
    threads run.  The contexts and threads a process creates, how exceptions end
    it, and its end after an interrupt, for any service.

    Each thread has its own context, memory and kernel ring, so a run of the
    process is a run of each thread ([Service.thread_main]).  The signal
    handler stops every context: it is the [Signal] in the events of each
    thread.  CPU affinity and log messages are not modelled. *)
From S2P Require Import Prelude Buffer Protocol IoContext Coro Ledger Connection ResponseQueue.
From S2P Require Import Echo AsyncEcho Isolation Server Service EchoServer AsyncServer.

(** What one thread meets. *)
Record thread_env := mkThread {
  te_kernel : Kernel;
  te_init : InitAnswers;            (* the calls of the constructor of its context *)
  te_memory : Arena;
  te_socket : SocketAnswers;
  te_peer : nat -> bytes;
  te_events : list event
}.

(** How the process ends: all threads joined and all contexts destroyed (what
    each leaves behind); or with an exception that [main] logs; or by
    [std::terminate]; or not yet. *)
Inductive process_end (X : Type) : Type :=
| ProcExit (left : list (IoContext * World X * list syscall))
| ProcLogged (why : string)
| ProcTerminated (why : string)
| ProcRunning
| ProcUndefined (why : string).
Arguments ProcExit {X}.
Arguments ProcLogged {X}.
Arguments ProcTerminated {X}.
Arguments ProcRunning {X}.
Arguments ProcUndefined {X}.

(** [std::make_unique<IoContext>()] in the loop over the threads.  When a
    constructor fails and threads already run, unwinding destroys their
    contexts under them, and then the joinable threads. *)
Fixpoint create_contexts {X} (started : list IoContext) (envs : list thread_env)
  : list IoContext + process_end X :=
  match envs with
  | [] => inl started
  | e :: envs =>
      match IoContext_new (te_init e) true 64 65536 with
      | Ok c => create_contexts (started ++ [c]) envs
      | Throw why =>
          inr (match started with
               | [] => ProcLogged why
               | _ => ProcUndefined "context destroyed while its thread runs"
               end)
      | UB why => inr (ProcUndefined why)
      end
  end.

Section Process.
Context {X L : Type} `{Countable L} {V : forall K : Kernel, Service X L}.

Definition run_thread (e : thread_env) (c : IoContext)
  : outcome (status * IoContext * World X * list syscall) :=
  thread_main (K := te_kernel e) (V := V (te_kernel e)) (te_peer e) (te_socket e) c (te_memory e) (te_events e).

(** [join] of every thread, then the destructors of the contexts.  An exception
    that leaves a thread's function ends the process. *)
Fixpoint join_threads (envs : list thread_env) (cs : list IoContext) : process_end X :=
  match envs, cs with
  | e :: envs, c :: cs =>
      match run_thread e c, join_threads envs cs with
      | UB why, _ | _, ProcUndefined why => ProcUndefined why
      | Throw why, _ | _, ProcTerminated why => ProcTerminated why
      | Ok (Blocked, _, _, _), _ | _, ProcRunning => ProcRunning
      | _, ProcLogged why => ProcLogged why
      | Ok (Returned _, c, w, calls), ProcExit rest =>
          match IoContext_delete c with
          | Ok (c, _, _) => ProcExit ((c, w, calls) :: rest)
          | Throw why => ProcTerminated why
          | UB why => ProcUndefined why
          end
      end
  | _, _ => ProcExit []
  end.

Definition main (envs : list thread_env) : process_end X :=
  match create_contexts [] envs with
  | inl cs => join_threads envs cs
  | inr e => e
  end.

(** ** Lemmas *)

Lemma create_contexts_app envs1 envs2 started cs :
  Forall2 (fun e c => IoContext_new (te_init e) true 64 65536 = Ok c) envs1 cs ->
  create_contexts (X := X) started (envs1 ++ envs2) = create_contexts (started ++ cs) envs2.
Proof.
  intros Hc. revert started. induction Hc as [|e c envs1 cs E _ IH]; intros started; [by rewrite app_nil_r|].
  cbn. by rewrite E, IH, <- app_assoc.
Qed.

Lemma create_contexts_ok envs started cs :
  Forall2 (fun e c => IoContext_new (te_init e) true 64 65536 = Ok c) envs cs ->
  create_contexts (X := X) started envs = inl (started ++ cs).
Proof. intros Hc. by rewrite <- (app_nil_r envs), (create_contexts_app _ _ _ _ Hc). Qed.

(** The server object keeps its descriptor. *)
Lemma accept_next_server {K : Kernel} {W} h r (s s' : ServerState W) :
  accept_next h r s = Ok s' -> listen_fd_ (server s') = listen_fd_ (server s).
Proof.
  unfold accept_next. destruct (srv_running_ (server s)); [|by intros [= <-]].
  destruct (io_uring_get_sqe (sctx s)) as [ok c]. destruct ok; cbn [negb]; [|by intros [= <-]].
  destruct (await_suspend _ _ _ _) as [[? ?]| |]; cbn [mbind outcome_bind]; [|done..]. by intros [= <-].
Qed.

Lemma service_resume_server {K : Kernel} peer h c (w : World X) c' w' :
  service_resume (V := V K) peer h c w = Ok (c', w') -> listen_fd_ (w_server w') = listen_fd_ (w_server w).
Proof.
  unfold service_resume. destruct (or_ub _ (cells w !! h)) as [n| |]; cbn [mbind outcome_bind]; [|done..].
  destruct (task_of h) as [[[i l]|]|]; [| |done].
  { destruct (or_ub _ _); cbn [mbind outcome_bind]; [|done..].
    destruct (sv_resume _ _ _ _ _ _ _) as [[[c1 ar1] x1]| |]; cbn [mbind outcome_bind]; [|done..]. by intros [= <- <-]. }
  unfold AcceptLoop_resume. cbn [acc]. destruct (w_acc w); [|done].
  destruct (_ <? 0); [by intros [= <- <-]|]. unfold Task_body, accept_body.
  destruct (CoroConnection_new _ _) as [[k c1]| |]; cbn [mbind outcome_bind];
    [|by intros [= <- <-]|done]. cbn [server sarena handlers].
  destruct (handler_ (w_server w)) as [g|]; cbn [mbind outcome_bind].
  + destruct (g c1 (w_arena w) k (slots w)) as [[[c2 ar] xs]| |]; cbn [mbind outcome_bind];
      [|by intros [= <- <-]|done].
    destruct (accept_next _ _ _) eqn:E; cbn [mbind outcome_bind]; [|by intros [= <- <-]|done].
    intros [= <- <-]. by apply accept_next_server in E.
  + destruct (Connection.Close c1 k) as [[? c2] ?]. cbn [mbind outcome_bind].
    destruct (accept_next _ _ _) eqn:E; cbn [mbind outcome_bind]; [|by intros [= <- <-]|done].
    intros [= <- <-]. by apply accept_next_server in E.
Qed.

Lemma start_world_server {K : Kernel} v c ar c0 (w0 : World X) :
  start_world (V := V K) v c ar = Ok (c0, w0) -> listen_fd_ (w_server w0) = listen_fd_ v.
Proof.
  unfold start_world, Start, Task_body.
  destruct (accept_next _ _ _) eqn:E; cbn; [|by intros [= <- <-]|done].
  apply accept_next_server in E. by intros [= <- <-].
Qed.

(** The memory of the registered buffers is where [posix_memalign] says. *)
Definition memory_ok (e : thread_env) : Prop :=
  forall pool, a_memalign (te_init e) = Some pool -> 0 <= pool /\ pool + 64 * 65536 <= zlen (te_memory e).

Lemma constructed_context e c :
  memory_ok e -> IoContext_new (te_init e) true 64 65536 = Ok c ->
  exists pool n, new_context pool n c (te_memory e).
Proof.
  intros Hm E. pose proof (IoContext_new_ok (te_init e) true 64 65536) as Hc. rewrite E in Hc.
  destruct Hc as (_ & Hp & Hf & _ & [[(pool & Ea & Hb) Es]|[Hb Es]]); [lia|lia|..].
  - destruct (Hm pool Ea). exists pool, 64. do 3 (split; [done|]). unfold arena_ok. rewrite Es. lia.
  - exists 0, 0. do 3 (split; [done|]). unfold arena_ok. rewrite Es. pose proof (zlen_nonneg (te_memory e)). lia.
Qed.

Lemma bound_socket ans v calls :
  @CoroTcpServer_new (list X) ans 8080 = (Ok v, calls) ->
  listen_fd_ v = a_socket ans /\ 0 <= a_socket ans.
Proof. unfold CoroTcpServer_new. repeat case_match; intros [= <- <-]. split; [done|lia]. Qed.

Lemma closed_last fd calls : left_open fd (calls ++ [SysClose fd]) = false.
Proof.
  induction calls as [|x calls IH]; [done|]. destruct x; cbn; try done.
  rewrite existsb_app. cbn. by rewrite Z.eqb_refl, orb_true_r.
Qed.

(** A thread that cannot bind its port. *)
Definition cannot_listen (e : thread_env) : Prop :=
  a_socket (te_socket e) < 0 \/ a_bind (te_socket e) < 0 \/ a_listen (te_socket e) < 0.

Lemma cannot_listen_throws e c : cannot_listen e -> exists why, run_thread e c = Throw why.
Proof.
  intros Hc. unfold run_thread, thread_main, CoroTcpServer_new.
  destruct (Z.ltb_spec (a_socket (te_socket e)) 0); [by eexists|].
  destruct (Z.ltb_spec (a_bind (te_socket e)) 0); [by eexists|].
  destruct (Z.ltb_spec (a_listen (te_socket e)) 0); [by eexists|]. unfold cannot_listen in Hc. lia.
Qed.

(** The deletion of a context that was in use is defined. *)
Definition defined (e : thread_env) (c : IoContext) : Prop :=
  match run_thread e c with
  | Ok (Returned _, c, _, _) => exists c' ub uf, IoContext_delete c = Ok (c', ub, uf)
  | UB _ => False
  | _ => True
  end.

Lemma join_threads_defined envs cs :
  Forall2 defined envs cs ->
  match join_threads envs cs with ProcUndefined _ | ProcLogged _ => False | _ => True end /\
  (Exists cannot_listen envs -> exists why, join_threads envs cs = ProcTerminated why).
Proof.
  induction 1 as [|e c envs cs Hd _ [IH1 IH2]]; cbn [join_threads]; [split; [done|]; by intros He%Exists_nil|].
  unfold defined in Hd. split.
  - destruct (run_thread e c) as [[[[[rest|] c'] w] calls]|why|why]; [|by destruct (join_threads envs cs)..|done].
    destruct Hd as (c2 & ub & uf & ->). by destruct (join_threads envs cs).
  - intros [Hc|Hc]%Exists_cons.
    + destruct (cannot_listen_throws e c Hc) as [why ->]. by destruct (join_threads envs cs); eauto.
    + destruct (IH2 Hc) as [why ->].
      destruct (run_thread e c) as [[[[[rest|] c'] w] calls]|why'|why']; [by eauto..|done].
Qed.

Context {Spec : forall (K : Kernel) (Hsq : sq_never_full K), ServiceSpec X L (V := V K)}.

(** Thread [e] with context [c]: it binds its port; it has handled [evs], any
    events within the kernel's contract, when the interrupt comes, upon which
    the kernel cancels what is in flight; and then, if anything was submitted
    meanwhile, the kernel goes on with [evs'].  [debt] is what was left to do
    after the cancellation, [done] how much of it the kernel has completed. *)
Definition interrupted (e : thread_env) (c : IoContext) (debt done : nat) : Prop :=
  let K := te_kernel e in
  let P := service_program (V := V K) (te_peer e) in
  memory_ok e /\ IoContext_new (te_init e) true 64 65536 = Ok c /\
  exists (Hsq : sq_never_full K) (Hpeer : streams_ok (Spec := Spec K Hsq) (te_peer e))
      v evs evs' c0 w0 c1 w1 reqs c2 w2,
    fst (CoroTcpServer_new (te_socket e) 8080) = Ok v /\
    start_world (V := V K) v c (te_memory e) = Ok (c0, w0) /\
    (forall pool n, run_valid (P := P) (S := service_spec (Spec := Spec K Hsq) (te_peer e) pool n Hsq Hpeer)
       evs (set_running c0 true) w0) /\
    run_loop (P := P) evs (set_running c0 true) w0 = Ok (Blocked, c1, w1) /\
    reqs ≡ₚ elements (outstanding c1) /\
    handle_batch (P := P) (post_cancel (Stop c1)) w1 (cancelled reqs) = Ok (c2, w2) /\
    (0 < in_flight_ c2 ->
     (forall pool n, drain_valid (P := P)
        (S := service_spec (Spec := Spec K Hsq) (te_peer e) pool n Hsq Hpeer) evs' c2 w2) /\
     Forall no_wait_error evs') /\
    te_events e = evs ++ Signal :: WaitBatch (cancelled reqs) :: evs' /\
    debt = world_debt (Spec := Spec K Hsq) w2 /\ done = completions evs'.

(** Nothing is left of a thread: no request object, every connection closed,
    the accept loop ended and the listening socket closed. *)
Definition nothing_left (e : thread_env) (x : IoContext * World X * list syscall) : Prop :=
  let '(c, w, calls) := x in
  heap c = ∅ /\ in_flight_ c = 0 /\ running_ c = false /\ w_acc w = AcceptDone /\
  Forall (fun s => Connection.closed_ (sv_conn (Service := V (te_kernel e)) s) = true) (slots w) /\
  left_open (a_socket (te_socket e)) calls = false.

Lemma interrupted_thread e c D R :
  interrupted e c D R ->
  exists st c2 w2 calls, run_thread e c = Ok (st, c2, w2, calls) /\
    match st with
    | Returned _ => exists c3 ub uf, IoContext_delete c2 = Ok (c3, ub, uf) /\ nothing_left e (c3, w2, calls)
    | Blocked => (R < D)%nat
    end.
Proof.
  intros (Hm & Ec & Hsq & Hpeer & v & evs & evs' & c0 & w0 & c1 & w1 & reqs & c2 & w2 & Ev & Es & Hv & HR &
          Hreqs & H1 & Hdv & Hevs & -> & ->).
  destruct (constructed_context e c Hm Ec) as (pool & n & Hnew).
  destruct (service_shutdown (Spec := Spec _ Hsq) (te_peer e) pool n Hsq Hpeer v c (te_memory e) evs evs' c0 w0
              c1 w1 reqs c2 w2 Hnew Es (Hv pool n) HR Hreqs H1) as (st & c3 & w3 & HRun & Hst).
  { intros Hpos. destruct (Hdv Hpos) as [Hd ?]. split; [apply Hd|done]. }
  unfold run_thread, thread_main. destruct (CoroTcpServer_new (te_socket e) 8080) as [r calls] eqn:En.
  cbn [fst] in Ev. subst r. cbn [mbind outcome_bind]. rewrite Es. cbn [mbind outcome_bind].
  rewrite Hevs, HRun. cbn [mbind outcome_bind]. destruct st as [rest|]; [|by eexists _, _, _, _].
  eexists _, _, _, _. split; [done|].
  destruct Hst as (Hfl & Hacc & Hcl & _ & _ & c4 & ub & uf & Hdel & Hheap). exists c4, ub, uf. split; [done|].
  assert (Hfd : listen_fd_ (w_server w3) = a_socket (te_socket e) /\ 0 <= a_socket (te_socket e)).
  { destruct (bound_socket _ _ _ En) as [E Hpos]. split; [|done].
    rewrite <- E, <- (start_world_server _ _ _ _ _ Es).
    apply (Run_unchanged (P := service_program (V := V (te_kernel e)) (te_peer e))
             (fun w => listen_fd_ (w_server w))) in HRun; [done|done|].
    intros h c' w c'' w' E'. exact (service_resume_server _ h c' w c'' w' E'). }
  destruct Hfd as [Hfd Hpos].
  assert (Hc4 : in_flight_ c4 = in_flight_ c3 /\ running_ c4 = false).
  { unfold IoContext_delete in Hdel. destruct (delete_pool _ _ _); cbn in Hdel; [|done..].
    by injection Hdel as <- _ _. }
  destruct Hc4 as [E1 E2]. unfold nothing_left. rewrite E1. do 4 (split; [done|]).
  split; [eapply Forall_impl; [exact Hcl|]; by intros x []|].
  unfold CoroTcpServer_delete, Server_Stop. rewrite Hfd, (proj2 (Z.leb_le _ _)) by done. cbn [snd].
  apply closed_last.
Qed.

(** The end of a process after an interrupt: a thread that is still draining
    has been given fewer completions than it has bytes to send. *)
Lemma process_stops envs cs :
  Forall2 (fun e c => exists debt done, interrupted e c debt done) envs cs ->
  (exists left, main envs = ProcExit left /\ Forall2 nothing_left envs left) \/
  (main envs = ProcRunning /\
   exists e c debt done, e ∈ envs /\ interrupted e c debt done /\ (done < debt)%nat).
Proof.
  intros Hi. unfold main.
  rewrite (create_contexts_ok envs [] cs)
    by (eapply Forall2_impl; [exact Hi|]; by intros e c (D & R & _ & E & _)).
  cbn [app]. induction Hi as [|e c envs cs (D & R & Hi) _ IH]; [left; by exists []|].
  destruct (interrupted_thread e c D R Hi) as (st & c2 & w2 & calls & E & Hst).
  cbn [join_threads]. rewrite E.
  destruct IH as [(left & -> & Hl)|(-> & e' & c' & D' & R' & Hin & Hi' & Hlt)].
  - destruct st as [rest|].
    + destruct Hst as (c3 & ub & uf & -> & Hn). left. eexists. split; [done|]. by constructor.
    + right. split; [done|]. exists e, c, D, R. split; [by left|done].
  - right. split; [by destruct st|]. exists e', c', D', R'. split; [by right|done].
Qed.

End Process.

(** * Properties *)

(** The two programs. *)
Definition echo_main {HO : HostOrder} {PB : Protobuf} : list thread_env -> process_end Slot :=
  main (V := fun K => echo_service (K := K)).

Definition async_main {HO : HostOrder} {PB : Protobuf} : list thread_env -> process_end ASlot :=
  main (V := fun K => async_service (K := K)).

Abbreviation echo_interrupted :=
  (interrupted (V := fun K => echo_service (K := K)) (Spec := fun K Hsq => echo_service_spec Hsq)).
Abbreviation async_interrupted :=
  (interrupted (V := fun K => async_service (K := K)) (Spec := fun K Hsq => async_service_spec Hsq)).

Abbreviation echo_nothing_left := (nothing_left (V := fun K => echo_service (K := K))).
Abbreviation async_nothing_left := (nothing_left (V := fun K => async_service (K := K))).

Lemma echo_no_debt (HO : HostOrder) (PB : Protobuf) e c D R : echo_interrupted e c D R -> D = 0%nat.
Proof.
  intros (_ & _ & Hsq & Hpeer & v & evs & evs' & c0 & w0 & c1 & w1 & reqs & c2 & w2 & _ & _ & _ & _ & _ & _ & _ & _ &
          -> & _).
  unfold world_debt. cbn [sv_debt echo_service_spec]. induction (slots w2) as [|x xs IH]; [done|exact IH].
Qed.

(** C6: The echo server process stops cleanly on an interrupt.  Whatever each
    of its threads has been doing, when the signal handler has stopped all
    contexts and the kernel has cancelled their requests, [main] joins every
    thread and exits, and of each thread nothing is left: no request object, no
    open connection, no listening socket. *)
Theorem process_stops_cleanly (HO : HostOrder) (PB : Protobuf) envs cs :
  Forall2 (fun e c => exists debt done, echo_interrupted e c debt done) envs cs ->
  exists left, echo_main envs = ProcExit left /\ Forall2 echo_nothing_left envs left.
Proof.
  intros Hi. destruct (process_stops _ _ Hi) as [?|(_ & e & c & D & R & _ & He & Hlt)]; [done|].
  apply echo_no_debt in He. lia.
Qed.

#[local] Existing Instance Echo.little.
#[local] Existing Instance Echo.plain_messages.
#[local] Existing Instance Connection.open_kernel.

(** Two threads without registered buffers: one serves the two clients of
    [EchoServer], the other has no clients. *)
Definition no_memory : InitAnswers :=
  {| a_queue_init := 0; a_memalign := None; a_register_buffers := 0; a_register_files := 0 |}.
Definition plain_ctx : IoContext := match IoContext_new no_memory true 64 65536 with Ok c => c | _ => ctx_empty end.
Definition busy_thread : thread_env :=
  mkThread open_kernel no_memory [] good_socket two_peers
    (server_events ++ [Signal; WaitBatch (cancelled [3%positive; 4%positive; 2%positive])]).
Definition idle_thread : thread_env :=
  mkThread open_kernel no_memory [] good_socket two_peers [Signal; WaitBatch (cancelled [1%positive])].

(** The state of a thread when it starts, and after events. *)
Definition thread_started : IoContext * World Slot :=
  match echo_world bound_server plain_ctx [] with
  | Ok r => r
  | _ => (plain_ctx, mkWorld bound_server [] [] AcceptDone ∅)
  end.
Definition thread_after (evs : list event) : IoContext * World Slot :=
  match run_loop (P := echo_program two_peers) evs (set_running thread_started.1 true) thread_started.2 with
  | Ok (_, c1, w1) => (c1, w1)
  | _ => thread_started
  end.

Lemma thread_started_eq : echo_world bound_server plain_ctx [] = Ok (thread_started.1, thread_started.2).
Proof. apply (ok_pair (echo_world bound_server plain_ctx [])). vm_compute. reflexivity. Qed.

Lemma thread_after_eq evs :
  match run_loop (P := echo_program two_peers) evs (set_running thread_started.1 true) thread_started.2 with
  | Ok (Blocked, _, _) => true | _ => false end = true ->
  run_loop (P := echo_program two_peers) evs (set_running thread_started.1 true) thread_started.2
  = Ok (Blocked, (thread_after evs).1, (thread_after evs).2).
Proof. unfold thread_after. by destruct (run_loop _ _ _) as [[[[] ?] ?]| |]. Qed.

Definition thread_cancelled (evs : list event) (reqs : list loc) : IoContext * World Slot :=
  match handle_batch (P := echo_program two_peers) (post_cancel (Stop (thread_after evs).1)) (thread_after evs).2
          (cancelled reqs) with
  | Ok r => r
  | _ => thread_after evs
  end.

(** A thread that is interrupted after [evs], with requests [reqs] in flight. *)
Lemma example_interrupted evs reqs e :
  te_kernel e = open_kernel -> te_init e = no_memory -> te_memory e = [] -> te_socket e = good_socket ->
  te_peer e = two_peers -> te_events e = evs ++ [Signal; WaitBatch (cancelled reqs)] ->
  (forall pool n, run_valid (P := echo_program two_peers) (S := echo_spec two_peers pool n open_kernel_room two_peers_ok)
     evs (set_running thread_started.1 true) thread_started.2) ->
  match run_loop (P := echo_program two_peers) evs (set_running thread_started.1 true) thread_started.2 with
  | Ok (Blocked, _, _) => true | _ => false end = true ->
  reqs ≡ₚ elements (outstanding (thread_after evs).1) ->
  match handle_batch (P := echo_program two_peers) (post_cancel (Stop (thread_after evs).1)) (thread_after evs).2
          (cancelled reqs) with Ok _ => true | _ => false end = true ->
  in_flight_ (thread_cancelled evs reqs).1 = 0 ->
  exists debt done, echo_interrupted e plain_ctx debt done.
Proof.
  destruct e as [K0 i0 m0 s0 p0 ev0]; cbn [te_kernel te_init te_memory te_socket te_peer te_events].
  intros -> -> -> -> -> -> Hv HR Hreqs Hb Hfl. eexists _, _. split; [done|]. split; [reflexivity|].
  exists open_kernel_room, two_peers_ok, bound_server, evs, [], thread_started.1, thread_started.2,
    (thread_after evs).1, (thread_after evs).2, reqs, (thread_cancelled evs reqs).1, (thread_cancelled evs reqs).2.
  split; [reflexivity|]. split; [exact thread_started_eq|]. split; [exact Hv|].
  split; [by apply thread_after_eq|]. split; [exact Hreqs|].
  split; [exact (ok_pair _ _ Hb)|]. split; [|done]. intros Hpos. by rewrite Hfl in Hpos.
Qed.

Lemma busy_interrupted : exists debt done, echo_interrupted busy_thread plain_ctx debt done.
Proof.
  apply (example_interrupted server_events [3%positive; 4%positive; 2%positive]); try reflexivity.
  intros. vm_compute. repeat split; reflexivity.
Qed.

Lemma idle_interrupted : exists debt done, echo_interrupted idle_thread plain_ctx debt done.
Proof. by apply (example_interrupted [] [1%positive]). Qed.

Lemma process_stops_cleanly_witness :
  exists left, echo_main [busy_thread; idle_thread] = ProcExit left /\
    Forall2 echo_nothing_left [busy_thread; idle_thread] left.
Proof.
  apply (process_stops_cleanly little plain_messages [busy_thread; idle_thread] [plain_ctx; plain_ctx]).
  constructor; [exact busy_interrupted|]. constructor; [exact idle_interrupted|constructor].
Defined.

(** C8: The asynchronous echo server process on an interrupt.  Its threads may
    have handlers asleep, which answer when they are cancelled.  Whatever the
    kernel then does with these answers, [main] joins every thread and exits
    with nothing left of any of them, or a thread is still sending, and then
    the kernel has reported fewer completions to it than it had bytes to send
    when it was cancelled. *)
Theorem async_process_stops (HO : HostOrder) (PB : Protobuf) envs cs :
  Forall2 (fun e c => exists debt done, async_interrupted e c debt done) envs cs ->
  (exists left, async_main envs = ProcExit left /\ Forall2 async_nothing_left envs left) \/
  (async_main envs = ProcRunning /\
   exists e c debt done, e ∈ envs /\ async_interrupted e c debt done /\ (done < debt)%nat).
Proof. unfold async_main. apply process_stops. Qed.

(** A thread of which one request is being worked on when it is interrupted. *)
Definition working_thread : thread_env :=
  mkThread open_kernel no_memory [] good_socket two_peers
    (asleep_events ++ Signal :: WaitBatch (cancelled [1; 2; 3]%positive) :: late_writes).

Definition working_start : IoContext * World ASlot :=
  match async_world bound_async_server plain_ctx [] with
  | Ok r => r
  | _ => (plain_ctx, mkWorld bound_async_server [] [] AcceptDone ∅)
  end.

Definition working_state : IoContext * World ASlot :=
  match run_loop (P := async_program two_peers) asleep_events (set_running working_start.1 true) working_start.2 with
  | Ok (_, c1, w1) => (c1, w1)
  | _ => working_start
  end.

Definition working_cancelled : IoContext * World ASlot :=
  match handle_batch (P := async_program two_peers) (post_cancel (Stop working_state.1)) working_state.2
          (cancelled [1; 2; 3]%positive) with
  | Ok r => r
  | _ => working_state
  end.

Lemma working_state_eq :
  run_loop (P := async_program two_peers) asleep_events (set_running working_start.1 true) working_start.2
  = Ok (Blocked, working_state.1, working_state.2).
Proof.
  unfold working_state.
  assert (E : match run_loop (P := async_program two_peers) asleep_events
                      (set_running working_start.1 true) working_start.2 with
              | Ok (Blocked, _, _) => true | _ => false end = true) by (vm_compute; reflexivity).
  by destruct (run_loop _ _ _) as [[[[] ?] ?]| |].
Qed.

Lemma working_interrupted : exists debt done, async_interrupted working_thread plain_ctx debt done.
Proof.
  eexists _, _. split; [done|]. split; [reflexivity|].
  exists open_kernel_room, two_async_peers_ok, bound_async_server, asleep_events, late_writes,
    working_start.1, working_start.2, working_state.1, working_state.2, [1; 2; 3]%positive,
    working_cancelled.1, working_cancelled.2.
  split; [reflexivity|]. split.
  { apply (ok_pair (async_world bound_async_server plain_ctx [])). vm_compute. reflexivity. }
  split; [intros; vm_compute; repeat split; reflexivity|]. split; [exact working_state_eq|].
  split.
  { assert (E : elements (outstanding working_state.1) = [3; 2; 1]%positive) by (vm_compute; reflexivity).
    cbn [te_kernel working_thread]. rewrite E. solve_Permutation. }
  split.
  { apply (ok_pair (handle_batch (P := async_program two_peers) (post_cancel (Stop working_state.1))
                      working_state.2 (cancelled [1; 2; 3]%positive)) working_state).
    vm_compute. reflexivity. }
  split; [|done]. intros _. split; [intros; vm_compute; repeat split; reflexivity|repeat constructor].
Qed.

Lemma async_process_stops_witness :
  (exists left, async_main [working_thread] = ProcExit left /\ Forall2 async_nothing_left [working_thread] left) \/
  (async_main [working_thread] = ProcRunning /\
   exists e c debt done, e ∈ [working_thread] /\ async_interrupted e c debt done /\ (done < debt)%nat).
Proof.
  apply (async_process_stops little plain_messages [working_thread] [plain_ctx]).
  constructor; [exact working_interrupted|constructor].
Defined.


(** The first thread serves, the port of the second is taken. *)
Definition unbound_thread : thread_env :=
  mkThread open_kernel no_memory [] {| a_socket := 5; a_bind := -1; a_listen := 0 |} two_peers [].
Definition no_ring : thread_env :=
  mkThread open_kernel {| a_queue_init := -12; a_memalign := None; a_register_buffers := 0; a_register_files := 0 |}
    [] good_socket two_peers [].

