(* ===== verification/Logger.v ===== *)
(** The logger of [src/logger.h]: the line [Log] prints.  The text of
    [std::this_thread::get_id()] is an argument; the stream itself is not
    modelled. *)
From stdpp Require Import strings pretty.
From S2P Require Import Prelude.

Inductive LogLevel : Type := DEBUG | INFO | WARN | ERROR.

(** ["\033"] *)
Definition esc : string := String (Ascii.ascii_of_nat 27) EmptyString.
Definition newline : string := String (Ascii.ascii_of_nat 10) EmptyString.

Definition level_tag (level : LogLevel) : string :=
  match level with
  | DEBUG => esc +:+ "[36m[DEBUG]" +:+ esc +:+ "[0m "
  | INFO => esc +:+ "[32m[INFO]" +:+ esc +:+ "[0m  "
  | WARN => esc +:+ "[33m[WARN]" +:+ esc +:+ "[0m  "
  | ERROR => esc +:+ "[31m[ERROR]" +:+ esc +:+ "[0m "
  end.

(** [std::string::find_last_of] of one character; [None] is [npos]. *)
Fixpoint find_last_of (s : string) (ch : Ascii.ascii) : option nat :=
  match s with
  | EmptyString => None
  | String a s =>
      match find_last_of s ch with
      | Some pos => Some (S pos)
      | None => if Ascii.eqb a ch then Some 0%nat else None
      end
  end.

(** [s.substr(pos)] for a position inside the string. *)
Fixpoint substr (s : string) (pos : nat) {struct pos} : string :=
  match pos, s with
  | O, _ => s
  | S pos, String _ s => substr s pos
  | S _, EmptyString => EmptyString
  end.

(** The character 47. *)
Definition slash : Ascii.ascii := Ascii.Ascii true true true true false true false false.

Definition strip_path (file : string) : string :=
  match find_last_of file slash with
  | Some pos => substr file (pos + 1)
  | None => file
  end.

Definition Log (thread_id : string) (level : LogLevel) (file : string) (line : Z) (msg : string)
  : string :=
  level_tag level +:+ "[" +:+ strip_path file +:+ ":" +:+ pretty line +:+ "] " +:+
  "[" +:+ thread_id +:+ "] " +:+ msg +:+ newline.

(** The macros; [msg] is the text that was streamed into their [oss]. *)
Definition LOG_DEBUG (thread_id file : string) (line : Z) (msg : string) : string :=
  Log thread_id DEBUG file line msg.
Definition LOG_INFO (thread_id file : string) (line : Z) (msg : string) : string :=
  Log thread_id INFO file line msg.
Definition LOG_WARN (thread_id file : string) (line : Z) (msg : string) : string :=
  Log thread_id WARN file line msg.
Definition LOG_ERROR (thread_id file : string) (line : Z) (msg : string) : string :=
  Log thread_id ERROR file line msg.

(** * Lemmas *)

Fixpoint contains (s : string) (ch : Ascii.ascii) : bool :=
  match s with
  | EmptyString => false
  | String a s => Ascii.eqb a ch || contains s ch
  end.

Lemma find_last_of_none s ch : find_last_of s ch = None <-> contains s ch = false.
Proof.
  induction s as [|a s IH]; cbn; [done|]. destruct (find_last_of s ch) as [n|].
  - split; [done|]. intros [_ H]%orb_false_iff. by apply IH in H.
  - rewrite (proj1 IH) by done. rewrite orb_false_r. by destruct (Ascii.eqb a ch).
Qed.

Lemma find_last_of_some s ch : forall pos,
  find_last_of s ch = Some pos ->
  exists dir, s = dir +:+ String ch (substr s (pos + 1)) /\ contains (substr s (pos + 1)) ch = false.
Proof.
  induction s as [|a s IH]; intros pos; cbn [find_last_of]; [done|].
  destruct (find_last_of s ch) as [n|] eqn:E.
  - intros [= <-]. destruct (IH n eq_refl) as (dir & Hs & Hc).
    exists (String a dir). split; [|done].
    change (String a s = String a (dir +:+ String ch (substr s (n + 1)))). by f_equal.
  - destruct (Ascii.eqb_spec a ch) as [->|]; [|done]. intros [= <-]. exists EmptyString.
    cbn. split; [done|]. by apply find_last_of_none.
Qed.

Lemma string_app_assoc (s t u : string) : (s +:+ t) +:+ u = s +:+ (t +:+ u).
Proof. induction s as [|a s IH]; [done|]. change (String a ((s +:+ t) +:+ u) = String a (s +:+ (t +:+ u))). by f_equal. Qed.

Lemma contains_app s t ch : contains (s +:+ t) ch = contains s ch || contains t ch.
Proof.
  induction s as [|a s IH]; [done|]. change (String a s +:+ t) with (String a (s +:+ t)). cbn [contains].
  by rewrite IH, orb_assoc.
Qed.

Definition line_feed : Ascii.ascii := Ascii.ascii_of_nat 10.

Lemma pretty_N_go_line n : forall s, contains s line_feed = false -> contains (pretty_N_go n s) line_feed = false.
Proof.
  induction (N.lt_wf_0 n) as [n _ IH]. intros s Hs. destruct (N.ltb_spec 0 n) as [Hn|Hn].
  2:{ by assert (n = 0%N) as -> by lia. }
  rewrite pretty_N_go_step by done. apply IH; [by apply N.div_lt|]. cbn [contains]. rewrite Hs, orb_false_r.
  unfold pretty_N_char. by repeat case_match.
Qed.

(** The decimal text of a number is on one line. *)
Lemma pretty_line (z : Z) : contains (pretty z) line_feed = false.
Proof.
  assert (Hn : forall n : N, contains (pretty n) line_feed = false).
  { intros n. unfold pretty, pretty_N. destruct (decide _); [done|]. by apply pretty_N_go_line. }
  destruct z as [|p|p]; [done|apply Hn|]. change (pretty (Zneg p)) with ("-" +:+ pretty (Npos p)).
  rewrite contains_app. apply Hn.
Qed.

Lemma substr_line s : forall pos, contains s line_feed = false -> contains (substr s pos) line_feed = false.
Proof.
  induction s as [|a s IH]; intros [|pos]; cbn [substr contains]; try done.
  intros [_ Hs]%orb_false_iff. by apply IH.
Qed.

(** * Properties *)

(** A call of any of the macros prints exactly one line, if the thread's
    identifier, the path and the message have no line feed: the lines of
    different threads, each written by one call of [<<], can be told apart. *)
Theorem log_prints_one_line thread_id level file line msg :
  contains thread_id line_feed = false -> contains file line_feed = false -> contains msg line_feed = false ->
  exists text, Log thread_id level file line msg = text +:+ newline /\ contains text line_feed = false.
Proof.
  intros Ht Hf Hm. exists (level_tag level +:+ "[" +:+ strip_path file +:+ ":" +:+ pretty line +:+ "] " +:+
    "[" +:+ thread_id +:+ "] " +:+ msg).
  split; [unfold Log; by rewrite !string_app_assoc|]. rewrite !contains_app, Ht, Hm, pretty_line.
  assert (contains (strip_path file) line_feed = false) as ->
    by (unfold strip_path; destruct (find_last_of _ _); [by apply substr_line|done]).
  by destruct level.
Qed.

(** The name printed in a log line is the last component of the source
    path: it contains no slash, and the path is that name, or ends in a slash
    followed by it. *)
Theorem log_prints_base_name file :
  contains (strip_path file) slash = false /\
  (file = strip_path file \/ exists dir, file = dir +:+ String slash (strip_path file)).
Proof.
  unfold strip_path. destruct (find_last_of file slash) as [pos|] eqn:E.
  - destruct (find_last_of_some _ _ _ E) as (dir & Hs & Hc). split; [done|]. right. by exists dir.
  - split; [by apply find_last_of_none|by left].
Qed.
