(* ===== verification/Registry.v ===== *)
(** Service registration of [src/registry.h] and [src/registry.cpp].

    The etcd client is a third-party library: class [Etcd] gives the four
    operations used, on a state of the client's own, and [EtcdSpec] the
    documented behaviour relied upon. *)
From stdpp Require Import strings gmap.
From S2P Require Import Prelude Logger.

Class Etcd (E : Type) := {
  KeepAlive : Type;
  leasegrant : Z -> E -> (string + Z) * E;                (* error or lease id *)
  put : string -> string -> Z -> E -> option string * E;  (* the error, if any *)
  leasekeepalive : Z -> E -> KeepAlive * E;
  Cancel : KeepAlive -> E -> E                            (* also what its destructor does *)
}.

(** [impl_->keep_alive] *)
Record Registry (E : Type) `{Etcd E} := mkRegistry { keep_alive : option KeepAlive }.
Arguments mkRegistry {E _}.
Arguments keep_alive {E _}.

Section Registry.
Context {E : Type} `{Etcd E}.

Definition Registry_new : Registry E := mkRegistry None.

Definition service_key (service_name endpoint : string) : string :=
  "/crpc/services/" +:+ service_name +:+ "/" +:+ endpoint.

(** Assigning to the [shared_ptr] destroys the previous object. *)
Definition drop_keep_alive (r : Registry E) (e : E) : E :=
  match keep_alive r with Some ka => Cancel ka e | None => e end.

Definition RegisterService (r : Registry E) (service_name endpoint : string) (ttl_seconds : Z) (e : E)
  : outcome unit * Registry E * E :=
  let '(res, e) := leasegrant ttl_seconds e in
  match res with
  | inl _ => (Throw "lease grant failed", r, e)
  | inr lease_id =>
      let '(err, e) := put (service_key service_name endpoint) endpoint lease_id e in
      match err with
      | Some _ => (Throw "service registration failed", r, e)
      | None =>
          let '(ka, e) := leasekeepalive lease_id e in
          (Ok tt, mkRegistry (Some ka), drop_keep_alive r e)
      end
  end.

Definition Registry_delete (r : Registry E) (e : E) : E := drop_keep_alive r e.

End Registry.

(** * What is relied upon *)

(** [lookup_key] is what a reader of the store finds; [refreshed] whether a
    lease is being kept alive by this client. *)
Class EtcdSpec (E : Type) `{Etcd E} := {
  lookup_key : string -> E -> option (string * Z);
  refreshed : Z -> E -> bool;
  lease_of : KeepAlive -> Z;
  spec_lease_key ttl e k : lookup_key k (leasegrant ttl e).2 = lookup_key k e;
  spec_put k v l e : (put k v l e).1 = None -> lookup_key k (put k v l e).2 = Some (v, l);
  spec_put_other k v l e k' : k' <> k -> lookup_key k' (put k v l e).2 = lookup_key k' e;
  spec_put_fail k v l e err : (put k v l e).1 = Some err -> lookup_key k (put k v l e).2 = lookup_key k e;
  spec_keepalive l e : lease_of (leasekeepalive l e).1 = l /\ refreshed l (leasekeepalive l e).2 = true;
  spec_keepalive_key l e k : lookup_key k (leasekeepalive l e).2 = lookup_key k e;
  spec_cancel ka e : refreshed (lease_of ka) (Cancel ka e) = false;
  spec_cancel_other ka e l : l <> lease_of ka -> refreshed l (Cancel ka e) = refreshed l e;
  spec_cancel_key ka e k : lookup_key k (Cancel ka e) = lookup_key k e
}.

(** * Lemmas *)

Section Proofs.
Context {E : Type} `{EtcdSpec E}.

Lemma drop_key (r : Registry E) e k : lookup_key k (drop_keep_alive r e) = lookup_key k e.
Proof. unfold drop_keep_alive. destruct (keep_alive r); [apply spec_cancel_key|done]. Qed.

(** The part of a key after a name without slashes is determined. *)
Lemma key_tail_inj n1 : forall n2 e1 e2,
  contains n1 slash = false -> contains n2 slash = false ->
  n1 +:+ String slash e1 = n2 +:+ String slash e2 -> n1 = n2 /\ e1 = e2.
Proof.
  induction n1 as [|a n1 IH]; intros [|b n2] e1 e2 H1 H2 Heq; cbn in *.
  - by injection Heq.
  - injection Heq as <- _. done.
  - injection Heq as -> _. done.
  - injection Heq as <- Heq. apply orb_false_iff in H1 as [_ H1]. apply orb_false_iff in H2 as [_ H2].
    destruct (IH n2 e1 e2 H1 H2 Heq) as [-> ->]. done.
Qed.

Lemma string_app_inj p s1 s2 : p +:+ s1 = p +:+ s2 -> s1 = s2.
Proof. induction p as [|a p IH]; cbn; [done|]. intros [= Heq]. auto. Qed.

Lemma service_key_inj n1 n2 e1 e2 :
  contains n1 slash = false -> contains n2 slash = false ->
  service_key n1 e1 = service_key n2 e2 -> n1 = n2 /\ e1 = e2.
Proof. intros H1 H2 Heq%string_app_inj. by apply key_tail_inj. Qed.

End Proofs.

(** ** A store that meets the specification *)

Record Store := mkStore { kvs : gmap string (string * Z); leases : gset Z; next_lease : Z }.

#[export] Instance store_etcd : Etcd Store := {
  KeepAlive := Z;
  leasegrant ttl e :=
    if ttl <=? 0 then (inl "etcdserver: invalid ttl", e)
    else (inr (next_lease e), mkStore (kvs e) (leases e) (next_lease e + 1));
  put k v l e := (None, mkStore (<[k := (v, l)]> (kvs e)) (leases e) (next_lease e));
  leasekeepalive l e := (l, mkStore (kvs e) ({[l]} ∪ leases e) (next_lease e));
  Cancel ka e := mkStore (kvs e) (leases e ∖ {[ka]}) (next_lease e)
}.

#[export] Instance store_spec : EtcdSpec Store.
Proof.
  refine {| lookup_key k (e : Store) := kvs e !! k;
            refreshed l (e : Store) := bool_decide (l ∈ leases e);
            lease_of (ka : KeepAlive) := (ka : Z) |}; cbn.
  - intros ttl e k. by destruct (ttl <=? 0).
  - intros k v l e _. by rewrite lookup_insert_eq.
  - intros k v l e k' Hne. by rewrite lookup_insert_ne.
  - done.
  - intros l e. split; [done|]. apply bool_decide_eq_true. set_solver.
  - done.
  - intros ka e. apply bool_decide_eq_false. set_solver.
  - intros ka e l Hl. apply bool_decide_ext. set_solver.
  - done.
Defined.

(** * Properties *)


Definition empty_store : Store := mkStore ∅ ∅ 1.


(** A registry keeps only its last registration alive: registering a
    second service cancels the keep-alive of the first, whose key then lives
    only until its lease runs out. *)
Theorem second_registration_drops_first (E : Type) (H : Etcd E) (S : EtcdSpec E)
    (r1 : Registry E) ka1 name endpoint ttl e r2 e2 :
  keep_alive r1 = Some ka1 ->
  RegisterService r1 name endpoint ttl e = (Ok tt, r2, e2) ->
  refreshed (lease_of ka1) e2 = false.
Proof.
  intros Hk. unfold RegisterService. destruct (leasegrant _ _) as [[?|lease] e1]; [done|].
  destruct (put _ _ _ _) as [[?|] e3]; [done|]. destruct (leasekeepalive _ _) as [ka e4].
  intros [= _ <-]. unfold drop_keep_alive. rewrite Hk. apply spec_cancel.
Qed.

(** The registry and the store after one registration. *)
Definition once : Registry Store * Store :=
  let '(_, r, e) := RegisterService Registry_new "echo" "h:1" 10 empty_store in (r, e).

Lemma second_registration_drops_first_witness :
  exists ka1, keep_alive once.1 = Some ka1 /\ lookup_key (service_key "echo" "h:1") once.2 = Some ("h:1", 1) /\
    refreshed (lease_of ka1) once.2 = true /\
    refreshed (lease_of ka1) (RegisterService once.1 "add" "h:2" 10 once.2).2 = false.
Proof.
  exists (1 : Z). do 3 (split; [vm_compute; reflexivity|]).
  apply (second_registration_drops_first Store store_etcd store_spec once.1 (1 : Z) "add" "h:2" 10 once.2
           (RegisterService once.1 "add" "h:2" 10 once.2).1.2); reflexivity.
Defined.
