(* ===== verification/Client.v ===== *)
(** The sequential benchmark client ([examples/latency_bench.cpp]): the
    blocking helpers [SendAll] and [RecvExact] and the request loop.

    The socket is a parameter: [k_send t len] is what the [t]-th call of
    [send] returns for [len] bytes; what successive calls of [recv] return is
    a list ([None]: an error; the empty string: end of file).  The program
    around the loop is in [Mains], its statistics in [Stats]. *)
From S2P Require Import Prelude Buffer Protocol IoContext Coro Connection ResponseQueue Echo.

(** * Blocking calls *)

(** A blocking computation finishes, waits for the peer for ever, throws, or
    has undefined behaviour. *)
Inductive io (A : Type) : Type :=
| Done (a : A)
| Waiting
| Raised (what : string)
| Undef (why : string).
Arguments Done {A} a.
Arguments Waiting {A}.
Arguments Raised {A} what.
Arguments Undef {A} why.

#[export] Instance io_bind : MBind io := fun A B f m =>
  match m with Done a => f a | Waiting => Waiting | Raised s => Raised s | Undef s => Undef s end.

Definition lift {A} (m : outcome A) : io A :=
  match m with Ok a => Done a | Throw s => Raised s | UB s => Undef s end.

Class Socket := { k_send : nat -> Z -> Z }.

(** [EchoRequest::SerializeToString]. *)
Class ClientProtobuf := { SerializeRequest : bytes -> bytes }.

Record Client := mkClient {
  recv_staging : bytes;
  incoming : list (option bytes);
  sends : nat;                        (* calls of send so far *)
  wire_out : bytes                    (* bytes the kernel accepted *)
}.

Section Client.
Context {HO : HostOrder} {S : Socket} {CP : ClientProtobuf}.

(** Each turn of the loop sends at least a byte, so one more than the number
    of bytes is enough fuel. *)
Fixpoint SendAll_loop (fuel : nat) (data : bytes) (t : nat) (out : bytes) : io (nat * bytes) :=
  match fuel with
  | O => Undef "out of fuel"
  | Datatypes.S fuel =>
      if 0 <? zlen data then
        let n := k_send t (zlen data) in
        if n <=? 0 then Raised "send failed"
        else SendAll_loop fuel (drop (Z.to_nat n) data) (Datatypes.S t) (out ++ take (Z.to_nat n) data)
      else Done (t, out)
  end.

Definition SendAll (data : bytes) (c : Client) : io Client :=
  '(t, out) ← SendAll_loop (Datatypes.S (length data)) data (sends c) (wire_out c);
  Done (mkClient (recv_staging c) (incoming c) t out).

(** [insert] at the end of the staging vector until it is long enough. *)
Fixpoint RecvExact_loop (inc : list (option bytes)) (buf : bytes) (need : Z)
  : io (list (option bytes) * bytes) :=
  if zlen buf <? need then
    match inc with
    | [] => Waiting
    | Some (x :: bs) :: inc => RecvExact_loop inc (buf ++ x :: bs) need
    | _ :: _ => Raised "recv failed / connection closed"
    end
  else Done (inc, buf).

Definition RecvExact (need : Z) (c : Client) : io Client :=
  '(inc, buf) ← RecvExact_loop (incoming c) (recv_staging c) need;
  Done (mkClient buf inc (sends c) (wire_out c)).

(** [recv_staging.erase(begin, begin + n)], in range. *)
Definition erase (n : Z) (c : Client) : io Client :=
  if n <=? zlen (recv_staging c)
  then Done (mkClient (drop (Z.to_nat n) (recv_staging c)) (incoming c) (sends c) (wire_out c))
  else Undef "erase past the end".

(** * The request loop *)

Definition request_header (i : Z) (req_bytes : bytes) : RpcHeader :=
  mkHeader MAGIC_NUMBER 1 0 (u32 i) (u32 (zlen req_bytes)).

(** Build and encode the request. *)
Definition build_request (i : Z) (payload_str : bytes) : outcome bytes :=
  let req_bytes := SerializeRequest payload_str in
  '(ar, b) ← EncodeMessage [] Buffer_default (request_header i req_bytes) req_bytes;
  load ar b (ReadBegin b) (ReadableBytes b).

(** Receive the response: the header, then as many bytes as it announces.
    The sequence number is not looked at. *)
Definition receive_response (c : Client) : io (RpcHeader * Client) :=
  c ← RecvExact HEADER_SIZE c;
  image ← lift (mem_read (recv_staging c) 0 HEADER_SIZE);
  c ← erase HEADER_SIZE c;
  let raw := header_of_image image in
  let resp_hdr := mkHeader (ntohs (magic raw)) (version raw) (msg_type raw)
                    (ntohl (seq_id raw)) (ntohl (payload_len raw)) in
  if negb (magic resp_hdr =? MAGIC_NUMBER) then Raised "bad magic in response"
  else
    c ← RecvExact (payload_len resp_hdr) c;
    c ← erase (payload_len resp_hdr) c;
    Done (resp_hdr, c).

Definition exchange (i : Z) (payload_str : bytes) (c : Client) : io Client :=
  data ← lift (build_request i payload_str);
  c ← SendAll data c;
  '(_, c) ← receive_response c;
  Done c.

(** [for (int i = 0; i < count; ++i)], from [i] on. *)
Fixpoint exchanges (n : nat) (i : Z) (payload_str : bytes) (c : Client) : io Client :=
  match n with
  | O => Done c
  | Datatypes.S n => c ← exchange i payload_str c; exchanges n (i + 1) payload_str c
  end.

(** * Specification *)

(** The requests as messages. *)
Definition requests (n : nat) (i : Z) (payload_str : bytes) : list (RpcHeader * bytes) :=
  (fun j => (request_header j (SerializeRequest payload_str), SerializeRequest payload_str))
    <$> seqZ i (Z.of_nat n).

(** The kernel accepts at least one byte and no more than offered. *)
Definition socket_ok : Prop := forall t len, 0 < len -> 0 < k_send t len <= len.

(** What is still to come from the peer. *)
Definition pending (c : Client) : bytes := recv_staging c ++ concat (omap id (incoming c)).

(** The peer does not close the connection. *)
Definition open_stream (c : Client) : Prop := Forall (fun ch => exists x bs, ch = Some (x :: bs)) (incoming c).

(** * Lemmas *)

Lemma SendAll_loop_ok fuel : forall data t out,
  socket_ok -> (length data < fuel)%nat ->
  exists t', SendAll_loop fuel data t out = Done (t', out ++ data).
Proof.
  induction fuel as [|fuel IH]; intros data t out Hs Hf; [lia|]. cbn [SendAll_loop].
  destruct (Z.ltb_spec 0 (zlen data)) as [Hd|Hd].
  - destruct (Hs t (zlen data) Hd). rewrite (proj2 (Z.leb_gt _ _)) by lia.
    destruct (IH (drop (Z.to_nat (k_send t (zlen data))) data) (Datatypes.S t)
                (out ++ take (Z.to_nat (k_send t (zlen data))) data) Hs) as [t' ->].
    + rewrite length_drop. unfold zlen in *. lia.
    + exists t'. by rewrite <- app_assoc, take_drop.
  - assert (data = []) as -> by (apply zlen_0_nil; pose proof (zlen_nonneg data); lia).
    exists t. by rewrite app_nil_r.
Qed.

Lemma SendAll_ok data c :
  socket_ok -> exists t, SendAll data c = Done (mkClient (recv_staging c) (incoming c) t (wire_out c ++ data)).
Proof.
  intros Hs. unfold SendAll.
  destruct (SendAll_loop_ok (Datatypes.S (length data)) data (sends c) (wire_out c) Hs) as [t ->]; [lia|].
  by exists t.
Qed.

(** [RecvExact] returns as soon as the bytes are there, and loses none. *)
Lemma RecvExact_ok need c :
  open_stream c -> need <= zlen (pending c) ->
  exists c', RecvExact need c = Done c' /\ open_stream c' /\ pending c' = pending c /\
    need <= zlen (recv_staging c') /\ wire_out c' = wire_out c.
Proof.
  destruct c as [buf inc t out]. unfold RecvExact, open_stream, pending. cbn [recv_staging incoming sends wire_out].
  revert buf. induction inc as [|ch inc IH]; intros buf Ho Hn; cbn [RecvExact_loop].
  - cbn in Hn. rewrite app_nil_r in Hn. rewrite (proj2 (Z.ltb_ge _ _)) by lia.
    eexists. by split_and!.
  - destruct (Z.ltb_spec (zlen buf) need) as [Hb|Hb]; [|eexists; by split_and!].
    apply Forall_cons in Ho as [(x & bs & ->) Ho]. cbn [omap list_omap id concat] in *.
    rewrite app_assoc in *. by apply IH.
Qed.

Lemma erase_ok n c :
  0 <= n <= zlen (recv_staging c) ->
  exists c', erase n c = Done c' /\ incoming c' = incoming c /\
    pending c' = drop (Z.to_nat n) (pending c) /\ wire_out c' = wire_out c.
Proof.
  intros Hn. unfold erase. rewrite (proj2 (Z.leb_le _ _)) by lia. eexists. split; [done|].
  split_and!; [done| |done]. unfold pending. cbn. rewrite drop_app_le; [done|].
  unfold zlen in Hn. lia.
Qed.

(** ... and waits while they are not. *)
Lemma RecvExact_waits need c : open_stream c -> zlen (pending c) < need -> RecvExact need c = Waiting.
Proof.
  destruct c as [buf inc t out]. unfold RecvExact, open_stream, pending. cbn [recv_staging incoming sends wire_out].
  revert buf. induction inc as [|ch inc IH]; intros buf Ho Hn; cbn [RecvExact_loop].
  - cbn in Hn. rewrite app_nil_r in Hn. by rewrite (proj2 (Z.ltb_lt _ _)).
  - apply Forall_cons in Ho as [(x & bs & ->) Ho]. cbn [omap list_omap id concat] in *.
    rewrite app_assoc in Hn. rewrite zlen_app in Hn.
    pose proof (zlen_nonneg (concat (omap id inc))). pose proof (zlen_nonneg (x :: bs)). rewrite zlen_app in Hn.
    rewrite (proj2 (Z.ltb_lt _ _)) by lia. apply IH; [done|]. rewrite !zlen_app. lia.
Qed.

(** The header of a response is taken off the stream. *)
Lemma receive_header_ok c h len rest :
  open_stream c -> header_ok h -> 0 <= len < 2 ^ 32 -> pending c = wire_header h len ++ rest ->
  exists c', open_stream c' /\ pending c' = rest /\ wire_out c' = wire_out c /\
    receive_response c = (c ← RecvExact len c'; c ← erase len c;
                          Done (mkHeader MAGIC_NUMBER (version h) (msg_type h) (seq_id h) len, c)).
Proof.
  intros Ho Hh Hl Hp. unfold receive_response. pose proof (zlen_nonneg rest).
  destruct (RecvExact_ok HEADER_SIZE c Ho) as (c1 & -> & Ho1 & Hp1 & Hn1 & Hw1).
  { rewrite Hp, zlen_app, zlen_wire_header. unfold HEADER_SIZE. lia. }
  cbn [mbind io_bind]. rewrite mem_read_ok by (unfold HEADER_SIZE in *; lia). cbn [lift mbind io_bind].
  assert (Him : slice (recv_staging c1) 0 HEADER_SIZE = wire_header h len).
  { rewrite slice_take. rewrite Hp in Hp1. apply (f_equal (take 12)) in Hp1. unfold pending in Hp1.
    change (Z.to_nat HEADER_SIZE) with 12%nat.
    rewrite take_app_le in Hp1 by (unfold zlen, HEADER_SIZE in Hn1; lia). rewrite Hp1.
    apply take_wire_header. }
  rewrite Him. destruct (erase_ok HEADER_SIZE c1) as (c2 & -> & Hi2 & Hp2 & Hw2);
    [unfold HEADER_SIZE in *; lia|]. cbn [mbind io_bind].
  pose proof (decode_header_host (wire_header h len) (zlen_wire_header h len)) as Hd.
  cbn zeta in Hd. rewrite Hd. rewrite decode_wire_header by (try done; lia).
  cbn [magic payload_len]. rewrite Z.eqb_refl. cbn [negb].
  exists c2. split_and!; [unfold open_stream in *; by rewrite Hi2| |congruence|done].
  rewrite Hp2, Hp1, Hp. change (Z.to_nat HEADER_SIZE) with (length (wire_header h len)). apply drop_app_length.
Qed.

(** One response is taken off the stream, whatever its fragmentation. *)
Lemma receive_response_ok c h p rest :
  open_stream c -> sendable (h, p) -> pending c = wire_frame h p ++ rest ->
  exists c', receive_response c = Done (received_header h p, c') /\ open_stream c' /\
    pending c' = rest /\ wire_out c' = wire_out c.
Proof.
  intros Ho [Hh Hl] Hp. cbn [fst snd] in Hh, Hl. pose proof (zlen_nonneg p). pose proof (zlen_nonneg rest).
  unfold wire_frame in Hp. rewrite <- app_assoc in Hp.
  destruct (receive_header_ok c h (zlen p) (p ++ rest) Ho Hh) as (c2 & Ho2 & Hp2 & Hw2 & ->); [lia|done|].
  destruct (RecvExact_ok (zlen p) c2 Ho2) as (c3 & -> & Ho3 & Hp3 & Hn3 & Hw3); [rewrite Hp2, zlen_app; lia|].
  cbn [mbind io_bind]. destruct (erase_ok (zlen p) c3) as (c4 & -> & Hi4 & Hp4 & Hw4); [lia|].
  cbn [mbind io_bind]. exists c4. split; [done|]. split_and!.
  - unfold open_stream in *. by rewrite Hi4.
  - rewrite Hp4, Hp3, Hp2. unfold zlen. rewrite Nat2Z.id. apply drop_app_length.
  - congruence.
Qed.

(** The client waits while a response is incomplete. *)
Lemma receive_response_waits c ms :
  open_stream c -> Forall sendable ms -> partial (pending c) ms -> receive_response c = Waiting.
Proof.
  intros Ho Hs Hp. destruct (Z_lt_ge_dec (zlen (pending c)) HEADER_SIZE) as [Hz|Hz].
  { unfold receive_response. by rewrite RecvExact_waits. }
  destruct ms as [|[h p] ms]; [unfold partial in Hp; rewrite Hp in Hz; by vm_compute in Hz|].
  destruct Hp as (r & Hr & Hne). apply Forall_cons in Hs as [[Hh Hl] _]. cbn [fst snd] in *.
  pose proof (zlen_nonneg p). apply (f_equal (drop 12)) in Hr as Hd.
  apply (f_equal (take 12)) in Hr as Ht. unfold wire_frame in Ht, Hd. rewrite take_wire_header in Ht.
  rewrite take_app_le in Ht by (unfold zlen, HEADER_SIZE in Hz; lia).
  destruct (receive_header_ok c h (zlen p) (drop 12 (pending c)) Ho Hh) as (c2 & Ho2 & Hp2 & _ & ->); [lia| |].
  { rewrite Ht. by rewrite take_drop. }
  rewrite RecvExact_waits; [done|done|]. rewrite Hp2.
  apply (f_equal zlen) in Hr. rewrite zlen_wire_frame, zlen_app in Hr.
  assert (zlen r <> 0) by (intros ?%zlen_0_nil; done). pose proof (zlen_nonneg r).
  unfold zlen, HEADER_SIZE in *. rewrite length_drop. lia.
Qed.

Lemma build_request_ok i payload_str :
  zlen (SerializeRequest payload_str) < 2 ^ 32 ->
  build_request i payload_str =
    Ok (wire_frame (request_header i (SerializeRequest payload_str)) (SerializeRequest payload_str)).
Proof. apply encode_fresh. Qed.

Lemma requests_S n i payload_str :
  requests (Datatypes.S n) i payload_str =
    (request_header i (SerializeRequest payload_str), SerializeRequest payload_str) ::
    requests n (i + 1) payload_str.
Proof.
  unfold requests. rewrite seqZ_cons by lia. cbn [fmap list_fmap]. do 2 f_equal.
  unfold Z.succ. f_equal. lia.
Qed.

Lemma exchanges_ok payload_str resps : forall i c rest,
  socket_ok -> zlen (SerializeRequest payload_str) < 2 ^ 32 -> open_stream c ->
  Forall sendable resps -> pending c = wire resps ++ rest ->
  exists c', exchanges (length resps) i payload_str c = Done c' /\
    wire_out c' = wire_out c ++ wire (requests (length resps) i payload_str) /\
    pending c' = rest /\ open_stream c'.
Proof.
  induction resps as [|[h p] resps IH]; intros i c rest Hs Hsz Ho Hr Hp; cbn [length exchanges].
  { exists c. by rewrite app_nil_r. }
  apply Forall_cons in Hr as [Hm Hr]. unfold exchange.
  rewrite build_request_ok by done. cbn [lift mbind io_bind]. set (d := wire_frame _ _).
  destruct (SendAll_ok d c Hs) as [t ->]. cbn [mbind io_bind].
  change (wire ((h, p) :: resps)) with (wire_frame h p ++ wire resps) in Hp.
  rewrite <- app_assoc in Hp. set (c1 := mkClient _ _ _ _).
  destruct (receive_response_ok c1 h p (wire resps ++ rest) Ho Hm Hp) as (c2 & -> & Ho2 & Hp2 & Hw2).
  cbn [mbind io_bind].
  destruct (IH (i + 1) c2 rest Hs Hsz Ho2 Hr Hp2) as (c3 & -> & Hw3 & Hp3 & Ho3).
  exists c3. split_and!; [done| |done..]. rewrite requests_S, Hw3, Hw2. unfold wire.
  rewrite bind_cons. cbn [fst snd c1 wire_out]. by rewrite <- app_assoc.
Qed.

End Client.

(** * Client and server *)

Section Agreement.
Context {HO : HostOrder} {S : Socket} {CP : ClientProtobuf} {PB : Protobuf}.

(** What the generated classes guarantee: a serialized request parses back,
    and messages are below the 2 GiB limit of protobuf, header included. *)
Definition protobuf_ok (payload_str : bytes) : Prop :=
  ParseFromArray (SerializeRequest payload_str) = Some payload_str /\
  zlen (SerializeRequest payload_str) < 2 ^ 31 - HEADER_SIZE /\
  zlen (SerializeToString (echo_prefix ++ payload_str)) < 2 ^ 31 - HEADER_SIZE.

(** The replies of the echo server to the requests of the client. *)
Definition replies (n : nat) (i : Z) (payload_str : bytes) : list (RpcHeader * bytes) :=
  (fun j => (mkHeader MAGIC_NUMBER 1 1 (u32 j) (zlen (SerializeRequest payload_str)),
             SerializeToString (echo_prefix ++ payload_str))) <$> seqZ i (Z.of_nat n).

Lemma request_header_ok i p : header_ok (request_header i p).
Proof.
  pose proof (u32_range i). pose proof (u32_range (zlen p)). unfold header_ok, MAGIC_NUMBER.
  cbn. unfold MAGIC_NUMBER. lia.
Qed.

Lemma requests_sendable n i payload_str :
  protobuf_ok payload_str -> Forall sendable (requests n i payload_str).
Proof.
  intros (_ & Hs & _). apply Forall_fmap, Forall_forall. intros j _. split; [apply request_header_ok|].
  cbn. unfold HEADER_SIZE in *. lia.
Qed.

Lemma replies_sendable n i payload_str :
  protobuf_ok payload_str -> Forall sendable (replies n i payload_str).
Proof.
  intros (_ & Hs & Hr). apply Forall_fmap, Forall_forall. intros j _.
  pose proof (u32_range j). pose proof (zlen_nonneg (SerializeRequest payload_str)).
  unfold compose, sendable, header_ok, HEADER_SIZE, MAGIC_NUMBER in *.
  cbn [fst snd magic version msg_type seq_id payload_len]. lia.
Qed.

(** The server's responses to the requests, as it sees them, are the replies. *)
Lemma responses_requests n payload_str : forall i,
  protobuf_ok payload_str ->
  responses (seen (requests n i payload_str)) = wire (replies n i payload_str) /\
  Forall small_response (seen (requests n i payload_str)).
Proof.
  induction n as [|n IH]; intros i Hpb; [by split; constructor|].
  destruct (IH (i + 1) Hpb) as [IH1 IH2]. pose proof Hpb as (Hp & Hs & Hr).
  rewrite requests_S. unfold seen in *. cbn [map fst snd].
  assert (Hrep : replies (Datatypes.S n) i payload_str =
    (mkHeader MAGIC_NUMBER 1 1 (u32 i) (zlen (SerializeRequest payload_str)),
     SerializeToString (echo_prefix ++ payload_str)) :: replies n (i + 1) payload_str).
  { unfold replies. rewrite seqZ_cons by lia. cbn [fmap list_fmap]. do 2 f_equal.
    unfold Z.succ. f_equal. lia. }
  assert (Hresp : response (received_header (request_header i (SerializeRequest payload_str))
                     (SerializeRequest payload_str), SerializeRequest payload_str) =
    wire_frame (mkHeader MAGIC_NUMBER 1 1 (u32 i) (zlen (SerializeRequest payload_str)))
      (SerializeToString (echo_prefix ++ payload_str))).
  { unfold response. cbn [msg_type received_header request_header]. rewrite Z.eqb_refl, Hp. done. }
  split.
  - unfold responses in *. rewrite bind_cons, Hresp, IH1, Hrep. done.
  - constructor; [|done]. unfold small_response. rewrite Hresp, zlen_wire_frame. lia.
Qed.

End Agreement.

(** * Properties *)

(** A socket that takes at most five bytes at a time. *)
#[local] Instance slow_socket : Socket := {| k_send _ len := Z.min 5 len |}.
#[local] Instance plain_requests : ClientProtobuf := {| SerializeRequest m := m |}.
#[local] Existing Instance plain_messages.
#[local] Existing Instance little.

Lemma slow_socket_ok : socket_ok.
Proof. intros t len Hl. cbn. lia. Qed.

(** C20: The client's request loop completes against any peer that answers
    with as many well-formed frames, however they are fragmented and whatever
    partial sends the kernel makes: it sends the encoded requests with
    sequence numbers 0, 1, ... in order, takes exactly one frame off the
    stream per request, and keeps the surplus bytes. *)
Theorem client_completes_its_requests (HO : HostOrder) (S : Socket) (CP : ClientProtobuf)
    payload_str resps rest c :
  socket_ok -> zlen (SerializeRequest payload_str) < 2 ^ 32 -> open_stream c ->
  Forall sendable resps -> pending c = wire resps ++ rest ->
  exists c', exchanges (length resps) 0 payload_str c = Done c' /\
    wire_out c' = wire_out c ++ wire (requests (length resps) 0 payload_str) /\
    pending c' = rest.
Proof.
  intros Hs Hsz Ho Hr Hp.
  destruct (exchanges_ok payload_str resps 0 c rest Hs Hsz Ho Hr Hp) as (c' & ? & ? & ? & _).
  by exists c'.
Qed.

(** Two answers, cut in the middle of the first header. *)
Definition answer_stream : bytes := wire [request; request].
Definition client0 : Client :=
  mkClient [] [Some (take 7 answer_stream); Some (drop 7 answer_stream ++ [Byte.x54])] 0 [].

Lemma client0_open : open_stream client0.
Proof. repeat constructor; by eexists _, _. Qed.

Lemma client_completes_its_requests_witness :
  exists c', exchanges (length [request; request]) 0 sample_payload client0 = Done c' /\
    wire_out c' = wire_out client0 ++ wire (requests (length [request; request]) 0 sample_payload) /\
    pending c' = [Byte.x54].
Proof.
  apply (client_completes_its_requests little slow_socket plain_requests sample_payload
           [request; request] [Byte.x54] client0).
  - exact slow_socket_ok.
  - vm_compute. reflexivity.
  - exact client0_open.
  - apply Forall_cons. split; [|exact request_sendable]. apply (Forall_cons_1 _ _ _ request_sendable).
  - vm_compute. reflexivity.
Defined.

(** C11: Client and server agree end to end: a session of the echo server
    that is delivered the client's requests, in any fragments, without a
    failing write and up to a point where it is not writing, has sent a byte
    stream on which the client's loop completes and which it consumes to the
    last byte; the two hosts may have different byte orders. *)
Theorem client_and_server_agree (K : Kernel) (HO1 HO2 : HostOrder) (S : Socket) (CP : ClientProtobuf)
    (PB : Protobuf) h_read h_write r_read r_write c ar k es n payload_str cl :
  let s0 := handleConnection h_read h_write r_read r_write c ar k in
  sq_never_full K -> fresh c ar k -> protobuf_ok payload_str -> socket_ok ->
  possible_run (HO := HO1) h_read h_write r_read r_write s0 es = true ->
  concat (delivered_chunks es) = wire (requests n 0 payload_str) ->
  zlen (wire (requests n 0 payload_str)) + 4096 <= VECTOR_MAX ->
  forallb write_ok es = true ->
  exists s', (s ← s0; sess_run (HO := HO1) h_read h_write r_read r_write s es) = Ok s' /\
    ((forall f aw, wr s' <> InWrite f aw) -> open_stream cl -> pending cl = sent s' ->
     exists cl', exchanges (HO := HO2) n 0 payload_str cl = Done cl' /\ pending cl' = []).
Proof.
  cbn zeta. intros Hsq Hfr Hpb Hsk Hp Hc Hmax Hok.
  destruct (responses_requests n payload_str 0 Hpb) as [Hresp Hsm].
  destruct (sess_run_requests (HO := HO1) h_read h_write r_read r_write Hsq c ar k es
              (requests n 0 payload_str) Hfr Hp (requests_sendable n 0 payload_str Hpb) Hc Hmax Hsm Hok)
    as (s' & -> & Hsent & Hall).
  exists s'. split; [done|]. intros Hnw Ho Hpend. rewrite (Hall Hnw), Hresp in Hpend.
  rewrite <- (app_nil_r (wire _)) in Hpend. destruct Hpb as (Hpa & Hsz & Hsz2).
  destruct (exchanges_ok (HO := HO2) payload_str (replies n 0 payload_str) 0 cl [] Hsk) as (cl' & E & _ & Hp' & _);
    [unfold HEADER_SIZE in *; lia|done|by apply replies_sendable|done|].
  exists cl'. split; [|done]. rewrite <- E. f_equal. unfold replies. rewrite length_fmap, length_seqZ. lia.
Qed.

(** The client's single request, as the completions of the session. *)
Definition one_exchange : list completion :=
  [ReadDone (wire (requests 1 0 sample_payload)); WriteDone 20].

Definition one_run : outcome Sess :=
  (s ← echo_start; @sess_run open_kernel _ _ 1 2 1 2 s one_exchange)%positive.

(** The client's side of it, with what the session sent. *)
Definition one_client : Client :=
  mkClient [] [match one_run with Ok s => Some (sent s) | _ => None end] 0 [].

Lemma client_and_server_agree_witness :
  exists s', one_run = Ok s' /\
    exists cl', exchanges 1 0 sample_payload one_client = Done cl' /\ pending cl' = [].
Proof.
  destruct (client_and_server_agree open_kernel little little slow_socket plain_requests plain_messages
              1 2 1 2 echo_conn.2 echo_arena echo_conn.1 one_exchange 1 sample_payload
              one_client) as (s' & E & H).
  - exact open_kernel_room.
  - exact echo_fresh.
  - vm_compute. split_and!; reflexivity.
  - exact slow_socket_ok.
  - vm_compute. reflexivity.
  - vm_compute. reflexivity.
  - vm_compute. discriminate.
  - vm_compute. reflexivity.
  - unfold one_run, echo_start. exists s'. split; [exact E|]. apply H.
    + assert (Hw : wr s' = match one_run with Ok s => wr s | _ => WriterDone end)
        by (unfold one_run, echo_start; by rewrite E).
      rewrite Hw. vm_compute. discriminate.
    + apply Forall_singleton. vm_compute. by eexists _, _.
    + unfold one_client, one_run, echo_start, pending. rewrite E. cbn. by rewrite app_nil_r.
Defined.
