(* ===== verification/Recv.v ===== *)
(** [RecvExact] of the clients with the buffer on its stack: [char tmp[4096]] in
    [examples/latency_bench.cpp] and [examples/latency_bench_mt.cpp],
    [char tmp[65536]] in [examples/multiplex_bench.cpp] and
    [examples/mt_multiplex_bench.cpp].

    [Client] leaves open how [recv] cuts the stream.  Here the segments that
    have arrived at the socket are given, and a call of [recv] returns the next
    one, or as much of it as fits into [tmp].  The result is a run of [Client]'s
    [RecvExact] on the segments cut to that size; it depends on the size only
    in how much is read ahead, for which there is a bound. *)
From S2P Require Import Prelude Buffer Protocol IoContext Coro Connection ResponseQueue Echo Client.

(** [recv(fd, tmp, sizeof(tmp), 0)]; nothing has arrived: [None]. *)
Definition recv (size : nat) (segs : list (option bytes)) : option (option bytes * list (option bytes)) :=
  match segs with
  | [] => None
  | None :: segs => Some (None, segs)
  | Some seg :: segs =>
      if (length seg <=? size)%nat then Some (Some seg, segs)
      else Some (Some (take size seg), Some (drop size seg) :: segs)
  end.

(** Every turn of the loop adds a byte, so that as many turns as bytes are
    missing, and one more, are enough. *)
Fixpoint recv_loop (size fuel : nat) (segs : list (option bytes)) (buf : bytes) (need : Z)
  : io (list (option bytes) * bytes) :=
  match fuel with
  | O => Undef "out of fuel"
  | S fuel =>
      if zlen buf <? need then
        match recv size segs with
        | None => Waiting
        | Some (Some (x :: bs), segs) => recv_loop size fuel segs (buf ++ x :: bs) need
        | Some (_, _) => Raised "recv failed / connection closed"
        end
      else Done (segs, buf)
  end.

Definition RecvExact_with (size : nat) (segs : list (option bytes)) (buf : bytes) (need : Z)
  : io (list (option bytes) * bytes) :=
  recv_loop size (S (Z.to_nat (need - zlen buf))) segs buf need.

(** The two sizes. *)
Definition RecvExact_page : list (option bytes) -> bytes -> Z -> io (list (option bytes) * bytes) :=
  RecvExact_with (Z.to_nat 4096).
Definition RecvExact_large : list (option bytes) -> bytes -> Z -> io (list (option bytes) * bytes) :=
  RecvExact_with (Z.to_nat 65536).

(** * Specification *)

(** The bytes that come before an end of file or an error, and whether there is
    one. *)
Fixpoint stream (segs : list (option bytes)) : bytes * bool :=
  match segs with
  | [] => ([], false)
  | Some (x :: bs) :: segs => ((x :: bs) ++ (stream segs).1, (stream segs).2)
  | _ :: _ => ([], true)
  end.

(** The segments cut to at most [size] bytes. *)
Fixpoint pieces (fuel size : nat) (seg : bytes) : list bytes :=
  match fuel with
  | O => [seg]
  | S fuel => if (length seg <=? size)%nat then [seg] else take size seg :: pieces fuel size (drop size seg)
  end.

Definition cut (size : nat) (segs : list (option bytes)) : list (option bytes) :=
  segs ≫= fun s => match s with Some seg => Some <$> pieces (length seg) size seg | None => [None] end.

(** * Lemmas *)

(** What a call of [recv] does to the segments. *)
Lemma recv_stream size segs : (0 < size)%nat ->
  match recv size segs with
  | None => segs = []
  | Some (Some (x :: bs), segs') =>
      (length (x :: bs) <= size)%nat /\ stream segs = ((x :: bs) ++ (stream segs').1, (stream segs').2)
  | Some (_, _) => stream segs = ([], true)
  end.
Proof.
  intros Hs. destruct segs as [|[seg|] segs]; [done| |done]. cbn [recv].
  destruct (Nat.leb_spec (length seg) size) as [Hl|Hl]; [by destruct seg|].
  pose proof (take_drop size seg) as Htd. pose proof (length_take_le seg size ltac:(lia)) as Hlt.
  destruct (take size seg) as [|x bs]; [cbn in Hlt; lia|]. split; [lia|].
  assert (Hd : drop size seg <> []) by (intros E; apply (f_equal length) in E; rewrite length_drop in E; cbn in E; lia).
  destruct seg as [|y seg]; [done|]. destruct (drop size (y :: seg)) as [|z rest]; [done|]. cbn [stream fst snd].
  by rewrite app_assoc, Htd.
Qed.

Lemma pieces_fuel size : (0 < size)%nat -> forall fuel1 fuel2 seg,
  (length seg <= fuel1)%nat -> (length seg <= fuel2)%nat -> pieces fuel1 size seg = pieces fuel2 size seg.
Proof.
  intros Hs. induction fuel1 as [|fuel1 IH]; intros [|fuel2] seg H1 H2; cbn [pieces]; [done| | |].
  - by rewrite (proj2 (Nat.leb_le _ _)) by lia.
  - by rewrite (proj2 (Nat.leb_le _ _)) by lia.
  - destruct (Nat.leb_spec (length seg) size); [done|]. f_equal. apply IH; rewrite length_drop; lia.
Qed.

(** ... and to their pieces. *)
Lemma recv_cut size segs : (0 < size)%nat ->
  match recv size segs with
  | None => cut size segs = []
  | Some (ch, segs') => cut size segs = ch :: cut size segs'
  end.
Proof.
  intros Hs. destruct segs as [|[seg|] segs]; [done| |done]. cbn [recv].
  destruct (Nat.leb_spec (length seg) size) as [Hl|Hl]; unfold cut; rewrite !bind_cons.
  - destruct seg as [|x seg]; [done|]. cbn [length pieces]. by rewrite (proj2 (Nat.leb_le _ _)).
  - destruct seg as [|x seg]; [cbn in Hl; lia|]. set (seg' := x :: seg) in *.
    change (length seg') with (S (length seg)) at 1. cbn [pieces]. rewrite (proj2 (Nat.leb_gt _ _)) by done.
    cbn [fmap list_fmap app]. do 2 f_equal. f_equal. apply pieces_fuel; [done| |done]. rewrite length_drop. cbn. lia.
Qed.

Lemma recv_loop_ok size need : (0 < size)%nat -> forall fuel segs buf,
  (Z.to_nat (need - zlen buf) < fuel)%nat ->
  match recv_loop size fuel segs buf need with
  | Done (rest, buf') =>
      need <= zlen buf' <= Z.max (zlen buf) (need - 1 + Z.of_nat size) /\
      buf' ++ (stream rest).1 = buf ++ (stream segs).1 /\ (stream rest).2 = (stream segs).2 /\
      RecvExact_loop (cut size segs) buf need = Done (cut size rest, buf')
  | Waiting =>
      zlen (buf ++ (stream segs).1) < need /\ (stream segs).2 = false /\ RecvExact_loop (cut size segs) buf need = Waiting
  | Raised why =>
      zlen (buf ++ (stream segs).1) < need /\ (stream segs).2 = true /\
      RecvExact_loop (cut size segs) buf need = Raised why
  | Undef _ => False
  end.
Proof.
  intros Hs. induction fuel as [|fuel IH]; intros segs buf Hf; [lia|]. cbn [recv_loop].
  destruct (Z.ltb_spec (zlen buf) need) as [Hb|Hb].
  2:{ split_and!; [lia|lia|done|done|]. destruct (cut size segs); cbn [RecvExact_loop]; by rewrite (proj2 (Z.ltb_ge _ _)). }
  pose proof (recv_stream size segs Hs) as Hst. pose proof (recv_cut size segs Hs) as Hcut.
  assert (Hgo : (zlen buf <? need) = true) by (by apply Z.ltb_lt).
  destruct (recv size segs) as [[[[|x bs]|] segs']|].
  - rewrite Hst, Hcut, app_nil_r. cbn [RecvExact_loop fst snd]. by rewrite Hgo.
  - destruct Hst as [Hlen Hst]. rewrite Hst, Hcut. cbn [RecvExact_loop fst snd]. rewrite Hgo, app_assoc.
    specialize (IH segs' (buf ++ x :: bs)). rewrite zlen_app in IH. unfold zlen in *. cbn [length] in *.
    specialize (IH ltac:(lia)). destruct (recv_loop _ _ _ _ _) as [[rest buf']| | |]; [|done..].
    destruct IH as ([? ?] & ?). split; [lia|done].
  - rewrite Hst, Hcut, app_nil_r. cbn [RecvExact_loop fst snd]. by rewrite Hgo.
  - rewrite Hcut, Hst. cbn [stream fst snd RecvExact_loop]. by rewrite app_nil_r, Hgo.
Qed.

(** * Properties *)

(** [RecvExact] with a buffer of any size.  It returns if and only if the bytes
    needed come before the end of the stream, otherwise waits while the
    connection is open, and throws when it is not; it loses no byte; it holds
    at most what it started with, or what is needed and a buffer less one; and it
    is a run of [RecvExact_loop], with the stream cut to the size of [tmp]. *)
Theorem recv_exact_any_size size segs buf need :
  (0 < size)%nat ->
  match RecvExact_with size segs buf need with
  | Done (rest, buf') =>
      need <= zlen buf' <= Z.max (zlen buf) (need - 1 + Z.of_nat size) /\
      buf' ++ (stream rest).1 = buf ++ (stream segs).1 /\ (stream rest).2 = (stream segs).2 /\
      RecvExact_loop (cut size segs) buf need = Done (cut size rest, buf')
  | Waiting =>
      zlen (buf ++ (stream segs).1) < need /\ (stream segs).2 = false /\ RecvExact_loop (cut size segs) buf need = Waiting
  | Raised why =>
      zlen (buf ++ (stream segs).1) < need /\ (stream segs).2 = true /\
      RecvExact_loop (cut size segs) buf need = Raised why
  | Undef _ => False
  end.
Proof. intros Hs. apply recv_loop_ok; [done|lia]. Qed.

(** The clients with different buffers agree: whether they return, wait or
    throw does not depend on the size. *)
Corollary recv_sizes_agree segs buf need :
  match RecvExact_page segs buf need, RecvExact_large segs buf need with
  | Done (rest1, buf1), Done (rest2, buf2) => buf1 ++ (stream rest1).1 = buf2 ++ (stream rest2).1
  | Waiting, Waiting => True
  | Raised e1, Raised e2 => True
  | _, _ => False
  end.
Proof.
  unfold RecvExact_page, RecvExact_large.
  pose proof (recv_loop_ok (Z.to_nat 4096) need ltac:(lia) (S (Z.to_nat (need - zlen buf))) segs buf ltac:(lia)) as H1.
  pose proof (recv_loop_ok (Z.to_nat 65536) need ltac:(lia) (S (Z.to_nat (need - zlen buf))) segs buf ltac:(lia)) as H2.
  unfold RecvExact_with.
  destruct (recv_loop (Z.to_nat 4096) _ _ _ _) as [[r1 b1]| | |], (recv_loop (Z.to_nat 65536) _ _ _ _) as [[r2 b2]| | |];
    try done; try destruct H1 as (? & E1 & ?); try destruct H2 as (? & E2 & ?); try congruence.
  all: try (rewrite <- E1, zlen_app in *; pose proof (zlen_nonneg (stream r1).1); lia).
  all: try (rewrite <- E2, zlen_app in *; pose proof (zlen_nonneg (stream r2).1); lia).
Qed.
