(* ===== verification/Multiplex.v ===== *)
(** The pipelined benchmark client ([examples/multiplex_bench.cpp]): a sender
    and a receiver thread that share the map of pending requests, the window
    counter [in_flight] and the flag [recv_error].

    The threads are step functions of a shared state; an execution is any
    interleaving of their atomic steps (the critical sections of [pending_mu]
    and the operations on the atomics, which are sequentially consistent
    here).  The bytes on the connection are those of [Client]: [Rx seq] is a
    response frame taken off the stream.  [unanswered] records which requests
    are on their way; a latency is named by the request it belongs to.  The
    program around the threads is in [Mains]. *)
From S2P Require Import Prelude Protocol.

Inductive sender : Type :=
| STest                 (* for (...; i < count && !recv_error.load(); ...) *)
| SSpin                 (* while (in_flight.load() >= window) yield *)
| SRegister             (* pending[hdr.seq_id] = send_time *)
| SAdd                  (* in_flight.fetch_add(1) *)
| SSend                 (* SendAll *)
| SDone.

Inductive receiver : Type :=
| RTest                 (* for (...; i < count; ...) *)
| RRecv                 (* blocked in RecvExact *)
| RSub (seq : Z)        (* in_flight.fetch_sub(1) *)
| RDone.

Record Mux := mkMux {
  tx : sender;
  tx_i : Z;
  rx : receiver;
  rx_i : Z;
  in_flight : Z;
  recv_error : bool;
  pending : gset Z;         (* keys of the map *)
  latencies : list Z;       (* sequence numbers of the recorded latencies *)
  unanswered : gset Z
}.

Definition set_tx m x := mkMux x (tx_i m) (rx m) (rx_i m) (in_flight m) (recv_error m) (pending m)
  (latencies m) (unanswered m).
Definition set_rx m x := mkMux (tx m) (tx_i m) x (rx_i m) (in_flight m) (recv_error m) (pending m)
  (latencies m) (unanswered m).
Definition set_rx_i m x := mkMux (tx m) (tx_i m) (rx m) x (in_flight m) (recv_error m) (pending m)
  (latencies m) (unanswered m).
Definition set_in_flight m x := mkMux (tx m) (tx_i m) (rx m) (rx_i m) x (recv_error m) (pending m)
  (latencies m) (unanswered m).
Definition set_pending m x l := mkMux (tx m) (tx_i m) (rx m) (rx_i m) (in_flight m) (recv_error m) x
  l (unanswered m).
Definition set_error m := mkMux (tx m) (tx_i m) (rx m) (rx_i m) (in_flight m) true (pending m)
  (latencies m) (unanswered m).
Definition set_unanswered m x := mkMux (tx m) (tx_i m) (rx m) (rx_i m) (in_flight m) (recv_error m)
  (pending m) (latencies m) x.
Definition set_tx_i m x := mkMux (tx m) x (rx m) (rx_i m) (in_flight m) (recv_error m) (pending m)
  (latencies m) (unanswered m).

Section Mux.
Context (count window : Z).

Definition mux_init : Mux := mkMux STest 0 RTest 0 0 false ∅ [] ∅.

(** [hdr.seq_id = static_cast<uint32_t>(i)] *)
Definition seq_of (i : Z) : Z := u32 i.

(** The next step of the sender; [ok] is whether [SendAll] succeeds. *)
Definition sender_step (ok : bool) (m : Mux) : Mux :=
  match tx m with
  | STest => if (tx_i m <? count) && negb (recv_error m) then set_tx m SSpin else set_tx m SDone
  | SSpin => if window <=? in_flight m then m else set_tx m SRegister
  | SRegister => set_tx (set_pending m ({[seq_of (tx_i m)]} ∪ pending m) (latencies m)) SAdd
  | SAdd => set_tx (set_in_flight m (in_flight m + 1)) SSend
  | SSend =>
      if ok then
        set_tx (set_tx_i (set_unanswered m ({[seq_of (tx_i m)]} ∪ unanswered m)) (tx_i m + 1)) STest
      else set_tx m SDone
  | SDone => m
  end.

(** What the receiver's blocking call yields. *)
Inductive arrival : Type :=
| Rx (seq : Z)          (* a response *)
| RxError.              (* an exception: connection lost or bad magic *)

Definition receiver_step (x : arrival) (m : Mux) : Mux :=
  match rx m with
  | RTest => if rx_i m <? count then set_rx m RRecv else set_rx m RDone
  | RRecv =>
      match x with
      | RxError => set_rx (set_error m) RDone
      | Rx seq =>
          let m := set_unanswered m (unanswered m ∖ {[seq]}) in
          set_rx (if bool_decide (seq ∈ pending m)
                  then set_pending m (pending m ∖ {[seq]}) (latencies m ++ [seq]) else m) (RSub seq)
      end
  | RSub _ => set_rx (set_rx_i (set_in_flight m (in_flight m - 1)) (rx_i m + 1)) RTest
  | RDone => m
  end.

(** One step of either thread. *)
Inductive mevent : Type :=
| Tx (ok : bool)
| RxStep (x : arrival).

Definition mux_step (m : Mux) (e : mevent) : Mux :=
  match e with Tx ok => sender_step ok m | RxStep x => receiver_step x m end.

Definition mux_run (m : Mux) (es : list mevent) : Mux := fold_left mux_step es m.

(** The peer answers only requests that were sent, each once. *)
Definition answered_once (m : Mux) (e : mevent) : bool :=
  match e, rx m with
  | RxStep (Rx seq), RRecv => bool_decide (seq ∈ unanswered m)
  | _, _ => true
  end.

Fixpoint honest (m : Mux) (es : list mevent) : bool :=
  match es with
  | [] => true
  | e :: es => answered_once m e && honest (mux_step m e) es
  end.

(** * Invariant *)

(** Between [SRegister] and the end of [SendAll] the current request is
    registered; between [SAdd] and then it is counted. *)
Definition registered (m : Mux) : gset Z :=
  match tx m with SAdd | SSend => {[seq_of (tx_i m)]} | _ => ∅ end.
Definition counted (m : Mux) : Z := match tx m with SSend => 1 | _ => 0 end.
Definition received (m : Mux) : Z := match rx m with RSub _ => 1 | _ => 0 end.

(** The requests before the current one, as sequence numbers. *)
Definition earlier (i : Z) : gset Z := list_to_set (seqZ 0 i).

Record mux_ok (m : Mux) : Prop := {
  mo_i : 0 <= tx_i m;
  mo_progress : match tx m with STest | SDone => True | _ => tx_i m < count end;
  mo_unanswered : unanswered m ⊆ earlier (tx_i m);
  mo_pending : unanswered m ∪ registered m ⊆ pending m;
  mo_flight : Z.of_nat (size (unanswered m)) + counted m + received m <= in_flight m;
  mo_window : in_flight m <= Z.max 0 window;
  mo_room : match tx m with SRegister | SAdd => in_flight m < window | _ => True end;
  mo_latencies : Z.of_nat (length (latencies m)) = rx_i m + received m;
  mo_no_dup : NoDup (latencies m);
  mo_old : forall x, x ∈ latencies m -> x ∉ unanswered m /\ x ∈ earlier (tx_i m);
  mo_rx : match rx m with
          | RTest => 0 <= rx_i m <= Z.max 0 count
          | RRecv | RSub _ => 0 <= rx_i m < count
          | RDone => recv_error m = true \/ rx_i m = Z.max 0 count
          end
}.

Lemma elem_earlier i x : x ∈ earlier i <-> 0 <= x < i.
Proof. unfold earlier. rewrite elem_of_list_to_set, elem_of_seqZ. lia. Qed.

Lemma earlier_mono i : earlier i ⊆ earlier (i + 1).
Proof. intros x. rewrite !elem_earlier. lia. Qed.

Context (Hcount : count < 2 ^ 31).

Lemma seq_of_small i : 0 <= i < count -> seq_of i = i.
Proof. intros Hi. apply u32_small. lia. Qed.

Lemma sender_step_ok ok m : mux_ok m -> mux_ok (sender_step ok m).
Proof.
  intros Hm. pose proof Hm as [Hi Hpr Hun Hpe Hfl Hwi Hro Hla Hnd Hol Hrx].
  unfold sender_step. unfold registered, counted in *. destruct (tx m) eqn:Et.
  - destruct ((tx_i m <? count) && negb (recv_error m)) eqn:E.
    + apply andb_true_iff in E as [E%Z.ltb_lt _]. by constructor.
    + by constructor.
  - destruct (Z.leb_spec window (in_flight m)); [done|]. by constructor.
  - constructor; try done. cbn. set_solver.
  - constructor; unfold registered, counted, received in *; cbn; try done; lia.
  - destruct ok.
    2:{ constructor; unfold registered, counted, received in *; cbn; try done; [set_solver|lia]. }
    rewrite seq_of_small in * by lia.
    assert (Hfr : tx_i m ∉ unanswered m) by (intros H%Hun%elem_earlier; lia).
    constructor; try done; cbn.
    + lia.
    + intros x. rewrite elem_of_union, elem_of_singleton. rewrite elem_earlier.
      intros [->|Hx%Hun%elem_earlier]; lia.
    + unfold registered. cbn. set_solver.
    + unfold counted, received in *. cbn in *. rewrite size_union by set_solver.
      rewrite size_singleton. lia.
    + intros x Hx. destruct (Hol x Hx) as [H1 H2%elem_earlier]. rewrite elem_earlier. split; [|lia].
      intros [->%elem_of_singleton|?]%elem_of_union; [lia|done].
  - done.
Qed.

Lemma receiver_step_ok x m :
  mux_ok m -> answered_once m (RxStep x) = true -> mux_ok (receiver_step x m).
Proof.
  intros Hm Ha. pose proof Hm as [Hi Hpr Hun Hpe Hfl Hwi Hro Hla Hnd Hol Hrx].
  unfold receiver_step, answered_once in *. unfold received in *. destruct (rx m) eqn:Er.
  - destruct (Z.ltb_spec (rx_i m) count); constructor; try done; cbn; [lia|right; lia].
  - destruct x as [seq|]; [|by constructor; try done; left].
    apply bool_decide_eq_true in Ha.
    assert (Hin : seq ∈ pending (set_unanswered m (unanswered m ∖ {[seq]}))) by (cbn; set_solver).
    rewrite bool_decide_eq_true_2 by done.
    constructor; try done; cbn.
    + set_solver.
    + assert (registered m ## {[seq]}).
      { unfold registered. apply Hun, elem_earlier in Ha.
        destruct (tx m); rewrite ?seq_of_small by lia; set_solver by lia. }
      unfold registered in *. cbn in *. set_solver.
    + unfold counted, received in *. cbn in *. rewrite size_difference by set_solver.
      rewrite size_singleton. assert (size (unanswered m) <> 0%nat); [|lia].
      intros H0%size_empty_inv. set_solver.
    + unfold received. cbn. rewrite length_app. cbn. lia.
    + apply NoDup_app. split_and!; [done| |apply NoDup_singleton]. set_solver.
    + set_solver.
  - constructor; try done; cbn; unfold counted, received in *; cbn in *; try lia.
    destruct (tx m); lia.
  - done.
Qed.

Lemma mux_init_ok : mux_ok mux_init.
Proof.
  constructor; cbn; unfold counted, received; cbn; try done; try lia.
  - constructor.
  - intros x Hx. by apply elem_of_nil in Hx.
Qed.

Lemma mux_run_ok es : forall m, mux_ok m -> honest m es = true -> mux_ok (mux_run m es).
Proof.
  induction es as [|e es IH]; intros m Hm; cbn [honest]; [done|].
  intros [Ha Hh]%andb_true_iff. apply IH; [|done].
  destruct e; [by apply sender_step_ok|by apply receiver_step_ok].
Qed.

(** ** A sender that never returns *)

(** Five steps send one request when the window has room. *)
Definition send_one : list mevent := replicate 5 (Tx true).

Lemma mux_run_app m es es' : mux_run m (es ++ es') = mux_run (mux_run m es) es'.
Proof. apply fold_left_app. Qed.

Lemma honest_sends n : forall m, honest m (replicate n (Tx true)) = true.
Proof. induction n as [|n IH]; intros m; [done|]. cbn. apply IH. Qed.

Lemma honest_app es es' : forall m, honest m (es ++ es') = honest m es && honest (mux_run m es) es'.
Proof. induction es as [|e es IH]; intros m; [done|]. cbn. by rewrite IH, andb_assoc. Qed.

(** The state between two requests while the receiver has not run. *)
Definition at_request (n : Z) (m : Mux) : Prop :=
  tx m = STest /\ tx_i m = n /\ in_flight m = n /\ rx m = RTest /\ rx_i m = 0 /\ recv_error m = false.

Lemma send_one_ok n m : at_request n m -> n < window -> n < count -> at_request (n + 1) (mux_run m send_one).
Proof.
  destruct m as [t ti r ri f er pe la un]. intros (E1 & E2 & E3 & E4 & E5 & E6) Hw Hc. cbn in *. subst.
  cbn [mux_run fold_left send_one replicate mux_step sender_step tx tx_i recv_error negb].
  rewrite (proj2 (Z.ltb_lt _ _)) by done. cbn. rewrite (proj2 (Z.leb_gt _ _)) by done. cbn. done.
Qed.

Lemma sends_ok n : forall k m, at_request k m -> 0 <= k -> k + Z.of_nat n <= window -> window < count ->
  at_request (k + Z.of_nat n) (mux_run m (replicate (n * 5) (Tx true))).
Proof.
  induction n as [|n IH]; intros k m Hm Hk Hn Hc; [by rewrite Z.add_0_r|].
  change (S n * 5)%nat with (5 + n * 5)%nat. rewrite replicate_add, mux_run_app.
  replace (k + Z.of_nat (S n)) with ((k + 1) + Z.of_nat n) by lia.
  apply IH; [apply send_one_ok; [done|lia..]|lia..].
Qed.

(** A full window and a dead receiver. *)
Definition stuck (m : Mux) : Prop := tx m = SSpin /\ rx m = RDone /\ window <= in_flight m.

Lemma stuck_stays es : forall m, stuck m -> mux_run m es = m.
Proof.
  induction es as [|e es IH]; intros m Hm; [done|]. cbn.
  assert (mux_step m e = m) as ->; [|by apply IH]. destruct Hm as (E1 & E2 & E3).
  destruct e; cbn; unfold sender_step, receiver_step; rewrite ?E1, ?E2; [|done].
  by rewrite (proj2 (Z.leb_le _ _)).
Qed.

(** Fill the window, enter the spin loop, and lose the connection. *)
Definition lose_connection : list mevent :=
  replicate (Z.to_nat window * 5) (Tx true) ++ [Tx true; RxStep RxError; RxStep RxError].

Lemma lose_connection_stuck :
  0 < window < count ->
  stuck (mux_run mux_init lose_connection) /\ recv_error (mux_run mux_init lose_connection) = true.
Proof.
  intros [Hw Hc]. unfold lose_connection. rewrite mux_run_app.
  assert (Hi : at_request 0 mux_init) by done.
  pose proof (sends_ok (Z.to_nat window) 0 mux_init Hi) as Hm. rewrite Z2Nat.id, Z.add_0_l in Hm by lia.
  specialize (Hm ltac:(lia) ltac:(lia) Hc). set (m := mux_run mux_init _) in *. clearbody m.
  destruct m as [t ti r ri f er pe la un]. destruct Hm as (E1 & E2 & E3 & E4 & E5 & E6). cbn in *. subst.
  cbn [mux_run fold_left mux_step sender_step tx tx_i recv_error negb].
  rewrite (proj2 (Z.ltb_lt _ _)) by done. cbn. rewrite (proj2 (Z.ltb_lt 0 count)) by lia. cbn. done.
Qed.

End Mux.

(** * Properties *)

(** In every interleaving of the two threads against a peer that answers
    each request once, the window is respected, each response finds the entry
    of its request, so that one latency is recorded per response and none
    twice, and when the receiver ends without an error it has recorded one
    for every request. *)
Theorem multiplex_matches_every_response count window es :
  count < 2 ^ 31 -> honest count window mux_init es = true ->
  let m := mux_run count window mux_init es in
  0 <= in_flight m <= Z.max 0 window /\ unanswered m ⊆ pending m /\
  NoDup (latencies m) /\ Z.of_nat (length (latencies m)) = rx_i m + received m /\
  (rx m = RDone -> recv_error m = false -> Z.of_nat (length (latencies m)) = Z.max 0 count).
Proof.
  intros Hc Hh. cbn zeta.
  destruct (mux_run_ok count window Hc es mux_init (mux_init_ok count window) Hh)
    as [Hi _ _ Hpe Hfl Hwi _ Hla Hnd _ Hrx].
  assert (0 <= counted (mux_run count window mux_init es) /\ 0 <= received (mux_run count window mux_init es))
    by (unfold counted, received; destruct (tx _), (rx _); lia).
  split_and!; [lia|done|set_solver|done|done|].
  intros Er Ee. rewrite Er in Hrx. destruct Hrx as [?|Hrx]; [congruence|].
  rewrite Hla, Hrx. unfold received. rewrite Er. lia.
Qed.

(** Two requests with a window of two, answered in the opposite order. *)
Definition two_requests : list mevent :=
  replicate 11 (Tx true) ++
  [RxStep RxError; RxStep (Rx 1); RxStep RxError; RxStep RxError; RxStep (Rx 0); RxStep RxError; RxStep RxError].

Lemma multiplex_matches_every_response_witness :
  let m := mux_run 2 2 mux_init two_requests in
  latencies m = [1; 0] /\ rx m = RDone /\
  0 <= in_flight m <= Z.max 0 2 /\ unanswered m ⊆ pending m /\
  NoDup (latencies m) /\ Z.of_nat (length (latencies m)) = rx_i m + received m /\
  (rx m = RDone -> recv_error m = false -> Z.of_nat (length (latencies m)) = Z.max 0 2).
Proof.
  split; [vm_compute; reflexivity|]. split; [vm_compute; reflexivity|].
  apply (multiplex_matches_every_response 2 2 two_requests); [lia|vm_compute; reflexivity].
Defined.

(** C39: If the connection is lost while the window is full, the sender spins
    for ever: its wait loop does not look at [recv_error].  For every window
    smaller than the number of requests there is such an execution, against a
    peer that behaves correctly until then. *)
Theorem sender_spins_after_receiver_error count window :
  0 < window < count ->
  honest count window mux_init (lose_connection window) = true /\
  let m := mux_run count window mux_init (lose_connection window) in
  recv_error m = true /\ tx m = SSpin /\ forall es, mux_run count window m es = m.
Proof.
  intros Hw. destruct (lose_connection_stuck count window Hw) as [Hs He]. split.
  - unfold lose_connection. rewrite honest_app, honest_sends. cbn [andb honest answered_once].
    by repeat case_match.
  - cbn zeta. split; [done|]. split; [apply Hs|]. intros es. by apply stuck_stays.
Qed.

Lemma sender_spins_after_receiver_error_witness :
  honest 3 1 mux_init (lose_connection 1) = true /\
  let m := mux_run 3 1 mux_init (lose_connection 1) in
  recv_error m = true /\ tx m = SSpin /\ forall es, mux_run 3 1 m es = m.
Proof. apply (sender_spins_after_receiver_error 3 1). lia. Defined.
