(* ===== verification/EndToEnd.v ===== *)
(** A pipelined client and the whole server, end to end: the sender and the
    receiver thread of [examples/multiplex_bench.cpp] ([Multiplex]) at one end
    of a connection, a server at the other, with the bytes between them.

    The joint system interleaves the steps of both client threads and of the
    server in any order; on the wire, requests and responses are cut anywhere.
    The client is proved against an interface, [RpcPeer]: what it may rely on
    of a server.  A connection of the whole asynchronous server, with whatever
    its other clients do, is shown to be such a peer, and so is one of the
    plain server. *)
From S2P Require Import Prelude Buffer Protocol IoContext Coro Ledger Connection.
From S2P Require Import ResponseQueue Echo AsyncEcho Isolation Server Service EchoServer AsyncServer.
From S2P Require Import Client Multiplex.

(** * Peers *)

(** A server as the client sees it: steps, and the two byte streams of the
    connection.  [p_valid] is the contract of the kernel it runs on. *)
Class RpcPeer (St Ev : Type) := {
  p_step : St -> Ev -> outcome St;
  p_valid : St -> Ev -> Prop;
  p_delivered : St -> bytes;
  p_sent : St -> bytes
}.

(** It serves [reqs]: every step is defined, and what it has sent is a prefix
    of the replies to requests it was delivered in full, each answered at most
    once, in an order of its own that never changes. *)
Class RpcPeerSpec (St Ev : Type) {P : RpcPeer St Ev}
    (reqs : list (RpcHeader * bytes)) (reply_to : nat -> RpcHeader * bytes) := {
  p_inv : St -> Prop;
  p_order : St -> list nat;
  p_step_ok s e :
    p_inv s -> p_valid s e ->
    exists s', p_step s e = Ok s' /\ p_inv s' /\ p_order s `prefix_of` p_order s';
  p_served s :
    p_inv s ->
    exists got rest t, reqs = got ++ rest /\ p_delivered s = wire got ++ t /\
      NoDup (p_order s) /\ Forall (fun j => (j < length got)%nat) (p_order s) /\
      p_sent s `prefix_of` wire (reply_to <$> p_order s)
}.

(** * The joint system *)

Record Joint (St : Type) := mkJoint {
  jm : Mux;
  jpart : nat;              (* bytes of the current request already sent *)
  jsrv : St;
  jrecvd : bytes;           (* everything [recv] has returned *)
  jbuf : bytes              (* the receiver's [buf] *)
}.
Arguments mkJoint {St}.
Arguments jm {St}.
Arguments jpart {St}.
Arguments jsrv {St}.
Arguments jrecvd {St}.
Arguments jbuf {St}.

Inductive jevent (Ev : Type) : Type :=
| JSender (k : nat)                  (* the sender; in [SendAll], [send] takes [k] bytes *)
| JReceiver (chunks : list bytes)    (* the receiver; what [recv] returns meanwhile *)
| JServer (e : Ev).
Arguments JSender {Ev}.
Arguments JReceiver {Ev}.
Arguments JServer {Ev}.

Section Joint.
Context {HO : HostOrder} {CP : ClientProtobuf} {PB : Protobuf} {St Ev : Type} {P : RpcPeer St Ev}.
Context (count window : Z) (payload_str : bytes).

Definition client_requests : list (RpcHeader * bytes) := requests (Z.to_nat count) 0 payload_str.

(** The request being sent, as it is on the wire. *)
Definition current_frame (j : Joint St) : bytes :=
  wire_frame (request_header (tx_i (jm j)) (SerializeRequest payload_str)) (SerializeRequest payload_str).

(** The bytes the client has put on the wire. *)
Definition client_sent (j : Joint St) : bytes :=
  wire (take (Z.to_nat (tx_i (jm j))) client_requests) ++
  match tx (jm j) with SSend => take (jpart j) (current_frame j) | _ => [] end.

Definition set_mux (j : Joint St) (m : Mux) (part : nat) : Joint St :=
  mkJoint m part (jsrv j) (jrecvd j) (jbuf j).

(** A turn of the loop of [SendAll], in which [send] takes [k] bytes of what
    follows the first [part]: how many are gone then, unless it returns. *)
Definition SendAll_turn (k : nat) (data : bytes) (part : nat) : option nat :=
  if (part + k <? length data)%nat then Some (part + k)%nat else None.

(** The sender. *)
Definition joint_sender (k : nat) (j : Joint St) : outcome (Joint St) :=
  match tx (jm j) with
  | SSend =>
      data ← build_request (tx_i (jm j)) payload_str;
      Ok (match SendAll_turn k data (jpart j) with
          | Some part => set_mux j (jm j) part
          | None => set_mux j (sender_step count window true (jm j)) 0
          end)
  | _ => Ok (set_mux j (sender_step count window true (jm j)) (jpart j))
  end.

(** The receiver; while a response is incomplete it stays in [RecvExact]. *)
Definition joint_receiver (chunks : list bytes) (j : Joint St) : outcome (Joint St) :=
  match rx (jm j) with
  | RRecv =>
      match receive_response (mkClient (jbuf j) (Some <$> chunks) 0 []) with
      | Done (hdr, c) =>
          let all := jrecvd j ++ concat chunks in
          Ok (mkJoint (receiver_step count (Rx (seq_id hdr)) (jm j)) (jpart j) (jsrv j)
                (take (length all - length (concat (omap id (incoming c)))) all) (recv_staging c))
      | Waiting => Ok j
      | Raised _ => Ok (set_mux j (receiver_step count RxError (jm j)) (jpart j))
      | Undef why => UB why
      end
  | _ => Ok (set_mux j (receiver_step count RxError (jm j)) (jpart j))
  end.

Definition joint_step (j : Joint St) (e : jevent Ev) : outcome (Joint St) :=
  match e with
  | JSender k => joint_sender k j
  | JReceiver chunks => joint_receiver chunks j
  | JServer e => s ← p_step (jsrv j) e; Ok (mkJoint (jm j) (jpart j) s (jrecvd j) (jbuf j))
  end.

Fixpoint joint_run (j : Joint St) (es : list (jevent Ev)) : outcome (Joint St) :=
  match es with
  | [] => Ok j
  | e :: es => j ← joint_step j e; joint_run j es
  end.

(** The network delivers, in both directions, what was sent, in order; the
    server's kernel keeps to its contract. *)
Definition joint_valid (j : Joint St) (e : jevent Ev) : Prop :=
  match e with
  | JSender k => tx (jm j) = SSend -> (0 < k <= length (current_frame j) - jpart j)%nat
  | JReceiver chunks =>
      Forall (fun ch => ch <> []) chunks /\ jrecvd j ++ concat chunks `prefix_of` p_sent (jsrv j)
  | JServer e =>
      p_valid (jsrv j) e /\
      match p_step (jsrv j) e with Ok s => p_delivered s `prefix_of` client_sent j | _ => True end
  end.

Fixpoint joint_valid_run (j : Joint St) (es : list (jevent Ev)) : Prop :=
  match es with
  | [] => True
  | e :: es =>
      joint_valid j e /\ match joint_step j e with Ok j => joint_valid_run j es | _ => True end
  end.

Definition joint_init (s : St) : Joint St := mkJoint mux_init 0 s [] [].

(** The reply to the [j]-th request. *)
Definition reply_to (j : nat) : RpcHeader * bytes :=
  (mkHeader MAGIC_NUMBER 1 1 (u32 (Z.of_nat j)) (zlen (SerializeRequest payload_str)),
   SerializeToString (echo_prefix ++ payload_str)).

End Joint.

(** * Invariant *)

Section JointProofs.
Context {HO : HostOrder} {CP : ClientProtobuf} {PB : Protobuf} {St Ev : Type} {P : RpcPeer St Ev}.
Context (count window : Z) (payload_str : bytes).

Abbreviation reqs := (client_requests count payload_str).
Abbreviation reply_to' := (reply_to payload_str).

Context {PS : RpcPeerSpec St Ev reqs reply_to'}.
Context (Hcount : count < 2 ^ 31) (Hpb : protobuf_ok payload_str).

(** The responses taken so far are the first ones the server has given; the
    requests that are on their way are the others. *)
Record joint_ok (j : Joint St) : Prop := {
  jo_mux : mux_ok count window (jm j);
  jo_srv : p_inv (jsrv j);
  jo_causal : p_delivered (jsrv j) `prefix_of` client_sent count payload_str j;
  jo_error : recv_error (jm j) = false;
  jo_part : match tx (jm j) with
            | SSend => (jpart j < length (current_frame payload_str j))%nat
            | _ => jpart j = 0%nat
            end;
  jo_taken : latencies (jm j) = Z.of_nat <$> take (length (latencies (jm j))) (p_order (jsrv j));
  jo_bytes : jrecvd j = wire (reply_to' <$> take (length (latencies (jm j))) (p_order (jsrv j))) ++ jbuf j;
  jo_stream : jrecvd j `prefix_of` wire (reply_to' <$> p_order (jsrv j));
  jo_unanswered : unanswered (jm j) = earlier (tx_i (jm j)) ∖ list_to_set (latencies (jm j))
}.

Lemma wire_app ms1 ms2 : wire (ms1 ++ ms2) = wire ms1 ++ wire ms2.
Proof. apply bind_app. Qed.

Lemma wire_cons m ms : wire (m :: ms) = wire_frame m.1 m.2 ++ wire ms.
Proof. done. Qed.

Lemma reqs_lookup n : Z.of_nat n < count ->
  reqs !! n = Some (request_header (Z.of_nat n) (SerializeRequest payload_str), SerializeRequest payload_str).
Proof.
  intros Hn. unfold client_requests, requests. rewrite list_lookup_fmap, lookup_seqZ_lt by lia.
  cbn. do 3 f_equal; lia.
Qed.

Lemma wire_take_S (j : Joint St) : 0 <= tx_i (jm j) < count ->
  wire (take (Z.to_nat (tx_i (jm j) + 1)) reqs)
  = wire (take (Z.to_nat (tx_i (jm j))) reqs) ++ current_frame payload_str j.
Proof.
  intros Hi. replace (Z.to_nat (tx_i (jm j) + 1)) with (S (Z.to_nat (tx_i (jm j)))) by lia.
  erewrite take_S_r by (apply reqs_lookup; lia). rewrite wire_app, wire_cons. f_equal.
  unfold current_frame. cbn [fst snd]. rewrite app_nil_r. by rewrite Z2Nat.id by lia.
Qed.

Lemma frame_nonempty h p : (0 < length (wire_frame h p))%nat.
Proof. pose proof (zlen_wire_frame h p). pose proof (zlen_nonneg p). unfold zlen, HEADER_SIZE in *. lia. Qed.

Lemma wire_length_mono ms n : (length (wire (take n ms)) <= length (wire ms))%nat.
Proof. rewrite <- (take_drop n ms) at 2. rewrite wire_app, length_app. lia. Qed.

(** The server has been delivered no more requests in full than were sent. *)
Lemma delivered_le (j : Joint St) got rest t :
  joint_ok j -> reqs = got ++ rest -> p_delivered (jsrv j) = wire got ++ t ->
  (length got <= Z.to_nat (tx_i (jm j)))%nat.
Proof.
  intros Hj Hr Hd. pose proof (jo_causal _ Hj) as Hc. pose proof (jo_mux _ Hj) as Hm.
  pose proof (mo_i _ _ _ Hm) as Hi. pose proof (mo_progress _ _ _ Hm) as Hpr.
  destruct (decide (length got <= Z.to_nat (tx_i (jm j)))%nat) as [|Hlt]; [done|exfalso].
  assert (Hlen : length reqs = Z.to_nat count).
  { unfold client_requests, requests. rewrite length_fmap, length_seqZ. lia. }
  assert (Hi2 : 0 <= tx_i (jm j) < count).
  { rewrite Hr, length_app in Hlen. lia. }
  apply prefix_length in Hc. rewrite Hd in Hc. unfold client_sent in Hc. rewrite !length_app in Hc.
  assert (Hg : (length (wire (take (Z.to_nat (tx_i (jm j) + 1)) reqs)) <= length (wire got))%nat).
  { rewrite Hr, take_app_le by lia. apply wire_length_mono. }
  rewrite wire_take_S, length_app in Hg by done.
  pose proof (jo_part _ Hj) as Hp. destruct (tx (jm j)) eqn:Et; cbn [length] in Hc;
    try (pose proof (frame_nonempty (request_header (tx_i (jm j)) (SerializeRequest payload_str))
           (SerializeRequest payload_str)) as Hf; unfold current_frame in *; lia).
  rewrite length_take in Hc. lia.
Qed.

Lemma joint_init_ok s : p_inv s -> p_delivered s = [] -> joint_ok (joint_init s).
Proof.
  intros Hs Hd. constructor; cbn [jm jsrv joint_init]; try done.
  - apply mux_init_ok.
  - rewrite Hd. apply prefix_nil.
  - apply prefix_nil.
Qed.

(** ** The sender *)

Lemma sender_keeps (m : Mux) :
  let m' := sender_step count window true m in
  latencies m' = latencies m /\ recv_error m' = recv_error m /\ rx m' = rx m.
Proof. cbn zeta. unfold sender_step. by destruct (tx m); repeat case_match. Qed.

Lemma joint_sender_ok k j :
  joint_ok j -> joint_valid count payload_str j (JSender k) ->
  exists j', joint_sender count window payload_str k j = Ok j' /\ joint_ok j'.
Proof.
  intros Hj Hv. pose proof Hj as [Hm Hs Hc He Hp Ht Hb Hst Hu].
  pose proof (sender_step_ok count window Hcount true (jm j) Hm) as Hm'.
  destruct (sender_keeps (jm j)) as (El & Ee & _).
  pose proof (mo_i _ _ _ Hm) as Hi. pose proof (mo_progress _ _ _ Hm) as Hpr.
  unfold joint_sender. unfold joint_valid in Hv. destruct (tx (jm j)) eqn:Et.
  5:{ specialize (Hv eq_refl). rewrite build_request_ok by (destruct Hpb as (_ & ? & _); unfold HEADER_SIZE in *; lia).
      fold (current_frame payload_str j). cbn [mbind outcome_bind]. eexists. split; [done|]. unfold SendAll_turn.
      destruct (Nat.ltb_spec (jpart j + k) (length (current_frame payload_str j))) as [Hl|Hl].
      - constructor; cbn [jm jpart jsrv jrecvd jbuf set_mux]; try done; [|by rewrite Et].
        etrans; [exact Hc|]. unfold client_sent. cbn [jm jpart set_mux]. rewrite Et. apply prefix_app.
        change (current_frame payload_str (set_mux j (jm j) (jpart j + k))) with (current_frame payload_str j).
        set (f := current_frame payload_str j) in *.
        replace (take (jpart j) f) with (take (jpart j) (take (jpart j + k) f)) by (rewrite take_take; f_equal; lia).
        apply prefix_take.
      - unfold sender_step in *. rewrite Et in *.
        constructor; cbn [jm jpart jsrv jrecvd jbuf set_mux] in *; try done.
        + etrans; [exact Hc|]. unfold client_sent. cbn [jm jpart set_mux tx tx_i set_tx set_tx_i]. rewrite Et.
          rewrite app_nil_r, wire_take_S by lia. apply prefix_app, prefix_take.
        + cbn. rewrite Hu, (seq_of_small count Hcount) by lia.
          assert (Hnew : tx_i (jm j) ∉ latencies (jm j)).
          { intros Hin. destruct (mo_old _ _ _ Hm _ Hin) as [_ Hx%elem_earlier]. lia. }
          apply set_eq. intros x. rewrite elem_of_union, elem_of_singleton, !elem_of_difference, !elem_earlier,
            !elem_of_list_to_set. split; [intros [->|[Hx Hn]]; [split; [lia|done]|split; [lia|done]]|].
          intros [Hx Hn]. destruct (decide (x = tx_i (jm j))) as [->|]; [by left|right]. split; [lia|done]. }
  all: eexists; split; [done|].
  all: constructor; cbn [jm jpart jsrv jrecvd jbuf set_mux]; rewrite ?El, ?Ee; try done.
  all: unfold sender_step in *; rewrite Et in *.
  all: unfold client_sent in *; cbn [jm jpart set_mux] in *; rewrite ?Et in Hc; rewrite ?app_nil_r in Hc.
  all: repeat case_match; cbn in *; simplify_eq; rewrite ?Hp; try done; rewrite ?app_nil_r; try done.
  all: apply Nat.lt_0_succ.
Qed.

(** ** The receiver *)

(** A step of the receiver that takes no response. *)
Lemma receiver_idle_ok (j : Joint St) :
  joint_ok j -> rx (jm j) <> RRecv ->
  joint_ok (set_mux j (receiver_step count RxError (jm j)) (jpart j)).
Proof.
  intros Hj Hr. pose proof Hj as [Hm Hs Hc He Hp Ht Hb Hst Hu].
  assert (Hm' : mux_ok count window (receiver_step count RxError (jm j)))
    by (apply receiver_step_ok; try done; cbn; by destruct (rx (jm j)) eqn:Er).
  assert (E : tx (receiver_step count RxError (jm j)) = tx (jm j) /\
              tx_i (receiver_step count RxError (jm j)) = tx_i (jm j) /\
              latencies (receiver_step count RxError (jm j)) = latencies (jm j) /\
              recv_error (receiver_step count RxError (jm j)) = recv_error (jm j) /\
              unanswered (receiver_step count RxError (jm j)) = unanswered (jm j)).
  { unfold receiver_step. destruct (rx (jm j)) eqn:Er; [destruct (_ <? _)|done|..]; by split_and!. }
  destruct E as (E1 & E2 & E3 & E4 & E5).
  assert (Ef : current_frame payload_str (set_mux j (receiver_step count RxError (jm j)) (jpart j))
               = current_frame payload_str j) by (unfold current_frame; cbn [jm set_mux]; by rewrite E2).
  constructor; unfold client_sent; cbn [jm jpart jsrv jrecvd jbuf set_mux] in *;
    rewrite ?E1, ?E2, ?E3, ?E4, ?E5, ?Ef; done.
Qed.

Lemma reply_sendable n : sendable (reply_to' n).
Proof.
  pose proof (u32_range (Z.of_nat n)). pose proof (zlen_nonneg (SerializeRequest payload_str)).
  destruct Hpb as (_ & Hs & Hr). unfold sendable, header_ok, reply_to, HEADER_SIZE, MAGIC_NUMBER in *.
  cbn [fst snd magic version msg_type seq_id payload_len]. lia.
Qed.

(** The bytes the receiver has in hand are the start of the responses it has
    not taken yet. *)
Lemma next_responses (j : Joint St) chunks :
  joint_ok j -> joint_valid count payload_str j (JReceiver chunks) ->
  exists ms1 ms2 t, reply_to' <$> drop (length (latencies (jm j))) (p_order (jsrv j)) = ms1 ++ ms2 /\
    jbuf j ++ concat chunks = wire ms1 ++ t /\ partial t ms2 /\
    jrecvd j ++ concat chunks `prefix_of` wire (reply_to' <$> p_order (jsrv j)).
Proof.
  intros Hj [_ Hv]. pose proof Hj as [Hm Hs Hc He Hp Ht Hb Hst Hu].
  destruct (p_served _ Hs) as (got & rest & t & _ & _ & _ & _ & Hsent).
  assert (Hall : jrecvd j ++ concat chunks `prefix_of` wire (reply_to' <$> p_order (jsrv j))) by (by etrans).
  pose proof Hall as [r Hr]. rewrite Hb in Hr.
  rewrite <- (take_drop (length (latencies (jm j))) (p_order (jsrv j))) in Hr at 1.
  rewrite fmap_app, wire_app, <- !app_assoc in Hr. apply app_inv_head in Hr.
  rewrite app_assoc in Hr. symmetry in Hr.
  destruct (wire_prefix _ _ _ Hr) as (ms1 & ms2 & t' & E1 & E2 & _ & Hpart).
  by exists ms1, ms2, t'.
Qed.

(** The next response answers a request that is on its way. *)
Lemma next_unanswered (j : Joint St) o rest :
  joint_ok j -> drop (length (latencies (jm j))) (p_order (jsrv j)) = o :: rest ->
  Z.of_nat o ∈ unanswered (jm j).
Proof.
  intros Hj Ho. pose proof Hj as [Hm Hs Hc He Hp Ht Hb Hst Hu].
  set (k := length (latencies (jm j))) in *.
  destruct (p_served _ Hs) as (got & rest' & t & Hreq & Hdel & Hnd & Hall & _).
  rewrite Hu, elem_of_difference, elem_earlier, elem_of_list_to_set. split.
  - assert (Hlt : (o < length got)%nat).
    { rewrite Forall_forall in Hall. apply Hall. rewrite <- (take_drop k (p_order (jsrv j))), Ho. set_solver. }
    pose proof (delivered_le j got rest' t Hj Hreq Hdel). pose proof (mo_i _ _ _ Hm). lia.
  - rewrite Ht. intros (o' & Ho' & Hin)%list_elem_of_fmap. apply Nat2Z.inj in Ho' as <-.
    rewrite <- (take_drop k (p_order (jsrv j))), Ho in Hnd. apply NoDup_app in Hnd as (_ & Hdis & _). apply (Hdis o Hin). by left.
Qed.

(** A response is taken. *)
Lemma take_response (j : Joint St) o rest :
  joint_ok j -> rx (jm j) = RRecv -> drop (length (latencies (jm j))) (p_order (jsrv j)) = o :: rest ->
  let m' := receiver_step count (Rx (Z.of_nat o)) (jm j) in
  mux_ok count window m' /\ tx m' = tx (jm j) /\ tx_i m' = tx_i (jm j) /\
  recv_error m' = recv_error (jm j) /\ latencies m' = latencies (jm j) ++ [Z.of_nat o] /\
  unanswered m' = unanswered (jm j) ∖ {[Z.of_nat o]}.
Proof.
  intros Hj Er Ho. cbn zeta. pose proof (jo_mux _ Hj) as Hm. pose proof (next_unanswered j o rest Hj Ho) as Hin.
  assert (Hpend : Z.of_nat o ∈ Multiplex.pending (jm j)) by (pose proof (mo_pending _ _ _ Hm); set_solver).
  split.
  - apply receiver_step_ok; try done. cbn. rewrite Er. by apply bool_decide_eq_true.
  - unfold receiver_step. rewrite Er. by rewrite bool_decide_eq_true_2.
Qed.

Lemma omap_id_Some {A} (l : list A) : omap id (Some <$> l) = l.
Proof. induction l as [|x l IH]; [done|]. cbn. by f_equal. Qed.

(** The receiver finds nothing, or the next response. *)
Lemma receive_next chunks (j : Joint St) :
  joint_ok j -> joint_valid count payload_str j (JReceiver chunks) ->
  let c := mkClient (jbuf j) (Some <$> chunks) 0 [] in
  receive_response c = Waiting \/
  exists o rest hdr c', drop (length (latencies (jm j))) (p_order (jsrv j)) = o :: rest /\
    receive_response c = Done (hdr, c') /\ seq_id hdr = Z.of_nat o /\
    jbuf j ++ concat chunks = wire [reply_to' o] ++ Client.pending c'.
Proof.
  intros Hj Hv. cbn zeta.
  destruct (next_responses j chunks Hj Hv) as (ms1 & ms2 & t & Hms & Hbytes & Hpart & _).
  assert (Hsend : Forall sendable (ms1 ++ ms2))
    by (rewrite <- Hms; apply Forall_fmap, Forall_forall; intros; apply reply_sendable).
  set (c := mkClient (jbuf j) (Some <$> chunks) 0 []).
  assert (Hpc : Client.pending c = jbuf j ++ concat chunks).
  { unfold Client.pending. cbn [recv_staging incoming c]. by rewrite omap_id_Some. }
  assert (Hopen : open_stream c).
  { destruct Hv as [Hne _]. unfold open_stream. cbn [incoming c]. apply Forall_fmap.
    eapply Forall_impl; [exact Hne|]. intros [|x bs] H; [done|]. by exists x, bs. }
  apply Forall_app in Hsend as [Hs1 Hs2].
  destruct ms1 as [|m ms1]; [left; apply (receive_response_waits c ms2); [done|done|by rewrite Hpc, Hbytes]|right].
  rewrite wire_cons, <- app_assoc in Hbytes. cbn [app] in Hms.
  apply fmap_cons_inv in Hms as (o & rest & -> & Hms & Ho). apply Forall_cons in Hs1 as [Hsm _].
  destruct (receive_response_ok c (reply_to' o).1 (reply_to' o).2 (wire ms1 ++ t) Hopen Hsm)
    as (c' & -> & _ & Hpc' & _); [by rewrite Hpc|].
  eexists o, rest, _, c'. split; [done|]. split; [done|]. split; [|by rewrite Hpc', Hbytes, wire_cons, app_nil_r].
  cbn. apply u32_small. destruct (p_served _ (jo_srv _ Hj)) as (got & rest' & t' & Hreq & _ & _ & Hfa & _).
  rewrite Forall_forall in Hfa. specialize (Hfa o). rewrite <- (take_drop (length (latencies (jm j))) (p_order (jsrv j))), Ho in Hfa.
  specialize (Hfa ltac:(set_solver)). apply (f_equal length) in Hreq.
  unfold client_requests, requests in Hreq. rewrite length_fmap, length_seqZ, length_app in Hreq. lia.
Qed.

Lemma joint_receiver_ok chunks (j : Joint St) :
  joint_ok j -> joint_valid count payload_str j (JReceiver chunks) ->
  exists j', joint_receiver count chunks j = Ok j' /\ joint_ok j'.
Proof.
  intros Hj Hv. unfold joint_receiver.
  destruct (rx (jm j)) eqn:Er; try (eexists; split; [done|]; apply receiver_idle_ok; [done|by rewrite Er]).
  destruct (receive_next chunks j Hj Hv) as [->|(o & rest & hdr & c' & Ho & -> & Hseq & Hbytes)]; [by exists j|].
  destruct (next_responses j chunks Hj Hv) as (_ & _ & _ & _ & _ & _ & Hall).
  rewrite Hseq. destruct (take_response j o rest Hj Er Ho) as (Hm' & E1 & E2 & E3 & E4 & E5).
  eexists. split; [done|]. set (m' := receiver_step count (Rx (Z.of_nat o)) (jm j)) in *.
  pose proof Hj as [Hm Hs Hc He Hp Ht Hb Hst Hu]. set (k := length (latencies (jm j))) in *.
  assert (Htake : take (S k) (p_order (jsrv j)) = take k (p_order (jsrv j)) ++ [o]).
  { apply take_S_r. rewrite <- (Nat.add_0_r k), <- lookup_drop, Ho. done. }
  assert (Hlen : length (latencies m') = S k) by (rewrite E4, length_app; cbn; lia).
  assert (Hrec : jrecvd j ++ concat chunks
                 = (wire (reply_to' <$> take (S k) (p_order (jsrv j))) ++ recv_staging c') ++
                   concat (omap id (incoming c'))).
  { by rewrite Hb, <- app_assoc, Hbytes, Htake, fmap_app, wire_app, <- !app_assoc. }
  assert (Htk : take (length (jrecvd j ++ concat chunks) - length (concat (omap id (incoming c'))))
                  (jrecvd j ++ concat chunks)
                = wire (reply_to' <$> take (S k) (p_order (jsrv j))) ++ recv_staging c').
  { rewrite Hrec at 2. rewrite Hrec, length_app. rewrite take_app_le by lia. rewrite take_ge; [done|lia]. }
  constructor; unfold client_sent, current_frame; cbn [jm jpart jsrv jrecvd jbuf]; rewrite ?E1, ?E2, ?E3, ?Hlen; try done.
  - by rewrite E4, Ht, Htake, fmap_app.
  - etrans; [|exact Hall]. apply prefix_take.
  - rewrite E5, Hu, E4. apply set_eq. intros x.
    rewrite !elem_of_difference, !elem_of_list_to_set, elem_of_app, list_elem_of_singleton, elem_of_singleton. naive_solver.
Qed.

(** ** The server *)

Lemma joint_server_ok e (j : Joint St) :
  joint_ok j -> joint_valid count payload_str j (JServer e) ->
  exists j', joint_step count window payload_str j (JServer e) = Ok j' /\ joint_ok j'.
Proof.
  intros Hj [Hv Hd]. pose proof Hj as [Hm Hs Hc He Hp Ht Hb Hst Hu].
  destruct (p_step_ok _ _ Hs Hv) as (s' & E & Hs' & [ext Hx]). rewrite E in Hd.
  cbn [joint_step]. rewrite E. cbn [mbind outcome_bind]. eexists. split; [done|].
  assert (Hk : take (length (latencies (jm j))) (p_order s') = take (length (latencies (jm j))) (p_order (jsrv j))).
  { rewrite Hx. apply take_app_le. rewrite Ht at 1. rewrite length_fmap, length_take. lia. }
  constructor; cbn [jm jpart jsrv jrecvd jbuf]; rewrite ?Hk; try done.
  etrans; [exact Hst|]. rewrite Hx, fmap_app, wire_app. by apply prefix_app_r.
Qed.

Lemma joint_run_ok es : forall j : Joint St,
  joint_ok j -> joint_valid_run count window payload_str j es ->
  exists j', joint_run count window payload_str j es = Ok j' /\ joint_ok j'.
Proof.
  induction es as [|e es IH]; intros j Hj Hv; [by exists j|]. cbn [joint_valid_run] in Hv. destruct Hv as [Hv Hvs].
  assert (exists j1, joint_step count window payload_str j e = Ok j1 /\ joint_ok j1) as (j1 & E & Hj1).
  { destruct e as [k|chunks|e]; [|by apply joint_receiver_ok|by apply joint_server_ok].
    by apply joint_sender_ok. }
  cbn [joint_run]. rewrite E in *. cbn [mbind outcome_bind]. by apply IH.
Qed.

(** What the invariant says when the receiver has finished. *)
Lemma joint_complete (j : Joint St) :
  joint_ok j -> rx (jm j) = RDone -> latencies (jm j) ≡ₚ seqZ 0 count.
Proof.
  intros Hj Er. pose proof Hj as [Hm Hs Hc He Hp Ht Hb Hst Hu].
  destruct (p_served _ Hs) as (got & rest & t & Hreq & _ & _ & Hall & _).
  pose proof (mo_rx _ _ _ Hm) as Hrx. rewrite Er in Hrx. destruct Hrx as [?|Hrx]; [congruence|].
  pose proof (mo_latencies _ _ _ Hm) as Hla. unfold received in Hla. rewrite Er in Hla.
  apply submseteq_length_Permutation; [|rewrite length_seqZ; lia].
  apply NoDup_submseteq; [apply Hm|]. intros x. rewrite elem_of_seqZ, Ht.
  intros (o & -> & Hin)%list_elem_of_fmap. apply elem_of_take in Hin as (i & Hi & _).
  apply list_elem_of_lookup_2 in Hi. rewrite Forall_forall in Hall. specialize (Hall o Hi).
  apply (f_equal length) in Hreq. unfold client_requests, requests in Hreq.
  rewrite length_fmap, length_seqZ, length_app in Hreq. lia.
Qed.

End JointProofs.

(** * The servers as peers *)

Section Requests.
Context {HO : HostOrder} {CP : ClientProtobuf} {PB : Protobuf} (count : Z) (payload_str : bytes).
Context (Hpb : protobuf_ok payload_str).

Abbreviation reqs := (client_requests count payload_str).

Lemma reqs_sendable : Forall sendable reqs.
Proof. by apply requests_sendable. Qed.

(** Each request as the server sees it, and the reply it makes to it. *)
Definition seen_request (j : nat) : RpcHeader * bytes :=
  (received_header (request_header (Z.of_nat j) (SerializeRequest payload_str)) (SerializeRequest payload_str),
   SerializeRequest payload_str).

Lemma seen_prefix got rest : reqs = got ++ rest -> seen got = seen_request <$> seq 0 (length got).
Proof.
  intros Hr. apply list_eq. intros n. unfold seen. change (map ?f got) with (f <$> got).
  rewrite !list_lookup_fmap. destruct (got !! n) as [m|] eqn:En.
  - pose proof (lookup_lt_Some _ _ _ En) as Hl. rewrite lookup_seq_lt by done. cbn.
    apply (lookup_app_l_Some _ rest) in En. rewrite <- Hr in En.
    unfold client_requests, requests in En. rewrite list_lookup_fmap in En.
    destruct (seqZ 0 (Z.of_nat (Z.to_nat count)) !! n) as [z|] eqn:Ez; [|done].
    apply lookup_seqZ in Ez as [-> _]. by injection En as <-.
  - rewrite lookup_seq_ge; [done|]. by apply lookup_ge_None.
Qed.

(** What a server that was delivered a prefix of the requests has seen. *)
Lemma feed_requests chunks :
  concat chunks `prefix_of` wire reqs ->
  exists got rest t, reqs = got ++ rest /\ concat chunks = wire got ++ t /\
    (feed [] chunks).1 = seen_request <$> seq 0 (length got).
Proof.
  intros [r Hr]. destruct (feed_wire chunks reqs [] r) as (ms1 & ms2 & t & E1 & E2 & _ & ->);
    [apply reqs_sendable|apply partial_nil|done|].
  exists ms1, ms2, t. split_and!; [done|done|]. cbn [fst]. by eapply seen_prefix.
Qed.

Lemma accept_request j :
  accept (seen_request j) = Some ((seen_request j).1, payload_str) /\
  reply ((seen_request j).1, payload_str) = wire_frame (reply_to payload_str j).1 (reply_to payload_str j).2.
Proof.
  destruct Hpb as (Hp & _). unfold accept, seen_request. cbn [fst snd msg_type received_header request_header].
  by rewrite Z.eqb_refl, Hp.
Qed.

Lemma accepted_requests es k :
  (feed [] (a_chunks es)).1 = seen_request <$> seq 0 k ->
  accepted es = (fun j => ((seen_request j).1, payload_str)) <$> seq 0 k.
Proof.
  intros E. unfold accepted. rewrite E. clear E. induction (seq 0 k) as [|j l IH]; [done|].
  cbn [fmap list_fmap omap list_omap]. destruct (accept_request j) as [-> _]. by f_equal.
Qed.

Lemma reply_order_wire es k :
  accepted es = (fun j => ((seen_request j).1, payload_str)) <$> seq 0 k ->
  Forall (in_range (accepted es)) es ->
  reply_order (accepted es) es = wire (reply_to payload_str <$> (es ≫= wakes)).
Proof.
  intros Ha Hr. unfold reply_order. set (acc := accepted es) in *. clearbody acc.
  induction es as [|e es IH]; [done|]. apply Forall_cons in Hr as [He Hr]. rewrite bind_cons.
  destruct e as [e|n]; cbn [omap list_omap wakes app]; [by apply IH|].
  cbn [in_range] in He. rewrite Ha, length_fmap, length_seq in He. rewrite Ha, list_lookup_fmap, lookup_seq_lt by done.
  cbn [fmap option_fmap option_map concat Nat.add]. rewrite <- Ha, (IH Hr).
  cbn [list_fmap]. by rewrite wire_cons.
Qed.

End Requests.

Section AsyncPeer.
Context {K : Kernel} {HO : HostOrder} {CP : ClientProtobuf} {PB : Protobuf}.
Context (peer : nat -> bytes) (pool n : Z) (Hsq : sq_never_full K) (Hpeer : async_peers_ok peer) (i : nat).
Context (count : Z) (payload_str : bytes) (Hpb : protobuf_ok payload_str).
Context (Hi : peer i = wire (client_requests count payload_str)).

(** Connection [i] of the whole asynchronous server; a step is any completion
    the event loop handles, for whichever connection. *)
#[local] Instance async_peer : RpcPeer (IoContext * World ASlot) io_uring_cqe :=
  {| p_step s q := handle_cqe (P := async_program peer) s.1 s.2 q;
     p_valid s q := cqe_valid (P := async_program peer) (S := async_spec peer pool n Hsq Hpeer) s.1 s.2 q;
     p_delivered s := match slots s.2 !! i with Some x => a_delivered x | None => [] end;
     p_sent s := match slots s.2 !! i with Some x => as_sent x | None => [] end |}.

Definition async_order (w : World ASlot) : list nat :=
  match slots w !! i with Some x => as_history x ≫= wakes | None => [] end.

Lemma async_order_grows c w q c' w' :
  handler_ (w_server w) = Some service_handler ->
  handle_cqe (P := async_program peer) c w q = Ok (c', w') -> async_order w `prefix_of` async_order w'.
Proof.
  intros Hh E. unfold async_order. destruct (slots w !! i) as [x|] eqn:Ex; [|apply prefix_nil].
  assert (Hres : forall ids st l m c1 ar x1 c2 ar2 x2,
    sv_resume ids st l m c1 ar x1 = Ok (c2, ar2, x2) -> exists es, as_history x2 = as_history x1 ++ es).
  { intros ids st l m c1 ar x1 c2 ar2 x2. cbn [sv_resume async_service]. unfold async_resume.
    destruct (a_step _ _ _ _ _ _ _ _) as [a| |]; cbn [mbind outcome_bind]; [|done..].
    intros [= _ _ <-]. by eexists. }
  destruct (handle_cqe_slots peer (fun x x' => exists es, as_history x' = as_history x ++ es)
              (fun y => ex_intro _ [] (eq_sym (app_nil_r _))) Hres c w q c' w' i x Hh E Ex) as (x' & -> & es & ->).
  rewrite bind_app. by apply prefix_app_r.
Qed.

#[local] Instance async_peer_spec :
  RpcPeerSpec (IoContext * World ASlot) io_uring_cqe (client_requests count payload_str) (reply_to payload_str).
Proof.
  refine {| p_inv s := IoContext.inv (P := async_program peer) (S := async_spec peer pool n Hsq Hpeer) s.1 s.2;
            p_order s := async_order s.2 |}.
  - intros [c w] q Hinv Hv. cbn [fst snd p_step p_valid async_peer] in *.
    destruct (handle_cqe_ok c w q Hinv Hv) as (c' & w' & E & Hinv'). exists (c', w'). split; [done|]. split; [done|].
    destruct Hinv as (O & M & _ & Hw). by eapply async_order_grows; [apply Hw|].
  - intros [c w] (O & M & _ & Hw). cbn [fst snd p_delivered p_sent async_peer]. unfold async_order.
    destruct (slots w !! i) as [x|] eqn:Ex.
    2:{ exists [], (client_requests count payload_str), []. split_and!; [done|done|constructor|constructor|done]. }
    destruct (si_each _ _ _ _ _ _ (wi_slots _ _ _ _ _ _ Hw) i x Ex) as (ok & Hs & [Hst _] & Hr & _ & Hz & Hd).
    rewrite Hi in Hd.
    destruct (feed_requests count payload_str Hpb (a_chunks (as_history x)) Hd) as (got & rest & t & E1 & E2 & E3).
    pose proof (accepted_requests payload_str Hpb _ _ E3) as Hacc.
    exists got, rest, t. split; [done|]. split; [done|].
    rewrite Hst, Hacc, length_fmap, length_seq in Hz.
    assert (Hnd : NoDup ((as_history x ≫= wakes) ++ dozing (asess_of c (w_arena w) x)))
      by (rewrite Hz; apply NoDup_seq).
    split; [by apply NoDup_app in Hnd as [? _]|]. split.
    + apply Forall_forall. intros j Hj.
      assert (Hin : j ∈ seq 0 (length got)) by (rewrite <- Hz; apply elem_of_app; by left).
      apply elem_of_seq in Hin. lia.
    + rewrite <- (reply_order_wire payload_str _ _ Hacc Hr). apply (inv_sent _ _ _ _ _ Hs).
Defined.

End AsyncPeer.

Section EchoPeer.
Context {K : Kernel} {HO : HostOrder} {CP : ClientProtobuf} {PB : Protobuf}.
Context (peer : nat -> bytes) (pool n : Z) (Hsq : sq_never_full K) (Hpeer : peers_ok peer) (i : nat).
Context (count : Z) (payload_str : bytes) (Hpb : protobuf_ok payload_str).
Context (Hi : peer i = wire (client_requests count payload_str)).

(** Connection [i] of the whole plain server. *)
#[local] Instance echo_peer : RpcPeer (IoContext * World Slot) io_uring_cqe :=
  {| p_step s q := handle_cqe (P := echo_program peer) s.1 s.2 q;
     p_valid s q := cqe_valid (P := echo_program peer) (S := echo_spec peer pool n Hsq Hpeer) s.1 s.2 q;
     p_delivered s := match slots s.2 !! i with Some x => delivered x | None => [] end;
     p_sent s := match slots s.2 !! i with Some x => slot_sent x | None => [] end |}.

(** It answers in the order of the requests. *)
Definition echo_order (w : World Slot) : list nat :=
  match slots w !! i with Some x => seq 0 (length (messages x)) | None => [] end.

Lemma echo_order_grows c w q c' w' :
  handler_ (w_server w) = Some service_handler ->
  handle_cqe (P := echo_program peer) c w q = Ok (c', w') -> echo_order w `prefix_of` echo_order w'.
Proof.
  intros Hh E. unfold echo_order. destruct (slots w !! i) as [x|] eqn:Ex; [|apply prefix_nil].
  assert (Hres : forall ids st l m c1 ar x1 c2 ar2 x2,
    sv_resume ids st l m c1 ar x1 = Ok (c2, ar2, x2) -> exists es, history x2 = history x1 ++ es).
  { intros ids st l m c1 ar x1 c2 ar2 x2. cbn [sv_resume echo_service]. unfold echo_resume, slot_step.
    destruct l; (destruct (sess_step _ _ _ _ _ _) as [s| |]; cbn [mbind outcome_bind]; [|done..]);
      intros [= _ _ <-]; by eexists. }
  destruct (handle_cqe_slots peer (fun x x' => exists es, history x' = history x ++ es)
              (fun y => ex_intro _ [] (eq_sym (app_nil_r _))) Hres c w q c' w' i x Hh E Ex) as (x' & -> & es & Hes).
  unfold messages. rewrite Hes. unfold delivered_chunks. rewrite omap_app, feed_app. cbn [fst].
  rewrite length_app, seq_app. by apply prefix_app_r.
Qed.

Lemma responses_wire k :
  responses (seen_request payload_str <$> seq 0 k) = wire (reply_to payload_str <$> seq 0 k).
Proof.
  unfold responses, wire. induction (seq 0 k) as [|j l IH]; [done|]. cbn [fmap list_fmap]. rewrite !bind_cons.
  rewrite <- IH. f_equal. destruct Hpb as (Hp & _). unfold response, seen_request.
  cbn [msg_type received_header request_header]. by rewrite Z.eqb_refl, Hp.
Qed.

#[local] Instance echo_peer_spec :
  RpcPeerSpec (IoContext * World Slot) io_uring_cqe (client_requests count payload_str) (reply_to payload_str).
Proof.
  refine {| p_inv s := IoContext.inv (P := echo_program peer) (S := echo_spec peer pool n Hsq Hpeer) s.1 s.2;
            p_order s := echo_order s.2 |}.
  - intros [c w] q Hinv Hv. cbn [fst snd p_step p_valid echo_peer] in *.
    destruct (handle_cqe_ok c w q Hinv Hv) as (c' & w' & E & Hinv'). exists (c', w'). split; [done|]. split; [done|].
    destruct Hinv as (O & M & _ & Hw). by eapply echo_order_grows; [apply Hw|].
  - intros [c w] (O & M & _ & Hw). cbn [fst snd p_delivered p_sent echo_peer]. unfold echo_order.
    destruct (slots w !! i) as [x|] eqn:Ex.
    2:{ exists [], (client_requests count payload_str), []. split_and!; [done|done|constructor|constructor|done]. }
    destruct (si_each _ _ _ _ _ _ (wi_slots _ _ _ _ _ _ Hw) i x Ex) as (Hs & Hd & _).
    rewrite Hi in Hd.
    destruct (feed_requests count payload_str Hpb (delivered_chunks (history x)) Hd) as (got & rest & t & E1 & E2 & E3).
    exists got, rest, t. split; [done|]. split; [done|]. unfold messages.
    assert (Hlen : length (feed [] (delivered_chunks (history x))).1 = length got)
      by (by rewrite E3, length_fmap, length_seq).
    rewrite Hlen. split; [apply NoDup_seq|]. split.
    + apply Forall_forall. intros j Hj%elem_of_seq. lia.
    + rewrite <- responses_wire, <- E3. apply (inv_sent _ _ _ _ _ Hs).
Defined.

End EchoPeer.

(** * Properties *)

(** What the joint system guarantees of the client. *)
Definition exchange_ok {St} (count window : Z) (order : list nat) (j : Joint St) : Prop :=
  recv_error (jm j) = false /\ 0 <= in_flight (jm j) <= Z.max 0 window /\
  latencies (jm j) = Z.of_nat <$> take (length (latencies (jm j))) order /\
  NoDup (latencies (jm j)) /\ Z.of_nat (length (latencies (jm j))) = rx_i (jm j) + received (jm j) /\
  (rx (jm j) = RDone -> latencies (jm j) ≡ₚ seqZ 0 count).

Lemma joint_exchange {HO : HostOrder} {CP : ClientProtobuf} {PB : Protobuf} {St Ev} {P : RpcPeer St Ev}
    count window payload_str {PS : RpcPeerSpec St Ev (client_requests count payload_str) (reply_to payload_str)}
    (s : St) (es : list (jevent Ev)) :
  count < 2 ^ 31 -> protobuf_ok payload_str -> p_inv s -> p_delivered s = [] ->
  joint_valid_run count window payload_str (joint_init s) es ->
  exists j, joint_run count window payload_str (joint_init s) es = Ok j /\
    exchange_ok count window (p_order (jsrv j)) j.
Proof.
  intros Hc Hpb Hs Hd Hv.
  destruct (joint_run_ok count window payload_str Hc Hpb es (joint_init s)) as (j & E & Hj);
    [by apply joint_init_ok|done|].
  exists j. split; [done|]. pose proof (joint_complete _ _ _ j Hj) as Hdone. destruct Hj.
  unfold exchange_ok. split_and!; try done; try apply jo_mux0.
  pose proof (mo_flight _ _ _ jo_mux0). unfold counted, received in *. destruct (tx (jm j)), (rx (jm j)); lia.
Qed.


(** The same for the plain server, whose order is that of the requests. *)
Theorem pipelined_client_and_echo_server (K : Kernel) (HO1 HO2 : HostOrder) (CP : ClientProtobuf) (PB : Protobuf)
    peer pool n (Hsq : sq_never_full K) (Hpeer : peers_ok (HO := HO1) peer) i v c ar c0 w0
    count window payload_str es :
  let P := echo_peer (HO := HO1) peer pool n Hsq Hpeer i in
  count < 2 ^ 31 -> protobuf_ok payload_str -> peer i = wire (client_requests count payload_str) ->
  new_context pool n c ar -> start_world (V := echo_service (HO := HO1)) v c ar = Ok (c0, w0) ->
  joint_valid_run (HO := HO2) (P := P) count window payload_str (joint_init (c0, w0)) es ->
  exists j, joint_run (HO := HO2) (P := P) count window payload_str (joint_init (c0, w0)) es = Ok j /\
    exchange_ok count window (echo_order (HO := HO1) i (jsrv j).2) j.
Proof.
  cbn zeta. intros Hc Hpb Hi (Hp & Hb & Hf & Har) E Hv.
  destruct (start_world_ok (Spec := echo_service_spec (HO := HO1) Hsq) peer pool n Hsq Hpeer v c ar Hp Hb Hf Har)
    as (c0' & w0' & M & E' & Hw & Hsl). rewrite E in E'. injection E' as <- <-.
  apply (joint_exchange (HO := HO2) count window payload_str
           (PS := echo_peer_spec (HO := HO1) peer pool n Hsq Hpeer i count payload_str Hpb Hi)); try done.
  - exists (dom M), M. by split.
  - cbn. by rewrite Hsl.
Qed.

#[local] Existing Instance Echo.little.
#[local] Existing Instance Echo.plain_messages.
#[local] Existing Instance Connection.open_kernel.
#[local] Existing Instance Client.plain_requests.

(** The benchmark client with two requests is the first to connect. *)
Definition bench_peers (i : nat) : bytes :=
  match i with O => wire (client_requests 2 sample_payload) | _ => [] end.

Lemma bench_peers_ok : async_peers_ok bench_peers.
Proof.
  apply (async_bounded_peers bench_peers 28 0); [|lia|lia|].
  - intros [|i]; vm_compute; discriminate.
  - intros p msg [= <-]. change (SerializeToString (echo_prefix ++ p)) with (echo_prefix ++ p).
    rewrite zlen_app. change (zlen echo_prefix) with 6. lia.
Qed.

(** The first request is cut by [send]; the second is answered first; the
    responses arrive in pieces. *)
Definition second_reply : bytes := wire [reply_to sample_payload 1].
Definition first_reply : bytes := wire [reply_to sample_payload 0].
Definition cqe (l : loc) (z : Z) : io_uring_cqe := mkCqe (Some l) z.

Definition bench_events : list (jevent io_uring_cqe) :=
  [JServer (cqe 1 9); JSender 0; JSender 0; JSender 0; JSender 0; JSender 5; JServer (cqe 1 5); JSender 9;
   JReceiver []; JSender 0; JSender 0; JSender 0; JSender 0; JSender 14; JServer (cqe 1 23);
   JServer (cqe 3 (- ETIME)); JServer (cqe 1 (- ETIME)); JServer (cqe 3 8); JServer (cqe 3 12); JSender 0;
   JReceiver [take 3 second_reply; drop 3 second_reply]; JReceiver []; JReceiver []; JServer (cqe 3 20);
   JReceiver [first_reply]; JReceiver []; JReceiver []]%positive.

Definition bench_server : IoContext * World ASlot :=
  match async_world bound_async_server echo_ctx echo_arena with
  | Ok r => r
  | _ => (echo_ctx, mkWorld bound_async_server [] [] AcceptDone ∅)
  end.

(** Checks a concrete run. *)
Ltac run_is_valid :=
  vm_compute;
  repeat first
    [ exact I
    | match goal with |- _ = _ -> _ => first [discriminate | intros _; split; lia] end
    | match goal with |- Forall _ _ => repeat constructor; discriminate end
    | match goal with |- exists k, _ = _ => eexists; reflexivity end
    | split
    | reflexivity ].

