(* ===== verification/Stats.v ===== *)
(** The statistics the benchmark clients print: percentiles, minimum and
    maximum of the sorted latencies ([examples/latency_bench.cpp], the
    [PrintStats] of [examples/latency_bench_mt.cpp] and
    [examples/mt_multiplex_bench.cpp], the end of
    [examples/multiplex_bench.cpp]).

    The index of a percentile is computed in [double].  A positive finite
    double is [mant * 2^expo] here, and division and multiplication round to 53
    significant bits, ties to even, as IEEE 754 prescribes (the numbers that
    occur are far from overflow and underflow).  [std::sort] on integers has
    one possible result, that of [merge_sort].  Wall times are those the clock
    gave, in nanoseconds. *)
From stdpp Require Import sorting.
From Stdlib Require Import SpecFloat.
From S2P Require Import Prelude.

(** * Doubles *)

Record double := mkDouble { mant : Z; expo : Z }.

(** The integer nearest to [a / b], ties to even. *)
Definition rne (a b : Z) : Z :=
  let q := a / b in
  let r := a mod b in
  if 2 * r <? b then q else if b <? 2 * r then q + 1 else if Z.even q then q else q + 1.

(** Bits beyond the 53 significant ones. *)
Definition excess (m : Z) : Z := Z.max 0 (Z.log2 m - 52).

Definition round53 (m : Z) : Z := rne m (2 ^ excess m) * 2 ^ excess m.

Definition of_int (n : Z) : double := mkDouble (round53 n) 0.

Definition fmul (x y : double) : double :=
  mkDouble (round53 (mant x * mant y)) (expo x + expo y).

(** [m * 2^s / n], as a fraction of integers. *)
Definition scale_num (m s : Z) : Z := m * 2 ^ Z.max 0 s.
Definition scale_den (n s : Z) : Z := n * 2 ^ Z.max 0 (- s).

(** The quotient is scaled to 53 bits before it is rounded. *)
Definition fdiv (x y : double) : double :=
  let s0 := 52 - (Z.log2 (mant x) - Z.log2 (mant y)) in
  let s := if scale_num (mant x) s0 / scale_den (mant y) s0 <? 2 ^ 52 then s0 + 1 else s0 in
  mkDouble (rne (scale_num (mant x) s) (scale_den (mant y) s)) (expo x - expo y - s).

(** [static_cast<size_t>] *)
Definition truncate (x : double) : Z :=
  if 0 <=? expo x then mant x * 2 ^ expo x else mant x / 2 ^ (- expo x).

(** The literals of the calls: 50, 90, 99 and 99.9. *)
Definition p50 : double := of_int 50.
Definition p90 : double := of_int 90.
Definition p99 : double := of_int 99.
Definition p99_9 : double := fdiv (of_int 999) (of_int 10).

(** * Percentiles *)

(** [static_cast<size_t>(p / 100.0 * n)] *)
Definition percentile_index (p : double) (n : Z) : Z :=
  truncate (fmul (fdiv p (of_int 100)) (of_int n)).

(** [std::sort] *)
Definition sorted (v : list Z) : list Z := merge_sort Z.le v.

(** [operator[]] of a vector: out of range is undefined. *)
Definition vec_at (v : list Z) (i : Z) : outcome Z :=
  if 0 <=? i then or_ub "vector index" (v !! Z.to_nat i) else UB "vector index".

Definition front (v : list Z) : outcome Z := or_ub "front of an empty vector" (head v).
Definition back (v : list Z) : outcome Z := or_ub "back of an empty vector" (last v).

(** The [pct] of [PrintStats]: [n] is the number of samples. *)
Definition pct (v : list Z) (p : double) : outcome Z :=
  let n := zlen v in
  let idx := percentile_index p n in
  vec_at v (if n <=? idx then u64 (n - 1) else idx).

(** The [percentile] of [latency_bench], which takes the number of requests
    from the command line instead of the vector. *)
Definition percentile (count : Z) (v : list Z) (p : double) : outcome Z :=
  let idx := percentile_index p count in
  vec_at v (if u64 count <=? idx then u64 (count - 1) else idx).

(** What is printed. *)
Record Stats := mkStats {
  st_min : Z; st_p50 : Z; st_p90 : Z; st_p99 : Z; st_p99_9 : Z; st_max : Z; st_avg : double; st_total : Z
}.

(** [std::accumulate] from [int64_t{0}]: signed overflow is undefined. *)
Fixpoint accumulate (acc : Z) (v : list Z) : outcome Z :=
  match v with
  | [] => Ok acc
  | x :: v =>
      if (- 2 ^ 63 <=? acc + x) && (acc + x <? 2 ^ 63) then accumulate (acc + x) v
      else UB "signed overflow"
  end.

(** [PrintStats] of the multi-threaded clients, on a sorted vector: nothing
    ([None]) when there is no sample. *)
Definition PrintStats (v : list Z) : outcome (option Stats) :=
  match v with
  | [] => Ok None
  | _ =>
      sum ← accumulate 0 v;
      let avg := fdiv (of_int sum) (of_int (zlen v)) in
      mn ← front v; a ← pct v p50; b ← pct v p90; c ← pct v p99; d ← pct v p99_9; mx ← back v;
      Ok (Some (mkStats mn a b c d mx avg (zlen v)))
  end.

(** The end of [main] in [latency_bench]: no test for an empty vector. *)
Definition latency_bench_stats (count : Z) (latencies_us : list Z) : outcome Stats :=
  let v := sorted latencies_us in
  sum ← accumulate 0 v;
  let avg := fdiv (of_int sum) (of_int count) in
  mn ← front v;
  a ← percentile count v p50; b ← percentile count v p90; c ← percentile count v p99;
  d ← percentile count v p99_9; mx ← back v;
  Ok (mkStats mn a b c d mx avg count).

(** [wall_sec]: [std::chrono::duration<double>] of a number of nanoseconds. *)
Definition wall_sec (ns : Z) : double := fdiv (of_int ns) (of_int 1000000000).

(** [total / wall_sec], the requests per second; [None]: a division by zero,
    which prints [inf]. *)
Definition throughput (total ns : Z) : option double :=
  if ns =? 0 then None else Some (fdiv (of_int total) (wall_sec ns)).

(** The p99 of one thread or connection: [0.99 * v.size()] with the literal. *)
Definition thread_p99 (latencies_us : list Z) : outcome (option Z) :=
  match latencies_us with
  | [] => Ok None
  | _ =>
      let v := sorted latencies_us in
      let idx := truncate (fmul (fdiv (of_int 99) (of_int 100)) (of_int (zlen v))) in
      x ← vec_at v (if zlen v <=? idx then u64 (zlen v - 1) else idx);
      Ok (Some x)
  end.

(** ** Agreement with the standard's floating-point operations *)

Definition sf (m : Z) : spec_float := binary_normalize 53 1024 m 0 false.

(** The value of a finite double, scaled by [2 ^ 60]. *)
Definition sf_scaled (x : spec_float) : Z :=
  match x with S754_finite false m e => Z.shiftl (Zpos m) (e + 60) | _ => -1 end.

Definition scaled (x : double) : Z := Z.shiftl (mant x) (expo x + 60).

Lemma doubles_agree_with_spec :
  let div a b := SFdiv 53 1024 a b in
  scaled (fdiv p99 (of_int 100)) = sf_scaled (div (sf 99) (sf 100)) /\
  scaled (fdiv p90 (of_int 100)) = sf_scaled (div (sf 90) (sf 100)) /\
  scaled (fdiv p99_9 (of_int 100)) = sf_scaled (div (div (sf 999) (sf 10)) (sf 100)) /\
  (percentile_index p99_9 <$> [1; 7; 10; 1000; 1001; 99999; 2000000; 2147483647]) =
  ((fun n => sf_scaled (SFmul 53 1024 (div (div (sf 999) (sf 10)) (sf 100)) (sf n)) / 2 ^ 60) <$>
     [1; 7; 10; 1000; 1001; 99999; 2000000; 2147483647]).
Proof. vm_compute. repeat split. Qed.

(** * The index is exact *)

Lemma rne_near a b : 0 < b -> - b <= 2 * (rne a b * b - a) <= b.
Proof.
  intros Hb. unfold rne. pose proof (Z.div_mod a b ltac:(lia)) as Hd.
  pose proof (Z.mod_pos_bound a b Hb).
  destruct (Z.ltb_spec (2 * (a mod b)) b); [nia|]. destruct (Z.ltb_spec b (2 * (a mod b))); [nia|].
  destruct (Z.even (a / b)); nia.
Qed.

(** Rounding moves a number by at most half a unit in the last place. *)
Lemma round53_spec m :
  0 < m ->
  exists k q, 0 <= k /\ round53 m = q * 2 ^ k /\ - 2 ^ k <= 2 * (round53 m - m) <= 2 ^ k /\
    m < 2 ^ (k + 53) /\ (k = 0 -> round53 m = m) /\ (0 < k -> 2 ^ (k + 52) <= m).
Proof.
  intros Hm. unfold round53. set (k := excess m).
  assert (Hk : 0 <= k) by (unfold k, excess; lia).
  assert (Hp : 0 < 2 ^ k) by (apply Z.pow_pos_nonneg; lia).
  exists k, (rne m (2 ^ k)). split; [done|]. split; [done|].
  destruct (Z.log2_spec m Hm) as [Hlo Hhi]. pose proof (Z.log2_nonneg m).
  split; [by apply rne_near|]. split; [|split].
  - eapply Z.lt_le_trans; [exact Hhi|]. apply Z.pow_le_mono_r; [lia|]. unfold k, excess. lia.
  - intros E. rewrite E. unfold rne. rewrite Z.pow_0_r, Z.mod_1_r, Z.div_1_r.
    change (2 * 0 <? 1) with true. cbv match. lia.
  - intros Hk0. replace (k + 52) with (Z.log2 m) by (unfold k, excess in *; lia). done.
Qed.

(** A factor [m * 2^-53] that is within [d] thousandths of [a / 1000] selects
    the integer part of [a * n / 1000] for every [n] up to [2^40]. *)
Lemma scaled_index m a d n :
  2 ^ 52 <= m < 2 ^ 53 -> 0 <= a < 1000 -> 0 <= d <= 250 ->
  a * 2 ^ 53 - d <= 1000 * m <= a * 2 ^ 53 + 1000 -> 0 < n <= 2 ^ 40 ->
  round53 (m * n) / 2 ^ 53 = a * n / 1000.
Proof.
  intros Hm Ha Hd Hmd Hn. destruct (round53_spec (m * n)) as (k & q & Hk & Eq & Hr & Hhi & Hk0 & Hlo); [nia|].
  set (R := round53 (m * n)) in *. set (N := a * n / 1000).
  pose proof (Z.div_mod (a * n) 1000 ltac:(lia)) as HN. fold N in HN.
  pose proof (Z.mod_pos_bound (a * n) 1000 ltac:(lia)) as Hmod.
  assert (Hk40 : k <= 40).
  { destruct (Z_le_gt_dec k 40) as [|Hgt]; [done|]. specialize (Hlo ltac:(lia)).
    assert (2 ^ (41 + 52) <= 2 ^ (k + 52)) by (apply Z.pow_le_mono_r; lia).
    assert (m * n < 2 ^ 53 * 2 ^ 40) by nia. lia. }
  assert (Hpk : 1 <= 2 ^ k <= 2 ^ 40)
    by (split; [pose proof (Z.pow_pos_nonneg 2 k); lia|apply Z.pow_le_mono_r; lia]).
  symmetry. apply (Z.div_unique _ _ N (R - 2 ^ 53 * N)); [|lia]. left. split; [|nia].
  enough (N * 2 ^ 53 <= R) by lia. destruct (Z.eq_dec k 0) as [->|Hkp].
  { rewrite (Hk0 eq_refl). assert (n = 1) by (change (2 ^ (0 + 53)) with (2 ^ 53) in Hhi; nia). nia. }
  rewrite Eq. replace 53 with ((53 - k) + k) at 1 by lia. rewrite Z.pow_add_r, Z.mul_assoc by lia.
  apply Z.mul_le_mono_nonneg_r; [lia|].
  destruct (Z_le_gt_dec (N * 2 ^ (53 - k)) q) as [|Hgt]; [done|exfalso].
  assert (Hsplit : 2 ^ 53 = 2 ^ (53 - k) * 2 ^ k) by (rewrite <- Z.pow_add_r by lia; f_equal; lia).
  assert (HR : R <= N * 2 ^ 53 - 2 ^ k) by (rewrite Eq, Hsplit; nia).
  rewrite Z.pow_add_r in Hhi by lia.
  assert (Hdn : 500 * 2 ^ k <= d * n) by nia.
  assert (Hmn : 500 * 2 ^ k * m <= d * (m * n)) by nia. nia.
Qed.

(** ** Quotients *)

(** [x * b] is [a] up to a relative error of [2^-51]. *)
Definition near (x : double) (a b : Z) : Prop :=
  exists i j, 0 <= i /\ 0 <= j /\ expo x = i - j /\
    Z.abs (mant x * b * 2 ^ i - a * 2 ^ j) * 2 ^ 51 <= a * 2 ^ j.

Lemma of_int_near n : 0 < n -> Z.abs (round53 n - n) * 2 ^ 53 <= n /\ 0 < round53 n.
Proof.
  intros Hn. destruct (round53_spec n Hn) as (k & q & Hk & _ & Hr & _ & Hk0 & Hlo).
  destruct (Z.eq_dec k 0) as [->|Hkp]; [rewrite (Hk0 eq_refl); lia|]. specialize (Hlo ltac:(lia)).
  assert (0 < 2 ^ k) by (apply Z.pow_pos_nonneg; lia). rewrite Z.pow_add_r in Hlo by lia.
  change (2 ^ 53) with (2 * 2 ^ 52). lia.
Qed.

Lemma of_int_exact n : 0 < n < 2 ^ 53 -> round53 n = n.
Proof.
  intros Hn. destruct (round53_spec n ltac:(lia)) as (k & q & Hk & _ & _ & _ & Hk0 & Hlo).
  apply Hk0. destruct (Z.eq_dec k 0) as [|Hkp]; [done|]. specialize (Hlo ltac:(lia)).
  assert (2 ^ (1 + 52) <= 2 ^ (k + 52)) by (apply Z.pow_le_mono_r; lia). lia.
Qed.

(** One unit more of scale doubles the fraction. *)
Lemma scale_succ m n s :
  0 < m -> 0 < n ->
  scale_num m (s + 1) * scale_den n s = 2 * (scale_num m s * scale_den n (s + 1)).
Proof.
  intros Hm Hn. unfold scale_num, scale_den. destruct (Z_lt_ge_dec s 0).
  - rewrite (Z.max_l 0 s), (Z.max_l 0 (s + 1)) by lia.
    rewrite (Z.max_r 0 (- s)), (Z.max_r 0 (- (s + 1))) by lia.
    replace (- s) with (- (s + 1) + 1) by lia. rewrite Z.pow_add_r by lia. lia.
  - rewrite (Z.max_r 0 s), (Z.max_r 0 (s + 1)) by lia.
    rewrite (Z.max_l 0 (- s)), (Z.max_l 0 (- (s + 1))) by lia. rewrite Z.pow_add_r by lia. lia.
Qed.

Lemma scale_pos m s : 0 < m -> 0 < scale_num m s /\ 0 < scale_den m s.
Proof. intros Hm. unfold scale_num, scale_den. split; apply Z.mul_pos_pos; try done; apply Z.pow_pos_nonneg; lia. Qed.

Lemma scale_enough m n :
  0 < m -> 0 < n -> let s0 := 52 - (Z.log2 m - Z.log2 n) in scale_den n s0 * 2 ^ 51 < scale_num m s0.
Proof.
  intros Hm Hn. cbn zeta. set (s0 := 52 - _). destruct (Z.log2_spec m Hm) as [Hlm _]. destruct (Z.log2_spec n Hn) as [_ Hln].
  pose proof (Z.log2_nonneg m). pose proof (Z.log2_nonneg n). unfold scale_num, scale_den.
  assert (Hs : Z.log2 m + Z.max 0 s0 = Z.succ (Z.log2 n) + Z.max 0 (- s0) + 51) by lia.
  apply Z.lt_le_trans with (2 ^ Z.succ (Z.log2 n) * 2 ^ Z.max 0 (- s0) * 2 ^ 51).
  - apply Z.mul_lt_mono_pos_r; [lia|]. apply Z.mul_lt_mono_pos_r; [apply Z.pow_pos_nonneg; lia|done].
  - rewrite <- !Z.pow_add_r by lia. rewrite <- Hs, Z.pow_add_r by lia.
    apply Z.mul_le_mono_nonneg_r; [apply Z.pow_nonneg; lia|done].
Qed.

(** A quotient of doubles is off by at most [2^-53]. *)
Lemma fdiv_near x y :
  0 < mant x -> 0 < mant y ->
  exists i j, 0 <= i /\ 0 <= j /\ expo (fdiv x y) = expo x - expo y + i - j /\ 0 < mant (fdiv x y) /\
    Z.abs (mant (fdiv x y) * mant y * 2 ^ i - mant x * 2 ^ j) * 2 ^ 53 <= mant x * 2 ^ j.
Proof.
  intros Hx Hy. unfold fdiv. set (s0 := 52 - (Z.log2 (mant x) - Z.log2 (mant y))).
  pose proof (scale_enough _ _ Hx Hy) as He. cbn zeta in He. fold s0 in He.
  set (s := if _ <? _ then s0 + 1 else s0).
  assert (Hbig : scale_den (mant y) s * 2 ^ 52 <= scale_num (mant x) s).
  { destruct (scale_pos (mant y) s0 Hy) as [_ Hd0]. unfold s.
    destruct (Z.ltb_spec (scale_num (mant x) s0 / scale_den (mant y) s0) (2 ^ 52)) as [Hlt|Hge].
    - pose proof (scale_succ (mant x) (mant y) s0 Hx Hy) as Hss.
      destruct (scale_pos (mant y) (s0 + 1) Hy) as [_ Hd1].
      apply (Z.mul_le_mono_pos_r _ _ (scale_den (mant y) s0)); [done|]. nia.
    - pose proof (Z.mul_div_le (scale_num (mant x) s0) (scale_den (mant y) s0) Hd0). nia. }
  destruct (scale_pos (mant y) s Hy) as [_ Hd].
  pose proof (rne_near (scale_num (mant x) s) (scale_den (mant y) s) Hd) as Hr. cbn [mant expo].
  set (m := rne _ _) in *. exists (Z.max 0 (- s)), (Z.max 0 s). unfold scale_num, scale_den in *.
  split_and!; [lia..| |].
  - assert (0 < m * (mant y * 2 ^ Z.max 0 (- s))) by lia. nia.
  - rewrite <- Z.mul_assoc. change (2 ^ 53) with (2 * 2 ^ 52). lia.
Qed.

Lemma abs_scale e k a p : 0 <= k -> Z.abs e * p <= a -> Z.abs (e * k) * p <= a * k.
Proof. intros Hk He. rewrite Z.abs_mul, (Z.abs_eq k) by done. nia. Qed.

Lemma mean_near sum n :
  0 <= sum -> 0 < n < 2 ^ 53 -> near (fdiv (of_int sum) (of_int n)) sum n.
Proof.
  intros Hs Hn. destruct (Z.eq_dec sum 0) as [->|Hs0].
  { exists (Z.max 0 (expo (fdiv (of_int 0) (of_int n)))), (Z.max 0 (- expo (fdiv (of_int 0) (of_int n)))).
    split_and!; [lia..|]. assert (mant (fdiv (of_int 0) (of_int n)) = 0) as ->; [|by rewrite !Z.mul_0_l].
    unfold fdiv, of_int. cbn [mant]. rewrite (of_int_exact n) by lia. change (round53 0) with 0.
    unfold rne, scale_num. rewrite !Z.mul_0_l, !Zdiv_0_l, Zmod_0_l. rewrite (proj2 (Z.ltb_lt _ _)); [done|].
    apply (scale_pos n). lia. }
  destruct (of_int_near sum ltac:(lia)) as [H1 H2]. pose proof (of_int_exact n ltac:(lia)) as Hen.
  destruct (fdiv_near (of_int sum) (of_int n)) as (i & j & Hi & Hj & He & _ & Hr); [done|cbn; lia|].
  exists i, j. cbn [expo mant of_int] in He, Hr. rewrite Hen in Hr.
  split_and!; [done|done|lia|]. set (m := mant _) in *.
  assert (0 < 2 ^ j) by (apply Z.pow_pos_nonneg; lia). set (J := 2 ^ j) in *. set (I := 2 ^ i) in *.
  set (R := round53 sum) in *.
  assert (Hrj : Z.abs (R * J - sum * J) * 2 ^ 53 <= sum * J).
  { rewrite <- Z.mul_sub_distr_r. apply abs_scale; [lia|done]. }
  assert (R * J <= 2 * (sum * J)) by lia.
  change (2 ^ 53) with (4 * 2 ^ 51) in *. lia.
Qed.

(** The throughput printed: requests in a second. *)
Lemma throughput_near total ns :
  0 < total < 2 ^ 53 -> 0 < ns < 2 ^ 53 ->
  exists x, throughput total ns = Some x /\ near x (total * 1000000000) ns.
Proof.
  intros Ht Hn. unfold throughput. rewrite (proj2 (Z.eqb_neq _ _)) by lia. eexists. split; [done|].
  assert (Hb : 0 < 1000000000 < 2 ^ 53) by done. set (b := 1000000000) in *.
  destruct (fdiv_near (of_int ns) (of_int b)) as (i1 & j1 & Hi1 & Hj1 & He1 & Hm1 & Hr1);
    [apply of_int_near; lia..|]. change (fdiv (of_int ns) (of_int b)) with (wall_sec ns) in He1, Hm1, Hr1.
  destruct (fdiv_near (of_int total) (wall_sec ns)) as (i2 & j2 & Hi2 & Hj2 & He2 & Hm2 & Hr2);
    [apply of_int_near; lia|done|].
  cbn [mant expo of_int] in He1, Hr1, He2, Hr2. rewrite (of_int_exact b), (of_int_exact ns) in Hr1 by lia. rewrite (of_int_exact total) in Hr2 by lia.
  exists (j1 + i2), (i1 + j2). split_and!; [lia|lia|lia|]. rewrite !Z.pow_add_r by lia.
  set (mr := mant (fdiv _ _)) in *. set (my := mant (wall_sec ns)) in *.
  assert (0 < 2 ^ i1) by (apply Z.pow_pos_nonneg; lia). assert (0 < 2 ^ i2) by (apply Z.pow_pos_nonneg; lia).
  set (I1 := 2 ^ i1) in *. set (I2 := 2 ^ i2) in *. set (J1 := 2 ^ j1) in *. set (J2 := 2 ^ j2) in *.
  assert (H1 : Z.abs (mr * my * b * I1 * I2 - mr * ns * (J1 * I2)) * 2 ^ 53 <= mr * ns * (J1 * I2)).
  { replace (mr * my * b * I1 * I2 - mr * ns * (J1 * I2)) with ((my * b * I1 - ns * J1) * (mr * I2)) by lia.
    replace (mr * ns * (J1 * I2)) with (ns * J1 * (mr * I2)) by lia. apply abs_scale; [nia|done]. }
  assert (H2 : Z.abs (mr * my * b * I1 * I2 - total * b * (I1 * J2)) * 2 ^ 53 <= total * b * (I1 * J2)).
  { replace (mr * my * b * I1 * I2 - total * b * (I1 * J2)) with ((mr * my * I2 - total * J2) * (b * I1)) by lia.
    replace (total * b * (I1 * J2)) with (total * J2 * (b * I1)) by lia. apply abs_scale; [lia|done]. }
  lia.
Qed.

(** The percentiles printed, as thousandths. *)
Definition printed : list (double * Z) := [(p50, 500); (p90, 900); (p99, 990); (p99_9, 999)].

Lemma round53_small n : 0 < n < 2 ^ 53 -> round53 n = n.
Proof.
  intros Hn. destruct (round53_spec n) as (k & q & Hk & _ & _ & _ & Hk0 & Hlo); [lia|].
  apply Hk0. destruct (Z.eq_dec k 0); [done|]. specialize (Hlo ltac:(lia)).
  assert (2 ^ (1 + 52) <= 2 ^ (k + 52)) by (apply Z.pow_le_mono_r; lia). lia.
Qed.

Lemma percentile_index_exact p a n :
  (p, a) ∈ printed -> 0 < n <= 2 ^ 40 -> percentile_index p n = a * n / 1000.
Proof.
  intros Hp Hn. unfold percentile_index.
  assert (Hf : expo (fdiv p (of_int 100)) = -53 /\ 2 ^ 52 <= mant (fdiv p (of_int 100)) < 2 ^ 53 /\
             0 <= a < 1000 /\ a * 2 ^ 53 - 250 <= 1000 * mant (fdiv p (of_int 100)) <= a * 2 ^ 53 + 1000).
  { unfold printed in Hp. repeat (apply elem_of_cons in Hp as [[= -> ->]|Hp]; [vm_compute; intuition discriminate|]).
    by apply elem_of_nil in Hp. }
  destruct Hf as (He & Hm & Ha & Hd). unfold truncate, fmul, of_int. cbn [mant expo] in *.
  change (fdiv p {| mant := round53 100; expo := 0 |}) with (fdiv p (of_int 100)).
  rewrite He. cbn [Z.add Z.leb Z.compare Z.opp]. rewrite (round53_small n) by lia.
  by apply (scaled_index _ a 250).
Qed.

(** * Order statistics *)

Lemma sorted_sorted v : StronglySorted Z.le (sorted v).
Proof. apply StronglySorted_merge_sort; apply _. Qed.

Lemma sorted_perm v : sorted v ≡ₚ v.
Proof. apply merge_sort_Permutation. Qed.

Lemma sorted_zlen v : zlen (sorted v) = zlen v.
Proof. unfold zlen. by rewrite (Permutation_length (sorted_perm v)). Qed.

(** The order in which samples were collected does not matter. *)
Lemma sorted_unique v v' : v ≡ₚ v' -> sorted v = sorted v'.
Proof.
  intros Hp. apply (StronglySorted_unique Z.le); auto using sorted_sorted.
  by rewrite !sorted_perm.
Qed.

(** How many samples are below, and at most, [x]. *)
Definition below (x : Z) (v : list Z) : Z := zlen (filter (fun y => y < x) v).
Definition upto (x : Z) (v : list Z) : Z := zlen (filter (fun y => y <= x) v).

(** [x] is the sample with [i] samples before it in order. *)
Definition of_rank (v : list Z) (i x : Z) : Prop := x ∈ v /\ below x v <= i < upto x v.

Lemma filter_none {A} (P : A -> Prop) `{!forall x, Decision (P x)} l :
  Forall (fun x => ~ P x) l -> filter P l = [].
Proof. induction 1; [done|]. rewrite filter_cons. by case_decide. Qed.

Lemma sorted_rank (l : list Z) : forall i (x : Z),
  StronglySorted Z.le l -> l !! i = Some x ->
  (length (filter (fun y => y < x)%Z l) <= i < length (filter (fun y => y <= x)%Z l))%nat.
Proof.
  induction l as [|z l IH]; intros i x Hs Hi; [done|]. apply StronglySorted_inv in Hs as [Hs Hz].
  rewrite !filter_cons. destruct i as [|i]; cbn in Hi.
  - injection Hi as <-. rewrite decide_False, decide_True by lia. cbn [length].
    rewrite filter_none; [cbn; lia|]. eapply Forall_impl; [exact Hz|]. cbn. lia.
  - specialize (IH i x Hs Hi). pose proof (Forall_lookup_1 _ _ _ _ Hz Hi). cbn in *.
    rewrite (decide_True (P := z <= x)) by lia. case_decide; cbn [length]; lia.
Qed.

Lemma rank_perm v v' i x : v ≡ₚ v' -> of_rank v i x -> of_rank v' i x.
Proof. intros Hp. unfold of_rank, below, upto, zlen. by rewrite Hp. Qed.

Lemma vec_at_ok v i : 0 <= i < zlen v -> exists x, vec_at v i = Ok x /\ v !! Z.to_nat i = Some x.
Proof.
  intros Hi. unfold vec_at. rewrite (proj2 (Z.leb_le _ _)) by lia.
  destruct (lookup_lt_is_Some_2 v (Z.to_nat i)) as [x Hx]; [unfold zlen in Hi; lia|].
  exists x. by rewrite Hx.
Qed.

(** The percentile of the sorted samples is the one of the exact rank. *)
Lemma pct_sorted v p a :
  v <> [] -> zlen v <= 2 ^ 40 -> (p, a) ∈ printed ->
  exists x, pct (sorted v) p = Ok x /\ sorted v !! Z.to_nat (a * zlen v / 1000) = Some x /\
    of_rank v (a * zlen v / 1000) x.
Proof.
  intros Hv Hn Hp. assert (Hpos : 0 < zlen v) by (destruct v; [done|rewrite zlen_cons; pose proof (zlen_nonneg v); lia]).
  assert (Ha : 0 <= a < 1000).
  { unfold printed in Hp. repeat (apply elem_of_cons in Hp as [[= -> ->]|Hp]; [lia|]). by apply elem_of_nil in Hp. }
  assert (Hi : 0 <= a * zlen v / 1000 < zlen v)
    by (split; [apply Z.div_pos; lia|apply Z.div_lt_upper_bound; nia]).
  unfold pct. rewrite sorted_zlen, (percentile_index_exact p a) by (done || lia).
  rewrite (proj2 (Z.leb_gt _ _)) by lia.
  destruct (vec_at_ok (sorted v) (a * zlen v / 1000)) as (x & -> & Hx); [by rewrite sorted_zlen|].
  exists x. split; [done|]. split; [done|]. apply (rank_perm (sorted v)); [apply sorted_perm|].
  destruct (sorted_rank _ _ _ (sorted_sorted v) Hx). split; [by apply list_elem_of_lookup_2 in Hx|].
  set (i := a * zlen v / 1000) in *. unfold below, upto, zlen. lia.
Qed.

Lemma rank_upto_below x y v : x < y -> upto x v <= below y v.
Proof.
  intros Hxy. unfold upto, below, zlen. apply inj_le. induction v as [|z v IH]; [done|].
  rewrite !filter_cons. repeat case_decide; cbn [length]; lia.
Qed.

Lemma of_rank_unique v i x y : of_rank v i x -> of_rank v i y -> x = y.
Proof.
  intros [_ Hx] [_ Hy]. destruct (Z.lt_trichotomy x y) as [H|[H|H]]; [|done|].
  - pose proof (rank_upto_below x y v H). lia.
  - pose proof (rank_upto_below y x v H). lia.
Qed.

(** Latencies as the clients collect them: microseconds, less than [2^31] of
    them, each below [2^32] (more than an hour), so that their sum is in
    range. *)
Definition samples_ok (v : list Z) : Prop := Forall (fun x => 0 <= x < 2 ^ 32) v /\ zlen v < 2 ^ 31.

Lemma accumulate_ok v : forall acc,
  Forall (fun x => 0 <= x < 2 ^ 32) v -> 0 <= acc -> acc + zlen v * 2 ^ 32 < 2 ^ 63 ->
  exists s, accumulate acc v = Ok s.
Proof.
  induction v as [|x v IH]; intros acc Hv Hacc Hb; [by eexists|]. apply Forall_cons in Hv as [Hx Hv].
  rewrite zlen_cons in Hb. pose proof (zlen_nonneg v). cbn [accumulate].
  rewrite (proj2 (Z.leb_le _ _)), (proj2 (Z.ltb_lt _ _)) by lia. cbn [andb]. apply IH; [done|lia..].
Qed.

(** The sum of the samples. *)
Definition sum_of (v : list Z) : Z := foldr Z.add 0 v.

Lemma sum_of_cons x v : sum_of (x :: v) = x + sum_of v.
Proof. done. Qed.

Lemma sum_of_perm v v' : v ≡ₚ v' -> sum_of v = sum_of v'.
Proof. induction 1; rewrite ?sum_of_cons; lia. Qed.

Lemma sum_of_pos v : Forall (fun x => 0 <= x < 2 ^ 32) v -> 0 <= sum_of v.
Proof. induction 1; rewrite ?sum_of_cons; [done|lia]. Qed.

Lemma accumulate_sum v : forall acc s, accumulate acc v = Ok s -> s = acc + sum_of v.
Proof.
  induction v as [|x v IH]; intros acc s; cbn [accumulate]; [intros [= <-]; cbn; lia|].
  destruct (_ && _); [|done]. intros E%IH. rewrite sum_of_cons. lia.
Qed.

Lemma accumulate_sorted v : samples_ok v -> accumulate 0 (sorted v) = Ok (sum_of v).
Proof.
  intros [Hv Hn]. destruct (accumulate_ok (sorted v) 0) as [s E];
    [by rewrite sorted_perm|lia|rewrite sorted_zlen; lia|].
  rewrite E. f_equal. rewrite (accumulate_sum _ _ _ E). by rewrite (sum_of_perm _ _ (sorted_perm v)).
Qed.

Lemma sorted_mono v i j x y :
  sorted v !! i = Some x -> sorted v !! j = Some y -> (i <= j)%nat -> x <= y.
Proof.
  generalize (sorted_sorted v). generalize (sorted v). clear v. intros l. revert i j.
  induction l as [|z l IH]; intros i j Hs Hi Hj Hij; [done|].
  apply StronglySorted_inv in Hs as [Hs Hz]. destruct i as [|i], j as [|j]; cbn in Hi, Hj; try lia.
  - simplify_eq. lia.
  - injection Hi as <-. exact (Forall_lookup_1 _ _ _ _ Hz Hj).
  - apply (IH i j); [done..|lia].
Qed.

(** ** What [PrintStats] prints *)
Record stats_of (v : list Z) (s : Stats) : Prop := {
  so_total : st_total s = zlen v;
  so_min : st_min s ∈ v /\ Forall (fun y => st_min s <= y) v;
  so_max : st_max s ∈ v /\ Forall (fun y => y <= st_max s) v;
  so_p50 : of_rank v (500 * zlen v / 1000) (st_p50 s);
  so_p90 : of_rank v (900 * zlen v / 1000) (st_p90 s);
  so_p99 : of_rank v (990 * zlen v / 1000) (st_p99 s);
  so_p99_9 : of_rank v (999 * zlen v / 1000) (st_p99_9 s);
  so_avg : near (st_avg s) (sum_of v) (zlen v);
  so_order : st_min s <= st_p50 s <= st_p90 s /\ st_p90 s <= st_p99 s <= st_p99_9 s /\
             st_p99_9 s <= st_max s
}.

Lemma stats_of_perm v v' s : v ≡ₚ v' -> stats_of v s -> stats_of v' s.
Proof.
  intros Hp [Ht [Hm1 Hm2] [HM1 HM2] H50 H90 H99 H999 Ha Ho].
  assert (Hz : zlen v' = zlen v) by (unfold zlen; by rewrite Hp).
  constructor; rewrite ?Hz, <- ?Hp; try done; [by eapply rank_perm..|]. by rewrite <- (sum_of_perm _ _ Hp).
Qed.

Lemma sorted_bounds v x0 xn :
  sorted v !! 0%nat = Some x0 -> last (sorted v) = Some xn ->
  (x0 ∈ v /\ Forall (fun y => x0 <= y) v) /\ (xn ∈ v /\ Forall (fun y => y <= xn) v).
Proof.
  intros H0 Hn. rewrite last_lookup in Hn. split; split.
  - rewrite <- (sorted_perm v). by eapply list_elem_of_lookup_2.
  - rewrite <- (sorted_perm v). apply Forall_lookup_2. intros i y Hi. eapply sorted_mono; [exact H0|exact Hi|lia].
  - rewrite <- (sorted_perm v). by eapply list_elem_of_lookup_2.
  - rewrite <- (sorted_perm v). apply Forall_lookup_2. intros i y Hi.
    eapply sorted_mono; [exact Hi|exact Hn|]. apply lookup_lt_Some in Hi. lia.
Qed.

Lemma PrintStats_ok v :
  samples_ok v -> v <> [] -> exists s, PrintStats (sorted v) = Ok (Some s) /\ stats_of v s.
Proof.
  intros Hs Hv. pose proof Hs as [_ Hn]. pose proof (accumulate_sorted v Hs) as Hsum.
  assert (Hpos : 0 < zlen v) by (destruct v; [done|rewrite zlen_cons; pose proof (zlen_nonneg v); lia]).
  assert (Hp : forall p a, (p, a) ∈ printed ->
            exists x, pct (sorted v) p = Ok x /\ sorted v !! Z.to_nat (a * zlen v / 1000) = Some x /\
              of_rank v (a * zlen v / 1000) x) by (intros; apply pct_sorted; [done|lia|done]).
  destruct (Hp p50 500) as (a & Ea & Ha & Ra); [left|].
  destruct (Hp p90 900) as (b & Eb & Hb & Rb); [right; left|].
  destruct (Hp p99 990) as (c & Ec & Hc & Rc); [do 2 right; left|].
  destruct (Hp p99_9 999) as (d & Ed & Hd & Rd); [do 3 right; left|]. clear Hp.
  destruct (lookup_lt_is_Some_2 (sorted v) 0) as [x0 H0].
  { pose proof (sorted_zlen v). unfold zlen in *. lia. }
  destruct (last (sorted v)) as [xn|] eqn:Hl; [|by apply last_None in Hl; rewrite Hl in H0].
  assert (Hh : head (sorted v) = Some x0) by (destruct (sorted v); [done|by injection H0 as ->]).
  destruct (sorted_bounds v x0 xn H0 Hl) as [Hmin Hmax].
  assert (E : PrintStats (sorted v) = Ok (Some (mkStats x0 a b c d xn
                                     (fdiv (of_int (sum_of v)) (of_int (zlen v))) (zlen (sorted v))))).
  { rewrite <- (sorted_zlen v). unfold PrintStats, front, back. destruct (sorted v) as [|y l] eqn:El; [done|].
    rewrite Hsum, Ea, Eb, Ec, Ed, Hl. cbn in Hh. by injection Hh as ->. }
  rewrite E. eexists. split; [done|]. rewrite sorted_zlen. constructor; cbn [st_min st_p50 st_p90 st_p99 st_p99_9 st_max st_avg st_total]; try done.
  { apply mean_near; [|lia]. by apply sum_of_pos, Hs. }
  assert (Hdiv : forall i j, 0 <= i <= j -> (Z.to_nat (i * zlen v / 1000) <= Z.to_nat (j * zlen v / 1000))%nat)
    by (intros; apply Z2Nat.inj_le; [apply Z.div_pos; nia..|apply Z.div_le_mono; nia]).
  assert (Hdn : d <= xn) by (destruct Hmax as [_ Hm]; rewrite Forall_forall in Hm; apply Hm, Rd).
  assert (H0a : x0 <= a) by (destruct Hmin as [_ Hm]; rewrite Forall_forall in Hm; apply Hm, Ra).
  split; [split; [done|]|split; [split|done]].
  - apply (sorted_mono _ _ _ _ _ Ha Hb), Hdiv. lia.
  - apply (sorted_mono _ _ _ _ _ Hb Hc), Hdiv. lia.
  - apply (sorted_mono _ _ _ _ _ Hc Hd), Hdiv. lia.
Qed.

(** * Properties *)

(** C30: The percentiles are the exact order statistics.  Although the index
    is computed in floating point, for up to [2^40] samples each of the four
    percentiles printed is the sample whose rank is exactly the integer part
    of p percent of their number, and no other value. *)
Theorem percentiles_are_order_statistics v p a x :
  v <> [] -> zlen v <= 2 ^ 40 -> (p, a) ∈ printed ->
  pct (sorted v) p = Ok x <-> of_rank v (a * zlen v / 1000) x.
Proof.
  intros Hv Hn Hp. destruct (pct_sorted v p a Hv Hn Hp) as (y & Ey & _ & Hy). rewrite Ey. split.
  - by intros [= <-].
  - intros Hx. f_equal. by apply (of_rank_unique v (a * zlen v / 1000)).
Qed.

Lemma percentiles_are_order_statistics_witness :
  pct (sorted [30; 10; 20]) p99_9 = Ok 30 <->
  of_rank [30; 10; 20] (999 * zlen [30; 10; 20] / 1000) 30.
Proof.
  apply (percentiles_are_order_statistics [30; 10; 20] p99_9 999 30).
  - discriminate.
  - vm_compute. discriminate.
  - unfold printed. do 3 right. left.
Defined.

(** [PrintStats] prints the true statistics: for any latencies it either
    prints nothing, exactly when there are none, or the least and the greatest
    sample, the four order statistics, in non-decreasing order, the mean up to
    a relative error of [2^-51], and the number of samples; and it reads no
    element outside the vector. *)
Theorem print_stats_correct v :
  samples_ok v ->
  match PrintStats (sorted v) with
  | Ok None => v = []
  | Ok (Some s) => stats_of v s
  | _ => False
  end.
Proof.
  intros Hs. destruct (decide (v = [])) as [->|Hv]; [done|].
  by destruct (PrintStats_ok v Hs Hv) as (s & -> & Hst).
Qed.

Lemma print_stats_correct_witness :
  match PrintStats (sorted [30; 10; 20]) with
  | Ok None => [30; 10; 20] = []
  | Ok (Some s) => stats_of [30; 10; 20] s
  | _ => False
  end.
Proof. apply (print_stats_correct [30; 10; 20]). split; [repeat constructor; discriminate|reflexivity]. Defined.

Lemma percentile_pct v p : zlen v < 2 ^ 64 -> percentile (zlen v) v p = pct v p.
Proof.
  intros Hv. unfold percentile, pct. rewrite (u64_small (zlen v)); [done|].
  pose proof (zlen_nonneg v). unfold SIZE_MOD. lia.
Qed.

(** With at least one request the single-threaded client prints the same
    statistics as [PrintStats]. *)
Lemma latency_bench_stats_ok v :
  samples_ok v -> v <> [] ->
  exists s, latency_bench_stats (zlen v) v = Ok s /\ PrintStats (sorted v) = Ok (Some s) /\ stats_of v s.
Proof.
  intros Hs Hv. destruct (PrintStats_ok v Hs Hv) as (s & E & Hst). pose proof Hs as [_ Hn].
  exists s. split; [|done].
  assert (E' : latency_bench_stats (zlen v) v = (o ← PrintStats (sorted v); or_ub "no samples" o)).
  { unfold latency_bench_stats, PrintStats. rewrite <- (sorted_zlen v).
    destruct (sorted v) as [|y l] eqn:El; [done|]. cbv match. rewrite <- El in *.
    rewrite !percentile_pct by (rewrite sorted_zlen; lia).
    destruct (accumulate 0 (sorted v)); [|done..]. cbn [mbind outcome_bind].
    destruct (front (sorted v)); [|done..]. cbn [mbind outcome_bind].
    destruct (pct (sorted v) p50); [|done..]. cbn [mbind outcome_bind].
    destruct (pct (sorted v) p90); [|done..]. cbn [mbind outcome_bind].
    destruct (pct (sorted v) p99); [|done..]. cbn [mbind outcome_bind].
    destruct (pct (sorted v) p99_9); [|done..]. cbn [mbind outcome_bind].
    by destruct (back (sorted v)). }
  by rewrite E', E.
Qed.
