(* ===== verification/CommandLine.v ===== *)
(** The command lines of the four benchmark clients: [std::stoi] on the
    arguments that are there, the defaults for the others, and the line each
    program prints before it connects.

    [argv] is the list of the arguments, the name of the program included, so
    that [argc] is its length.  [std::stoi] is [strtol] in base 10 followed by
    the tests of the library: no digits is [std::invalid_argument], a value
    that is not an [int] (of a [long], [strtol] saturates) [std::out_of_range];
    what follows the digits is ignored. *)
From Stdlib Require Import Ascii.
From stdpp Require Import strings pretty.
From S2P Require Import Prelude.

(** * [std::stoi] *)

Definition code (a : ascii) : Z := Z.of_N (N_of_ascii a).

(** In the "C" locale. *)
Definition isspace (a : ascii) : bool := ((9 <=? code a) && (code a <=? 13)) || (code a =? 32).
Definition isdigit (a : ascii) : bool := (48 <=? code a) && (code a <=? 57).

Fixpoint skip_spaces (s : string) : string :=
  match s with
  | String a s' => if isspace a then skip_spaces s' else s
  | EmptyString => EmptyString
  end.

(** The value of the digits, after those that gave [acc]; [None] while there
    were none. *)
Fixpoint digits (acc : option Z) (s : string) : option Z :=
  match s with
  | String a s => if isdigit a then digits (Some (default 0 acc * 10 + (code a - 48))) s else acc
  | EmptyString => acc
  end.

Definition strtol (s : string) : option Z :=
  match skip_spaces s with
  | String a s' =>
      if code a =? 45 then Z.opp <$> digits None s'
      else if code a =? 43 then digits None s'
      else digits None (String a s')
  | EmptyString => None
  end.

Definition is_int (v : Z) : bool := (- 2 ^ 31 <=? v) && (v <? 2 ^ 31).

Definition stoi (s : string) : outcome Z :=
  match strtol s with
  | None => Throw "std::invalid_argument"
  | Some v => if is_int v then Ok v else Throw "std::out_of_range"
  end.

(** * The programs *)

(** [(argc > i) ? std::stoi(argv[i]) : dflt] *)
Definition arg (argv : list string) (i : nat) (dflt : Z) : outcome Z :=
  match argv !! i with Some s => stoi s | None => Ok dflt end.

(** [count], [msg_size] *)
Definition latency_bench_args (argv : list string) : outcome (Z * Z) :=
  count ← arg argv 1 10000;
  msg_size ← arg argv 2 64;
  Ok (count, msg_size).

(** [count], [window], [msg_size] *)
Definition multiplex_bench_args (argv : list string) : outcome (Z * Z * Z) :=
  count ← arg argv 1 100000;
  window ← arg argv 2 64;
  msg_size ← arg argv 3 64;
  Ok (count, window, msg_size).

(** [count], [msg_size], [nthreads] *)
Definition latency_bench_mt_args (argv : list string) : outcome (Z * Z * Z) :=
  count ← arg argv 1 10000;
  msg_size ← arg argv 2 64;
  nthreads ← arg argv 3 4;
  Ok (count, msg_size, nthreads).

(** [count], [nconn], [window], [msg_size] *)
Definition mt_multiplex_bench_args (argv : list string) : outcome (Z * Z * Z * Z) :=
  count ← arg argv 1 50000;
  nconn ← arg argv 2 8;
  window ← arg argv 3 64;
  msg_size ← arg argv 4 64;
  Ok (count, nconn, window, msg_size).

(** ** What is printed first *)

Definition host : string := "127.0.0.1".
Definition port : Z := 8080.
Definition endl : string := String (ascii_of_nat 10) EmptyString.

Definition latency_bench_banner (count msg_size : Z) : string :=
  "cRPC latency bench  host=" +:+ host +:+ "  port=" +:+ pretty port +:+
  "  count=" +:+ pretty count +:+ "  msg_size=" +:+ pretty msg_size +:+ endl.

Definition multiplex_bench_banner (count window msg_size : Z) : string :=
  "multiplex_bench" +:+ "  count=" +:+ pretty count +:+ "  window=" +:+ pretty window +:+
  "  msg_size=" +:+ pretty msg_size +:+ endl.

Definition latency_bench_mt_banner (count msg_size nthreads : Z) : string :=
  "cRPC multi-thread latency bench" +:+ "  host=" +:+ host +:+ "  port=" +:+ pretty port +:+
  "  count=" +:+ pretty count +:+ "  msg_size=" +:+ pretty msg_size +:+
  "  threads=" +:+ pretty nthreads +:+ endl.

Definition mt_multiplex_bench_banner (count nconn window msg_size : Z) : string :=
  "mt_multiplex_bench" +:+ "  count=" +:+ pretty count +:+ "  nconn=" +:+ pretty nconn +:+
  "  window=" +:+ pretty window +:+ "  msg_size=" +:+ pretty msg_size +:+ endl.

(** * Lemmas *)

(** A string of blanks. *)
Fixpoint blank (s : string) : bool :=
  match s with String a s => isspace a && blank s | EmptyString => true end.

(** No digit comes first. *)
Definition no_digit (s : string) : bool :=
  match s with String a _ => negb (isdigit a) | EmptyString => true end.

Lemma skip_blanks b s : blank b = true -> skip_spaces (b +:+ s) = skip_spaces s.
Proof.
  induction b as [|a b IH]; [done|]. change (String a b +:+ s) with (String a (b +:+ s)).
  cbn [blank skip_spaces]. intros [-> Hb]%andb_true_iff. by apply IH.
Qed.

Lemma digits_stop acc s : no_digit s = true -> digits acc s = acc.
Proof. destruct s as [|a s]; [done|]. cbn [digits no_digit]. by destruct (isdigit a). Qed.

Lemma code_digit x : (x < 10)%N -> code (pretty_N_char x) = 48 + Z.of_N x.
Proof.
  intros Hx. assert (Hc : (x ∈ [0; 1; 2; 3; 4; 5; 6; 7; 8; 9])%N).
  { rewrite !elem_of_cons. lia. }
  rewrite !elem_of_cons in Hc. destruct_or! Hc; subst; try done. by apply not_elem_of_nil in Hc.
Qed.

Lemma isdigit_digit x : (x < 10)%N -> isdigit (pretty_N_char x) = true.
Proof. intros Hx. unfold isdigit. rewrite code_digit by done. lia. Qed.

(** Reading the digits that [pretty] writes. *)
Lemma digits_pretty_go x : forall s,
  digits None (pretty_N_go x s) = digits (if (0 <? x)%N then Some (Z.of_N x) else None) s.
Proof.
  induction (N.lt_wf_0 x) as [x _ IH]. intros s. destruct (N.ltb_spec 0 x) as [Hx|Hx].
  2:{ by assert (x = 0%N) as -> by lia. }
  rewrite pretty_N_go_step, IH by (try apply N.div_lt; done). cbn [digits].
  assert (Hm : (x `mod` 10 < 10)%N) by (by apply N.mod_lt).
  rewrite isdigit_digit, code_digit by done.
  pose proof (N.div_mod x 10 ltac:(done)). f_equal. f_equal.
  destruct (N.ltb_spec 0 (x `div` 10)); unfold default; cbn [from_option id]; lia.
Qed.

(** A number starts with a digit. *)
Lemma pretty_N_go_head x s : (0 < x)%N -> exists c s', pretty_N_go x s = String (pretty_N_char c) s' /\ (c < 10)%N.
Proof.
  revert s. induction (N.lt_wf_0 x) as [x _ IH]. intros s Hx. rewrite pretty_N_go_step by done.
  destruct (decide (x `div` 10 = 0)%N) as [->|Hq].
  - rewrite pretty_N_go_0. eexists _, _. split; [done|by apply N.mod_lt].
  - apply IH; [by apply N.div_lt|by apply N.neq_0_lt_0].
Qed.

Lemma pretty_N_go_app x s t : pretty_N_go x s +:+ t = pretty_N_go x (s +:+ t).
Proof.
  revert s. induction (N.lt_wf_0 x) as [x _ IH]. intros s.
  destruct (decide (x = 0)%N) as [->|Hx]; [done|]. rewrite !(pretty_N_go_step x) by lia.
  rewrite IH by (apply N.div_lt; lia). done.
Qed.

Lemma digits_pretty (n : N) t : no_digit t = true -> digits None (pretty n +:+ t) = Some (Z.of_N n).
Proof.
  intros Ht. unfold pretty, pretty_N. case_decide as Hn.
  - subst. change (digits (Some 0) t = Some 0). by apply digits_stop.
  - rewrite pretty_N_go_app, digits_pretty_go, (proj2 (N.ltb_lt _ _)) by lia. by apply digits_stop.
Qed.

Lemma pretty_N_head (n : N) t : exists c s, pretty n +:+ t = String (pretty_N_char c) s /\ (c < 10)%N.
Proof.
  unfold pretty, pretty_N. case_decide as Hn; [by exists 0%N, t|].
  rewrite pretty_N_go_app. apply pretty_N_go_head. lia.
Qed.

Lemma skip_digit c s : (c < 10)%N -> skip_spaces (String (pretty_N_char c) s) = String (pretty_N_char c) s.
Proof.
  intros Hc. cbn [skip_spaces]. unfold isspace. rewrite code_digit by done.
  rewrite !orb_false_intro; [done|apply andb_false_intro2|]; lia.
Qed.

Lemma strtol_digits (n : N) t : no_digit t = true -> strtol (pretty n +:+ t) = Some (Z.of_N n).
Proof.
  intros Ht. rewrite <- (digits_pretty n t Ht). destruct (pretty_N_head n t) as (c & s & -> & Hc).
  unfold strtol. rewrite skip_digit, code_digit by done.
  by rewrite (proj2 (Z.eqb_neq _ 45)), (proj2 (Z.eqb_neq _ 43)) by lia.
Qed.

Lemma strtol_pretty (n : Z) t : no_digit t = true -> strtol (pretty n +:+ t) = Some n.
Proof.
  intros Ht. destruct n as [|p|p].
  - apply (strtol_digits 0 t Ht).
  - apply (strtol_digits (N.pos p) t Ht).
  - change (pretty (Z.neg p) +:+ t) with (String "-" (pretty (N.pos p) +:+ t)).
    unfold strtol. cbn [skip_spaces]. change (isspace "-") with false. cbv iota.
    change (code "-" =? 45) with true. cbv iota. by rewrite digits_pretty.
Qed.

Lemma strtol_blanks b s : blank b = true -> strtol (b +:+ s) = strtol s.
Proof. intros Hb. unfold strtol. by rewrite skip_blanks. Qed.

(** Blanks before a number and other characters after it make no difference. *)
Lemma stoi_pretty b n t :
  blank b = true -> no_digit t = true ->
  stoi (b +:+ pretty n +:+ t) = if is_int n then Ok n else Throw "std::out_of_range".
Proof. intros Hb Ht. unfold stoi. by rewrite strtol_blanks, strtol_pretty. Qed.

(** What is not a number. *)
Lemma stoi_no_number b t :
  blank b = true -> no_digit (skip_spaces t) = true ->
  match skip_spaces t with String a t' => code a = 45 \/ code a = 43 -> no_digit t' = true | EmptyString => True end ->
  stoi (b +:+ t) = Throw "std::invalid_argument".
Proof.
  intros Hb Ht Hs. unfold stoi. rewrite strtol_blanks by done. unfold strtol.
  destruct (skip_spaces t) as [|a t']; [done|].
  destruct (Z.eqb_spec (code a) 45); [by rewrite digits_stop by auto|].
  destruct (Z.eqb_spec (code a) 43); by rewrite digits_stop by auto.
Qed.

Lemma stoi_int s v : stoi s = Ok v -> - 2 ^ 31 <= v < 2 ^ 31.
Proof. unfold stoi, is_int. destruct (strtol s); [|done]. case_match; [|done]. intros [= <-]. lia. Qed.

Lemma arg_int argv i dflt v : is_int dflt = true -> arg argv i dflt = Ok v -> - 2 ^ 31 <= v < 2 ^ 31.
Proof.
  unfold arg. destruct (argv !! i); [intros _; by apply stoi_int|]. unfold is_int. intros Hd [= <-]. lia.
Qed.

(** * Properties *)


