(* ===== verification/MtBench.v ===== *)
(** The multi-threaded benchmark client ([examples/latency_bench_mt.cpp]): the
    worker threads with their connections, the start signal, and the merging
    of their samples by [main].

    [WorkerThread] is the function as a whole.  For the concurrent program a
    worker is also given as a machine, one step per exchange, and [Bench] is
    the process: the start flag and the workers, interleaved in any way.  Each
    worker has its own socket ([worker_env]): the answers of the connecting
    calls, of [send], and the bytes that arrive.  [rtt i] is the latency
    measured for the [i]-th exchange. *)
From S2P Require Import Prelude Buffer Protocol IoContext Coro Connection ResponseQueue.
From S2P Require Import Echo Client Stats.

(** * Connecting *)

Inductive ccall : Type :=
| CSocket
| CSetsockopt (fd : Z)
| CConnect (fd : Z)
| CClose (fd : Z).

(** [a_strerror] is the text of [errno]. *)
Record ConnectAnswers := { a_fd : Z; a_pton : Z; a_connect : Z; a_strerror : string }.

(** The calls made, and the descriptor or the exception. *)
Definition ConnectTcp (ans : ConnectAnswers) : outcome Z * list ccall :=
  let fd := a_fd ans in
  if fd <? 0 then (Throw "socket() failed", [CSocket])
  else if negb (a_pton ans =? 1) then (Throw "inet_pton failed", [CSocket; CSetsockopt fd])
  else if negb (a_connect ans =? 0)
  then (Throw ("connect() failed: " +:+ a_strerror ans), [CSocket; CSetsockopt fd; CConnect fd])
  else (Ok fd, [CSocket; CSetsockopt fd; CConnect fd]).

(** Descriptor [fd] is open after the calls. *)
Definition fd_open (fd : Z) (calls : list ccall) : bool :=
  fold_left (fun b x => match x with
                        | CSocket => 0 <=? fd
                        | CClose f => if f =? fd then false else b
                        | _ => b
                        end) calls false.

(** * A worker *)

Record ThreadResult := mkResult {
  latencies_us : list Z;
  error : string                     (* non-empty on failure *)
}.

(** What a thread has at its end: its result and the calls it made; or it
    waits for its peer for ever, or has undefined behaviour. *)
Inductive worker_end : Type :=
| Finished (r : ThreadResult) (calls : list ccall)
| Hangs
| Crashed (why : string).

Record worker_env := mkEnv {
  we_answers : ConnectAnswers;
  we_socket : Socket;
  we_incoming : list (option bytes);
  rtt : Z -> Z
}.

(** [const std::string payload_str(msg_size, 'x')]: a negative length is a
    huge [size_t]. *)
Definition make_payload (msg_size : Z) : outcome bytes :=
  if VECTOR_MAX <? u64 msg_size then Throw "basic_string::_M_create"
  else Ok (replicate (Z.to_nat msg_size) Byte.x78).

(** [std::vector<int64_t>::reserve(count)] *)
Definition reserve (count : Z) : outcome unit :=
  if 2 ^ 60 - 1 <? u64 count then Throw "vector::reserve" else Ok tt.

Section Workers.
Context {HO : HostOrder} {CP : ClientProtobuf} (count msg_size : Z).

(** From the [i]-th turn of the request loop to the end of the function, the
    handler of the [catch] included. *)
Fixpoint worker_loop (env : worker_env) (n : nat) (i : Z) (payload_str : bytes) (fd : Z)
    (calls : list ccall) (c : Client) (lat : list Z) : worker_end :=
  match n with
  | O => Finished (mkResult lat "") (calls ++ [CClose fd])
  | S n =>
      match exchange (S := we_socket env) i payload_str c with
      | Done c => worker_loop env n (i + 1) payload_str fd calls c (lat ++ [rtt env i])
      | Waiting => Hangs
      | Raised e => Finished (mkResult lat e) calls
      | Undef why => Crashed why
      end
  end.

Definition new_client (env : worker_env) : Client := mkClient [] (we_incoming env) 0 [].

(** From the start signal on. *)
Definition worker_go (env : worker_env) (payload_str : bytes) (fd : Z) (calls : list ccall) : worker_end :=
  worker_loop env (Z.to_nat count) 0 payload_str fd calls (new_client env) [].

Definition WorkerThread (env : worker_env) : worker_end :=
  let '(r, calls) := ConnectTcp (we_answers env) in
  match (fd ← r; payload_str ← make_payload msg_size; _ ← reserve count; Ok (fd, payload_str)) with
  | Ok (fd, payload_str) => worker_go env payload_str fd calls
  | Throw e => Finished (mkResult [] e) calls
  | UB why => Crashed why
  end.

(** * The process *)

Inductive wstate : Type :=
| WStart
| WSpin (payload_str : bytes) (fd : Z) (calls : list ccall)     (* while (!start_flag.load()) *)
| WFor (i : Z) (payload_str : bytes) (fd : Z) (calls : list ccall) (c : Client) (lat : list Z)
| WEnd (e : worker_end).

(** One step of a worker that sees [flag]. *)
Definition worker_step (env : worker_env) (flag : bool) (w : wstate) : wstate :=
  match w with
  | WStart =>
      let '(r, calls) := ConnectTcp (we_answers env) in
      match (fd ← r; payload_str ← make_payload msg_size; _ ← reserve count; Ok (fd, payload_str)) with
      | Ok (fd, payload_str) => WSpin payload_str fd calls
      | Throw e => WEnd (Finished (mkResult [] e) calls)
      | UB why => WEnd (Crashed why)
      end
  | WSpin payload_str fd calls =>
      if flag then WFor 0 payload_str fd calls (new_client env) [] else w
  | WFor i payload_str fd calls c lat =>
      if i <? count then
        match exchange (S := we_socket env) i payload_str c with
        | Done c => WFor (i + 1) payload_str fd calls c (lat ++ [rtt env i])
        | Waiting => w
        | Raised e => WEnd (Finished (mkResult lat e) calls)
        | Undef why => WEnd (Crashed why)
        end
      else WEnd (Finished (mkResult lat "") (calls ++ [CClose fd]))
  | WEnd _ => w
  end.

Record Bench := mkBench { start_flag : bool; workers : list wstate }.

(** [main] raises the flag; the scheduler runs a worker. *)
Inductive bench_event : Type :=
| RaiseFlag
| RunWorker (t : nat).

Definition bench_step (envs : list worker_env) (b : Bench) (e : bench_event) : Bench :=
  match e with
  | RaiseFlag => mkBench true (workers b)
  | RunWorker t =>
      match envs !! t, workers b !! t with
      | Some env, Some w => mkBench (start_flag b) (<[t := worker_step env (start_flag b) w]> (workers b))
      | _, _ => b
      end
  end.

Definition bench_run (envs : list worker_env) (b : Bench) (es : list bench_event) : Bench :=
  fold_left (bench_step envs) es b.

Definition bench_init (envs : list worker_env) : Bench := mkBench false (replicate (length envs) WStart).

(** [join] returns for every thread. *)
Fixpoint join_all (ws : list wstate) : option (list (ThreadResult * list ccall)) :=
  match ws with
  | [] => Some []
  | WEnd (Finished r calls) :: ws => rs ← join_all ws; Some ((r, calls) :: rs)
  | _ :: _ => None
  end.

(** The merged samples, as [main] hands them to [PrintStats]. *)
Definition merge_results (rs : list ThreadResult) : list Z := sorted (rs ≫= latencies_us).

(** [main] after the threads have been joined: what it reports as errors, what
    it prints of all samples ([print] is the program's [PrintStats]), and the
    p99 of each thread. *)
Definition report_with {A} (print : list Z -> outcome A) (rs : list ThreadResult)
  : outcome (list string * A * list (option Z)) :=
  let errors := filter (fun e => e <> ""%string) (error <$> rs) in
  _ ← reserve (u64 count * zlen rs);
  s ← print (merge_results rs);
  p99s ← foldr (fun r acc => x ← thread_p99 (latencies_us r); xs ← acc; Ok (x :: xs)) (Ok []) rs;
  Ok (errors, s, p99s).

Definition main_report (rs : list ThreadResult)
  : outcome (list string * option Stats * list (option Z)) := report_with PrintStats rs.

End Workers.

(** * Independence of the schedule *)

#[export] Instance bench_event_eq_dec : EqDecision bench_event.
Proof. solve_decision. Defined.

Section Schedules.
Context {HO : HostOrder} {CP : ClientProtobuf} (count msg_size : Z).

(** What a worker will have at its end, once the flag is up. *)
Definition rest_of (env : worker_env) (w : wstate) : worker_end :=
  match w with
  | WStart => WorkerThread count msg_size env
  | WSpin payload_str fd calls => worker_go count env payload_str fd calls
  | WFor i payload_str fd calls c lat =>
      worker_loop env (Z.to_nat (count - i)) i payload_str fd calls c lat
  | WEnd e => e
  end.

(** A bound on the steps that are left. *)
Definition steps_left (w : wstate) : nat :=
  match w with
  | WStart => Z.to_nat count + 3
  | WSpin _ _ _ => Z.to_nat count + 2
  | WFor i _ _ _ _ _ => Z.to_nat (count - i) + 1
  | WEnd _ => 0
  end.

Lemma worker_step_rest env flag w : rest_of env (worker_step count msg_size env flag w) = rest_of env w.
Proof.
  destruct w as [|p fd calls|i p fd calls c lat|e]; cbn [worker_step].
  - cbn [rest_of]. unfold WorkerThread. destruct (ConnectTcp _) as [[fd|e|why] calls]; cbn; [|done..].
    destruct (make_payload _) as [p|e|why]; cbn; [|done..]. by destruct (reserve _).
  - destruct flag; [|done]. cbn [rest_of]. unfold worker_go. by rewrite Z.sub_0_r.
  - destruct (Z.ltb_spec i count) as [Hi|Hi].
    + cbn [rest_of]. replace (Z.to_nat (count - i)) with (S (Z.to_nat (count - (i + 1)))) by lia.
      cbn [worker_loop]. destruct (exchange _ _ _) eqn:E; cbn [rest_of]; try done.
      replace (Z.to_nat (count - i)) with (S (Z.to_nat (count - (i + 1)))) by lia.
      cbn [worker_loop]. by rewrite E.
    + cbn [rest_of]. by rewrite Z2Nat.nonpos by lia.
  - done.
Qed.

(** With the flag up, a worker that does not hang makes progress. *)
Lemma worker_step_progress env w :
  rest_of env w <> Hangs -> (steps_left (worker_step count msg_size env true w) <= steps_left w - 1)%nat.
Proof.
  intros Hr. destruct w as [|p fd calls|i p fd calls c lat|e]; cbn [worker_step]; [| | |done].
  - destruct (ConnectTcp _) as [[fd|e|why] calls]; cbn [mbind outcome_bind]; [|cbn; lia..].
    destruct (make_payload _) as [p|e|why]; cbn [mbind outcome_bind]; [|cbn; lia..].
    destruct (reserve _); cbn; lia.
  - cbn. lia.
  - destruct (Z.ltb_spec i count) as [Hi|Hi]; [|cbn; lia].
    destruct (exchange _ _ _) eqn:E; cbn [steps_left]; [lia| |lia..].
    exfalso. apply Hr. cbn [rest_of].
    replace (Z.to_nat (count - i)) with (S (Z.to_nat (count - (i + 1)))) by lia.
    cbn [worker_loop]. by rewrite E.
Qed.

(** Every worker is on the way to the result of its function. *)
Definition on_track (envs : list worker_env) (b : Bench) : Prop :=
  forall t env, envs !! t = Some env ->
    exists w, workers b !! t = Some w /\ rest_of env w = WorkerThread count msg_size env.

Lemma bench_step_track envs b e : on_track envs b -> on_track envs (bench_step count msg_size envs b e).
Proof.
  intros Hb. destruct e as [|t]; cbn; [exact Hb|].
  destruct (envs !! t) as [env|] eqn:Et; [|done]. destruct (Hb t env Et) as (w & Hw & Hr). rewrite Hw.
  intros t' env' Et'. cbn. destruct (decide (t' = t)) as [->|Hne].
  - rewrite Et in Et'. injection Et' as <-. eexists.
    rewrite list_lookup_insert_eq by (by eapply lookup_lt_Some). split; [done|].
    by rewrite worker_step_rest.
  - rewrite list_lookup_insert_ne by done. by apply Hb.
Qed.

Lemma bench_run_track envs es : forall b, on_track envs b -> on_track envs (bench_run count msg_size envs b es).
Proof. induction es as [|e es IH]; intros b Hb; [done|]. cbn. by apply IH, bench_step_track. Qed.

Lemma bench_init_track envs : on_track envs (bench_init envs).
Proof.
  intros t env Et. exists WStart. split; [|done]. cbn. apply lookup_replicate_2. by eapply lookup_lt_Some.
Qed.

(** How often worker [t] runs. *)
Definition runs (t : nat) (es : list bench_event) : nat :=
  length (filter (fun e => e = RunWorker t) es).

Lemma flag_stays envs es : forall b, start_flag b = true -> start_flag (bench_run count msg_size envs b es) = true.
Proof.
  induction es as [|e es IH]; intros b Hb; [done|]. cbn. apply IH.
  destruct e as [|t]; [done|]. cbn. destruct (envs !! t), (workers b !! t); done.
Qed.

(** Worker [t] alone, after the flag is up. *)
Lemma bench_run_progress envs t env es : forall b w,
  start_flag b = true -> envs !! t = Some env -> workers b !! t = Some w -> rest_of env w <> Hangs ->
  (steps_left w <= runs t es)%nat ->
  workers (bench_run count msg_size envs b es) !! t = Some (WEnd (rest_of env w)).
Proof.
  induction es as [|e es IH]; intros b w Hf Ht Hw Hr Hs.
  - unfold runs in Hs. cbn in Hs. cbn. rewrite Hw. destruct w; cbn in *; try lia. done.
  - unfold runs in Hs. rewrite filter_cons in Hs. cbn [bench_run fold_left].
    change (fold_left (bench_step count msg_size envs) es ?b) with (bench_run count msg_size envs b es).
    case_decide as He.
    + subst e. cbn [length] in Hs. cbn [bench_step]. rewrite Ht, Hw, Hf.
      rewrite <- (worker_step_rest env true w). apply IH; try done.
      * cbn. apply list_lookup_insert_eq. by eapply lookup_lt_Some.
      * by rewrite worker_step_rest.
      * pose proof (worker_step_progress env w Hr). unfold runs. lia.
    + destruct e as [|t']; cbn [bench_step]; [by apply IH|].
      destruct (envs !! t') as [env'|], (workers b !! t') as [w'|]; try by apply IH.
      apply IH; try done. cbn. rewrite list_lookup_insert_ne; [done|congruence].
Qed.

Lemma workers_length envs es : forall b,
  length (workers (bench_run count msg_size envs b es)) = length (workers b).
Proof.
  induction es as [|e es IH]; intros b; [done|]. cbn [bench_run fold_left].
  change (fold_left (bench_step count msg_size envs) es ?b) with (bench_run count msg_size envs b es).
  rewrite IH. destruct e as [|t]; [done|]. cbn. destruct (envs !! t), (workers b !! t); [|done..].
  cbn. apply length_insert.
Qed.

Lemma join_all_ends ws rs :
  Forall2 (fun w r => w = WEnd (Finished r.1 r.2)) ws rs -> join_all ws = Some rs.
Proof. induction 1 as [|w [r calls] ws rs -> _ IH]; [done|]. cbn. by rewrite IH. Qed.

(** Before the flag is up nobody talks. *)
Definition quiet_worker (w : wstate) : Prop :=
  match w with
  | WStart | WSpin _ _ _ => True
  | WFor _ _ _ _ _ _ => False
  | WEnd e => match e with Finished r _ => latencies_us r = [] /\ error r <> ""%string | _ => True end
  end.

Lemma connect_error ans e calls : ConnectTcp ans = (Throw e, calls) -> e <> ""%string.
Proof. unfold ConnectTcp. by repeat case_match; intros [= <- <-]. Qed.

Lemma quiet_step env w : quiet_worker w -> quiet_worker (worker_step count msg_size env false w).
Proof.
  destruct w as [|p fd calls|i p fd calls c lat|e]; cbn [worker_step]; [|done..].
  intros _. destruct (ConnectTcp _) as [[fd|e|why] calls] eqn:E; cbn [mbind outcome_bind].
  - unfold make_payload. destruct (VECTOR_MAX <? _); cbn; [done|].
    unfold reserve. by destruct (_ <? _).
  - split; [done|]. cbn. by eapply connect_error.
  - done.
Qed.

Lemma quiet_run envs es : forall b,
  RaiseFlag ∉ es -> start_flag b = false -> Forall quiet_worker (workers b) ->
  Forall quiet_worker (workers (bench_run count msg_size envs b es)).
Proof.
  induction es as [|e es IH]; intros b Hn Hf Hq; [done|]. apply not_elem_of_cons in Hn as [Hne Hn].
  cbn. apply IH; [done|..]; destruct e as [|t]; try done; cbn;
    destruct (envs !! t) as [env|], (workers b !! t) as [w|] eqn:Hw; try done.
  cbn. rewrite Hf. apply Forall_insert; [done|]. apply quiet_step. by eapply Forall_lookup_1.
Qed.

End Schedules.

(** * What a worker collects *)

Section Samples.
Context {HO : HostOrder} {CP : ClientProtobuf}.

(** The exchanges of [Client], with a sample each. *)
Lemma worker_loop_app env n j : forall i p fd calls c lat c',
  exchanges (S := we_socket env) j i p c = Done c' ->
  worker_loop env (j + n) i p fd calls c lat =
  worker_loop env n (i + Z.of_nat j) p fd calls c' (lat ++ (rtt env <$> seqZ i (Z.of_nat j))).
Proof.
  induction j as [|j IH]; intros i p fd calls c lat c'; cbn [exchanges Nat.add].
  { intros [= <-]. cbn. by rewrite Z.add_0_r, app_nil_r. }
  cbn [worker_loop]. destruct (exchange i p c) as [c1| | |]; cbn [mbind io_bind]; [|done..].
  intros E. rewrite (IH _ _ _ _ _ _ _ E).
  assert (Eseq : seqZ i (Z.of_nat (S j)) = i :: seqZ (i + 1) (Z.of_nat j))
    by (rewrite seqZ_cons by lia; f_equal; f_equal; lia).
  rewrite Eseq. cbn [fmap list_fmap]. rewrite <- app_assoc. cbn [app].
  by replace (i + Z.of_nat (S j)) with (i + 1 + Z.of_nat j) by lia.
Qed.

(** More input does not change what has been done without it. *)
Definition with_more (extra : list (option bytes)) (c : Client) : Client :=
  mkClient (recv_staging c) (incoming c ++ extra) (sends c) (wire_out c).

Lemma RecvExact_more extra need c c' :
  RecvExact need c = Done c' -> RecvExact need (with_more extra c) = Done (with_more extra c').
Proof.
  destruct c as [buf inc t out]. unfold RecvExact, with_more. cbn [recv_staging incoming sends wire_out].
  revert buf. induction inc as [|ch inc IH]; intros buf; cbn [RecvExact_loop app].
  - destruct (zlen buf <? need) eqn:E; [done|]. cbn [mbind io_bind]. intros [= <-]. cbn.
    destruct extra; cbn; by rewrite E.
  - destruct (zlen buf <? need) eqn:E; [|by intros [= <-]]. destruct ch as [[|x bs]|]; [done| |done].
    apply IH.
Qed.

Lemma erase_more extra n c c' : erase n c = Done c' -> erase n (with_more extra c) = Done (with_more extra c').
Proof. unfold erase, with_more. cbn. destruct (n <=? _); [|done]. by intros [= <-]. Qed.

Lemma receive_response_more extra c h c' :
  receive_response c = Done (h, c') -> receive_response (with_more extra c) = Done (h, with_more extra c').
Proof.
  unfold receive_response. destruct (RecvExact HEADER_SIZE c) as [c1| | |] eqn:E1; cbn [mbind io_bind]; [|done..].
  rewrite (RecvExact_more extra _ _ _ E1). cbn [mbind io_bind].
  change (recv_staging (with_more extra c1)) with (recv_staging c1).
  destruct (lift (mem_read (recv_staging c1) 0 HEADER_SIZE)) as [im| | |]; cbn [mbind io_bind]; [|done..].
  destruct (erase HEADER_SIZE c1) as [c2| | |] eqn:E2; cbn [mbind io_bind]; [|done..].
  rewrite (erase_more extra _ _ _ E2). cbn [mbind io_bind]. destruct (negb _); [done|].
  destruct (RecvExact _ c2) as [c3| | |] eqn:E3; cbn [mbind io_bind]; [|done..].
  rewrite (RecvExact_more extra _ _ _ E3). cbn [mbind io_bind].
  destruct (erase _ c3) as [c4| | |] eqn:E4; cbn [mbind io_bind]; [|done..].
  rewrite (erase_more extra _ _ _ E4). by intros [= <- <-].
Qed.

Lemma exchange_more {S : Socket} extra i p c c' :
  exchange i p c = Done c' -> exchange i p (with_more extra c) = Done (with_more extra c').
Proof.
  unfold exchange, SendAll. destruct (lift (build_request i p)) as [d| | |]; cbn [mbind io_bind]; [|done..].
  cbn [sends wire_out with_more recv_staging incoming].
  destruct (SendAll_loop _ _ _ _) as [[t out]| | |]; cbn [mbind io_bind]; [|done..].
  set (c1 := mkClient (recv_staging c) (incoming c) t out).
  change (mkClient (recv_staging c) (incoming c ++ extra) t out) with (with_more extra c1).
  destruct (receive_response c1) as [[h c2]| | |] eqn:E; cbn [mbind io_bind]; [|done..].
  rewrite (receive_response_more extra _ _ _ E). by intros [= <-].
Qed.

Lemma exchanges_more {S : Socket} extra n : forall i p c c',
  exchanges n i p c = Done c' -> exchanges n i p (with_more extra c) = Done (with_more extra c').
Proof.
  induction n as [|n IH]; intros i p c c'; cbn [exchanges]; [by intros [= <-]|].
  destruct (exchange i p c) as [c1| | |] eqn:E; cbn [mbind io_bind]; [|done..].
  rewrite (exchange_more extra _ _ _ _ E). apply IH.
Qed.

(** The peer is gone: an error or end of file instead of data. *)
Definition gone (ch : option bytes) : Prop := ch = None \/ ch = Some [].

Lemma RecvExact_gone need c ch extra :
  open_stream c -> gone ch -> zlen (Client.pending c) < need ->
  RecvExact need (with_more (ch :: extra) c) = Raised "recv failed / connection closed".
Proof.
  destruct c as [buf inc t out]. unfold RecvExact, with_more, open_stream, Client.pending.
  cbn [recv_staging incoming sends wire_out]. intros Ho Hg. revert buf Ho.
  induction inc as [|x inc IH]; intros buf Ho Hn; cbn [RecvExact_loop app].
  - cbn in Hn. rewrite app_nil_r in Hn. rewrite (proj2 (Z.ltb_lt _ _)) by done. by destruct Hg as [->| ->].
  - apply Forall_cons in Ho as [(y & bs & ->) Ho]. cbn [omap list_omap id concat] in Hn.
    pose proof (zlen_nonneg ((y :: bs) ++ concat (omap id inc))). rewrite zlen_app in Hn.
    rewrite (proj2 (Z.ltb_lt _ _)) by lia. apply IH; [done|]. rewrite <- app_assoc, zlen_app. done.
Qed.

Lemma exchange_gone {S : Socket} i p c ch extra :
  socket_ok -> zlen (SerializeRequest p) < 2 ^ 32 -> open_stream c -> gone ch ->
  zlen (Client.pending c) < HEADER_SIZE ->
  exchange i p (with_more (ch :: extra) c) = Raised "recv failed / connection closed".
Proof.
  intros Hs Hsz Ho Hg Hn. unfold exchange. rewrite build_request_ok by done. cbn [lift mbind io_bind].
  destruct (SendAll_ok (wire_frame (request_header i (SerializeRequest p)) (SerializeRequest p))
              (with_more (ch :: extra) c) Hs) as [t ->]. cbn [mbind io_bind].
  set (c1 := mkClient (recv_staging c) (incoming c) t
               (wire_out c ++ wire_frame (request_header i (SerializeRequest p)) (SerializeRequest p))).
  change (mkClient _ _ _ _) with (with_more (ch :: extra) c1). unfold receive_response.
  by rewrite (RecvExact_gone HEADER_SIZE c1 ch extra).
Qed.

End Samples.

(** * The report *)

Lemma worker_step_mono {HO : HostOrder} {CP : ClientProtobuf} count msg_size env flag w :
  (steps_left count (worker_step count msg_size env flag w) <= steps_left count w)%nat.
Proof.
  destruct w as [|p fd calls|i p fd calls c lat|e]; cbn [worker_step]; [| | |done].
  - destruct (ConnectTcp _) as [[fd|e|why] calls]; cbn [mbind outcome_bind]; [|cbn; lia..].
    destruct (make_payload _) as [p|e|why]; cbn [mbind outcome_bind]; [|cbn; lia..].
    destruct (reserve _); cbn; lia.
  - destruct flag; cbn; lia.
  - destruct (Z.ltb_spec i count); [|cbn; lia]. destruct (exchange _ _ _); cbn [steps_left]; lia.
Qed.

Lemma bench_run_mono {HO : HostOrder} {CP : ClientProtobuf} count msg_size envs es : forall b k,
  Forall (fun w => (steps_left count w <= k)%nat) (workers b) ->
  Forall (fun w => (steps_left count w <= k)%nat) (workers (bench_run count msg_size envs b es)).
Proof.
  induction es as [|e es IH]; intros b k Hb; [done|]. cbn. apply IH. destruct e as [|t]; [done|]. cbn.
  destruct (envs !! t) as [env|], (workers b !! t) as [w|] eqn:Hw; try done. cbn.
  apply Forall_insert; [done|]. etrans; [apply worker_step_mono|]. by eapply (Forall_lookup_1 _ _ _ _ Hb).
Qed.

(** The p99 of a thread is the one of [PrintStats]. *)
Lemma thread_p99_ok v :
  v <> [] -> zlen v <= 2 ^ 40 ->
  exists x, thread_p99 v = Ok (Some x) /\ of_rank v (990 * zlen v / 1000) x.
Proof.
  intros Hv Hn. destruct (pct_sorted v p99 990 Hv Hn) as (x & E & _ & Hx); [do 2 right; left|].
  exists x. split; [|done]. unfold pct, percentile_index, p99 in E. unfold thread_p99.
  destruct v as [|y v]; [by destruct Hv|]. by rewrite E.
Qed.

(** The samples of all threads. *)
Definition all_samples (rs : list ThreadResult) : list Z := rs ≫= latencies_us.

Lemma main_report_ok count rs :
  0 <= count -> count * zlen rs < 2 ^ 60 -> Forall (fun r => latencies_us r <> [] /\ error r = ""%string) rs ->
  samples_ok (all_samples rs) -> rs <> [] ->
  exists s p99s, main_report count rs = Ok ([], Some s, p99s) /\ stats_of (all_samples rs) s /\
    Forall2 (fun r x => exists q, x = Some q /\ of_rank (latencies_us r) (990 * zlen (latencies_us r) / 1000) q)
      rs p99s.
Proof.
  intros Hc Hcr Hrs Hs Hne. unfold main_report, report_with, merge_results. fold (all_samples rs).
  pose proof (zlen_nonneg rs).
  assert (Hcnt : count < 2 ^ 60) by (destruct rs; [done|rewrite zlen_cons in *; pose proof (zlen_nonneg rs); nia]).
  assert (Hall : all_samples rs <> []).
  { destruct rs as [|r rs]; [done|]. apply Forall_cons in Hrs as [[Hr _] _]. unfold all_samples.
    rewrite bind_cons. by destruct (latencies_us r). }
  destruct (PrintStats_ok _ Hs Hall) as (s & -> & Hst).
  unfold reserve. rewrite (u64_small count) by (unfold SIZE_MOD; lia).
  rewrite (u64_small (count * zlen rs)) by (unfold SIZE_MOD; nia).
  rewrite (proj2 (Z.ltb_ge _ _)) by lia. cbn [mbind outcome_bind].
  assert (Hp : exists p99s, foldr (fun r acc => x ← thread_p99 (latencies_us r); xs ← acc; Ok (x :: xs)) (Ok []) rs
                 = Ok p99s /\
             Forall2 (fun r x => exists q, x = Some q /\
                        of_rank (latencies_us r) (990 * zlen (latencies_us r) / 1000) q) rs p99s).
  { destruct Hs as [_ Hlen]. clear -Hrs Hlen. unfold all_samples in Hlen.
    induction Hrs as [|r rs [Hr _] _ IH]; [by eexists|]. rewrite bind_cons, zlen_app in Hlen.
    pose proof (zlen_nonneg (rs ≫= latencies_us)). pose proof (zlen_nonneg (latencies_us r)).
    destruct IH as (p99s & E & HF); [lia|]. destruct (thread_p99_ok (latencies_us r) Hr) as (x & Ex & Hx); [lia|].
    cbn. rewrite Ex, E. eexists. split; [done|]. constructor; [by exists x|done]. }
  destruct Hp as (p99s & -> & HF). cbn [mbind outcome_bind]. exists s, p99s. split; [|done].
  rewrite filter_none; [done|]. apply Forall_fmap. eapply Forall_impl; [exact Hrs|]. cbn. intros r [_ ->]. auto.
Qed.

(** * Properties *)

(** A thread whose peer answers [resps] and sends [rest] behind them; [extra] is
    what its socket yields after that. *)
Record served {HO : HostOrder} (env : worker_env) (resps : list (RpcHeader * bytes)) (rest : bytes)
    (extra : list (option bytes)) : Prop := {
  sv_fd : 0 <= a_fd (we_answers env);
  sv_pton : a_pton (we_answers env) = 1;
  sv_connect : a_connect (we_answers env) = 0;
  sv_socket : @socket_ok (we_socket env);
  sv_sendable : Forall sendable resps;
  sv_stream : exists chunks, we_incoming env = (Some <$> chunks) ++ extra /\
    Forall (fun ch => ch <> []) chunks /\ concat chunks = wire resps ++ rest
}.

(** The payload of a request: [msg_size] times the letter x. *)
Definition xs (msg_size : Z) : bytes := replicate (Z.to_nat msg_size) Byte.x78.

Lemma served_start {HO : HostOrder} {CP : ClientProtobuf} count msg_size env resps rest extra :
  served env resps rest extra -> 0 <= count < 2 ^ 31 -> 0 <= msg_size < 2 ^ 31 ->
  exists calls, ConnectTcp (we_answers env) = (Ok (a_fd (we_answers env)), calls) /\
    WorkerThread count msg_size env = worker_go count env (xs msg_size) (a_fd (we_answers env)) calls /\
    fd_open (a_fd (we_answers env)) calls = true /\
    fd_open (a_fd (we_answers env)) (calls ++ [CClose (a_fd (we_answers env))]) = false.
Proof.
  intros [Hfd Hpt Hco _ _ _] Hc Hm. unfold WorkerThread, ConnectTcp.
  rewrite (proj2 (Z.ltb_ge _ _)) by lia. rewrite Hpt, Hco. cbn [Z.eqb negb]. change (1 =? 1) with true. cbn [negb].
  eexists. split; [done|]. cbn [mbind outcome_bind]. unfold make_payload, reserve, VECTOR_MAX.
  rewrite !u64_small by (unfold SIZE_MOD; lia). rewrite !(proj2 (Z.ltb_ge _ _)) by lia. cbn [mbind outcome_bind].
  split; [done|]. unfold fd_open. cbn. rewrite Z.eqb_refl. split; [by apply Z.leb_le|done].
Qed.

Lemma served_exchanges {HO : HostOrder} {CP : ClientProtobuf} env resps rest extra p :
  served env resps rest extra -> zlen (SerializeRequest p) < 2 ^ 32 ->
  exists c, exchanges (S := we_socket env) (length resps) 0 p (new_client env) = Done (with_more extra c) /\
    Client.pending c = rest /\ open_stream c.
Proof.
  intros [_ _ _ Hs Hr (chunks & Hi & Hne & Hc)] Hsz.
  set (c0 := mkClient [] (Some <$> chunks) 0 []).
  assert (Ho : open_stream c0).
  { unfold open_stream. cbn. apply Forall_fmap. eapply Forall_impl; [exact Hne|]. intros [|x bs]; [done|by eexists _, _]. }
  assert (Hp : Client.pending c0 = wire resps ++ rest).
  { unfold Client.pending. cbn. rewrite <- Hc. clear. induction chunks as [|ch chunks IH]; [done|]. cbn. by rewrite IH. }
  destruct (exchanges_ok (S := we_socket env) p resps 0 c0 rest Hs Hsz Ho Hr Hp) as (c' & E & _ & Hp' & Ho').
  exists c'. split; [|done].
  assert (new_client env = with_more extra c0) as -> by (unfold new_client, with_more; by rewrite Hi).
  by apply exchanges_more.
Qed.

(** The result of a thread whose peer answers every request. *)
Lemma served_result {HO : HostOrder} {CP : ClientProtobuf} count msg_size env resps rest extra :
  served env resps rest extra -> 0 <= count < 2 ^ 31 -> 0 <= msg_size < 2 ^ 31 ->
  zlen (SerializeRequest (xs msg_size)) < 2 ^ 32 -> zlen resps = count ->
  exists calls, WorkerThread count msg_size env = Finished (mkResult (rtt env <$> seqZ 0 count) "") calls /\
    fd_open (a_fd (we_answers env)) calls = false.
Proof.
  intros Hsv Hc Hm Hsz Hn. destruct (served_start count msg_size env resps rest extra Hsv Hc Hm) as (calls & _ & E & _ & Hcl).
  destruct (served_exchanges env resps rest extra _ Hsv Hsz) as (c & Ex & _).
  exists (calls ++ [CClose (a_fd (we_answers env))]). split; [|done]. rewrite E. unfold worker_go.
  replace (Z.to_nat count) with (length resps + 0)%nat by (unfold zlen in Hn; lia).
  rewrite (worker_loop_app _ _ _ _ _ _ _ _ _ _ Ex). cbn. by replace (Z.of_nat (length resps)) with count.
Qed.

#[local] Existing Instance Client.slow_socket.
#[local] Existing Instance Client.plain_requests.
#[local] Existing Instance Echo.little.

(** A thread whose peer answers one request and then closes, and one whose
    peer answers it in two pieces. *)
Definition answers_ok : ConnectAnswers := {| a_fd := 3; a_pton := 1; a_connect := 0; a_strerror := "" |}.
Definition env_closed : worker_env :=
  mkEnv answers_ok slow_socket [Some request_wire; Some []] (fun i => 100 + i mod 7).
Definition env_pieces : worker_env :=
  mkEnv answers_ok slow_socket [Some (take 5 request_wire); Some (drop 5 request_wire)] (fun i => 70 - i mod 7).

Lemma env_closed_served : served env_closed [request] [] [Some []].
Proof.
  constructor; try done; [exact slow_socket_ok|exact request_sendable|].
  exists [request_wire]. split; [done|]. split; [by repeat constructor|]. vm_compute. reflexivity.
Qed.

Lemma env_pieces_served : served env_pieces [request] [] [].
Proof.
  constructor; try done; [exact slow_socket_ok|exact request_sendable|].
  exists [take 5 request_wire; drop 5 request_wire]. split; [done|].
  split; [repeat constructor; vm_compute; discriminate|]. vm_compute. reflexivity.
Qed.

(** C29: A thread that loses its peer keeps what it has measured, and its
    descriptor.  If the connection ends after [length resps] complete answers
    and before the next header, the thread returns with exactly one sample per
    answer and the error recorded; but the exception skips the [close], so the
    descriptor stays open. *)
Theorem worker_keeps_samples_on_disconnect (HO : HostOrder) (CP : ClientProtobuf) count msg_size env
    resps rest ch extra :
  served env resps rest (ch :: extra) -> gone ch -> 0 <= count < 2 ^ 31 -> 0 <= msg_size < 2 ^ 31 ->
  zlen (SerializeRequest (xs msg_size)) < 2 ^ 32 -> zlen resps < count -> zlen rest < HEADER_SIZE ->
  exists calls,
    WorkerThread count msg_size env =
      Finished (mkResult (rtt env <$> seqZ 0 (zlen resps)) "recv failed / connection closed") calls /\
    fd_open (a_fd (we_answers env)) calls = true.
Proof.
  intros Hsv Hg Hc Hm Hsz Hn Hrest.
  destruct (served_start count msg_size env resps rest _ Hsv Hc Hm) as (calls & _ & E & Hop & _).
  destruct (served_exchanges env resps rest _ _ Hsv Hsz) as (c & Ex & Hp & Ho).
  exists calls. split; [|done]. rewrite E. unfold worker_go.
  replace (Z.to_nat count) with (length resps + S (Z.to_nat count - length resps - 1))%nat
    by (unfold zlen in Hn; lia).
  rewrite (worker_loop_app _ _ _ _ _ _ _ _ _ _ Ex). cbn [worker_loop].
  rewrite (exchange_gone (S := we_socket env) _ _ c ch extra);
    [done|apply Hsv|done|done|done|by rewrite Hp].
Qed.

Lemma worker_keeps_samples_on_disconnect_witness :
  exists calls,
    WorkerThread 3 2 env_closed =
      Finished (mkResult (rtt env_closed <$> seqZ 0 (zlen [request])) "recv failed / connection closed") calls /\
    fd_open (a_fd (we_answers env_closed)) calls = true.
Proof.
  apply (worker_keeps_samples_on_disconnect little plain_requests 3 2 env_closed [request] [] (Some []) []).
  - exact env_closed_served.
  - right. reflexivity.
  - lia.
  - lia.
  - vm_compute. reflexivity.
  - vm_compute. reflexivity.
  - vm_compute. reflexivity.
Defined.

(** A process in which every thread gets enough turns joins all of them. *)
Lemma bench_joins {HO : HostOrder} {CP : ClientProtobuf} count msg_size envs es1 es2 rs :
  Forall2 (fun env r => WorkerThread count msg_size env = Finished r.1 r.2) envs rs ->
  (forall t, (t < length envs)%nat -> (Z.to_nat count + 3 <= runs t es2)%nat) ->
  join_all (workers (bench_run count msg_size envs (bench_init envs) (es1 ++ RaiseFlag :: es2))) = Some rs.
Proof.
  intros Hrs Hruns. unfold bench_run at 1. rewrite fold_left_app.
  change (fold_left _ es1 _) with (bench_run count msg_size envs (bench_init envs) es1).
  set (b := bench_run count msg_size envs (bench_init envs) es1).
  change (fold_left _ _ b) with (bench_run count msg_size envs (mkBench true (workers b)) es2).
  apply join_all_ends.
  assert (Hlb : length (workers b) = length envs) by (unfold b; rewrite workers_length; apply length_replicate).
  apply Forall2_same_length_lookup. split.
  - rewrite workers_length. cbn. rewrite Hlb. by eapply Forall2_length.
  - intros t w r Hw Hr. pose proof (lookup_lt_Some _ _ _ Hr) as Ht.
    rewrite <- (Forall2_length _ _ _ Hrs) in Ht. destruct (lookup_lt_is_Some_2 _ _ Ht) as [env Henv].
    pose proof (Forall2_lookup_lr _ _ _ _ _ _ Hrs Henv Hr) as Hwt.
    destruct (bench_run_track count msg_size envs es1 _ (bench_init_track count msg_size envs) t env Henv)
      as (w0 & Hw0 & Hr0). fold b in Hw0.
    assert (Hsteps : (steps_left count w0 <= Z.to_nat count + 3)%nat).
    { refine (Forall_lookup_1 _ _ _ _ (bench_run_mono count msg_size envs es1 _ _ _) Hw0).
      by apply Forall_replicate. }
    rewrite (bench_run_progress count msg_size envs t env es2 (mkBench true (workers b)) w0) in Hw; try done.
    + injection Hw as <-. by rewrite Hr0, Hwt.
    + by rewrite Hr0, Hwt.
    + etrans; [exact Hsteps|]. by apply Hruns.
Qed.

(** The results of threads whose peers answer everything. *)
Lemma served_results {HO : HostOrder} {CP : ClientProtobuf} count msg_size envs :
  0 <= count < 2 ^ 31 -> 0 <= msg_size < 2 ^ 31 -> zlen (SerializeRequest (xs msg_size)) < 2 ^ 32 ->
  Forall (fun env => exists resps rest extra, served env resps rest extra /\ zlen resps = count) envs ->
  exists rs, Forall2 (fun env r => WorkerThread count msg_size env = Finished r.1 r.2) envs rs /\
    fst <$> rs = (fun env => mkResult (rtt env <$> seqZ 0 count) "") <$> envs /\
    Forall2 (fun env r => fd_open (a_fd (we_answers env)) r.2 = false) envs rs.
Proof.
  intros Hc Hm Hsz. induction 1 as [|env envs (resps & rest & extra & Hsv & Hn) _ (rs & IH1 & IH2 & IH3)].
  { exists []. by split_and!. }
  destruct (served_result count msg_size env resps rest extra Hsv Hc Hm Hsz Hn) as (calls & E & Hcl).
  exists ((mkResult (rtt env <$> seqZ 0 count) "", calls) :: rs). split; [by constructor|].
  split; [cbn; by f_equal|by constructor].
Qed.

(** The report on threads whose peers answered everything. *)
Lemma served_report count envs rs :
  0 < count < 2 ^ 31 -> envs <> [] -> count * zlen envs < 2 ^ 31 ->
  Forall (fun env => forall i, 0 <= rtt env i < 2 ^ 32) envs ->
  rs = (fun env => mkResult (rtt env <$> seqZ 0 count) "") <$> envs ->
  exists s p99s, main_report count rs = Ok ([], Some s, p99s) /\
    stats_of (envs ≫= fun env => rtt env <$> seqZ 0 count) s /\ st_total s = count * zlen envs /\
    Forall2 (fun env x => exists q, x = Some q /\
               of_rank (rtt env <$> seqZ 0 count) (990 * count / 1000) q) envs p99s.
Proof.
  intros Hc Hne Htot Hrtt Hrs.
  assert (Hz : forall env, zlen (rtt env <$> seqZ 0 count) = count)
    by (intros; unfold zlen; rewrite length_fmap, length_seqZ; lia).
  assert (Hall : all_samples rs = envs ≫= fun env => rtt env <$> seqZ 0 count).
  { unfold all_samples. rewrite Hrs. clear. induction envs as [|env envs IH]; [done|].
    cbn [fmap list_fmap]. rewrite !bind_cons, <- IH. done. }
  assert (Hlen : zlen (envs ≫= fun env => rtt env <$> seqZ 0 count) = count * zlen envs).
  { clear -Hz. induction envs as [|env envs IH]; [change (0 = count * 0); lia|].
    rewrite bind_cons, zlen_app, zlen_cons, IH, Hz. lia. }
  destruct (main_report_ok count rs) as (s & p99s & E & Hst & Hp99).
  - lia.
  - rewrite Hrs. unfold zlen in *. rewrite length_fmap. lia.
  - rewrite Hrs. apply Forall_fmap, Forall_forall. intros env _. split; [|done]. cbn. intros Hnil.
    specialize (Hz env). rewrite Hnil, zlen_nil in Hz. lia.
  - rewrite Hall. split; [|lia]. apply Forall_bind. eapply Forall_impl; [exact Hrtt|].
    intros env He. apply Forall_fmap, Forall_forall. intros i _. apply He.
  - rewrite Hrs. by destruct envs.
  - exists s, p99s. split; [done|]. rewrite <- Hall. split; [done|].
    split; [rewrite (so_total _ _ Hst), Hall; done|].
    rewrite Hrs, Forall2_fmap_l in Hp99. eapply Forall2_impl; [exact Hp99|]. cbn. intros env x.
    by rewrite Hz.
Qed.

(** Every schedule gives the same results.  Once the start flag is up, a
    process in which every thread gets enough turns joins all of them, and
    whatever the interleaving, thread by thread the results are those of
    [WorkerThread] run alone; and as long as the flag is down no thread has
    made a request or collected a sample. *)
Theorem workers_independent_of_schedule (HO : HostOrder) (CP : ClientProtobuf) count msg_size envs es1 es2 rs :
  Forall2 (fun env r => WorkerThread count msg_size env = Finished r.1 r.2) envs rs ->
  (forall t, (t < length envs)%nat -> (Z.to_nat count + 3 <= runs t es2)%nat) ->
  RaiseFlag ∉ es1 ->
  let b := bench_run count msg_size envs (bench_init envs) es1 in
  Forall quiet_worker (workers b) /\
  join_all (workers (bench_run count msg_size envs b (RaiseFlag :: es2))) = Some rs.
Proof.
  intros Hrs Hruns Hn. cbn zeta. split.
  - apply quiet_run; [done..|]. by apply Forall_replicate.
  - rewrite <- (bench_joins count msg_size envs es1 es2 rs Hrs Hruns). unfold bench_run.
    by rewrite fold_left_app.
Qed.

Definition two_envs : list worker_env := [env_closed; env_pieces].

(** Both threads, alternating. *)
Definition turns : list bench_event := concat (replicate 4 [RunWorker 1; RunWorker 0]).

Definition ends : list (ThreadResult * list ccall) :=
  (fun env => match WorkerThread 1 2 env with Finished r calls => (r, calls) | _ => (mkResult [] "", []) end)
    <$> two_envs.

Lemma turns_enough t : (t < length two_envs)%nat -> (Z.to_nat 1 + 3 <= runs t turns)%nat.
Proof. intros Ht. destruct t as [|[|t]]; [vm_compute; lia..|]. cbn in Ht. lia. Qed.

Lemma workers_independent_of_schedule_witness :
  let b := bench_run 1 2 two_envs (bench_init two_envs) [RunWorker 1; RunWorker 0; RunWorker 1] in
  Forall quiet_worker (workers b) /\
  join_all (workers (bench_run 1 2 two_envs b (RaiseFlag :: turns))) = Some ends.
Proof.
  apply (workers_independent_of_schedule little plain_requests 1 2 two_envs
           [RunWorker 1; RunWorker 0; RunWorker 1] turns ends).
  - repeat constructor; vm_compute; reflexivity.
  - exact turns_enough.
  - set_solver.
Defined.

(** The report of the multi-threaded client is exact.  If every thread's
    peer answers all of its requests, then under any schedule the process joins
    its threads and [main] reports no error, the statistics of exactly the
    [count] latencies of every thread merged, and for every thread the order
    statistic of its own; and all connections have been closed. *)
Theorem mt_bench_reports_all_samples (HO : HostOrder) (CP : ClientProtobuf) count msg_size envs es1 es2 :
  0 < count < 2 ^ 31 -> 0 <= msg_size < 2 ^ 31 -> zlen (SerializeRequest (xs msg_size)) < 2 ^ 32 ->
  envs <> [] -> count * zlen envs < 2 ^ 31 ->
  Forall (fun env => exists resps rest extra, served env resps rest extra /\ zlen resps = count) envs ->
  Forall (fun env => forall i, 0 <= rtt env i < 2 ^ 32) envs ->
  (forall t, (t < length envs)%nat -> (Z.to_nat count + 3 <= runs t es2)%nat) ->
  exists rs s p99s,
    join_all (workers (bench_run count msg_size envs (bench_init envs) (es1 ++ RaiseFlag :: es2))) = Some rs /\
    main_report count (fst <$> rs) = Ok ([], Some s, p99s) /\
    stats_of (envs ≫= fun env => rtt env <$> seqZ 0 count) s /\ st_total s = count * zlen envs /\
    Forall2 (fun env x => exists q, x = Some q /\
               of_rank (rtt env <$> seqZ 0 count) (990 * count / 1000) q) envs p99s /\
    Forall2 (fun env r => fd_open (a_fd (we_answers env)) r.2 = false) envs rs.
Proof.
  intros Hc Hm Hsz Hne Htot Hsv Hrtt Hruns.
  destruct (served_results count msg_size envs ltac:(lia) Hm Hsz Hsv) as (rs & Hrs & Hfst & Hcl).
  destruct (served_report count envs (fst <$> rs) Hc Hne Htot Hrtt Hfst) as (s & p99s & E & Hst & Htl & Hp99).
  exists rs, s, p99s. split; [by apply bench_joins|done].
Qed.

Lemma mt_bench_reports_all_samples_witness :
  exists rs s p99s,
    join_all (workers (bench_run 1 2 two_envs (bench_init two_envs) ([RunWorker 0] ++ RaiseFlag :: turns)))
    = Some rs /\
    main_report 1 (fst <$> rs) = Ok ([], Some s, p99s) /\
    stats_of (two_envs ≫= fun env => rtt env <$> seqZ 0 1) s /\ st_total s = 1 * zlen two_envs /\
    Forall2 (fun env x => exists q, x = Some q /\
               of_rank (rtt env <$> seqZ 0 1) (990 * 1 / 1000) q) two_envs p99s /\
    Forall2 (fun env r => fd_open (a_fd (we_answers env)) r.2 = false) two_envs rs.
Proof.
  apply (mt_bench_reports_all_samples little plain_requests 1 2 two_envs [RunWorker 0] turns).
  - lia.
  - lia.
  - vm_compute. reflexivity.
  - discriminate.
  - vm_compute. reflexivity.
  - constructor; [|constructor; [|constructor]].
    + eexists _, _, _. split; [exact env_closed_served|reflexivity].
    + eexists _, _, _. split; [exact env_pieces_served|reflexivity].
  - constructor; [|constructor; [|constructor]]; intros i; cbn [rtt env_closed env_pieces];
      pose proof (Z.mod_pos_bound i 7); lia.
  - exact turns_enough.
Defined.
