(* ===== verification/MtMultiplex.v ===== *)
(** The multi-connection pipelined client ([examples/mt_multiplex_bench.cpp]):
    each connection is a worker thread that connects, starts a receiver thread
    of its own, waits for the global start signal and then sends; sender and
    receiver share the state of [Multiplex], whose loops are textually those of
    this client.

    An execution of a connection is any interleaving of steps of its two
    threads; a step of the worker sees the current value of [start_flag].
    [rtt seq] is the latency measured for request [seq]. *)
From S2P Require Import Prelude Protocol Client Stats MtBench Multiplex.

(** [ConnResult] *)
Record ConnResult := mkConnResult { conn_latencies : list Z; conn_error : string }.

#[export] Instance sender_eq_dec : EqDecision sender.
Proof. solve_decision. Defined.
#[export] Instance receiver_eq_dec : EqDecision receiver.
Proof. solve_decision. Defined.

#[export] Instance ccall_eq_dec : EqDecision ccall.
Proof. solve_decision. Defined.
#[export] Instance mux_eq_dec : EqDecision Mux.
Proof. solve_decision. Defined.
#[export] Instance conn_result_eq_dec : EqDecision ConnResult.
Proof. solve_decision. Defined.

Inductive conn_state : Type :=
| CStart
| CWait (fd : Z) (calls : list ccall) (m : Mux)     (* while (!start_flag.load()) yield *)
| CRun (fd : Z) (calls : list ccall) (m : Mux)      (* the sender loop, then receiver.join() *)
| CEnd (r : ConnResult) (calls : list ccall)
| CTerminated.                                      (* std::terminate *)

#[export] Instance conn_state_eq_dec : EqDecision conn_state.
Proof. solve_decision. Defined.

Section Connection.
Context (count window msg_size : Z) (ans : ConnectAnswers) (rtt : Z -> Z).

(** [pending.reserve(static_cast<size_t>(window) * 2)]: a hash table with that
    many buckets cannot be allocated when [window] is negative.  (Which
    exception of the library it is makes no difference here.) *)
Definition reserve_pending : outcome unit :=
  if 2 ^ 60 - 1 <? u64 (u64 window * 2) then Throw "std::bad_alloc" else Ok tt.

(** Up to the creation of the receiver thread. *)
Definition conn_setup : outcome Z * list ccall :=
  let '(r, calls) := ConnectTcp ans in
  (fd ← r; _ ← reserve_pending; _ ← reserve count; Ok fd, calls).

(** A step of the worker thread, which sees [flag]; [ok] is whether a
    [SendAll] in this step succeeds.  An exception of the payload's
    constructor leaves the scope of a joinable thread. *)
Definition outer_step (flag ok : bool) (s : conn_state) : conn_state :=
  match s with
  | CStart =>
      match conn_setup with
      | (Ok fd, calls) => CWait fd calls mux_init
      | (Throw e, calls) => CEnd (mkConnResult [] e) calls
      | (UB _, _) => CTerminated
      end
  | CWait fd calls m =>
      if flag then
        match make_payload msg_size with Ok _ => CRun fd calls m | _ => CTerminated end
      else s
  | CRun fd calls m =>
      match tx m, rx m with
      | SDone, RDone => CEnd (mkConnResult (rtt <$> latencies m) "") (calls ++ [CClose fd])
      | _, _ => CRun fd calls (sender_step count window ok m)
      end
  | _ => s
  end.

(** A step of the receiver thread. *)
Definition rx_step (x : arrival) (s : conn_state) : conn_state :=
  match s with
  | CWait fd calls m => CWait fd calls (receiver_step count x m)
  | CRun fd calls m => CRun fd calls (receiver_step count x m)
  | _ => s
  end.

Inductive cevent : Type :=
| Outer (flag ok : bool)
| Inner (x : arrival).

Definition RunConnection_step (s : conn_state) (e : cevent) : conn_state :=
  match e with Outer flag ok => outer_step flag ok s | Inner x => rx_step x s end.

Definition RunConnection (es : list cevent) : conn_state := fold_left RunConnection_step es CStart.

(** The peer answers only requests that were sent, each once. *)
Definition honest_event (s : conn_state) (e : cevent) : bool :=
  match s, e with
  | (CWait _ _ m | CRun _ _ m), Inner x => answered_once m (RxStep x)
  | _, _ => true
  end.

(** The receiver meets an error in this step, or a [SendAll] fails. *)
Definition failing (s : conn_state) (e : cevent) : bool :=
  match s, e with
  | (CWait _ _ m | CRun _ _ m), Inner RxError => bool_decide (rx m = RRecv)
  | CRun _ _ m, Outer _ ok => negb ok && bool_decide (tx m = SSend)
  | _, _ => false
  end.

Fixpoint undisturbed (s : conn_state) (es : list cevent) : bool :=
  match es with
  | [] => true
  | e :: es => negb (failing s e) && undisturbed (RunConnection_step s e) es
  end.

Fixpoint honest_run (s : conn_state) (es : list cevent) : bool :=
  match es with
  | [] => true
  | e :: es => honest_event s e && honest_run (RunConnection_step s e) es
  end.

(** How many steps of a run change the state: the others are turns of a
    waiting loop, or of a thread that is blocked or has ended. *)
Fixpoint changes (s : conn_state) (es : list cevent) : Z :=
  match es with
  | [] => 0
  | e :: es =>
      let s' := RunConnection_step s e in (if bool_decide (s' = s) then 0 else 1) + changes s' es
  end.

Definition ended (s : conn_state) : bool :=
  match s with CEnd _ _ | CTerminated => true | _ => false end.

(** * Invariant *)

(** What holds of the shared state as long as nothing failed: every request
    that was sent is counted once as answered, being answered or unanswered,
    and [in_flight] is exact. *)
Record exact (m : Mux) : Prop := {
  ex_error : recv_error m = false;
  ex_flight : in_flight m = Z.of_nat (size (unanswered m)) + counted m + received m;
  ex_answers : tx_i m = rx_i m + received m + Z.of_nat (size (unanswered m));
  ex_done : tx m = SDone -> count <= tx_i m
}.

(** [calm]: nothing has failed. *)
Record pipe_ok (calm : Prop) (m : Mux) : Prop := {
  pk_mux : mux_ok count window m;
  pk_tx : tx_i m <= Z.max 0 count;
  pk_calm : calm -> exact m
}.

Definition conn_ok (calm : Prop) (s : conn_state) : Prop :=
  match s with
  | CStart | CTerminated => True
  | CWait fd calls m => pipe_ok calm m /\ (tx m = STest /\ tx_i m = 0 /\ unanswered m = ∅) /\
                        conn_setup = (Ok fd, calls)
  | CRun fd calls m => pipe_ok calm m /\ conn_setup = (Ok fd, calls)
  | CEnd r calls =>
      (exists e, conn_setup = (Throw e, calls) /\ r = mkConnResult [] e) \/
      (conn_error r = ""%string /\ fd_open (a_fd ans) calls = false /\
       exists m, pipe_ok calm m /\ rx m = RDone /\ conn_latencies r = rtt <$> latencies m)
  end.

Context (Hcount : count < 2 ^ 31).

Lemma sender_step_exact ok m :
  mux_ok count window m -> tx_i m <= Z.max 0 count -> exact m -> (tx m = SSend -> ok = true) ->
  exact (sender_step count window ok m).
Proof.
  intros Hm Ht [He Hf Ha Hd] Hok. pose proof (mo_i _ _ _ Hm). pose proof (mo_progress _ _ _ Hm) as Hp.
  pose proof (mo_unanswered _ _ _ Hm) as Hu.
  unfold sender_step, counted, received in *. destruct (tx m) eqn:Et.
  - rewrite He. destruct (Z.ltb_spec (tx_i m) count); constructor; try done; cbn; try lia.
  - destruct (_ <=? _); constructor; unfold counted; cbn; rewrite ?Et; try done.
  - by constructor.
  - constructor; unfold counted, received; cbn; try done; lia.
  - rewrite (Hok eq_refl). rewrite (seq_of_small count) by (try done; lia).
    assert (tx_i m ∉ unanswered m) by (intros Hx%Hu%elem_earlier; lia).
    assert (Hs : size ({[tx_i m]} ∪ unanswered m) = S (size (unanswered m)))
      by (rewrite size_union, size_singleton by set_solver; done).
    constructor; unfold counted, received; cbn; rewrite ?Hs; try done; lia.
  - constructor; unfold counted, received; rewrite ?Et; try done.
Qed.

Lemma receiver_step_exact x m :
  mux_ok count window m -> exact m -> answered_once m (RxStep x) = true -> (rx m = RRecv -> x <> RxError) ->
  exact (receiver_step count x m).
Proof.
  clear rtt.
  intros Hm [He Hf Ha Hd] Hon Hx. unfold receiver_step, answered_once, received in *.
  destruct (rx m) eqn:Er.
  - destruct (_ <? _); constructor; unfold received; cbn; done.
  - destruct x as [seq|]; [|by destruct Hx]. apply bool_decide_eq_true in Hon.
    assert (Hs : Z.of_nat (size (unanswered m ∖ {[seq]})) = Z.of_nat (size (unanswered m)) - 1).
    { rewrite size_difference, size_singleton by set_solver.
      assert (size (unanswered m) <> 0%nat); [|lia]. intros H0%size_empty_inv. set_solver. }
    case_bool_decide; constructor; unfold counted, received in *; cbn; rewrite ?Hs; try done; lia.
  - constructor; unfold counted, received in *; cbn; try done; lia.
  - constructor; unfold received; rewrite ?Er; done.
Qed.

Lemma sender_step_pipe calm ok m :
  pipe_ok calm m -> (calm -> tx m = SSend -> ok = true) -> pipe_ok calm (sender_step count window ok m).
Proof.
  intros [Hm Ht Hc] Hok. constructor; [by apply sender_step_ok| |auto using sender_step_exact].
  pose proof (mo_progress _ _ _ Hm).
  unfold sender_step; destruct (tx m); repeat case_match; cbn; try done; lia.
Qed.

Lemma receiver_step_keeps x m :
  tx (receiver_step count x m) = tx m /\ tx_i (receiver_step count x m) = tx_i m /\
  unanswered (receiver_step count x m) ⊆ unanswered m.
Proof.
  unfold receiver_step. destruct (rx m); [destruct (_ <? _)|destruct x as [seq|]|..]; cbn;
    try (case_bool_decide; cbn); split_and!; try done; set_solver.
Qed.

Lemma receiver_step_pipe calm x m :
  pipe_ok calm m -> answered_once m (RxStep x) = true -> (calm -> rx m = RRecv -> x <> RxError) ->
  pipe_ok calm (receiver_step count x m).
Proof.
  intros [Hm Ht Hc] Ha Hx. destruct (receiver_step_keeps x m) as (_ & E & _).
  constructor; [by apply receiver_step_ok|by rewrite E|auto using receiver_step_exact].
Qed.

Lemma mux_init_pipe calm : pipe_ok calm mux_init.
Proof. constructor; [by apply mux_init_ok|cbn; lia|]. intros _. by constructor. Qed.

Lemma setup_fd fd calls :
  conn_setup = (Ok fd, calls) -> fd = a_fd ans /\ fd_open fd (calls ++ [CClose fd]) = false.
Proof.
  unfold conn_setup, ConnectTcp.
  destruct (a_fd ans <? 0); cbn; [done|]. destruct (negb (a_pton ans =? 1)); cbn; [done|].
  destruct (negb (a_connect ans =? 0)); cbn; [done|].
  destruct reserve_pending; cbn; [|done..]. destruct (reserve count); cbn; [|done..].
  intros [= <- <-]. unfold fd_open. cbn. by rewrite Z.eqb_refl.
Qed.

Lemma outer_step_ok calm flag ok s :
  conn_ok calm s -> (calm -> failing s (Outer flag ok) = false) -> conn_ok calm (outer_step flag ok s).
Proof.
  intros Hs Hf. destruct s as [|fd calls m|fd calls m|r calls|]; cbn [outer_step].
  - destruct conn_setup as [[fd|e|why] calls] eqn:E; [|by left; eauto|done].
    split; [apply mux_init_pipe|by rewrite E].
  - destruct flag; [|done]. destruct Hs as (Hp & _ & E). destruct (make_payload _); by cbn.
  - destruct Hs as [Hp E].
    assert (Hst : conn_ok calm (CRun fd calls (sender_step count window ok m))).
    { cbn. split; [|done]. apply sender_step_pipe; [done|]. intros Hc Ht. specialize (Hf Hc). cbn in Hf.
      rewrite bool_decide_eq_true_2 in Hf by done. by destruct ok. }
    destruct (tx m) eqn:Et; [exact Hst..|]. destruct (rx m) eqn:Er; [exact Hst..|].
    destruct (setup_fd fd calls E) as [-> Hfd]. right. cbn. eauto 10.
  - done.
  - done.
Qed.

Lemma rx_step_ok calm x s :
  conn_ok calm s -> honest_event s (Inner x) = true -> (calm -> failing s (Inner x) = false) ->
  conn_ok calm (rx_step x s).
Proof.
  intros Hs Hh Hf. destruct s as [|fd calls m|fd calls m|r calls|]; cbn [rx_step]; try done.
  all: assert (Hx : calm -> rx m = RRecv -> x <> RxError)
         by (intros Hc Hr ->; specialize (Hf Hc); cbn in Hf; by rewrite bool_decide_eq_true_2 in Hf).
  - destruct Hs as (Hp & (E1 & E2 & E3) & E). destruct (receiver_step_keeps x m) as (F1 & F2 & F3).
    split; [by apply receiver_step_pipe|]. rewrite F1, F2. split; [|done].
    do 2 (split; [done|]). rewrite E3 in F3. set_solver.
  - destruct Hs as [Hp E]. split; [by apply receiver_step_pipe|done].
Qed.

Lemma run_ok calm es : forall s,
  conn_ok calm s -> honest_run s es = true -> (calm -> undisturbed s es = true) ->
  conn_ok calm (fold_left RunConnection_step es s).
Proof.
  induction es as [|e es IH]; intros s Hs; cbn; [done|].
  intros [Hh1 Hh2]%andb_true_iff Hu.
  assert (Hf : calm -> failing s e = false).
  { intros Hc. specialize (Hu Hc). apply andb_true_iff in Hu as [Hu _]. by destruct (failing s e). }
  apply IH; [|done|].
  - destruct e; cbn [RunConnection_step]; [by apply outer_step_ok|by apply rx_step_ok].
  - intros Hc. specialize (Hu Hc). by apply andb_true_iff in Hu as [_ Hu].
Qed.

(** ** Progress *)

(** The steps that are left. *)
Definition tx_left (m : Mux) : Z :=
  let n := 5 * Z.max 0 (count - tx_i m) in
  match tx m with STest => n + 1 | SSpin => n | SRegister => n - 1 | SAdd => n - 2 | SSend => n - 3 | SDone => 0 end.
Definition rx_left (m : Mux) : Z :=
  let n := 3 * Z.max 0 (count - rx_i m) in
  match rx m with RTest => n + 1 | RRecv => n | RSub _ => n - 1 | RDone => 0 end.
Definition conn_left (s : conn_state) : Z :=
  match s with
  | CStart => 8 * Z.max 0 count + 5
  | CWait _ _ m => tx_left m + rx_left m + 2
  | CRun _ _ m => tx_left m + rx_left m + 1
  | CEnd _ _ | CTerminated => 0
  end.

Lemma sender_step_left ok m :
  mux_ok count window m ->
  sender_step count window ok m = m \/
  tx_left (sender_step count window ok m) < tx_left m /\
  rx_left (sender_step count window ok m) = rx_left m.
Proof.
  intros Hm. pose proof (mo_i _ _ _ Hm). pose proof (mo_progress _ _ _ Hm).
  unfold sender_step. destruct (tx m) eqn:Et; [| | | | |by left]; repeat case_match; try (by left); right;
    unfold tx_left; cbn; rewrite Et; (split; [lia|done]).
Qed.

Lemma receiver_step_left x m :
  mux_ok count window m ->
  receiver_step count x m = m \/
  rx_left (receiver_step count x m) < rx_left m /\
  tx_left (receiver_step count x m) = tx_left m.
Proof.
  intros Hm. pose proof (mo_rx _ _ _ Hm).
  unfold receiver_step. destruct (rx m) eqn:Er; [| | |by left]; repeat case_match; right;
    unfold rx_left; cbn; rewrite Er; (split; [lia|done]).
Qed.

Lemma left_pos m : mux_ok count window m -> 0 <= tx_left m /\ 0 <= rx_left m.
Proof.
  intros Hm. pose proof (mo_progress _ _ _ Hm). pose proof (mo_rx _ _ _ Hm).
  unfold tx_left, rx_left. destruct (tx m), (rx m); lia.
Qed.

Lemma conn_left_pos calm s : conn_ok calm s -> 0 <= conn_left s.
Proof.
  destruct s as [|fd calls m|fd calls m|r calls|]; cbn; try lia;
    intros [[Hm _ _] _]; pose proof (left_pos m Hm); lia.
Qed.

Lemma conn_step_left calm s e :
  conn_ok calm s -> RunConnection_step s e = s \/ conn_left (RunConnection_step s e) < conn_left s.
Proof.
  intros Hs. destruct s as [|fd calls m|fd calls m|r calls|]; try (by destruct e; left).
  - destruct e as [flag ok|x]; [|by left]. right. cbn.
    destruct conn_setup as [[fd|err|why] calls]; cbn; unfold tx_left, rx_left; cbn; lia.
  - destruct Hs as [[Hm _ _] _]. pose proof (left_pos m Hm). destruct e as [flag ok|x]; cbn.
    + destruct flag; [right|by left]. destruct (make_payload _); cbn; lia.
    + destruct (receiver_step_left x m Hm) as [->|[? ?]]; [by left|right; lia].
  - destruct Hs as [[Hm _ _] _]. pose proof (left_pos m Hm). destruct e as [flag ok|x]; cbn.
    + assert (Hst : CRun fd calls (sender_step count window ok m) = CRun fd calls m \/
                    conn_left (CRun fd calls (sender_step count window ok m)) < conn_left (CRun fd calls m)).
      { destruct (sender_step_left ok m Hm) as [->|[? ?]]; [by left|right; cbn; lia]. }
      destruct (tx m) eqn:Et; [exact Hst..|]. destruct (rx m) eqn:Er; [exact Hst..|]. right. cbn. lia.
    + destruct (receiver_step_left x m Hm) as [->|[? ?]]; [by left|right; lia].
Qed.

Lemma changes_bound calm es : forall s,
  conn_ok calm s -> honest_run s es = true -> (calm -> undisturbed s es = true) ->
  changes s es <= conn_left s.
Proof.
  induction es as [|e es IH]; intros s Hs; [intros _ _; by eapply conn_left_pos|].
  cbn [changes]. intros Hh Hu. set (s' := RunConnection_step s e) in *.
  assert (Hs' : conn_ok calm s').
  { apply (run_ok calm [e] s Hs); cbn in *.
    - apply andb_true_iff in Hh as [Hh _]. by rewrite Hh.
    - intros Hc. specialize (Hu Hc). apply andb_true_iff in Hu as [Hu _]. by rewrite Hu. }
  cbn in Hh, Hu. fold s' in Hh, Hu. apply andb_true_iff in Hh as [_ Hh].
  assert (changes s' es <= conn_left s').
  { apply IH; [done..|]. intros Hc. specialize (Hu Hc). by apply andb_true_iff in Hu as [_ Hu]. }
  case_bool_decide as Heq; [assert (conn_left s' = conn_left s) by congruence; lia|].
  pose proof (conn_step_left calm s e Hs) as Hd. fold s' in Hd. destruct Hd; [done|lia].
Qed.

Definition can_step (s : conn_state) : Prop :=
  exists e, honest_event s e = true /\ failing s e = false /\ RunConnection_step s e <> s.

(** A receiver that is not done can go on, when a response is on its way. *)
Lemma receiver_can_step fd calls m :
  rx m <> RDone -> (rx m = RRecv -> 0 < Z.of_nat (size (unanswered m))) -> can_step (CRun fd calls m).
Proof.
  intros Hd Hr. assert (Hne : forall x, rx (receiver_step count x m) <> rx m ->
                          RunConnection_step (CRun fd calls m) (Inner x) <> CRun fd calls m)
    by (cbn; congruence).
  destruct (rx m) eqn:Er; [| | |done].
  - exists (Inner (Rx 0)). cbn. rewrite Er. split_and!; [done..|]. apply Hne.
    unfold receiver_step. rewrite Er. by destruct (_ <? _).
  - assert (exists seq, seq ∈ unanswered m) as [seq Hseq].
    { apply set_choose_L. intros H0. rewrite H0, size_empty in Hr. specialize (Hr eq_refl). lia. }
    exists (Inner (Rx seq)). cbn. rewrite Er, bool_decide_eq_true_2 by done. split_and!; [done..|].
    apply Hne. unfold receiver_step. rewrite Er. by case_bool_decide.
  - exists (Inner (Rx 0)). cbn. rewrite Er. split_and!; [done..|]. apply Hne.
    unfold receiver_step. by rewrite Er.
Qed.

Lemma sender_can_step fd calls m :
  tx m <> SDone -> (tx m = SSpin -> in_flight m < window) -> can_step (CRun fd calls m).
Proof.
  intros Hd Hs. exists (Outer true true). split; [done|]. split; [done|]. cbn.
  assert (Hne : tx (sender_step count window true m) <> tx m).
  { unfold sender_step. destruct (tx m) eqn:Et; try done; [by destruct (_ && _)|].
    rewrite (proj2 (Z.leb_gt _ _)) by auto. done. }
  destruct (tx m) eqn:Et; try done; congruence.
Qed.

(** A response is on its way when the window is full, or when everything has
    been sent and the receiver waits. *)
Lemma never_stuck s : 0 < window -> conn_ok True s -> ended s = true \/ can_step s.
Proof.
  intros Hw Hs. destruct s as [|fd calls m|fd calls m|r calls|]; try (by left); right.
  - exists (Outer true true). cbn. split_and!; [done..|]. by destruct conn_setup as [[]].
  - exists (Outer true true). cbn. split_and!; [done..|]. by destruct (make_payload _).
  - destruct Hs as [[Hm Ht Hc] _]. destruct (Hc I) as [He Hf Ha Hd].
    pose proof (mo_rx _ _ _ Hm) as Hrx. pose proof (mo_progress _ _ _ Hm) as Hp.
    unfold counted, received in *. destruct (decide (tx m = SDone)) as [Et|Et].
    + specialize (Hd Et). destruct (decide (rx m = RDone)) as [Er|Er].
      * exists (Outer true true). cbn. by rewrite Et, Er.
      * apply receiver_can_step; [done|]. intros Er'. rewrite Er' in *. lia.
    + destruct (decide (tx m = SSpin /\ window <= in_flight m)) as [[Et' Hfull]|Hn].
      * rewrite Et' in *. apply receiver_can_step.
        -- intros Er. rewrite Er in *. destruct Hrx as [?|?]; [congruence|lia].
        -- intros Er. rewrite Er in *. lia.
      * apply sender_can_step; [done|]. intros Et'. destruct (decide (in_flight m < window)); [done|].
        exfalso. apply Hn. split; [done|lia].
Qed.

(** The samples of a connection that ended in order. *)
Lemma all_answered m :
  pipe_ok True m -> rx m = RDone -> latencies m ≡ₚ seqZ 0 (Z.max 0 count).
Proof.
  intros [Hm Ht Hc] Er. destruct (Hc I) as [He _ _ _].
  pose proof (mo_rx _ _ _ Hm) as Hrx. rewrite Er in Hrx. destruct Hrx as [?|Hrx]; [congruence|].
  pose proof (mo_latencies _ _ _ Hm) as Hl. unfold received in Hl. rewrite Er in Hl.
  apply submseteq_length_Permutation; [|rewrite length_seqZ; lia].
  apply NoDup_submseteq; [apply (mo_no_dup _ _ _ Hm)|]. intros x Hx.
  apply (mo_old _ _ _ Hm), proj2, elem_earlier in Hx. apply elem_of_seqZ. lia.
Qed.

Lemma calm_result es r calls fd calls0 :
  honest_run CStart es = true -> undisturbed CStart es = true -> conn_setup = (Ok fd, calls0) ->
  RunConnection es = CEnd r calls ->
  conn_error r = ""%string /\ fd_open (a_fd ans) calls = false /\
  conn_latencies r ≡ₚ rtt <$> seqZ 0 (Z.max 0 count).
Proof.
  intros Hh Hu Es E. pose proof (run_ok True es CStart I Hh (fun _ => Hu)) as Hok.
  unfold RunConnection in E. rewrite E in Hok.
  destruct Hok as [(e & E' & _)|(E1 & E2 & m & Hp & Er & El)]; [congruence|].
  split; [done|]. split; [done|]. by rewrite El, (all_answered m Hp Er).
Qed.

(** Up to the start signal, with a positive descriptor. *)
Lemma reserve_ok n : 0 <= n < 2 ^ 31 -> reserve n = Ok tt.
Proof.
  intros Hn. unfold reserve. rewrite u64_small by (unfold SIZE_MOD; lia). by rewrite (proj2 (Z.ltb_ge _ _)) by lia.
Qed.

Lemma reserve_negative n : - 2 ^ 31 <= n < 0 -> reserve n = Throw "vector::reserve".
Proof.
  intros Hn. unfold reserve. rewrite u64_negative by lia. by rewrite (proj2 (Z.ltb_lt _ _)) by lia.
Qed.

Lemma reserve_pending_ok : 0 <= window < 2 ^ 31 -> reserve_pending = Ok tt.
Proof.
  intros Hn. unfold reserve_pending. rewrite !u64_small by (unfold SIZE_MOD; try rewrite u64_small; unfold SIZE_MOD; lia).
  by rewrite (proj2 (Z.ltb_ge _ _)) by lia.
Qed.

Lemma reserve_pending_negative : - 2 ^ 31 <= window < 0 -> reserve_pending = Throw "std::bad_alloc".
Proof.
  intros Hn. unfold reserve_pending. rewrite (u64_negative window) by lia.
  replace ((2 ^ 64 + window) * 2) with (2 ^ 64 + 2 * window + 1 * 2 ^ 64) by lia.
  rewrite u64_add_mod, u64_small by (unfold SIZE_MOD; lia). by rewrite (proj2 (Z.ltb_lt _ _)) by lia.
Qed.

Lemma make_payload_ok : 0 <= msg_size < 2 ^ 31 -> exists p, make_payload msg_size = Ok p.
Proof.
  intros Hn. unfold make_payload, VECTOR_MAX. rewrite u64_small by (unfold SIZE_MOD; lia).
  rewrite (proj2 (Z.ltb_ge _ _)) by lia. by eexists.
Qed.

Lemma make_payload_negative :
  - 2 ^ 31 <= msg_size < 0 -> make_payload msg_size = Throw "basic_string::_M_create".
Proof.
  intros Hn. unfold make_payload, VECTOR_MAX. rewrite u64_negative by lia.
  by rewrite (proj2 (Z.ltb_lt _ _)) by lia.
Qed.

Lemma conn_setup_connected :
  0 <= a_fd ans -> a_pton ans = 1 -> a_connect ans = 0 ->
  let calls := [CSocket; CSetsockopt (a_fd ans); CConnect (a_fd ans)] in
  conn_setup = (_ ← reserve_pending; _ ← reserve count; Ok (a_fd ans), calls) /\
  fd_open (a_fd ans) calls = true.
Proof.
  intros H1 H2 H3. unfold conn_setup, ConnectTcp. rewrite (proj2 (Z.ltb_ge _ _)), H2, H3 by done. cbn.
  split; [done|]. unfold fd_open. cbn. by apply Z.leb_le.
Qed.

End Connection.

(** * The process *)

(** [main] after the joins: the same report as that of the other client. *)
Definition conn_report (count : Z) (rs : list ConnResult)
  : outcome (list string * option Stats * list (option Z)) :=
  main_report count ((fun r => mkResult (conn_latencies r) (conn_error r)) <$> rs).

(** * Properties *)

(** C23: A connection that ends has its samples.  In every interleaving of
    its two threads against a peer that answers each request once: either the
    connection was not set up, and the result is the error alone; or the result
    has no error, the descriptor has been closed, every sample is that of a
    different request, and if nothing failed there is one for each of the
    [count] requests. *)
Theorem mt_connection_result count window msg_size ans rtt es r calls :
  count < 2 ^ 31 -> honest_run count window msg_size ans rtt CStart es = true ->
  RunConnection count window msg_size ans rtt es = CEnd r calls ->
  (exists e, conn_setup count window ans = (Throw e, calls) /\ r = mkConnResult [] e) \/
  (conn_error r = ""%string /\ fd_open (a_fd ans) calls = false /\
   exists seqs, conn_latencies r = rtt <$> seqs /\ NoDup seqs /\ Forall (fun i => 0 <= i < count) seqs /\
     (undisturbed count window msg_size ans rtt CStart es = true -> seqs ≡ₚ seqZ 0 (Z.max 0 count))).
Proof.
  intros Hc Hh E.
  pose proof (run_ok count window msg_size ans rtt Hc
                (undisturbed count window msg_size ans rtt CStart es = true) es CStart I Hh id) as Hok.
  unfold RunConnection in E. rewrite E in Hok.
  destruct Hok as [Hok|(E1 & E2 & m & Hp & Er & El)]; [by left|right].
  split; [done|]. split; [done|]. exists (latencies m). destruct Hp as [Hm Ht Hcl].
  split; [done|]. split; [apply (mo_no_dup _ _ _ Hm)|]. split.
  - apply Forall_forall. intros x Hx. apply (mo_old _ _ _ Hm), proj2, elem_earlier in Hx. lia.
  - intros Hu. apply (all_answered count window); [|done]. constructor; auto.
Qed.

(** One connection of the process and a run of it. *)
Record conn_env := mkConnEnv { ce_answers : ConnectAnswers; ce_rtt : Z -> Z; ce_events : list cevent }.

(** The run is honest, nothing fails, and it ends with [r]. *)
Definition completes (count window msg_size : Z) (c : conn_env) (r : ConnResult) : Prop :=
  honest_run count window msg_size (ce_answers c) (ce_rtt c) CStart (ce_events c) = true /\
  undisturbed count window msg_size (ce_answers c) (ce_rtt c) CStart (ce_events c) = true /\
  (exists fd calls, conn_setup count window (ce_answers c) = (Ok fd, calls)) /\
  exists calls, RunConnection count window msg_size (ce_answers c) (ce_rtt c) (ce_events c) = CEnd r calls.

Lemma completes_result count window msg_size c r :
  0 < count < 2 ^ 31 -> completes count window msg_size c r ->
  conn_error r = ""%string /\ conn_latencies r ≡ₚ ce_rtt c <$> seqZ 0 count.
Proof.
  intros Hc (Hh & Hu & (fd & calls0 & Es) & calls & E).
  destruct (calm_result count window msg_size _ _ ltac:(lia) _ _ _ _ _ Hh Hu Es E) as (E1 & _ & E2).
  split; [done|]. by rewrite Z.max_r in E2 by lia.
Qed.

(** The report on connections that have all of their samples, in any order;
    [rtt_of c] gives the latencies of connection [c]. *)
Lemma conn_report_ok {C} (rtt_of : C -> Z -> Z) count conns rs :
  0 < count < 2 ^ 31 -> conns <> [] -> count * zlen conns < 2 ^ 31 ->
  Forall (fun c => forall i, 0 <= rtt_of c i < 2 ^ 32) conns ->
  Forall2 (fun c r => conn_error r = ""%string /\ conn_latencies r ≡ₚ rtt_of c <$> seqZ 0 count) conns rs ->
  exists s p99s, conn_report count rs = Ok ([], Some s, p99s) /\
    stats_of (conns ≫= fun c => rtt_of c <$> seqZ 0 count) s /\ st_total s = count * zlen conns /\
    Forall2 (fun c x => exists q, x = Some q /\
               of_rank (rtt_of c <$> seqZ 0 count) (990 * count / 1000) q) conns p99s.
Proof.
  intros Hc Hne Htot Hrtt Hr.
  assert (Hz : forall c, zlen (rtt_of c <$> seqZ 0 count) = count)
    by (intros; unfold zlen; rewrite length_fmap, length_seqZ; lia).
  set (trs := (fun r => mkResult (conn_latencies r) (conn_error r)) <$> rs).
  assert (Hall : all_samples trs ≡ₚ conns ≫= fun c => rtt_of c <$> seqZ 0 count).
  { unfold all_samples, trs. clear -Hr. induction Hr as [|c r conns rs [_ Hl] _ IH]; [done|].
    cbn [fmap list_fmap]. rewrite !bind_cons. cbn [latencies_us]. by rewrite Hl, IH. }
  assert (Hlen : zlen (conns ≫= fun c => rtt_of c <$> seqZ 0 count) = count * zlen conns).
  { clear -Hz. induction conns as [|c conns IH]; [change (0 = count * 0); lia|].
    rewrite bind_cons, zlen_app, zlen_cons, IH, Hz. lia. }
  assert (Hn : zlen trs = zlen conns)
    by (unfold zlen, trs; rewrite length_fmap; by rewrite (Forall2_length _ _ _ Hr)).
  destruct (main_report_ok count trs) as (s & p99s & E & Hst & Hp99).
  - lia.
  - rewrite Hn. lia.
  - apply Forall_fmap. eapply Forall2_Forall_r; [exact Hr|]. apply Forall_forall. intros c _ r [E1 E2].
    cbn. split; [|done]. intros E0. rewrite E0 in E2. specialize (Hz c). unfold zlen in Hz.
    rewrite <- E2 in Hz. cbn in Hz. lia.
  - split; [|unfold zlen; rewrite Hall; fold (zlen (conns ≫= fun c => rtt_of c <$> seqZ 0 count)); lia].
    rewrite Hall. apply Forall_bind. eapply Forall_impl; [exact Hrtt|]. cbn.
    intros c Hcr. apply Forall_fmap, Forall_forall. intros i _. apply Hcr.
  - intros E0. destruct conns; [done|]. rewrite E0, zlen_cons, zlen_nil in Hn.
    pose proof (zlen_nonneg conns). lia.
  - pose proof (stats_of_perm _ _ _ Hall Hst) as Hst'. exists s, p99s.
    split; [done|]. split; [done|]. split; [by rewrite (so_total _ _ Hst'), Hlen|].
    unfold trs in Hp99. rewrite Forall2_fmap_l in Hp99.
    eapply (Forall2_trans); [|exact Hr|exact Hp99].
    cbn. intros c r x [_ E2] (q & -> & Hq). exists q. split; [done|]. eapply rank_perm; [exact E2|].
    specialize (Hz c). unfold zlen in Hz, Hq. rewrite <- E2 in Hz. by rewrite Hz in Hq.
Qed.

(** The report of the process is exact.  If every connection completes,
    under any schedule of its own threads and of the others, [main] reports no
    error, the statistics of exactly the [count] latencies of every connection
    merged, and for every connection the order statistic of its own, whatever
    the order in which the responses arrived. *)
Theorem mt_multiplex_reports_all_samples count window msg_size conns rs :
  0 < count < 2 ^ 31 -> conns <> [] -> count * zlen conns < 2 ^ 31 ->
  Forall (fun c => forall i, 0 <= ce_rtt c i < 2 ^ 32) conns ->
  Forall2 (completes count window msg_size) conns rs ->
  exists s p99s, conn_report count rs = Ok ([], Some s, p99s) /\
    stats_of (conns ≫= fun c => ce_rtt c <$> seqZ 0 count) s /\ st_total s = count * zlen conns /\
    Forall2 (fun c x => exists q, x = Some q /\
               of_rank (ce_rtt c <$> seqZ 0 count) (990 * count / 1000) q) conns p99s.
Proof.
  intros Hc Hne Htot Hrtt Hrs. apply (conn_report_ok ce_rtt); [done..|].
  eapply Forall2_impl; [exact Hrs|]. intros. by eapply completes_result.
Qed.

Definition loopback : ConnectAnswers := {| a_fd := 3; a_pton := 1; a_connect := 0; a_strerror := "" |}.

(** The receiver already waits before the signal; two requests in flight at
    once, answered in the opposite order. *)
Definition two_in_flight : list cevent :=
  [Outer false true; Outer false true; Inner (Rx 0); Outer true true] ++ replicate 11 (Outer true true) ++
  [Inner (Rx 1); Inner RxError; Inner RxError; Inner (Rx 0); Inner RxError; Inner RxError; Outer true true].

Lemma mt_connection_result_witness :
  let run := RunConnection 2 2 8 loopback (fun i => 10 + i) two_in_flight in
  run = CEnd (mkConnResult [11; 10] "") [CSocket; CSetsockopt 3; CConnect 3; CClose 3] /\
  ((exists e, conn_setup 2 2 loopback = (Throw e, [CSocket; CSetsockopt 3; CConnect 3; CClose 3]) /\
              mkConnResult [11; 10] "" = mkConnResult [] e) \/
   (""%string = ""%string /\ fd_open 3 [CSocket; CSetsockopt 3; CConnect 3; CClose 3] = false /\
    exists seqs, [11; 10] = (fun i => 10 + i) <$> seqs /\ NoDup seqs /\ Forall (fun i => 0 <= i < 2) seqs /\
      (undisturbed 2 2 8 loopback (fun i => 10 + i) CStart two_in_flight = true ->
       seqs ≡ₚ seqZ 0 (Z.max 0 2)))).
Proof.
  split; [vm_compute; reflexivity|].
  apply (mt_connection_result 2 2 8 loopback (fun i => 10 + i) two_in_flight
           (mkConnResult [11; 10] "") [CSocket; CSetsockopt 3; CConnect 3; CClose 3]);
    [lia|vm_compute; reflexivity..].
Defined.

Lemma mt_multiplex_reports_all_samples_witness :
  let conns := [mkConnEnv loopback (fun i => 10 + i mod 7) two_in_flight;
                mkConnEnv loopback (fun i => 20 + i mod 7) (two_in_flight ++ [Inner (Rx 4)])] in
  exists s p99s, conn_report 2 [mkConnResult [11; 10] ""; mkConnResult [21; 20] ""] = Ok ([], Some s, p99s) /\
    stats_of (conns ≫= fun c => ce_rtt c <$> seqZ 0 2) s /\ st_total s = 2 * zlen conns /\
    Forall2 (fun c x => exists q, x = Some q /\
               of_rank (ce_rtt c <$> seqZ 0 2) (990 * 2 / 1000) q) conns p99s.
Proof.
  cbn zeta. eapply (mt_multiplex_reports_all_samples 2 2 8).
  - lia.
  - discriminate.
  - vm_compute. reflexivity.
  - constructor; [|constructor; [|constructor]]; intros i; cbn [ce_rtt]; pose proof (Z.mod_pos_bound i 7); lia.
  - constructor; [|constructor; [|constructor]]; (split; [vm_compute; reflexivity|]);
      (split; [vm_compute; reflexivity|]); split; eexists; [eexists| |eexists|]; vm_compute; reflexivity.
Defined.

(** A connection with a positive window comes to its end.  As long as
    nothing fails, the two threads are never both stuck: until the connection
    has ended some step of one of them, answers of the peer included, changes
    the state; and any run, failing or not, has at most [8 * count + 5] steps
    that do. *)
Theorem mt_connection_progress count window msg_size ans rtt es :
  count < 2 ^ 31 -> 0 < window -> honest_run count window msg_size ans rtt CStart es = true ->
  let s := RunConnection count window msg_size ans rtt es in
  changes count window msg_size ans rtt CStart es <= 8 * Z.max 0 count + 5 /\
  (undisturbed count window msg_size ans rtt CStart es = true ->
   ended s = true \/
   exists e, honest_event s e = true /\ failing s e = false /\
             RunConnection_step count window msg_size ans rtt s e <> s).
Proof.
  intros Hc Hw Hh. split.
  - apply (changes_bound count window msg_size ans rtt Hc False); done.
  - intros Hu. apply (never_stuck count window msg_size ans rtt); [done|].
    by apply (run_ok count window msg_size ans rtt Hc True).
Qed.

Lemma mt_connection_progress_witness :
  let s := RunConnection 2 1 8 loopback (fun i => i) (replicate 20 (Outer true true)) in
  ended s = false /\
  changes 2 1 8 loopback (fun i => i) CStart (replicate 20 (Outer true true)) <= 8 * Z.max 0 2 + 5 /\
  (undisturbed 2 1 8 loopback (fun i => i) CStart (replicate 20 (Outer true true)) = true ->
   ended s = true \/
   exists e, honest_event s e = true /\ failing s e = false /\
             RunConnection_step 2 1 8 loopback (fun i => i) s e <> s).
Proof.
  split; [vm_compute; reflexivity|].
  apply (mt_connection_progress 2 1 8 loopback (fun i => i) (replicate 20 (Outer true true)));
    [lia|lia|vm_compute; reflexivity].
Defined.


