(* ===== verification/Mains.v ===== *)
(** The two single-connection clients as whole programs: [main] of
    [examples/latency_bench.cpp] (one request at a time) and of
    [examples/multiplex_bench.cpp] (a sender and a receiver thread), from the
    command line to the statistics and the exit code.

    Neither [main] catches exceptions: one that leaves it ends the process by
    [std::terminate]. *)
From S2P Require Import Prelude Buffer Protocol IoContext Coro Connection ResponseQueue Echo.
From S2P Require Import Client Stats CommandLine MtBench Multiplex MtMultiplex.

(** How a process ends, with what it prints (the first line, the statistics, the
    throughput) and the socket calls it made. *)
Inductive process : Type :=
| Exit (code : Z) (banner : string) (stats : option Stats) (rate : option double) (calls : list ccall)
| Terminate (why : string)
| BlockedFor                         (* waits for its peer *)
| Executing (m : Mux)                (* threads are at work *)
| Undefined (why : string).

(** * [latency_bench] *)

Section Sequential.
Context {HO : HostOrder} {CP : ClientProtobuf}.

(** From [ConnectTcp] on.  A sample is taken for each exchange that is
    complete. *)
Definition latency_bench_main (count msg_size : Z) (env : worker_env) : process :=
  let '(r, calls) := ConnectTcp (we_answers env) in
  match (fd ← r; payload_str ← make_payload msg_size; _ ← reserve count; Ok (fd, payload_str)) with
  | Throw e => Terminate e
  | UB why => Undefined why
  | Ok (fd, payload_str) =>
      match exchanges (S := we_socket env) (Z.to_nat count) 0 payload_str (new_client env) with
      | Done _ =>
          match latency_bench_stats count (rtt env <$> seqZ 0 count) with
          | Ok s => Exit 0 (latency_bench_banner count msg_size) (Some s) None (calls ++ [CClose fd])
          | Throw e => Terminate e
          | UB why => Undefined why
          end
      | Waiting => BlockedFor
      | Raised e => Terminate e
      | Undef why => Undefined why
      end
  end.

Definition latency_bench (argv : list string) (env : worker_env) : process :=
  match latency_bench_args argv with
  | Ok (count, msg_size) => latency_bench_main count msg_size env
  | Throw e => Terminate e
  | UB why => Undefined why
  end.

End Sequential.

(** * [multiplex_bench] *)

Section Pipelined.
Context (ans : ConnectAnswers) (rtt : Z -> Z) (wall_ns : Z).

(** After [receiver.join()]: an empty vector gives exit code 1. *)
Definition multiplex_finish (banner : string) (lat : list Z) (calls : list ccall) : process :=
  match lat with
  | [] => Exit 1 banner None None calls
  | _ =>
      match PrintStats (sorted lat) with
      | Ok s => Exit 0 banner s (throughput (zlen lat) wall_ns) calls
      | Throw e => Terminate e
      | UB why => Undefined why
      end
  end.

(** From [ConnectTcp] on; [es] is the interleaving of the two threads.  As in
    the client with many connections, an exception of the payload's constructor
    meets a running receiver thread, which ends the process as well. *)
Definition multiplex_main (count window msg_size : Z) (es : list mevent) : process :=
  match conn_setup count window ans with
  | (Throw e, _) => Terminate e
  | (UB why, _) => Undefined why
  | (Ok fd, calls) =>
      match make_payload msg_size with
      | Throw e => Terminate e
      | UB why => Undefined why
      | Ok _ =>
          let m := mux_run count window mux_init es in
          match tx m, rx m with
          | SDone, RDone =>
              multiplex_finish (multiplex_bench_banner count window msg_size) (rtt <$> latencies m) (calls ++ [CClose fd])
          | _, _ => Executing m
          end
      end
  end.

Definition multiplex_bench (argv : list string) (es : list mevent) : process :=
  match multiplex_bench_args argv with
  | Ok (count, window, msg_size) => multiplex_main count window msg_size es
  | Throw e => Terminate e
  | UB why => Undefined why
  end.

End Pipelined.

Section Interleavings.
Context (count window msg_size : Z) (ans : ConnectAnswers) (rtt : Z -> Z).

(** A [SendAll] or a receive fails. *)
Definition mux_fails (m : Mux) (e : mevent) : bool :=
  match e with
  | Tx ok => negb ok && bool_decide (tx m = SSend)
  | RxStep RxError => bool_decide (rx m = RRecv)
  | _ => false
  end.

Fixpoint mux_undisturbed (m : Mux) (es : list mevent) : bool :=
  match es with
  | [] => true
  | e :: es => negb (mux_fails m e) && mux_undisturbed (mux_step count window m e) es
  end.

Context (Hcount : count < 2 ^ 31).

Lemma mux_step_pipe calm m e :
  pipe_ok count window calm m -> answered_once m e = true -> (calm -> mux_fails m e = false) ->
  pipe_ok count window calm (mux_step count window m e).
Proof.
  intros Hp Ha Hf. destruct e as [ok|x]; cbn [mux_step].
  - apply sender_step_pipe; [done..|]. intros Hc Ht. specialize (Hf Hc). cbn in Hf.
    rewrite bool_decide_eq_true_2 in Hf by done. by destruct ok.
  - apply receiver_step_pipe; [done..|]. intros Hc Hr ->. specialize (Hf Hc). cbn in Hf.
    by rewrite bool_decide_eq_true_2 in Hf.
Qed.

Lemma mux_run_pipe calm es : forall m,
  pipe_ok count window calm m -> honest count window m es = true ->
  (calm -> mux_undisturbed m es = true) -> pipe_ok count window calm (mux_run count window m es).
Proof.
  induction es as [|e es IH]; intros m Hm; cbn [honest mux_undisturbed]; [done|].
  intros [Ha Hh]%andb_true_iff Hu. apply IH; [|done|].
  - apply mux_step_pipe; [done..|]. intros Hc. specialize (Hu Hc). apply andb_true_iff in Hu as [Hu _].
    by destruct (mux_fails m e).
  - intros Hc. specialize (Hu Hc). by apply andb_true_iff in Hu as [_ Hu].
Qed.

(** The steps of the connection's threads are those of this program. *)
Lemma mux_can_step fd calls m :
  can_step count window msg_size ans rtt (CRun fd calls m) ->
  (tx m = SDone /\ rx m = RDone) \/
  exists e, answered_once m e = true /\ mux_fails m e = false /\ mux_step count window m e <> m.
Proof.
  intros ([flag ok|x] & Ha & Hf & Hne); cbn in Hne.
  - destruct (decide (tx m = SDone /\ rx m = RDone)) as [Hd|Hd]; [by left|right].
    exists (Tx ok). split; [done|]. split; [done|]. cbn. intros E. apply Hne.
    rewrite E. destruct (tx m); try done. destruct (rx m); try done. by destruct Hd.
  - right. exists (RxStep x). split; [done|]. split; [by destruct x|]. cbn. congruence.
Qed.

End Interleavings.

(** Up to the request loop. *)
Lemma bench_start {HO : HostOrder} {CP : ClientProtobuf} count msg_size env resps rest extra :
  served env resps rest extra -> 0 <= count < 2 ^ 31 -> 0 <= msg_size < 2 ^ 31 ->
  exists calls,
    latency_bench_main count msg_size env =
      match exchanges (S := we_socket env) (Z.to_nat count) 0 (xs msg_size) (new_client env) with
      | Done _ =>
          match latency_bench_stats count (rtt env <$> seqZ 0 count) with
          | Ok s => Exit 0 (latency_bench_banner count msg_size) (Some s) None calls
          | Throw e => Terminate e
          | UB why => Undefined why
          end
      | Waiting => BlockedFor
      | Raised e => Terminate e
      | Undef why => Undefined why
      end /\
    fd_open (a_fd (we_answers env)) calls = false.
Proof.
  intros Hsv Hc Hm. destruct (served_start count msg_size env resps rest extra Hsv Hc Hm) as (calls & E & _ & _ & Hcl).
  eexists. split; [|exact Hcl]. unfold latency_bench_main. rewrite E. cbn [mbind outcome_bind].
  unfold make_payload, VECTOR_MAX. rewrite u64_small, (proj2 (Z.ltb_ge _ _)) by (unfold SIZE_MOD; lia).
  cbn [mbind outcome_bind]. by rewrite (reserve_ok count Hc).
Qed.

(** The statistics of [latency_bench] are those of [PrintStats]. *)
Lemma bench_stats v :
  samples_ok v ->
  match latency_bench_stats (zlen v) v with
  | Ok s => 0 < zlen v /\ stats_of v s
  | UB why => zlen v = 0 /\ why = "front of an empty vector"%string
  | Throw _ => False
  end.
Proof.
  intros Hs. destruct (decide (v = [])) as [->|Hv]; [done|].
  destruct (latency_bench_stats_ok v Hs Hv) as (s & E & _ & Hst). rewrite E. split; [|done].
  destruct v; [done|]. rewrite zlen_cons. pose proof (zlen_nonneg v). lia.
Qed.

Lemma exchanges_app {HO : HostOrder} {CP : ClientProtobuf} {S : Socket} n m p : forall i c,
  exchanges (n + m) i p c = (c ← exchanges n i p c; exchanges m (i + Z.of_nat n) p c).
Proof.
  induction n as [|n IH]; intros i c; cbn [exchanges Nat.add]; [by rewrite Z.add_0_r|].
  destruct (exchange i p c); cbn [mbind io_bind]; [|done..]. rewrite IH.
  by replace (i + 1 + Z.of_nat n) with (i + Z.of_nat (Datatypes.S n)) by lia.
Qed.

Lemma exchanges_gone {HO : HostOrder} {CP : ClientProtobuf} env n c resps rest ch extra p :
  exchanges (S := we_socket env) (length resps) 0 p (new_client env) = Done (with_more (ch :: extra) c) ->
  served env resps rest (ch :: extra) -> zlen (SerializeRequest p) < 2 ^ 32 -> open_stream c -> gone ch ->
  zlen (Client.pending c) < HEADER_SIZE ->
  exchanges (S := we_socket env) (length resps + S n) 0 p (new_client env)
  = Raised "recv failed / connection closed".
Proof.
  intros Ex Hsv Hsz Ho Hg Hn. rewrite (exchanges_app (S := we_socket env)), Ex. cbn [mbind io_bind exchanges].
  by rewrite (exchange_gone (S := we_socket env) _ _ c ch extra (sv_socket _ _ _ _ Hsv) Hsz Ho Hg Hn).
Qed.

(** The command line gives [int]s. *)
Lemma latency_args_int argv count msg_size :
  latency_bench_args argv = Ok (count, msg_size) ->
  (- 2 ^ 31 <= count < 2 ^ 31) /\ (- 2 ^ 31 <= msg_size < 2 ^ 31).
Proof.
  unfold latency_bench_args. destruct (arg argv 1 10000) as [a| |] eqn:Ea; cbn [mbind outcome_bind]; [|done..].
  destruct (arg argv 2 64) as [b| |] eqn:Eb; cbn [mbind outcome_bind]; [|done..]. intros [= <- <-].
  split; by eapply arg_int; [|eassumption].
Qed.

Lemma multiplex_args_int argv count window msg_size :
  multiplex_bench_args argv = Ok (count, window, msg_size) ->
  (- 2 ^ 31 <= count < 2 ^ 31) /\ (- 2 ^ 31 <= window < 2 ^ 31) /\ (- 2 ^ 31 <= msg_size < 2 ^ 31).
Proof.
  unfold multiplex_bench_args. destruct (arg argv 1 100000) as [a| |] eqn:Ea; cbn [mbind outcome_bind]; [|done..].
  destruct (arg argv 2 64) as [b| |] eqn:Eb; cbn [mbind outcome_bind]; [|done..].
  destruct (arg argv 3 64) as [c| |] eqn:Ec; cbn [mbind outcome_bind]; [|done..]. intros [= <- <- <-].
  split_and!; by eapply arg_int; [|eassumption].
Qed.

(** * Properties *)

(** C26: [latency_bench] as a whole, from its command line, against a peer that
    answers every request: it closes its descriptor, exits with 0, and what it
    prints are the statistics of exactly the [count] latencies; but asked for no
    requests it reads the front of an empty vector, and if the peer closes the
    connection before the last answer the process is terminated and prints
    nothing of what it has measured. *)
Theorem latency_bench_outcome (HO : HostOrder) (CP : ClientProtobuf) argv count msg_size env resps rest extra :
  latency_bench_args argv = Ok (count, msg_size) -> served env resps rest extra -> 0 <= count -> 0 <= msg_size ->
  zlen (SerializeRequest (xs msg_size)) < 2 ^ 32 -> (forall i, 0 <= rtt env i < 2 ^ 32) ->
  (zlen resps = count ->
   match latency_bench argv env with
   | Exit code banner s rate calls =>
       code = 0 /\ 0 < count /\ banner = latency_bench_banner count msg_size /\
       fd_open (a_fd (we_answers env)) calls = false /\
       exists st, s = Some st /\ st_total st = count /\ stats_of (rtt env <$> seqZ 0 count) st
   | Undefined why => count = 0 /\ why = "front of an empty vector"%string
   | _ => False
   end) /\
  (forall ch extra', extra = ch :: extra' -> gone ch -> zlen resps < count -> zlen rest < HEADER_SIZE ->
   latency_bench argv env = Terminate "recv failed / connection closed").
Proof.
  intros Ha Hsv Hc0 Hm0 Hsz Hrtt. destruct (latency_args_int _ _ _ Ha) as [Bc Bm].
  assert (Hc : 0 <= count < 2 ^ 31) by lia. assert (Hm : 0 <= msg_size < 2 ^ 31) by lia.
  unfold latency_bench. rewrite Ha.
  destruct (bench_start count msg_size env resps rest extra Hsv Hc Hm) as (calls & -> & Hcl).
  destruct (served_exchanges env resps rest extra _ Hsv Hsz) as (c & Ex & Hp & Ho). split.
  - intros Hn. replace (Z.to_nat count) with (length resps) by (unfold zlen in Hn; lia). rewrite Ex.
    assert (Hz : zlen (rtt env <$> seqZ 0 count) = count)
      by (unfold zlen; rewrite length_fmap, length_seqZ; lia).
    assert (Hs : samples_ok (rtt env <$> seqZ 0 count)).
    { split; [|lia]. apply Forall_fmap, Forall_forall. intros i _. apply Hrtt. }
    pose proof (bench_stats _ Hs) as Hst. rewrite Hz in Hst.
    destruct (latency_bench_stats count _) as [st|e|why]; [|done|done].
    destruct Hst as [Hpos Hst]. do 4 (split; [done|]). exists st. split; [done|].
    split; [by rewrite (so_total _ _ Hst)|done].
  - intros ch extra' -> Hg Hlt Hrest.
    replace (Z.to_nat count) with (length resps + S (Z.to_nat count - length resps - 1))%nat
      by (unfold zlen in Hlt; lia).
    by rewrite (exchanges_gone _ _ _ _ _ _ _ _ Ex Hsv Hsz Ho Hg ltac:(by rewrite Hp)).
Qed.

#[local] Existing Instance Client.plain_requests.
#[local] Existing Instance Echo.little.

Lemma latency_bench_outcome_witness :
  match latency_bench ["latency_bench"; "1"; "2"]%string env_closed with
  | Exit code banner s rate calls =>
      code = 0 /\ 0 < 1 /\ banner = latency_bench_banner 1 2 /\
      fd_open (a_fd (we_answers env_closed)) calls = false /\
      exists st, s = Some st /\ st_total st = 1 /\ stats_of (rtt env_closed <$> seqZ 0 1) st
  | Undefined why => 1 = 0 /\ why = "front of an empty vector"%string
  | _ => False
  end /\
  latency_bench ["latency_bench"; " 3 requests"; "+2"]%string env_closed
  = Terminate "recv failed / connection closed".
Proof.
  assert (Hrtt : forall i, 0 <= rtt env_closed i < 2 ^ 32)
    by (intros i; cbn; pose proof (Z.mod_pos_bound i 7); lia).
  split.
  - apply (latency_bench_outcome little plain_requests ["latency_bench"; "1"; "2"]%string 1 2 env_closed
             [request] [] [Some []]);
      [vm_compute; reflexivity|exact env_closed_served|lia|lia|vm_compute; reflexivity|exact Hrtt|reflexivity].
  - apply (latency_bench_outcome little plain_requests ["latency_bench"; " 3 requests"; "+2"]%string 3 2 env_closed
             [request] [] [Some []]) with (ch := Some []) (extra' := []);
      [vm_compute; reflexivity|exact env_closed_served|lia|lia|vm_compute; reflexivity|exact Hrtt
      |reflexivity|right; reflexivity|vm_compute; reflexivity..].
Defined.

Lemma multiplex_finish_ok wall_ns banner lat calls :
  samples_ok lat -> lat <> [] -> 0 < wall_ns < 2 ^ 53 ->
  exists s x, multiplex_finish wall_ns banner lat calls = Exit 0 banner (Some s) (Some x) calls /\
    stats_of lat s /\ near x (zlen lat * 1000000000) wall_ns.
Proof.
  intros Hs Hl Hw. destruct (PrintStats_ok lat Hs Hl) as (s & E & Hst).
  destruct (throughput_near (zlen lat) wall_ns) as (x & Ex & Hx); [|done|].
  { destruct Hs as [_ Hn]. destruct lat; [done|]. rewrite zlen_cons in *. pose proof (zlen_nonneg lat). lia. }
  exists s, x. split; [|done]. unfold multiplex_finish. rewrite E, Ex. by destruct lat.
Qed.

(** C25: [multiplex_bench] as a whole, from its command line, in every
    interleaving of its threads in which the peer answers each request once and
    nothing fails.  While it is at work one of the threads can go on; when both
    have ended, the descriptor is closed and it prints the statistics of exactly
    the [count] latencies and the throughput up to a relative error of [2^-51],
    or exits with 1 if no requests were asked for. *)
Theorem multiplex_outcome ans rtt wall_ns argv es count window msg_size :
  multiplex_bench_args argv = Ok (count, window, msg_size) -> 0 < window -> 0 <= msg_size ->
  (exists fd calls, conn_setup count window ans = (Ok fd, calls)) -> (forall i, 0 <= rtt i < 2 ^ 32) ->
  0 < wall_ns < 2 ^ 53 ->
  honest count window mux_init es = true -> mux_undisturbed count window mux_init es = true ->
  match multiplex_bench ans rtt wall_ns argv es with
  | Executing m =>
      exists e, answered_once m e = true /\ mux_fails m e = false /\ mux_step count window m e <> m
  | Exit code banner s rate calls =>
      fd_open (a_fd ans) calls = false /\ banner = multiplex_bench_banner count window msg_size /\
      if 0 <? count
      then code = 0 /\ exists st x, s = Some st /\ st_total st = count /\ stats_of (rtt <$> seqZ 0 count) st /\
             rate = Some x /\ near x (count * 1000000000) wall_ns
      else code = 1 /\ s = None
  | _ => False
  end.
Proof.
  intros Ha Hw Hm0 (fd & calls & Es) Hrtt Hns Hh Hu. destruct (multiplex_args_int _ _ _ _ Ha) as (Bc & _ & Bm).
  pose proof (proj2 Bc) as Hc. unfold multiplex_bench, multiplex_main. rewrite Ha, Es.
  destruct (make_payload_ok msg_size ltac:(lia)) as [p ->]. cbv zeta.
  pose proof (mux_run_pipe count window Hc True es mux_init (mux_init_pipe count window _) Hh (fun _ => Hu)) as Hp.
  set (m := mux_run count window mux_init es) in *.
  destruct (never_stuck count window msg_size ans rtt (CRun fd calls m) Hw) as [?|Hcan]; [by split|done|].
  destruct (decide (tx m = SDone /\ rx m = RDone)) as [[Et Er]|Hd].
  2:{ destruct (mux_can_step _ _ _ _ _ _ _ _ Hcan) as [?|Hs]; [done|].
      destruct (tx m), (rx m); try exact Hs. by destruct Hd. }
  rewrite Et, Er. destruct (setup_fd _ _ _ _ _ Es) as [-> Hfd].
  pose proof (all_answered count window m Hp Er) as Hl. destruct (Z.ltb_spec 0 count) as [Hpos|Hneg].
  - rewrite Z.max_r in Hl by lia.
    assert (Hz : zlen (rtt <$> latencies m) = count)
      by (unfold zlen; rewrite length_fmap, Hl, length_seqZ; lia).
    destruct (multiplex_finish_ok wall_ns (multiplex_bench_banner count window msg_size) (rtt <$> latencies m)
                (calls ++ [CClose (a_fd ans)])) as (st & x & -> & Hst & Hx); [|by intros E0; rewrite E0, zlen_nil in Hz; lia|done|].
    { split; [|lia]. apply Forall_fmap, Forall_forall. intros i _. apply Hrtt. }
    rewrite Hz in Hx. do 3 (split; [done|]). exists st, x. split; [done|]. split; [by rewrite (so_total _ _ Hst)|].
    split; [|done]. eapply stats_of_perm; [|exact Hst]. by rewrite Hl.
  - rewrite Z.max_l in Hl by lia. cbn in Hl. apply Permutation_nil_r in Hl. by rewrite Hl.
Qed.

Lemma multiplex_outcome_witness :
  match multiplex_bench loopback (fun i => 10 + i mod 7) 5000 ["multiplex_bench"; "2"; "2"; "8"]%string two_requests with
  | Executing m =>
      exists e, answered_once m e = true /\ mux_fails m e = false /\ mux_step 2 2 m e <> m
  | Exit code banner s rate calls =>
      fd_open 3 calls = false /\ banner = multiplex_bench_banner 2 2 8 /\
      if 0 <? 2
      then code = 0 /\ exists st x, s = Some st /\ st_total st = 2 /\
             stats_of ((fun i => 10 + i mod 7) <$> seqZ 0 2) st /\ rate = Some x /\ near x (2 * 1000000000) 5000
      else code = 1 /\ s = None
  | _ => False
  end.
Proof.
  apply (multiplex_outcome loopback (fun i => 10 + i mod 7) 5000 ["multiplex_bench"; "2"; "2"; "8"]%string
           two_requests 2 2 8).
  - vm_compute. reflexivity.
  - lia.
  - lia.
  - eexists _, _. vm_compute. reflexivity.
  - intros i. pose proof (Z.mod_pos_bound i 7). lia.
  - lia.
  - vm_compute. reflexivity.
  - vm_compute. reflexivity.
Defined.
