(* ===== verification/Fleet.v ===== *)
(** What the [main]s of the two multi-threaded clients have in common
    ([examples/latency_bench_mt.cpp], [examples/mt_multiplex_bench.cpp]): a
    vector of results, a thread for each of its entries, created one after the
    other and running from then on, the start flag that is raised after a
    pause, and the joins, in order.

    A thread is any instance of [Worker]: a machine that sees the flag, and
    returns in the end.  An execution is any interleaving of the steps of
    [main] and of the threads that exist.  What [main] does before and after,
    and the two kinds of threads, are in [MtMains]. *)
From S2P Require Import Prelude.

(** * Threads *)

Inductive wstatus (R : Type) : Type :=
| WRunning
| WReturned (r : R)
| WAborts (why : string).            (* std::terminate: the whole process ends *)
Arguments WRunning {R}.
Arguments WReturned {R}.
Arguments WAborts {R}.

(** [w_step t flag e] is a step of thread [t], which finds [flag] in
    [start_flag] and meets [e]. *)
Class Worker (W Ev R : Type) := {
  w_init : W;
  w_step : nat -> bool -> Ev -> W -> outcome W;
  w_status : W -> wstatus R
}.

(** A thread that has returned does nothing more. *)
Class WorkerLaws (W Ev R : Type) {Wk : Worker W Ev R} := {
  w_returned t flag e w r : w_status w = WReturned r -> w_step t flag e w = Ok w
}.

(** * The process *)

Inductive main_pc : Type :=
| MSpawn                             (* threads.emplace_back(...) *)
| MSleep                             (* sleep_for, then start_flag.store(true) *)
| MJoin (t : nat)                    (* join of thread t *)
| MJoined
| MTerminated (why : string).

#[export] Instance main_pc_eq_dec : EqDecision main_pc.
Proof. solve_decision. Defined.

Record Fleet (W : Type) := mkFleet { f_pc : main_pc; f_flag : bool; f_workers : list W }.
Arguments mkFleet {W}.
Arguments f_pc {W}.
Arguments f_flag {W}.
Arguments f_workers {W}.

Inductive fevent (Ev : Type) : Type :=
| FMain (created : bool)             (* a step of main; can the thread be created? *)
| FWorker (t : nat) (e : Ev).
Arguments FMain {Ev}.
Arguments FWorker {Ev}.

Section Fleet.
Context {W Ev R : Type} {Wk : Worker W Ev R} (n : nat).

Definition fleet_init : Fleet W := mkFleet MSpawn false [].

(** If a thread cannot be created, the exception leaves [main]. *)
Definition fleet_main (created : bool) (f : Fleet W) : Fleet W :=
  match f_pc f with
  | MSpawn =>
      if (length (f_workers f) <? n)%nat then
        if created then mkFleet MSpawn (f_flag f) (f_workers f ++ [w_init])
        else mkFleet (MTerminated "std::system_error") (f_flag f) (f_workers f)
      else mkFleet MSleep (f_flag f) (f_workers f)
  | MSleep => mkFleet (MJoin 0) true (f_workers f)
  | MJoin t =>
      if (t <? n)%nat then
        match w_status <$> f_workers f !! t with
        | Some (WReturned _) => mkFleet (MJoin (S t)) (f_flag f) (f_workers f)
        | _ => f
        end
      else mkFleet MJoined (f_flag f) (f_workers f)
  | MJoined | MTerminated _ => f
  end.

Definition fleet_worker (t : nat) (e : Ev) (f : Fleet W) : outcome (Fleet W) :=
  match f_workers f !! t with
  | None => Ok f
  | Some w =>
      w ← w_step t (f_flag f) e w;
      Ok (mkFleet (match w_status w with WAborts why => MTerminated why | _ => f_pc f end)
            (f_flag f) (<[t := w]> (f_workers f)))
  end.

Definition fleet_step (f : Fleet W) (e : fevent Ev) : outcome (Fleet W) :=
  match f_pc f with
  | MTerminated _ => Ok f
  | _ =>
      match e with
      | FMain created => Ok (fleet_main created f)
      | FWorker t e => fleet_worker t e f
      end
  end.

Fixpoint fleet_run (f : Fleet W) (es : list (fevent Ev)) : outcome (Fleet W) :=
  match es with
  | [] => Ok f
  | e :: es => f ← fleet_step f e; fleet_run f es
  end.

(** The results of the threads, when all have returned. *)
Definition returned (w : W) : option R := match w_status w with WReturned r => Some r | _ => None end.
Definition fleet_results (f : Fleet W) : option (list R) := mapM returned (f_workers f).

(** A run in which every step changes something: none is a turn of a waiting
    loop, or of a thread that is blocked, has ended or does not exist. *)
Fixpoint effective (f : Fleet W) (es : list (fevent Ev)) : Prop :=
  match es with
  | [] => True
  | e :: es => match fleet_step f e with Ok f' => f' <> f /\ effective f' es | _ => False end
  end.

(** * Invariant *)

Definition has_returned (f : Fleet W) (t : nat) : Prop := is_Some (f_workers f !! t ≫= returned).

(** The process is in order, and every thread satisfies [I]. *)
Record fleet_ok (I : nat -> W -> Prop) (f : Fleet W) : Prop := {
  fo_length : (length (f_workers f) <= n)%nat;
  fo_all : f_pc f <> MSpawn -> length (f_workers f) = n;
  fo_flag : f_flag f = match f_pc f with MJoin _ | MJoined => true | _ => false end;
  fo_pc : match f_pc f with
          | MJoin t => (t <= n)%nat /\ forall u, (u < t)%nat -> has_returned f u
          | MJoined => forall u, (u < n)%nat -> has_returned f u
          | MTerminated _ => False
          | _ => True
          end;
  fo_each : forall t w, f_workers f !! t = Some w -> I t w
}.

Lemma fleet_init_ok I : fleet_ok I fleet_init.
Proof. constructor; cbn; [lia|done|done|done|done]. Qed.

Lemma fleet_ok_mono (I J : nat -> W -> Prop) f :
  (forall t w, f_workers f !! t = Some w -> I t w -> J t w) -> fleet_ok I f -> fleet_ok J f.
Proof. intros Hij [H1 H2 H3 H4 H5]. constructor; eauto. Qed.

Lemma fleet_main_ok I f :
  (forall t, (t < n)%nat -> I t w_init) -> fleet_ok I f -> fleet_ok I (fleet_main true f).
Proof.
  intros Hi Hf. pose proof Hf as [Hl Ha Hfl Hp He]. unfold fleet_main. destruct (f_pc f) as [| |t| |why] eqn:Ep.
  - destruct (Nat.ltb_spec (length (f_workers f)) n) as [Hlt|Hge].
    + constructor; cbn [f_pc f_flag f_workers]; [rewrite length_app; cbn; lia|done|done|done|].
      intros t w [Hw|[? Hw]]%lookup_app_Some; [by apply He|].
      destruct (t - length (f_workers f))%nat eqn:Et; [|done]. injection Hw as <-. apply Hi. lia.
    + constructor; cbn; try done. intros _. lia.
  - constructor; cbn; try done; [by intros _; apply Ha|]. split; [lia|]. lia.
  - destruct Hp as [Ht Hu]. destruct (Nat.ltb_spec t n) as [Hlt|Hge].
    + destruct (f_workers f !! t) as [w|] eqn:Ew; cbn [fmap option_fmap option_map]; [|done].
      destruct (w_status w) as [|r|why] eqn:Es; try done.
      constructor; cbn [f_pc f_flag f_workers]; try done; [by intros _; apply Ha|]. split; [lia|].
      intros u Hlu. destruct (decide (u = t)) as [->|]; [|apply Hu; lia].
      unfold has_returned. cbn. rewrite Ew. cbn. unfold returned. rewrite Es. by eexists.
    + constructor; cbn; try done; [by intros _; apply Ha|]. intros u Hlu. apply Hu. lia.
  - done.
  - done.
Qed.

Context {WL : WorkerLaws W Ev R}.

Lemma fleet_worker_ok I f t e w w' :
  fleet_ok I f -> f_workers f !! t = Some w -> w_step t (f_flag f) e w = Ok w' -> I t w' ->
  (forall why, w_status w' <> WAborts why) ->
  exists f', fleet_worker t e f = Ok f' /\ fleet_ok I f' /\
    f_pc f' = f_pc f /\ f_flag f' = f_flag f /\ f_workers f' = <[t := w']> (f_workers f).
Proof.
  intros Hf Ew E Hi Hab. pose proof Hf as [Hl Ha Hfl Hp He]. unfold fleet_worker. rewrite Ew, E. cbn [mbind outcome_bind].
  assert (match w_status w' with WAborts why => MTerminated why | _ => f_pc f end = f_pc f) as ->
    by (destruct (w_status w') as [| |why] eqn:Es; [done..|]; by destruct (Hab why)).
  eexists. split; [done|]. split; [|done].
  assert (Hret : forall u, has_returned f u -> has_returned (mkFleet (f_pc f) (f_flag f) (<[t := w']> (f_workers f))) u).
  { intros u [r Hr]. unfold has_returned. cbn. destruct (decide (u = t)) as [->|Hne].
    - rewrite Ew in Hr. cbn in Hr. unfold returned in Hr. destruct (w_status w) as [|r'|] eqn:Es; try done.
      rewrite (w_returned t (f_flag f) e w r' Es) in E. injection E as <-.
      rewrite list_lookup_insert_eq by (by eapply lookup_lt_Some). cbn. unfold returned. rewrite Es. by eexists.
    - rewrite list_lookup_insert_ne by done. rewrite Hr. by eexists. }
  constructor; cbn [f_pc f_flag f_workers]; rewrite ?length_insert; try done.
  - destruct (f_pc f); [done|done|..]; [destruct Hp; split; auto|auto|done].
  - intros u x Hx. destruct (decide (u = t)) as [->|Hne].
    + rewrite list_lookup_insert_eq in Hx by (by eapply lookup_lt_Some). by injection Hx as <-.
    + rewrite list_lookup_insert_ne in Hx by done. by apply He.
Qed.

(** A step of the process, when the thread it is one of keeps [I]. *)
Lemma fleet_step_ok I f e :
  (forall t, (t < n)%nat -> I t w_init) -> (forall t w why, I t w -> w_status w <> WAborts why) ->
  fleet_ok I f ->
  match e with
  | FMain created => created = true
  | FWorker t e => forall w, f_workers f !! t = Some w ->
                     exists w', w_step t (f_flag f) e w = Ok w' /\ I t w'
  end ->
  exists f', fleet_step f e = Ok f' /\ fleet_ok I f'.
Proof.
  intros Hi Hab Hf He. unfold fleet_step.
  assert (Hgo : exists f', match e with FMain created => Ok (fleet_main created f) | FWorker t e => fleet_worker t e f end
                 = Ok f' /\ fleet_ok I f').
  { destruct e as [created|t e].
    - subst created. eexists. split; [done|]. by apply fleet_main_ok.
    - destruct (f_workers f !! t) as [w|] eqn:Ew.
      + destruct (He w eq_refl) as (w' & E & Hw').
        destruct (fleet_worker_ok I f t e w w' Hf Ew E Hw' (fun why => Hab t w' why Hw')) as (f' & E' & Hf' & _).
        by exists f'.
      + unfold fleet_worker. rewrite Ew. by exists f. }
  pose proof (fo_pc _ _ Hf) as Hp. by destruct (f_pc f).
Qed.

(** At the end all results are there. *)
Lemma fleet_joined I f :
  fleet_ok I f -> f_pc f = MJoined ->
  exists rs, fleet_results f = Some rs /\ length rs = n /\
    Forall2 (fun w r => w_status w = WReturned r) (f_workers f) rs.
Proof.
  intros Hf Ep. pose proof Hf as [Hl Ha Hfl Hp He]. rewrite Ep in *. specialize (Ha ltac:(done)).
  assert (Hall : Forall (fun w => is_Some (returned w)) (f_workers f)).
  { apply Forall_lookup. intros u w Hw. pose proof (lookup_lt_Some _ _ _ Hw).
    specialize (Hp u ltac:(lia)). unfold has_returned in Hp. by rewrite Hw in Hp. }
  destruct (proj2 (mapM_is_Some returned (f_workers f)) Hall) as [rs Hrs].
  exists rs. split; [done|]. pose proof Hrs as Hrs'. apply mapM_Some in Hrs'.
  split; [by rewrite <- (Forall2_length _ _ _ Hrs')|].
  eapply Forall2_impl; [exact Hrs'|]. intros w r. unfold returned. by destruct (w_status w); intros [= ->].
Qed.

(** ** Progress *)

(** [main] can go on, unless it waits for a thread that has not returned. *)
Lemma fleet_progress I f :
  fleet_ok I f -> f_pc f = MJoined \/ fleet_step f (FMain true) <> Ok f \/
  exists t w, f_pc f = MJoin t /\ f_workers f !! t = Some w /\ returned w = None.
Proof.
  intros Hf. pose proof Hf as [Hl Ha Hfl Hp He]. unfold fleet_step, fleet_main.
  destruct (f_pc f) as [| |t| |why] eqn:Ep; [right; left..|right|by left|done].
  - destruct (_ <? _)%nat; intros [= E]; [|by rewrite <- E in Ep].
    apply (f_equal (fun f => length (f_workers f))) in E. cbn in E. rewrite length_app in E. cbn in E. lia.
  - intros [= E]. by rewrite <- E in Ep.
  - destruct Hp as [Ht _]. destruct (Nat.ltb_spec t n) as [Hlt|Hge].
    + specialize (Ha ltac:(done)).
      destruct (lookup_lt_is_Some_2 (f_workers f) t ltac:(lia)) as [w Ew]. rewrite Ew. cbn [fmap option_fmap option_map].
      destruct (returned w) as [r|] eqn:Er; [left|by right; eauto].
      unfold returned in Er. destruct (w_status w); try done. intros [= E]. rewrite <- E in Ep. cbn in Ep. injection Ep as Ep. lia.
    + left. intros [= E]. by rewrite <- E in Ep.
Qed.

(** A bound on the steps that change something, from one for each thread. *)
Context (w_left : W -> nat).

Definition fleet_left (f : Fleet W) : nat :=
  match f_pc f with
  | MSpawn => (n - length (f_workers f)) * (w_left w_init + 1) + n + 3
  | MSleep => n + 2
  | MJoin t => n - t + 1
  | _ => 0
  end + sum_list_with w_left (f_workers f).

Lemma sum_insert t (w w' : W) ws :
  ws !! t = Some w ->
  (sum_list_with w_left (<[t := w']> ws) + w_left w = sum_list_with w_left ws + w_left w')%nat.
Proof.
  intros Hw. rewrite <- (take_drop_middle ws t w Hw) at 2. rewrite insert_take_drop by (by eapply lookup_lt_Some).
  rewrite !sum_list_with_app. cbn [sum_list_with]. lia.
Qed.

Lemma fleet_step_left I f e f' :
  fleet_ok I f -> fleet_step f e = Ok f' ->
  match e with
  | FMain created => created = true
  | FWorker t e => forall w w', f_workers f !! t = Some w -> w_step t (f_flag f) e w = Ok w' ->
                     (forall why, w_status w' <> WAborts why) /\ (w' = w \/ (w_left w' < w_left w)%nat)
  end ->
  f' = f \/ (fleet_left f' < fleet_left f)%nat.
Proof.
  intros Hf Hs He. pose proof Hf as [Hl Ha Hfl Hp _]. destruct f as [pc flag ws]. cbn [f_pc f_flag f_workers] in *.
  unfold fleet_step in Hs. cbn [f_pc] in Hs. destruct e as [created|t e].
  - subst created. unfold fleet_main, fleet_left in *. cbn [f_pc f_flag f_workers] in *.
    destruct pc as [| |t| |why]; injection Hs as <-; [right|right| |by left|done].
    + destruct (Nat.ltb_spec (length ws) n); cbn [f_pc f_workers].
      * rewrite length_app, sum_list_with_app. cbn [length sum_list_with].
        replace (n - length ws)%nat with (S (n - (length ws + 1))) by lia. lia.
      * lia.
    + cbn. lia.
    + destruct (Nat.ltb_spec t n) as [Hlt|Hge]; cbn [f_pc f_workers]; [|right; cbn; lia].
      destruct (w_status <$> ws !! t) as [[| |]|]; try (by left). right. cbn. lia.
  - assert (Hw : fleet_worker t e (mkFleet pc flag ws) = Ok f') by (by destruct pc).
    unfold fleet_worker in Hw. cbn [f_pc f_flag f_workers] in Hw.
    destruct (ws !! t) as [w|] eqn:Ew; [|by left; injection Hw as <-].
    destruct (w_step t flag e w) as [w'| |] eqn:E; cbn [mbind outcome_bind] in Hw; [|done..].
    destruct (He w w' eq_refl E) as [Hab Hle]. injection Hw as <-.
    assert (match w_status w' with WAborts why => MTerminated why | _ => pc end = pc) as ->
      by (destruct (w_status w') as [| |why] eqn:Es; [done..|]; by destruct (Hab why)).
    destruct Hle as [->|Hlt]; [left; by rewrite list_insert_id|right].
    unfold fleet_left. cbn [f_pc f_workers]. rewrite length_insert. pose proof (sum_insert t w w' ws Ew). lia.
Qed.

End Fleet.

(** * Threads that keep to a contract *)

(** What [main] may rely on of each of [n] threads, as long as they meet what
    [ws_valid] allows: every step is defined, no thread takes the process
    down, [ws_left] bounds the steps that change a thread, and once the flag is
    up a thread that has not returned can go on. *)
Class WorkerSpec (W Ev R : Type) {Wk : Worker W Ev R} (n : nat) := {
  ws_inv : nat -> W -> Prop;
  ws_valid : nat -> bool -> Ev -> W -> Prop;
  ws_left : W -> nat;
  ws_init t : (t < n)%nat -> ws_inv t w_init;
  ws_no_abort t w why : ws_inv t w -> w_status w <> WAborts why;
  ws_step t flag e w :
    ws_inv t w -> ws_valid t flag e w ->
    exists w', w_step t flag e w = Ok w' /\ ws_inv t w' /\ (w' = w \/ (ws_left w' < ws_left w)%nat);
  ws_can_step t w :
    ws_inv t w -> returned w = None ->
    exists e w', ws_valid t true e w /\ w_step t true e w = Ok w' /\ w' <> w
}.

Section Contract.
Context {W Ev R : Type} {Wk : Worker W Ev R} {WL : WorkerLaws W Ev R} (n : nat) {WS : WorkerSpec W Ev R n}.

(** Threads can be created, and each meets what its contract allows. *)
Definition fleet_valid (f : Fleet W) (e : fevent Ev) : Prop :=
  match e with
  | FMain created => created = true
  | FWorker t e => forall w, f_workers f !! t = Some w -> ws_valid t (f_flag f) e w
  end.

Fixpoint fleet_valid_run (f : Fleet W) (es : list (fevent Ev)) : Prop :=
  match es with
  | [] => True
  | e :: es => fleet_valid f e /\ match fleet_step n f e with Ok f => fleet_valid_run f es | _ => True end
  end.

Lemma valid_step_ok f e :
  fleet_ok n ws_inv f -> fleet_valid f e ->
  exists f', fleet_step n f e = Ok f' /\ fleet_ok n ws_inv f' /\
    (f' = f \/ (fleet_left n ws_left f' < fleet_left n ws_left f)%nat).
Proof.
  intros Hf Hv.
  assert (Hstep : match e with
                  | FMain created => created = true
                  | FWorker t e => forall w, f_workers f !! t = Some w ->
                      exists w', w_step t (f_flag f) e w = Ok w' /\ ws_inv t w' /\ (w' = w \/ (ws_left w' < ws_left w)%nat)
                  end).
  { destruct e as [created|t e]; [done|]. intros w Hw. apply ws_step; [by apply (fo_each _ _ _ Hf)|by apply Hv]. }
  destruct (fleet_step_ok n ws_inv f e ws_init ws_no_abort Hf) as (f' & E & Hf').
  { destruct e as [created|t e]; [done|]. intros w Hw. destruct (Hstep w Hw) as (w' & E & Hi & _). by exists w'. }
  exists f'. split; [done|]. split; [done|]. apply (fleet_step_left n ws_left ws_inv f e f' Hf E).
  destruct e as [created|t e]; [done|]. intros w w' Hw Ew. destruct (Hstep w Hw) as (w2 & E2 & Hi & Hl).
  rewrite Ew in E2. injection E2 as <-. split; [|done]. intros why. by apply (ws_no_abort t).
Qed.

Lemma valid_run_ok es : forall f,
  fleet_ok n ws_inv f -> fleet_valid_run f es ->
  exists f', fleet_run n f es = Ok f' /\ fleet_ok n ws_inv f' /\
    (effective n f es -> (length es + fleet_left n ws_left f' <= fleet_left n ws_left f)%nat).
Proof.
  induction es as [|e es IH]; intros f Hf Hv; [by exists f|]. cbn [fleet_valid_run] in Hv. destruct Hv as [Hv Hvs].
  destruct (valid_step_ok f e Hf Hv) as (f1 & E & Hf1 & Hl). cbn [fleet_run effective]. rewrite E in *.
  cbn [mbind outcome_bind]. destruct (IH f1 Hf1 Hvs) as (f2 & -> & Hf2 & Hl2). exists f2. split; [done|]. split; [done|].
  intros [Hne He]. specialize (Hl2 He). destruct Hl as [?|Hl]; [done|]. cbn [length]. lia.
Qed.

Lemma fleet_left_init :
  fleet_left n ws_left (fleet_init (W := W)) = (n * (ws_left (w_init (Worker := Wk)) + 1) + n + 3)%nat.
Proof. unfold fleet_left. cbn [f_pc f_workers fleet_init length sum_list_with foldr]. lia. Qed.

(** Until everything is joined, some step is allowed that changes something. *)
Lemma fleet_never_stuck f :
  fleet_ok n ws_inv f ->
  f_pc f = MJoined \/ exists e f', fleet_valid f e /\ fleet_step n f e = Ok f' /\ f' <> f.
Proof.
  intros Hf. destruct (fleet_progress n ws_inv f Hf) as [?|[Hm|(t & w & Ep & Ew & Er)]]; [by left|right..].
  - destruct (valid_step_ok f (FMain true) Hf eq_refl) as (f' & E & _). exists (FMain true), f'.
    split; [done|]. split; [done|]. intros ->. by rewrite E in Hm.
  - destruct (ws_can_step t w (fo_each _ _ _ Hf t w Ew) Er) as (e & w' & Hv & E & Hne).
    assert (Hfl : f_flag f = true) by (by rewrite (fo_flag _ _ _ Hf), Ep).
    assert (Hval : fleet_valid f (FWorker t e)).
    { intros w0 Hw0. rewrite Ew in Hw0. injection Hw0 as <-. by rewrite Hfl. }
    destruct (valid_step_ok f _ Hf Hval) as (f' & Ef & _). exists (FWorker t e), f'. split; [done|]. split; [done|].
    intros ->. unfold fleet_step, fleet_worker in Ef. rewrite Ep, Ew, Hfl, E in Ef. cbn [mbind outcome_bind] in Ef.
    injection Ef as Ef. apply (f_equal (fun f => f_workers f !! t)) in Ef. cbn [f_workers] in Ef.
    rewrite list_lookup_insert_eq, Ew in Ef by (by eapply lookup_lt_Some). by injection Ef.
Qed.

End Contract.
