(* ===== verification/MtMains.v ===== *)
(** The two multi-threaded clients as whole programs: [main] of
    [examples/latency_bench_mt.cpp] and of [examples/mt_multiplex_bench.cpp],
    from the command line to the report.  The part they share, creating the
    threads, releasing and joining them, is [Fleet]; a thread is
    [WorkerThread] ([MtBench]) or [RunConnection] ([MtMultiplex]), as an
    instance of [Worker].

    Neither [main] catches exceptions.  [wall_ns] is the time between the two
    readings of the clock. *)
From S2P Require Import Prelude Buffer Protocol IoContext Coro Connection ResponseQueue Echo.
From S2P Require Import Client Stats MtBench Multiplex MtMultiplex CommandLine Fleet.

(** How the process ends, or where it is. *)
Inductive mt_process (W Rep : Type) : Type :=
| MtExit (rep : Rep)
| MtTerminate (why : string)
| MtRunning (f : Fleet W)
| MtUndefined (why : string).
Arguments MtExit {W Rep}.
Arguments MtTerminate {W Rep}.
Arguments MtRunning {W Rep}.
Arguments MtUndefined {W Rep}.

(** What is printed, and the socket calls of every thread. *)
Record MtReport := mkReport {
  rp_banner : string;
  rp_errors : list string;
  rp_stats : option Stats;
  rp_rate : option double;             (* None: nothing, or a division by zero *)
  rp_p99s : list (option Z);
  rp_calls : list (list ccall)
}.

(** [std::vector<ThreadResult> results(nthreads)]: a result, of either kind, is
    a vector and a string, 56 bytes; an [int] below zero is a huge [size_t]. *)
Definition make_results (n : Z) : outcome unit :=
  if VECTOR_MAX / 56 <? u64 n then Throw "std::length_error" else Ok tt.

(** [main] once its threads are created, released and joined. *)
Definition finish {W Ev R} {Wk : Worker W Ev R} {Rep} (report : list R -> outcome Rep)
    (f : outcome (Fleet W)) : mt_process W Rep :=
  match f with
  | Throw why => MtTerminate why
  | UB why => MtUndefined why
  | Ok f =>
      match f_pc f with
      | MTerminated why => MtTerminate why
      | MJoined =>
          match (rs ← or_ub "result of a running thread" (fleet_results f); report rs) with
          | Ok rep => MtExit rep
          | Throw why => MtTerminate why
          | UB why => MtUndefined why
          end
      | _ => MtRunning f
      end
  end.

Definition mt_start {A W Rep} (prepared : outcome A) (go : A -> mt_process W Rep) : mt_process W Rep :=
  match prepared with
  | Ok a => go a
  | Throw why => MtTerminate why
  | UB why => MtUndefined why
  end.

(** * [latency_bench_mt] *)

Section LatencyBenchMt.
Context {HO : HostOrder} {CP : ClientProtobuf} (envs : nat -> worker_env) (wall_ns : Z).

Definition mt_worker (count msg_size : Z) : Worker wstate unit (ThreadResult * list ccall) :=
  {| w_init := WStart;
     w_step t flag _ w :=
       match worker_step count msg_size (envs t) flag w with
       | WEnd (Crashed why) => UB why
       | w => Ok w
       end;
     w_status w := match w with WEnd (Finished r calls) => WReturned (r, calls) | _ => WRunning end |}.

(** After the joins. *)
Definition latency_bench_mt_report (count msg_size nthreads : Z) (rs : list (ThreadResult * list ccall))
  : outcome MtReport :=
  '(errors, s, p99s) ← main_report count (fst <$> rs);
  Ok (mkReport (latency_bench_mt_banner count msg_size nthreads) errors s
        (throughput (zlen (merge_results (fst <$> rs))) wall_ns) p99s (snd <$> rs)).

Definition latency_bench_mt (argv : list string) (es : list (fevent unit)) : mt_process wstate MtReport :=
  mt_start
    ('(count, msg_size, nthreads) ← latency_bench_mt_args argv;
     _ ← make_results nthreads; _ ← reserve nthreads;
     Ok (count, msg_size, nthreads))
    (fun '(count, msg_size, nthreads) =>
       finish (Wk := mt_worker count msg_size) (latency_bench_mt_report count msg_size nthreads)
         (fleet_run (Wk := mt_worker count msg_size) (Z.to_nat nthreads) fleet_init es)).

End LatencyBenchMt.

(** * [mt_multiplex_bench] *)

Section MtMultiplexBench.
Context (ans : nat -> ConnectAnswers) (rtts : nat -> Z -> Z) (wall_ns : Z).

(** The event, with the value the thread really finds in [start_flag]. *)
Definition seen_flag (flag : bool) (e : cevent) : cevent :=
  match e with Outer _ ok => Outer flag ok | Inner x => Inner x end.

Definition conn_status (s : conn_state) : wstatus (ConnResult * list ccall) :=
  match s with
  | CEnd r calls => WReturned (r, calls)
  | CTerminated => WAborts "std::terminate"
  | _ => WRunning
  end.

Definition conn_worker (count window msg_size : Z) : Worker conn_state cevent (ConnResult * list ccall) :=
  {| w_init := CStart;
     w_step t flag e s := Ok (RunConnection_step count window msg_size (ans t) (rtts t) s (seen_flag flag e));
     w_status := conn_status |}.

(** [PrintStats(v, wall_sec)] of this program prints the throughput too. *)
Definition PrintStats_wall (v : list Z) : outcome (option (Stats * option double)) :=
  s ← PrintStats v;
  Ok (match s with Some s => Some (s, throughput (zlen v) wall_ns) | None => None end).

(** After the joins. *)
Definition mt_multiplex_report (count nconn window msg_size : Z) (rs : list (ConnResult * list ccall))
  : outcome MtReport :=
  '(errors, s, p99s) ←
    report_with count PrintStats_wall ((fun r => mkResult (conn_latencies r.1) (conn_error r.1)) <$> rs);
  Ok (mkReport (mt_multiplex_bench_banner count nconn window msg_size) errors (fst <$> s)
        (s ≫= snd) p99s (snd <$> rs)).

Definition mt_multiplex_bench (argv : list string) (es : list (fevent cevent)) : mt_process conn_state MtReport :=
  mt_start
    ('(count, nconn, window, msg_size) ← mt_multiplex_bench_args argv;
     _ ← make_results nconn; _ ← reserve nconn;
     Ok (count, nconn, window, msg_size))
    (fun '(count, nconn, window, msg_size) =>
       finish (Wk := conn_worker count window msg_size) (mt_multiplex_report count nconn window msg_size)
         (fleet_run (Wk := conn_worker count window msg_size) (Z.to_nat nconn) fleet_init es)).

End MtMultiplexBench.

(** * What the programs need *)

Lemma make_results_ok n : 0 <= n < 2 ^ 31 -> make_results n = Ok tt.
Proof.
  intros Hn. unfold make_results, VECTOR_MAX. rewrite u64_small by (unfold SIZE_MOD; lia).
  rewrite (proj2 (Z.ltb_ge _ _)); [done|]. assert (2 ^ 31 <= (2 ^ 63 - 1) / 56) by done. lia.
Qed.

Lemma make_results_negative n : - 2 ^ 31 <= n < 0 -> make_results n = Throw "std::length_error".
Proof.
  intros Hn. unfold make_results, VECTOR_MAX. rewrite u64_negative by lia.
  rewrite (proj2 (Z.ltb_lt _ _)); [done|]. assert ((2 ^ 63 - 1) / 56 < 2 ^ 62) by done. lia.
Qed.

(** The values on the command line are [int]s. *)
Lemma mt_args_int argv count msg_size nthreads :
  latency_bench_mt_args argv = Ok (count, msg_size, nthreads) ->
  (- 2 ^ 31 <= count < 2 ^ 31) /\ (- 2 ^ 31 <= msg_size < 2 ^ 31) /\ (- 2 ^ 31 <= nthreads < 2 ^ 31).
Proof.
  unfold latency_bench_mt_args. destruct (arg argv 1 10000) as [a| |] eqn:Ea; cbn [mbind outcome_bind]; [|done..].
  destruct (arg argv 2 64) as [b| |] eqn:Eb; cbn [mbind outcome_bind]; [|done..].
  destruct (arg argv 3 4) as [c| |] eqn:Ec; cbn [mbind outcome_bind]; [|done..]. intros [= <- <- <-].
  split_and!; by eapply arg_int; [|eassumption].
Qed.

Lemma mt_multiplex_args_int argv count nconn window msg_size :
  mt_multiplex_bench_args argv = Ok (count, nconn, window, msg_size) ->
  (- 2 ^ 31 <= count < 2 ^ 31) /\ (- 2 ^ 31 <= nconn < 2 ^ 31) /\ (- 2 ^ 31 <= window < 2 ^ 31) /\
  (- 2 ^ 31 <= msg_size < 2 ^ 31).
Proof.
  unfold mt_multiplex_bench_args. destruct (arg argv 1 50000) as [a| |] eqn:Ea; cbn [mbind outcome_bind]; [|done..].
  destruct (arg argv 2 8) as [b| |] eqn:Eb; cbn [mbind outcome_bind]; [|done..].
  destruct (arg argv 3 64) as [c| |] eqn:Ec; cbn [mbind outcome_bind]; [|done..].
  destruct (arg argv 4 64) as [d| |] eqn:Ed; cbn [mbind outcome_bind]; [|done..]. intros [= <- <- <- <-].
  split_and!; by eapply arg_int; [|eassumption].
Qed.

(** A process in order is running or has a report. *)
Lemma finish_ok {W Ev R} {Wk : Worker W Ev R} {WL : WorkerLaws W Ev R} {Rep} n I (report : list R -> outcome Rep) f :
  fleet_ok n I f ->
  match finish report (Ok f) with
  | MtRunning f' => f' = f /\ f_pc f <> MJoined
  | r => exists rs, fleet_results f = Some rs /\ length rs = n /\
           Forall2 (fun w r => w_status w = WReturned r) (f_workers f) rs /\
           r = match report rs with Ok rep => MtExit rep | Throw why => MtTerminate why | UB why => MtUndefined why end
  end.
Proof.
  intros Hf. unfold finish. pose proof (fo_pc _ _ _ Hf) as Hp. destruct (f_pc f) eqn:Ep; try done.
  destruct (fleet_joined n I f Hf Ep) as (rs & Hrs & Hl & Hall). rewrite Hrs. cbn [or_ub mbind outcome_bind].
  destruct (report rs) eqn:Er; exists rs; by rewrite Er.
Qed.

(** For threads that keep to their contract: the process is running and can go
    on, or has made its report; and the steps that change something are
    bounded. *)
Lemma process_outcome {W Ev R} {Wk : Worker W Ev R} {WL : WorkerLaws W Ev R} n {WS : WorkerSpec W Ev R n} {Rep}
    (report : list R -> outcome Rep) (Q : Rep -> Prop) es :
  fleet_valid_run n fleet_init es ->
  (forall f rs, fleet_ok n ws_inv f -> Forall2 (fun w r => w_status w = WReturned r) (f_workers f) rs ->
   length rs = n -> exists rep, report rs = Ok rep /\ Q rep) ->
  match finish report (fleet_run n fleet_init es) with
  | MtRunning f => exists e f', fleet_valid n f e /\ fleet_step n f e = Ok f' /\ f' <> f
  | MtExit rep => Q rep
  | _ => False
  end /\
  (effective n fleet_init es -> (length es <= n * (ws_left (w_init (Worker := Wk)) + 1) + n + 3)%nat).
Proof.
  intros Hv Hrep. destruct (valid_run_ok n es fleet_init (fleet_init_ok n _) Hv) as (f & -> & Hf & Hleft).
  rewrite <- (fleet_left_init n). split; [|intros He; specialize (Hleft He); lia].
  pose proof (finish_ok n _ report f Hf) as Hfin. destruct (finish report (Ok f)) as [rep|why|f'|why].
  3:{ destruct Hfin as [-> Hpc]. by destruct (fleet_never_stuck n f Hf). }
  all: destruct Hfin as (rs & _ & Hl & Hst & E); destruct (Hrep f rs Hf Hst Hl) as (rep' & E' & HQ);
    rewrite E' in *; try done.
  by injection E as ->.
Qed.

(** ** The threads of [latency_bench_mt] *)

Section MtWorkers.
Context {HO : HostOrder} {CP : ClientProtobuf} (envs : nat -> worker_env) (count msg_size : Z) (n : nat).

Abbreviation MW := (mt_worker envs count msg_size).

#[local] Instance mt_worker_laws : WorkerLaws wstate unit (ThreadResult * list ccall) (Wk := MW).
Proof.
  constructor. intros t flag e w r. cbn. destruct w as [| | |[r' calls| |why]]; try done.
Qed.

(** Every peer answers, so that the functions return when they are run alone. *)
Context (Hall : forall t, (t < n)%nat -> exists r calls, WorkerThread count msg_size (envs t) = Finished r calls).

Lemma worker_step_or env flag w :
  worker_step count msg_size env flag w = w \/
  (steps_left count (worker_step count msg_size env flag w) < steps_left count w)%nat.
Proof.
  destruct w as [|p fd calls|i p fd calls c lat|e]; cbn [worker_step]; [right| | |by left].
  - destruct (ConnectTcp _) as [[fd|e|why] calls]; cbn [mbind outcome_bind]; [|cbn; lia..].
    destruct (make_payload _); cbn [mbind outcome_bind]; [|cbn; lia..]. destruct (reserve _); cbn; lia.
  - destruct flag; [right; cbn; lia|by left].
  - destruct (Z.ltb_spec i count); [|right; cbn; lia].
    destruct (exchange _ _ _); [right; cbn [steps_left]; lia|by left|right; cbn; lia..].
Qed.

(** Wherever a thread is, it is on its way to the result of its function. *)
Definition mt_inv (t : nat) (w : wstate) : Prop :=
  (t < n)%nat /\ rest_of count msg_size (envs t) w = WorkerThread count msg_size (envs t).

Lemma mt_inv_no_crash t w why : mt_inv t w -> w <> WEnd (Crashed why).
Proof. intros [Ht Hr] ->. destruct (Hall t Ht) as (r & calls & E). rewrite E in Hr. done. Qed.

Lemma mt_inv_step t flag w : mt_inv t w -> mt_inv t (worker_step count msg_size (envs t) flag w).
Proof. intros [Ht Hr]. split; [done|]. by rewrite worker_step_rest. Qed.

Lemma mt_worker_step_eq t flag u w :
  mt_inv t w -> w_step (Worker := MW) t flag u w
                = Ok (worker_step count msg_size (envs t) flag w).
Proof.
  intros Hw. apply (mt_inv_step t flag) in Hw. cbn.
  destruct (worker_step _ _ _ _ _) as [| | |[r calls| |why]] eqn:E; try done.
  by apply (mt_inv_no_crash t _ why) in Hw.
Qed.

#[local] Instance mt_worker_spec :
  WorkerSpec wstate unit (ThreadResult * list ccall) (Wk := MW) n.
Proof.
  refine {| ws_inv := mt_inv; ws_valid := fun _ _ _ _ => True; ws_left := steps_left count |}.
  - done.
  - intros t w why. cbn. by destruct w as [| | |[]].
  - intros t flag u w Hw _. rewrite mt_worker_step_eq by done. eexists. split; [done|].
    split; [by apply mt_inv_step|]. apply worker_step_or.
  - intros t w Hw Hr. exists tt, (worker_step count msg_size (envs t) true w). split; [done|].
    split; [by apply mt_worker_step_eq|]. intros E. destruct Hw as [Ht Hrest].
    destruct (Hall t Ht) as (r & calls & Er).
    assert (Hp : (steps_left count (worker_step count msg_size (envs t) true w) <= steps_left count w - 1)%nat)
      by (apply worker_step_progress; congruence).
    rewrite E in Hp. destruct w as [|p fd cs|i p fd cs c lat|e]; cbn [steps_left] in Hp; [lia..|].
    destruct e as [r' cs| |why]; [done| |]; cbn in Hrest; congruence.
Defined.

Lemma Forall2_seq_impl {A} (P Q : nat -> A -> Prop) m (l : list A) :
  Forall2 P (seq 0 m) l -> (forall t x, (t < m)%nat -> P t x -> Q t x) -> Forall2 Q (seq 0 m) l.
Proof.
  intros Hp Hpq. apply Forall2_same_length_lookup_2; [by eapply Forall2_length|]. intros t y x Hy Hx.
  pose proof (Forall2_lookup_lr _ _ _ _ _ _ Hp Hy Hx). apply lookup_seq in Hy as [-> Hy]. auto.
Qed.

Lemma finished_result :
  (forall t, (t < n)%nat -> exists calls,
     WorkerThread count msg_size (envs t) = Finished (mkResult (rtt (envs t) <$> seqZ 0 count) "") calls /\
     fd_open (a_fd (we_answers (envs t))) calls = false) ->
  forall t (r : ThreadResult * list ccall), (t < n)%nat ->
    WorkerThread count msg_size (envs t) = Finished r.1 r.2 ->
    r.1 = mkResult (rtt (envs t) <$> seqZ 0 count) "" /\ fd_open (a_fd (we_answers (envs t))) r.2 = false.
Proof. intros Hres t r Ht Er. destruct (Hres t Ht) as (calls & E & Hcl). rewrite E in Er. by injection Er as <- <-. Qed.

(** What is joined are the results of the functions run alone. *)
Lemma mt_results f rs :
  fleet_ok (Wk := MW) n mt_inv f -> Forall2 (fun w r => w_status (Worker := MW) w = WReturned r) (f_workers f) rs ->
  length rs = n ->
  Forall2 (fun t r => WorkerThread count msg_size (envs t) = Finished r.1 r.2) (seq 0 n) rs.
Proof.
  intros Hf Hrs Hn. apply Forall2_same_length_lookup_2; [by rewrite length_seq|].
  intros t x r Hx Hr. apply lookup_seq in Hx as [-> Ht]. cbn [Nat.add].
  destruct (lookup_lt_is_Some_2 (f_workers f) t) as [w Hw].
  { rewrite (Forall2_length _ _ _ Hrs). by eapply lookup_lt_Some. }
  pose proof (Forall2_lookup_lr _ _ _ _ _ _ Hrs Hw Hr) as Es. cbn in Es.
  destruct (fo_each _ _ _ Hf t w Hw) as [_ Hrest]. rewrite <- Hrest.
  destruct w as [| | |[r' calls| |why]]; try done. by injection Es as <-.
Qed.

End MtWorkers.

(** ** The threads of [mt_multiplex_bench] *)

Section ConnWorkers.
Context (ans : nat -> ConnectAnswers) (rtts : nat -> Z -> Z) (count window msg_size : Z) (n : nat).

Abbreviation CW := (conn_worker ans rtts count window msg_size).

#[local] Instance conn_worker_laws : WorkerLaws conn_state cevent (ConnResult * list ccall) (Wk := CW).
Proof. constructor. intros t flag e w r. cbn. destruct w; try done. by destruct e. Qed.

(** Every thread connects, and nothing it needs is out of range. *)
Context (Hcount : count < 2 ^ 31) (Hwindow : 0 < window) (Hmsg : 0 <= msg_size < 2 ^ 31).
Context (Hsetup : forall t, (t < n)%nat -> exists fd calls, conn_setup count window (ans t) = (Ok fd, calls)).

Definition conn_inv (t : nat) (s : conn_state) : Prop :=
  (t < n)%nat /\ conn_ok count window (ans t) (rtts t) True s /\ s <> CTerminated.

(** The peer answers each request once, and nothing fails. *)
Definition conn_valid (t : nat) (flag : bool) (e : cevent) (s : conn_state) : Prop :=
  honest_event s (seen_flag flag e) = true /\ failing s (seen_flag flag e) = false.

Lemma conn_step_inv t e s :
  conn_inv t s -> honest_event s e = true -> failing s e = false ->
  conn_inv t (RunConnection_step count window msg_size (ans t) (rtts t) s e).
Proof.
  intros (Ht & Hs & Hne) Hh Hf. split; [done|]. split.
  - destruct e as [flag ok|x]; cbn [RunConnection_step].
    + by apply outer_step_ok.
    + by apply rx_step_ok.
  - destruct (Hsetup t Ht) as (fd & calls & Es). destruct (make_payload_ok msg_size Hmsg) as [p Hp].
    destruct s as [|? ? m|? ? m|r c|]; destruct e as [flag ok|x]; cbn; try done.
    + by rewrite Es.
    + rewrite Hp. by destruct flag.
    + by destruct (tx m); [..|destruct (rx m)].
Qed.

Lemma conn_can_step t s :
  conn_inv t s -> conn_status s = WRunning ->
  exists e s', conn_valid t true e s /\
    w_step (Worker := CW) t true e s = Ok s' /\ s' <> s.
Proof.
  intros (Ht & Hs & Hne) Hr. destruct (MtMultiplex.never_stuck count window msg_size (ans t) (rtts t) s Hwindow Hs) as [He|(e & Hh & Hf & Hd)].
  { by destruct s. }
  destruct e as [flag ok|x]; [|by exists (Inner x); eexists].
  exists (Outer true true). eexists. split; [by split; destruct s; cbn|]. split; [done|].
  destruct (Hsetup t Ht) as (fd & calls & Es). destruct (make_payload_ok msg_size Hmsg) as [p Hp].
  destruct s as [|fd' calls' m|fd' calls' m|r c|]; cbn [seen_flag RunConnection_step outer_step]; rewrite ?Es, ?Hp; try done.
  cbn in Hd, Hf. destruct (decide (tx m = SSend)) as [Et|Et].
  - rewrite Et. cbn. unfold sender_step. rewrite Et. intros [= E]. apply (f_equal tx) in E. by rewrite Et in E.
  - assert (Hok : sender_step count window true m = sender_step count window ok m)
        by (unfold sender_step; by destruct (tx m)).
      by rewrite Hok.
Qed.

#[local] Instance conn_worker_spec : WorkerSpec conn_state cevent (ConnResult * list ccall) (Wk := CW) n.
Proof.
  refine {| ws_inv := conn_inv; ws_valid := conn_valid; ws_left s := Z.to_nat (conn_left count s) |}.
  - intros t Ht. by split_and!.
  - intros t s why (_ & _ & Hne). by destruct s.
  - intros t flag e s Hs [Hh Hf]. pose proof (conn_step_inv t _ s Hs Hh Hf) as Hs'.
    eexists. split; [done|]. split; [done|]. destruct Hs as (_ & Hs & _), Hs' as (_ & Hs' & _).
    destruct (conn_step_left count window msg_size (ans t) (rtts t) True s (seen_flag flag e) Hs) as [E|Hl]; [by left|right].
    pose proof (conn_left_pos count window (ans t) (rtts t) True _ Hs'). lia.
  - intros t s Hs Hr. apply conn_can_step; [done|]. unfold returned in Hr. cbn in Hr.
    destruct Hs as (_ & _ & Hne). by destruct s.
Defined.

(** What is joined has all the samples. *)
Lemma conn_results f rs :
  fleet_ok (Wk := CW) n conn_inv f -> Forall2 (fun w r => w_status (Worker := CW) w = WReturned r) (f_workers f) rs ->
  length rs = n ->
  Forall2 (fun t r => (conn_error r.1 = ""%string /\ conn_latencies r.1 ≡ₚ rtts t <$> seqZ 0 (Z.max 0 count)) /\
             fd_open (a_fd (ans t)) r.2 = false) (seq 0 n) rs.
Proof.
  intros Hf Hrs Hn. apply Forall2_same_length_lookup_2; [by rewrite length_seq|].
  intros t x r Hx Hr. apply lookup_seq in Hx as [-> Ht]. cbn [Nat.add].
  destruct (lookup_lt_is_Some_2 (f_workers f) t) as [w Hw].
  { rewrite (Forall2_length _ _ _ Hrs). by eapply lookup_lt_Some. }
  pose proof (Forall2_lookup_lr _ _ _ _ _ _ Hrs Hw Hr) as Es. cbn in Es.
  destruct (fo_each _ _ _ Hf t w Hw) as (_ & Hok & _). destruct w as [| | |r' calls|]; try done. injection Es as <-.
  cbn [fst snd]. destruct Hok as [(e & E & _)|(E1 & E2 & m & Hp & Er & El)].
  - destruct (Hsetup t Ht) as (fd & calls' & Es). congruence.
  - split; [|done]. split; [done|]. by rewrite El, (all_answered count window m Hp Er).
Qed.

End ConnWorkers.

(** * Properties *)

(** What a report says when thread [t] has the latencies [f t] of all its
    [count] requests: no error, the statistics of exactly the samples of all
    threads, the throughput up to a relative error of [2^-51], and for each
    thread the order statistic of its own samples. *)
Definition exact_report (count wall_ns : Z) (fs : list (Z -> Z)) (rep : MtReport) : Prop :=
  rp_errors rep = [] /\
  exists s x, rp_stats rep = Some s /\ rp_rate rep = Some x /\
    stats_of (fs ≫= fun f => f <$> seqZ 0 count) s /\ st_total s = count * zlen fs /\
    near x (count * zlen fs * 1000000000) wall_ns /\
    Forall2 (fun f p => exists q, p = Some q /\ of_rank (f <$> seqZ 0 count) (990 * count / 1000) q)
      fs (rp_p99s rep).

Lemma bind_fmap_in {A B C} (g : A -> B) (h : B -> list C) (l : list A) :
  (g <$> l) ≫= h = l ≫= fun a => h (g a).
Proof. induction l as [|a l IH]; [done|]. cbn [fmap list_fmap]. by rewrite !bind_cons, IH. Qed.

Lemma merged_zlen rs : zlen (merge_results rs) = zlen (all_samples rs).
Proof. apply sorted_zlen. Qed.

(** The number of samples that were merged. *)
Lemma merged_count count (fs : list (Z -> Z)) rs :
  0 <= count -> Forall2 (fun f r => latencies_us r ≡ₚ f <$> seqZ 0 count) fs rs ->
  zlen (merge_results rs) = count * zlen fs.
Proof.
  intros Hc Hrs. rewrite merged_zlen. unfold all_samples. induction Hrs as [|f r fs rs Hr _ IH];
    [change (0 = count * 0); lia|].
  rewrite bind_cons, zlen_app, zlen_cons, IH. unfold zlen at 1. rewrite Hr, length_fmap, length_seqZ. lia.
Qed.

Lemma always_valid {HO : HostOrder} {CP : ClientProtobuf} envs count msg_size n Hall es : forall f,
  FMain false ∉ es ->
  fleet_valid_run (Wk := mt_worker envs count msg_size) (WS := mt_worker_spec envs count msg_size n Hall) n f es.
Proof.
  induction es as [|e es IH]; intros f He; [done|]. apply not_elem_of_cons in He as [Hne He]. cbn [fleet_valid_run]. split.
  - destruct e as [[]|t e]; [done|by destruct Hne|]. by intros w _.
  - destruct (fleet_step _ _ _); [by apply IH|done..].
Qed.

Lemma latency_bench_mt_report_ok envs wall_ns count msg_size nthreads rs :
  0 < count -> 0 < nthreads < 2 ^ 31 -> count * nthreads < 2 ^ 31 -> 0 < wall_ns < 2 ^ 53 ->
  (forall t i, 0 <= rtt (envs t) i < 2 ^ 32) ->
  Forall2 (fun t r => r.1 = mkResult (rtt (envs t) <$> seqZ 0 count) "" /\
             fd_open (a_fd (we_answers (envs t))) r.2 = false) (seq 0 (Z.to_nat nthreads)) rs ->
  exists rep, latency_bench_mt_report wall_ns count msg_size nthreads rs = Ok rep /\
    exact_report count wall_ns ((fun t => rtt (envs t)) <$> seq 0 (Z.to_nat nthreads)) rep /\
    Forall2 (fun t calls => fd_open (a_fd (we_answers (envs t))) calls = false)
      (seq 0 (Z.to_nat nthreads)) (rp_calls rep).
Proof.
  intros Hc Hnt Htot Hw Hrtt Hrs. set (n := Z.to_nat nthreads) in *.
  assert (Hfst : fst <$> rs = (fun env => mkResult (rtt env <$> seqZ 0 count) "") <$> (envs <$> seq 0 n))
    by (clear -Hrs; induction Hrs as [|t r ts rs [Hr _] _ IH]; [done|]; cbn; by rewrite Hr, IH).
  assert (Hz : zlen (envs <$> seq 0 n) = nthreads) by (unfold zlen; rewrite length_fmap, length_seq; unfold n; lia).
  destruct (served_report count (envs <$> seq 0 n) (fst <$> rs)) as (s & p99s & E & Hs & Htl & Hp99);
    [nia|intros E0; rewrite E0, zlen_nil in Hz; lia|by rewrite Hz
    |by apply Forall_fmap, Forall_forall; intros t _ i; apply Hrtt|done|].
  assert (Hcount : zlen (merge_results (fst <$> rs)) = count * nthreads).
  { rewrite (merged_count count (rtt <$> (envs <$> seq 0 n))); [|lia|].
    - rewrite <- Hz. unfold zlen. by rewrite !length_fmap.
    - rewrite Hfst, Forall2_fmap. apply Forall_Forall2_diag, Forall_forall. by intros. }
  destruct (throughput_near (count * nthreads) wall_ns) as (x & Ex & Hx); [nia|done|].
  unfold latency_bench_mt_report. rewrite E. cbn [mbind outcome_bind]. eexists. split; [done|]. rewrite Hcount. split.
  - split; [done|]. exists s, x. cbn [rp_stats rp_rate rp_p99s].
    assert (Hz' : zlen ((fun t => rtt (envs t)) <$> seq 0 n) = nthreads) by (rewrite <- Hz; unfold zlen; by rewrite !length_fmap).
    rewrite Hz'. rewrite Hz in Htl. split_and!; try done.
    + rewrite bind_fmap_in. by rewrite bind_fmap_in in Hs.
    + rewrite Forall2_fmap_l. by rewrite Forall2_fmap_l in Hp99.
  - cbn [rp_calls]. rewrite Forall2_fmap_r. eapply Forall2_impl; [exact Hrs|]. by intros t r [_ ?].
Qed.

(** C27: [latency_bench_mt] as a whole, for every command line and every
    interleaving of [main] and the threads, if the peers answer all requests and
    threads can be created.  The process is never stuck: while it runs, [main]
    or the thread it waits for can make a step that changes something, and there
    are at most [nthreads * (count + 5) + 3] of these.  When it exits, the report
    is exact, whatever the schedule, and every connection is closed. *)
Theorem latency_bench_mt_outcome (HO : HostOrder) (CP : ClientProtobuf) envs wall_ns argv es count msg_size nthreads :
  latency_bench_mt_args argv = Ok (count, msg_size, nthreads) ->
  0 < count -> 0 <= msg_size -> 0 < nthreads -> count * nthreads < 2 ^ 31 ->
  zlen (SerializeRequest (xs msg_size)) < 2 ^ 32 ->
  (forall t, (t < Z.to_nat nthreads)%nat ->
   exists resps rest extra, served (envs t) resps rest extra /\ zlen resps = count) ->
  (forall t i, 0 <= rtt (envs t) i < 2 ^ 32) -> 0 < wall_ns < 2 ^ 53 -> FMain false ∉ es ->
  let P := mt_worker envs count msg_size in
  let n := Z.to_nat nthreads in
  match latency_bench_mt envs wall_ns argv es with
  | MtRunning f => exists e f', e <> FMain false /\ fleet_step (Wk := P) n f e = Ok f' /\ f' <> f
  | MtExit rep =>
      exact_report count wall_ns ((fun t => rtt (envs t)) <$> seq 0 n) rep /\
      Forall2 (fun t calls => fd_open (a_fd (we_answers (envs t))) calls = false) (seq 0 n) (rp_calls rep)
  | _ => False
  end /\
  (effective (Wk := P) n fleet_init es -> Z.of_nat (length es) <= nthreads * (count + 5) + 3).
Proof.
  intros Ha Hc Hm Hnt Htot Hsz Hsv Hrtt Hw Hne. cbn zeta. set (n := Z.to_nat nthreads) in *.
  destruct (mt_args_int _ _ _ _ Ha) as (Bc & Bm & Bn).
  assert (Hres : forall t, (t < n)%nat -> exists calls,
            WorkerThread count msg_size (envs t) = Finished (mkResult (rtt (envs t) <$> seqZ 0 count) "") calls /\
            fd_open (a_fd (we_answers (envs t))) calls = false).
  { intros t Ht. destruct (Hsv t Ht) as (resps & rest & extra & Hs & Hl).
    apply (served_result count msg_size (envs t) resps rest extra Hs); [lia|lia|done|done]. }
  assert (Hall : forall t, (t < n)%nat -> exists r calls, WorkerThread count msg_size (envs t) = Finished r calls)
    by (intros t Ht; destruct (Hres t Ht) as (calls & -> & _); eauto).
  unfold latency_bench_mt, mt_start. rewrite Ha. cbn [mbind outcome_bind].
  rewrite (make_results_ok nthreads), (reserve_ok nthreads) by lia. cbn [mbind outcome_bind]. fold n.
  destruct (process_outcome (WL := mt_worker_laws envs count msg_size) n
              (WS := mt_worker_spec envs count msg_size n Hall) (latency_bench_mt_report wall_ns count msg_size nthreads)
              _ es (always_valid envs count msg_size n Hall es _ Hne)
              (fun f rs Hf Hst Hl => latency_bench_mt_report_ok envs wall_ns count msg_size nthreads rs Hc
                 (conj Hnt (proj2 Bn)) Htot Hw Hrtt
                 (Forall2_seq_impl _ _ _ _ (mt_results envs count msg_size n f rs Hf Hst Hl)
                    (finished_result envs count msg_size n Hres)))) as [Hout Hbound].
  split.
  - destruct (finish _ _); [done..| |done]. destruct Hout as (e & f' & Hv & E & Hd). exists e, f'. split; [|done]. by intros ->.
  - intros He. specialize (Hbound He). cbn [ws_left mt_worker_spec w_init mt_worker steps_left] in Hbound. unfold n in *. nia.
Qed.

#[local] Existing Instance Client.plain_requests.
#[local] Existing Instance Echo.little.

(** Two threads with one request each: both are created and connect; the flag is
    raised; the second is done first. *)
Definition two_workers (t : nat) : worker_env := match t with O => env_closed | _ => env_pieces end.
Definition mt_turns : list (fevent unit) :=
  [FMain true; FWorker 0 tt; FWorker 1 tt; FMain true; FMain true; FWorker 1 tt; FMain true] ++
  replicate 3 (FWorker 1 tt) ++ replicate 3 (FWorker 0 tt) ++ replicate 3 (FMain true).

Lemma latency_bench_mt_outcome_witness :
  (exists rep, latency_bench_mt two_workers 2000000 ["latency_bench_mt"; "1"; "2"; "2"]%string mt_turns = MtExit rep) /\
  let P := mt_worker two_workers 1 2 in
  match latency_bench_mt two_workers 2000000 ["latency_bench_mt"; "1"; "2"; "2"]%string mt_turns with
  | MtRunning f => exists e f', e <> FMain false /\ fleet_step (Wk := P) 2 f e = Ok f' /\ f' <> f
  | MtExit rep =>
      exact_report 1 2000000 ((fun t => rtt (two_workers t)) <$> seq 0 2) rep /\
      Forall2 (fun t calls => fd_open (a_fd (we_answers (two_workers t))) calls = false) (seq 0 2) (rp_calls rep)
  | _ => False
  end /\
  (effective (Wk := P) 2 fleet_init mt_turns -> Z.of_nat (length mt_turns) <= 2 * (1 + 5) + 3).
Proof.
  split; [eexists; vm_compute; reflexivity|].
  apply (latency_bench_mt_outcome little plain_requests two_workers 2000000
           ["latency_bench_mt"; "1"; "2"; "2"]%string mt_turns 1 2 2).
  - vm_compute. reflexivity.
  - lia.
  - lia.
  - lia.
  - lia.
  - vm_compute. reflexivity.
  - intros [|[|t]] Ht; [| |change (Z.to_nat 2) with 2%nat in Ht; lia]; eexists _, _, _.
    + split; [exact env_closed_served|reflexivity].
    + split; [exact env_pieces_served|reflexivity].
  - intros [|t] i; cbn [rtt two_workers env_closed env_pieces]; pose proof (Z.mod_pos_bound i 7); lia.
  - lia.
  - intros H. repeat (apply elem_of_cons in H as [?|H]; [done|]). by apply elem_of_nil in H.
Defined.

(** ** [mt_multiplex_bench] *)

Lemma report_wall wall_ns count rs errors s p99s :
  report_with count PrintStats rs = Ok (errors, s, p99s) ->
  report_with count (PrintStats_wall wall_ns) rs
  = Ok (errors, match s with Some s => Some (s, throughput (zlen (merge_results rs)) wall_ns) | None => None end, p99s).
Proof.
  unfold report_with, PrintStats_wall. destruct (reserve _); cbn [mbind outcome_bind]; [|done..].
  destruct (PrintStats _); cbn [mbind outcome_bind]; [|done..].
  destruct (foldr _ _ _); cbn [mbind outcome_bind]; [|done..]. by intros [= <- <- <-].
Qed.

Lemma mt_multiplex_report_ok ans rtts wall_ns count nconn window msg_size rs :
  0 < count -> 0 < nconn < 2 ^ 31 -> count * nconn < 2 ^ 31 -> 0 < wall_ns < 2 ^ 53 ->
  (forall t i, 0 <= rtts t i < 2 ^ 32) ->
  Forall2 (fun t r => (conn_error r.1 = ""%string /\ conn_latencies r.1 ≡ₚ rtts t <$> seqZ 0 (Z.max 0 count)) /\
             fd_open (a_fd (ans t)) r.2 = false) (seq 0 (Z.to_nat nconn)) rs ->
  exists rep, mt_multiplex_report wall_ns count nconn window msg_size rs = Ok rep /\
    exact_report count wall_ns (rtts <$> seq 0 (Z.to_nat nconn)) rep /\
    Forall2 (fun t calls => fd_open (a_fd (ans t)) calls = false) (seq 0 (Z.to_nat nconn)) (rp_calls rep).
Proof.
  intros Hc Hnt Htot Hw Hrtt Hrs. set (n := Z.to_nat nconn) in *. rewrite Z.max_r in Hrs by lia.
  assert (Hz : zlen (seq 0 n) = nconn) by (unfold zlen; rewrite length_seq; unfold n; lia).
  destruct (conn_report_ok rtts count (seq 0 n) (fst <$> rs)) as (s & p99s & E & Hs & Htl & Hp99);
    [nia|intros E0; rewrite E0, zlen_nil in Hz; lia|by rewrite Hz|by apply Forall_forall; intros t _ i; apply Hrtt| |].
  { rewrite Forall2_fmap_r. eapply Forall2_impl; [exact Hrs|]. by intros t r [? _]. }
  unfold conn_report in E. rewrite <- list_fmap_compose in E. apply (report_wall wall_ns) in E.
  unfold mt_multiplex_report, compose in *. rewrite E. cbn [mbind outcome_bind]. eexists. split; [done|].
  assert (Hz' : zlen (rtts <$> seq 0 n) = nconn) by (rewrite <- Hz; unfold zlen; by rewrite length_fmap).
  assert (Hcount : zlen (merge_results ((fun r => mkResult (conn_latencies r.1) (conn_error r.1)) <$> rs)) = count * nconn).
  { rewrite (merged_count count (rtts <$> seq 0 n)); [by rewrite Hz'|lia|].
    rewrite Forall2_fmap. eapply Forall2_impl; [exact Hrs|]. by intros t r [[_ ?] _]. }
  destruct (throughput_near (count * nconn) wall_ns) as (x & Ex & Hx); [nia|done|]. split.
  - split; [done|]. exists s, x. cbn [rp_stats rp_rate rp_p99s fmap option_fmap option_map fst snd mbind option_bind].
    rewrite Hz', Hcount. rewrite Hz in Htl. split_and!; try done.
    + by rewrite bind_fmap_in.
    + by rewrite Forall2_fmap_l.
  - cbn [rp_calls]. rewrite Forall2_fmap_r. eapply Forall2_impl; [exact Hrs|]. by intros t r [_ ?].
Qed.

(** Threads can be created; the peer of each connection answers each request
    once, and nothing fails. *)
Definition calm (f : Fleet conn_state) (e : fevent cevent) : Prop :=
  match e with
  | FMain created => created = true
  | FWorker t e => forall s, f_workers f !! t = Some s -> conn_valid t (f_flag f) e s
  end.

Fixpoint calm_run (step : Fleet conn_state -> fevent cevent -> outcome (Fleet conn_state))
    (f : Fleet conn_state) (es : list (fevent cevent)) : Prop :=
  match es with
  | [] => True
  | e :: es => calm f e /\ match step f e with Ok f => calm_run step f es | _ => True end
  end.

Lemma calm_run_valid ans rtts count window msg_size n Hc Hw Hm Hs es : forall f,
  calm_run (fleet_step (Wk := conn_worker ans rtts count window msg_size) n) f es ->
  fleet_valid_run n (WS := conn_worker_spec ans rtts count window msg_size n Hc Hw Hm Hs) f es.
Proof.
  induction es as [|e es IH]; intros f; [done|]. cbn [calm_run fleet_valid_run]. intros [He Hes]. split; [done|].
  destruct (fleet_step n f e); [by apply IH|done..].
Qed.

(** C24: [mt_multiplex_bench] as a whole, for every command line and every
    interleaving of [main] and the two threads of every connection, if each
    connection can be set up, the peers answer each request once and nothing
    fails.  The process is never stuck: while it runs some step changes
    something, the responses of the peers included, and there are at most
    [nconn * (8 * count + 7) + 3] of these.  When it exits, the report is exact,
    in whatever order responses arrived, and every connection is closed. *)
Theorem mt_multiplex_bench_outcome ans rtts wall_ns argv es count nconn window msg_size :
  mt_multiplex_bench_args argv = Ok (count, nconn, window, msg_size) ->
  0 < count -> 0 < nconn -> 0 < window -> 0 <= msg_size -> count * nconn < 2 ^ 31 ->
  (forall t, (t < Z.to_nat nconn)%nat -> exists fd calls, conn_setup count window (ans t) = (Ok fd, calls)) ->
  (forall t i, 0 <= rtts t i < 2 ^ 32) -> 0 < wall_ns < 2 ^ 53 ->
  let P := conn_worker ans rtts count window msg_size in
  let n := Z.to_nat nconn in
  calm_run (fleet_step (Wk := P) n) fleet_init es ->
  match mt_multiplex_bench ans rtts wall_ns argv es with
  | MtRunning f => exists e f', calm f e /\ fleet_step (Wk := P) n f e = Ok f' /\ f' <> f
  | MtExit rep =>
      exact_report count wall_ns (rtts <$> seq 0 n) rep /\
      Forall2 (fun t calls => fd_open (a_fd (ans t)) calls = false) (seq 0 n) (rp_calls rep)
  | _ => False
  end /\
  (effective (Wk := P) n fleet_init es -> Z.of_nat (length es) <= nconn * (8 * count + 7) + 3).
Proof.
  intros Ha Hc Hn Hw Hm Htot Hsetup Hrtt Hns. cbn zeta. intros Hv.
  destruct (mt_multiplex_args_int _ _ _ _ _ Ha) as (Bc & Bn & Bw & Bm).
  pose proof (proj2 Bc) as Bc2. assert (Bm2 : 0 <= msg_size < 2 ^ 31) by lia.
  unfold mt_multiplex_bench, mt_start. rewrite Ha. cbn [mbind outcome_bind].
  rewrite (make_results_ok nconn), (reserve_ok nconn) by lia. cbn [mbind outcome_bind].
  set (n := Z.to_nat nconn) in *.
  destruct (process_outcome (WL := conn_worker_laws ans rtts count window msg_size) n
              (WS := conn_worker_spec ans rtts count window msg_size n Bc2 Hw Bm2 Hsetup)
              (mt_multiplex_report wall_ns count nconn window msg_size) _ es
              (calm_run_valid ans rtts count window msg_size n Bc2 Hw Bm2 Hsetup es _ Hv)
              (fun f rs Hf Hst Hl => mt_multiplex_report_ok ans rtts wall_ns count nconn window msg_size rs Hc
                 (conj Hn (proj2 Bn)) Htot Hns Hrtt
                 (conn_results ans rtts count window msg_size n Hsetup f rs Hf Hst Hl))) as [Hout Hbound].
  split; [done|]. intros He. specialize (Hbound He).
  cbn [ws_left conn_worker_spec w_init conn_worker conn_left] in Hbound. unfold n in *. nia.
Qed.

(** One connection with two requests in flight at once, answered in the
    opposite order; its receiver waits already before the flag is raised. *)
Definition mux_turns : list (fevent cevent) :=
  [FMain true; FWorker 0 (Outer false true); FMain true; FWorker 0 (Inner (Rx 0)); FMain true;
   FWorker 0 (Outer true true)] ++ replicate 11 (FWorker 0 (Outer true true)) ++
  (FWorker 0 <$> [Inner (Rx 1); Inner RxError; Inner RxError; Inner (Rx 0); Inner RxError; Inner RxError; Outer true true]) ++
  replicate 2 (FMain true).

(** Checks a concrete run of connections. *)
Ltac run_is_calm :=
  vm_compute;
  repeat first
    [ exact I
    | match goal with |- forall s, _ -> _ => intros ? [= <-]; split; reflexivity end
    | split
    | reflexivity ].

Lemma mt_multiplex_bench_outcome_witness :
  let argv := ["mt_multiplex_bench"; "2"; "1"; "2"; "8"]%string in
  let P := conn_worker (fun _ => loopback) (fun _ i => 10 + i mod 7) 2 2 8 in
  (exists rep, mt_multiplex_bench (fun _ => loopback) (fun _ i => 10 + i mod 7) 3000 argv mux_turns = MtExit rep) /\
  match mt_multiplex_bench (fun _ => loopback) (fun _ i => 10 + i mod 7) 3000 argv mux_turns with
  | MtRunning f => exists e f', calm f e /\ fleet_step (Wk := P) 1 f e = Ok f' /\ f' <> f
  | MtExit rep =>
      exact_report 2 3000 ((fun _ i => 10 + i mod 7) <$> seq 0 1) rep /\
      Forall2 (fun t calls => fd_open (a_fd loopback) calls = false) (seq 0 1) (rp_calls rep)
  | _ => False
  end /\
  (effective (Wk := P) 1 fleet_init mux_turns -> Z.of_nat (length mux_turns) <= 1 * (8 * 2 + 7) + 3).
Proof.
  split; [eexists; vm_compute; reflexivity|].
  apply (mt_multiplex_bench_outcome (fun _ => loopback) (fun _ i => 10 + i mod 7) 3000
           ["mt_multiplex_bench"; "2"; "1"; "2"; "8"]%string mux_turns 2 1 2 8).
  - vm_compute. reflexivity.
  - lia.
  - lia.
  - lia.
  - lia.
  - lia.
  - intros t _. eexists _, _. vm_compute. reflexivity.
  - intros t i. pose proof (Z.mod_pos_bound i 7). lia.
  - lia.
  - run_is_calm.
Defined.

(** ** How they fail *)

Lemma spawn_some {W Ev R} {Wk : Worker W Ev R} n (es : list (fevent Ev)) k : forall f : Fleet W,
  f_pc f = MSpawn -> (length (f_workers f) + k <= n)%nat ->
  exists f', fleet_run n f (replicate k (FMain true) ++ es) = fleet_run n f' es /\
    f_pc f' = MSpawn /\ length (f_workers f') = (length (f_workers f) + k)%nat.
Proof.
  induction k as [|k IH]; intros f Hp Hk; [exists f; split_and!; [done|done|lia]|].
  cbn [replicate app fleet_run]. unfold fleet_step, fleet_main at 1. rewrite Hp.
  rewrite (proj2 (Nat.ltb_lt _ _)) by lia. cbn [mbind outcome_bind].
  destruct (IH (mkFleet MSpawn (f_flag f) (f_workers f ++ [w_init]))) as (f' & -> & Hp' & Hl'); [done|cbn; rewrite length_app; cbn; lia|].
  exists f'. split_and!; [done|done|]. rewrite Hl'. cbn [f_workers]. rewrite length_app. cbn. lia.
Qed.

Lemma dead_stays {W Ev R} {Wk : Worker W Ev R} n (es : list (fevent Ev)) : forall (f : Fleet W) why,
  f_pc f = MTerminated why -> fleet_run n f es = Ok f.
Proof.
  induction es as [|e es IH]; intros f why Hp; [done|]. cbn [fleet_run]. unfold fleet_step. rewrite Hp.
  cbn [mbind outcome_bind]. by apply (IH f why).
Qed.

Lemma spawn_fails {W Ev R} {Wk : Worker W Ev R} {Rep} (report : list R -> outcome Rep) n k es :
  (k < n)%nat ->
  finish report (fleet_run n fleet_init (replicate k (FMain true) ++ FMain false :: es))
  = MtTerminate "std::system_error".
Proof.
  intros Hk. destruct (spawn_some n (FMain false :: es) k fleet_init) as (f & -> & Hp & Hl); [done|cbn; lia|].
  cbn [fleet_run]. unfold fleet_step, fleet_main at 1. rewrite Hp, (proj2 (Nat.ltb_lt _ _)) by (cbn in Hl; lia).
  cbn [mbind outcome_bind]. by rewrite (dead_stays n es _ "std::system_error").
Qed.

(** How the multi-threaded clients fail to start, on any input: an argument
    that [std::stoi] rejects, a negative number of threads, and a thread that
    cannot be created end the process before it reports anything, whatever
    happens afterwards. *)
Theorem mt_startup_failures (HO : HostOrder) (CP : ClientProtobuf) envs ans rtts wall_ns argv :
  (forall why es, latency_bench_mt_args argv = Throw why -> latency_bench_mt envs wall_ns argv es = MtTerminate why) /\
  (forall count msg_size nthreads, latency_bench_mt_args argv = Ok (count, msg_size, nthreads) ->
   (forall es, nthreads < 0 -> latency_bench_mt envs wall_ns argv es = MtTerminate "std::length_error") /\
   (forall k es, Z.of_nat k < nthreads ->
      latency_bench_mt envs wall_ns argv (replicate k (FMain true) ++ FMain false :: es)
      = MtTerminate "std::system_error")) /\
  (forall why es, mt_multiplex_bench_args argv = Throw why -> mt_multiplex_bench ans rtts wall_ns argv es = MtTerminate why) /\
  (forall count nconn window msg_size, mt_multiplex_bench_args argv = Ok (count, nconn, window, msg_size) ->
   (forall es, nconn < 0 -> mt_multiplex_bench ans rtts wall_ns argv es = MtTerminate "std::length_error") /\
   (forall k es, Z.of_nat k < nconn ->
      mt_multiplex_bench ans rtts wall_ns argv (replicate k (FMain true) ++ FMain false :: es)
      = MtTerminate "std::system_error")).
Proof.
  unfold latency_bench_mt, mt_multiplex_bench. split_and!; [by intros why es ->| |by intros why es ->|].
  - intros count msg_size n Ha. destruct (mt_args_int _ _ _ _ Ha) as (_ & _ & Bn). rewrite Ha.
    cbn [mt_start mbind outcome_bind]. split.
    + intros es Hn. by rewrite make_results_negative by lia.
    + intros k es Hk. rewrite make_results_ok, reserve_ok by lia. cbn [mt_start mbind outcome_bind].
      apply spawn_fails. lia.
  - intros count n window msg_size Ha. destruct (mt_multiplex_args_int _ _ _ _ _ Ha) as (_ & Bn & _). rewrite Ha.
    cbn [mt_start mbind outcome_bind]. split.
    + intros es Hn. by rewrite make_results_negative by lia.
    + intros k es Hk. rewrite make_results_ok, reserve_ok by lia. cbn [mt_start mbind outcome_bind].
      apply spawn_fails. lia.
Qed.
