(* ===== verification/MtEndToEnd.v ===== *)
(** The client with many connections and the server process, end to end: [main]
    of [examples/mt_multiplex_bench.cpp] with the two threads of each of its
    connections on one side, the threads of a server on the other, and the
    bytes between them.

    [MtMultiplex] and [MtMains] treat a connection with the responses as events
    and assume that its peer answers each request once.  Here a connection is
    [Conn]: it sends and receives bytes.  The server is any instance of
    [RpcServer]; [RpcServerSpec] and [Serves] are what it promises, to itself
    and to each of its clients.  The theorem of refinement maps every run of the
    whole system to a run of [MtMains] in which the assumption holds, so that
    what is proved there holds of the system.  [threads_server] puts the threads
    of a server process together; a thread of either echo server is an
    instance. *)
From S2P Require Import Prelude Buffer Protocol IoContext Coro Ledger Connection.
From S2P Require Import ResponseQueue Echo AsyncEcho Isolation Server Service EchoServer AsyncServer.
From S2P Require Import Client Multiplex EndToEnd Stats MtBench MtMultiplex CommandLine Fleet MtMains.

(** * Servers *)

(** A server with its clients, by number. *)
Class RpcServer (St Ev : Type) := {
  v_step : St -> Ev -> outcome St;
  v_valid : St -> Ev -> Prop;
  v_delivered : nat -> St -> bytes;
  v_sent : nat -> St -> bytes
}.

(** Every step its kernel allows is defined. *)
Class RpcServerSpec (St Ev : Type) {V : RpcServer St Ev} := {
  v_inv : St -> Prop;
  v_step_ok s e : v_inv s -> v_valid s e -> exists s', v_step s e = Ok s' /\ v_inv s'
}.

(** It serves client [i], which sends [reqs]. *)
Class Serves (St Ev : Type) {V : RpcServer St Ev} {VS : RpcServerSpec St Ev} (i : nat)
    (reqs : list (RpcHeader * bytes)) (reply_to : nat -> RpcHeader * bytes) := {
  v_order : St -> list nat;
  v_order_grows s e s' : v_inv s -> v_valid s e -> v_step s e = Ok s' -> v_order s `prefix_of` v_order s';
  v_served s :
    v_inv s ->
    exists got rest t, reqs = got ++ rest /\ v_delivered i s = wire got ++ t /\
      NoDup (v_order s) /\ Forall (fun j => (j < length got)%nat) (v_order s) /\
      v_sent i s `prefix_of` wire (reply_to <$> v_order s)
}.

(** As one of its clients sees it. *)
Definition server_peer {St Ev} (V : RpcServer St Ev) (i : nat) : RpcPeer St Ev :=
  {| p_step := v_step; p_valid := v_valid; p_delivered := v_delivered i; p_sent := v_sent i |}.

Definition server_peer_spec {St Ev} {V : RpcServer St Ev} {VS : RpcServerSpec St Ev} i reqs reply_to
    {Sv : Serves St Ev i reqs reply_to} : RpcPeerSpec St Ev (P := server_peer V i) reqs reply_to.
Proof.
  refine {| p_inv := v_inv (RpcServerSpec := VS) : _ -> Prop; p_order := v_order |}.
  - intros s e Hs Hv. destruct (v_step_ok s e Hs Hv) as (s' & E & Hs'). exists s'.
    split; [done|]. split; [done|]. by eapply v_order_grows.
  - apply v_served.
Defined.

(** ** A process of several threads *)

Section Threads.
Context {St Ev : Type} (V : nat -> RpcServer St Ev) (at_ : nat -> nat * nat).

(** Client [i] is connection [(at_ i).2] of thread [(at_ i).1]; a step is one of
    some thread. *)
Definition threads_server : RpcServer (list St) (nat * Ev) :=
  {| v_step ss '(t, e) :=
       match ss !! t with
       | Some s => s ← v_step (RpcServer := V t) s e; Ok (<[t := s]> ss)
       | None => Ok ss
       end;
     v_valid ss '(t, e) := match ss !! t with Some s => v_valid (RpcServer := V t) s e | None => True end;
     v_delivered i ss := match ss !! (at_ i).1 with
                         | Some s => v_delivered (RpcServer := V (at_ i).1) (at_ i).2 s
                         | None => [] end;
     v_sent i ss := match ss !! (at_ i).1 with
                    | Some s => v_sent (RpcServer := V (at_ i).1) (at_ i).2 s
                    | None => [] end |}.

Context (VS : forall t, RpcServerSpec St Ev (V := V t)).

Definition threads_inv (ss : list St) : Prop := forall t s, ss !! t = Some s -> v_inv (RpcServerSpec := VS t) s.

#[local] Instance threads_spec : RpcServerSpec (list St) (nat * Ev) (V := threads_server).
Proof.
  refine {| v_inv := threads_inv : _ -> Prop |}.
  intros ss [t e] Hs Hv. cbn in *. destruct (ss !! t) as [s|] eqn:Es; [|by exists ss].
  destruct (v_step_ok (RpcServerSpec := VS t) s e (Hs t s Es) Hv) as (s' & -> & Hs').
  eexists. split; [done|]. intros u x Hx. destruct (decide (u = t)) as [->|Hne].
  - rewrite list_lookup_insert_eq in Hx by (by eapply lookup_lt_Some). by injection Hx as <-.
  - rewrite list_lookup_insert_ne in Hx by done. by apply Hs.
Defined.

Definition threads_serve i reqs reply_to
    (Sv : Serves St Ev (V := V (at_ i).1) (VS := VS (at_ i).1) (at_ i).2 reqs reply_to) :
  Serves (list St) (nat * Ev) (V := threads_server) (VS := threads_spec) i reqs reply_to.
Proof.
  refine {| v_order ss := match ss !! (at_ i).1 with Some s => v_order (Serves := Sv) s | None => [] end |}.
  - intros ss [t e] ss' Hs Hv E. cbn in Hv, E. destruct (ss !! t) as [s|] eqn:Es; [|by injection E as <-].
    destruct (v_step (RpcServer := V t) s e) as [s'| |] eqn:E'; cbn [mbind outcome_bind] in E; [|done..]. injection E as <-.
    destruct (decide ((at_ i).1 = t)) as [<-|Hne]; [|by rewrite list_lookup_insert_ne by done].
    rewrite list_lookup_insert_eq by (by eapply lookup_lt_Some). rewrite Es.
    exact (v_order_grows s e s' (Hs _ s Es) Hv E').
  - intros ss Hs. cbn. destruct (ss !! (at_ i).1) as [s|] eqn:Es; [exact (v_served s (Hs _ s Es))|].
    exists [], reqs, []. split_and!; [done|done|constructor|constructor|done].
Defined.

(** The process when all its threads have started. *)
Lemma threads_started ss :
  (forall u s, ss !! u = Some s ->
     v_inv (RpcServerSpec := VS u) s /\ forall i, v_delivered (RpcServer := V u) i s = []) ->
  threads_inv ss /\ forall t, v_delivered (RpcServer := threads_server) t ss = [].
Proof.
  intros Hss. split; [intros u s Hu; by apply Hss|]. intros t. cbn.
  destruct (ss !! (at_ t).1) as [s|] eqn:Es; [by apply Hss|done].
Qed.

End Threads.

(** * A connection of the client, with its bytes *)

Record Conn := mkConn {
  cn_state : conn_state;
  cn_part : nat;             (* bytes of the current request already sent *)
  cn_sent : bytes;           (* everything [send] has taken *)
  cn_recvd : bytes;          (* everything [recv] has returned *)
  cn_buf : bytes             (* the receiver's [buf] *)
}.

Definition new_conn : Conn := mkConn CStart 0 [] [] [].

Definition set_state (c : Conn) (s : conn_state) : Conn :=
  mkConn s (cn_part c) (cn_sent c) (cn_recvd c) (cn_buf c).

Inductive cn_event : Type :=
| CnOuter (k : nat)                  (* the worker; in [SendAll], [send] takes [k] bytes *)
| CnInner (chunks : list bytes).     (* the receiver; what [recv] returns meanwhile *)

Section Wire.
Context {HO : HostOrder} {CP : ClientProtobuf}.
Context (ans : nat -> ConnectAnswers) (rtts : nat -> Z -> Z) (count window msg_size : Z).

(** The worker thread: while it sends, a turn of the loop of [SendAll]. *)
Definition wire_outer (t : nat) (flag : bool) (k : nat) (c : Conn) : outcome Conn :=
  let next := outer_step count window msg_size (ans t) (rtts t) flag true (cn_state c) in
  match cn_state c with
  | CRun fd calls m =>
      match tx m with
      | SSend =>
          data ← build_request (tx_i m) (xs msg_size);
          let sent := cn_sent c ++ take k (drop (cn_part c) data) in
          Ok (match SendAll_turn k data (cn_part c) with
              | Some part => mkConn (cn_state c) part sent (cn_recvd c) (cn_buf c)
              | None => mkConn next 0 sent (cn_recvd c) (cn_buf c)
              end)
      | _ => Ok (set_state c next)
      end
  | _ => Ok (set_state c next)
  end.

(** The receiver thread; while a response is incomplete it stays in
    [RecvExact]. *)
Definition wire_inner (chunks : list bytes) (c : Conn) : outcome Conn :=
  match cn_state c with
  | CWait _ _ m | CRun _ _ m =>
      match rx m with
      | RRecv =>
          match receive_response (mkClient (cn_buf c) (Some <$> chunks) 0 []) with
          | Done (hdr, cl) =>
              let all := cn_recvd c ++ concat chunks in
              Ok (mkConn (rx_step count (Rx (seq_id hdr)) (cn_state c)) (cn_part c) (cn_sent c)
                    (take (length all - length (concat (omap id (incoming cl)))) all) (recv_staging cl))
          | Waiting => Ok c
          | Raised _ => Ok (set_state c (rx_step count RxError (cn_state c)))
          | Undef why => UB why
          end
      | _ => Ok (set_state c (rx_step count RxError (cn_state c)))
      end
  | _ => Ok c
  end.

Definition wire_step (t : nat) (flag : bool) (e : cn_event) (c : Conn) : outcome Conn :=
  match e with CnOuter k => wire_outer t flag k c | CnInner chunks => wire_inner chunks c end.

Definition wire_worker : Worker Conn cn_event (ConnResult * list ccall) :=
  {| w_init := new_conn; w_step := wire_step; w_status c := conn_status (cn_state c) |}.

End Wire.

(** ** One connection and its peer *)

Section Link.
Context {HO : HostOrder} {CP : ClientProtobuf} {PB : Protobuf} {St Ev : Type} {P : RpcPeer St Ev}.
Context (ans : nat -> ConnectAnswers) (rtts : nat -> Z -> Z) (count window msg_size : Z).

Abbreviation payload := (xs msg_size).

Context {PS : RpcPeerSpec St Ev (client_requests count payload) (reply_to payload)}.
Context (Hcount : count < 2 ^ 31) (Hpb : protobuf_ok payload).

Definition to_joint (srv : St) (m : Mux) (c : Conn) : Joint St :=
  mkJoint m (cn_part c) srv (cn_recvd c) (cn_buf c).

(** While the threads are at work the connection is the joint system of
    [EndToEnd]. *)
Definition linked (srv : St) (c : Conn) : Prop :=
  match cn_state c with
  | CStart => c = new_conn
  | CWait _ _ m => joint_ok count window payload (to_joint srv m c) /\ tx m = STest /\ tx_i m = 0 /\
                   cn_sent c = client_sent count payload (to_joint srv m c)
  | CRun _ _ m => joint_ok count window payload (to_joint srv m c) /\
                  cn_sent c = client_sent count payload (to_joint srv m c)
  | CEnd _ _ | CTerminated => True
  end.

(** What the network may do. *)
Definition wire_valid (srv : St) (e : cn_event) (c : Conn) : Prop :=
  match e with
  | CnOuter k =>
      match cn_state c with
      | CRun _ _ m => joint_valid count payload (to_joint srv m c) (JSender k)
      | _ => True
      end
  | CnInner chunks => Forall (fun ch => ch <> []) chunks /\ cn_recvd c ++ concat chunks `prefix_of` p_sent srv
  end.

(** A step on the wire is none of the connection, or one in which its peer
    behaves. *)
Definition simulated (t : nat) (flag : bool) (s s' : conn_state) : Prop :=
  s' = s \/
  exists e, conn_valid t flag e s /\
    s' = RunConnection_step count window msg_size (ans t) (rtts t) s (seen_flag flag e).

Lemma outer_simulated t flag s :
  simulated t flag s (outer_step count window msg_size (ans t) (rtts t) flag true s).
Proof. right. exists (Outer flag true). split; [|done]. split; by destruct s. Qed.

(** The sender's bytes grow by what is taken. *)
Lemma client_sent_turn (srv : St) m c k :
  tx m = SSend -> 0 <= tx_i m < count -> (cn_part c <= length (current_frame payload (to_joint srv m c)))%nat ->
  let f := current_frame payload (to_joint srv m c) in
  client_sent count payload (to_joint srv m c) ++ take k (drop (cn_part c) f)
  = wire (take (Z.to_nat (tx_i m)) (client_requests count payload)) ++ take (cn_part c + k) f.
Proof.
  intros Et Hi Hp. cbn zeta. unfold client_sent. cbn [jm jpart to_joint]. rewrite Et, <- app_assoc. f_equal.
  by rewrite take_take_drop.
Qed.

(** A turn of [SendAll]. *)
Lemma wire_send_ok t flag k srv c fd calls m :
  cn_state c = CRun fd calls m -> tx m = SSend -> linked srv c -> wire_valid srv (CnOuter k) c ->
  exists c', wire_outer ans rtts count window msg_size t flag k c = Ok c' /\ linked srv c' /\
    simulated t flag (cn_state c) (cn_state c') /\ cn_sent c `prefix_of` cn_sent c'.
Proof.
  intros Es Et Hl Hv. unfold linked in Hl. unfold wire_valid in Hv. rewrite Es in Hl, Hv. destruct Hl as [Hj Hc].
  destruct (joint_sender_ok count window payload Hcount Hpb k _ Hj Hv) as (j' & E & Hj').
  pose proof (jo_mux _ _ _ _ Hj) as Hm. pose proof (mo_i _ _ _ Hm) as Hi. pose proof (mo_progress _ _ _ Hm) as Hpr.
  pose proof (jo_part _ _ _ _ Hj) as Hp. cbn [jm jpart to_joint] in Hm, Hi, Hpr, Hp. rewrite Et in Hpr, Hp.
  pose proof (client_sent_turn srv m c k Et ltac:(lia) ltac:(lia)) as Hturn. cbn zeta in Hturn.
  unfold joint_sender, wire_outer in *. cbn [jm jpart to_joint] in E. rewrite Es, Et in *.
  rewrite build_request_ok in * by (destruct Hpb as (_ & ? & _); unfold HEADER_SIZE in *; lia).
  change (wire_frame (request_header (tx_i m) (SerializeRequest payload)) (SerializeRequest payload))
    with (current_frame payload (to_joint srv m c)) in *.
  set (f := current_frame payload _) in *. cbn [mbind outcome_bind] in *. rewrite <- Hc in Hturn.
  destruct (SendAll_turn k f (cn_part c)) as [part'|] eqn:Eturn; injection E as <-; eexists; (split; [done|]);
    unfold SendAll_turn in Eturn; destruct (Nat.ltb_spec (cn_part c + k) (length f)) as [Hlt|Hge]; try done.
  - injection Eturn as <-. split; [|split; [by left|by apply prefix_app_r]]. unfold linked. cbn [cn_state].
    split; [exact Hj'|]. cbn [cn_sent]. rewrite Hturn. unfold client_sent. cbn [jm jpart to_joint cn_part]. by rewrite Et.
  - split; [|split; [apply outer_simulated|by apply prefix_app_r]].
    unfold linked, outer_step. cbn [cn_state]. rewrite Et. split; [exact Hj'|]. cbn [cn_sent]. rewrite Hturn.
    rewrite (take_ge f) by lia. unfold client_sent, sender_step. cbn [jm jpart to_joint cn_part]. rewrite Et.
    cbn [tx tx_i set_tx set_tx_i set_unanswered]. rewrite app_nil_r.
    pose proof (wire_take_S count payload (to_joint srv m c)) as Hw. cbn [jm to_joint] in Hw. by rewrite Hw by lia.
Qed.

(** The other steps of the sender. *)
Lemma sender_linked t flag srv c fd calls m :
  cn_state c = CRun fd calls m -> tx m <> SSend -> linked srv c ->
  linked srv (set_state c (outer_step count window msg_size (ans t) (rtts t) flag true (CRun fd calls m))).
Proof.
  intros Es Et Hl. unfold linked in *. rewrite Es in Hl. destruct Hl as [Hj Hc].
  destruct (joint_sender_ok count window payload Hcount Hpb 0 _ Hj ltac:(by intros ?)) as (j' & E & Hj').
  assert (E' : j' = set_mux (to_joint srv m c) (sender_step count window true m) (cn_part c))
    by (unfold joint_sender in E; cbn [jm jpart to_joint] in E; destruct (tx m); congruence).
  subst j'. pose proof (jo_part _ _ _ _ Hj) as Hp. cbn [jm jpart to_joint] in Hp.
  assert (Hcs : cn_sent c = client_sent count payload (set_mux (to_joint srv m c) (sender_step count window true m) (cn_part c))).
  { rewrite Hc. unfold client_sent. cbn [jm jpart to_joint set_mux]. unfold sender_step.
    destruct (tx m) eqn:Et'; try done; repeat case_match; cbn [tx tx_i set_tx set_pending set_in_flight] in *;
      rewrite ?Et', ?Hp in *; done. }
  unfold outer_step, set_state. cbn [cn_state].
  destruct (tx m) eqn:Et', (rx m) eqn:Er; try done; (split; [exact Hj'|exact Hcs]).
Qed.

Lemma wire_outer_ok t flag k srv c :
  linked srv c -> p_inv srv -> p_delivered srv `prefix_of` cn_sent c -> wire_valid srv (CnOuter k) c ->
  exists c', wire_outer ans rtts count window msg_size t flag k c = Ok c' /\ linked srv c' /\
    simulated t flag (cn_state c) (cn_state c') /\ cn_sent c `prefix_of` cn_sent c'.
Proof.
  intros Hl Hs Hd Hv.
  assert (Hstep : linked srv (set_state c (outer_step count window msg_size (ans t) (rtts t) flag true (cn_state c))) ->
            exists c', Ok (set_state c (outer_step count window msg_size (ans t) (rtts t) flag true (cn_state c))) = Ok c' /\
              linked srv c' /\ simulated t flag (cn_state c) (cn_state c') /\ cn_sent c `prefix_of` cn_sent c').
  { intros Hl'. eexists. split; [done|]. split; [done|]. split; [apply outer_simulated|done]. }
  destruct (cn_state c) as [|fd calls m|fd calls m|r calls|] eqn:Es.
  3:{ destruct (decide (tx m = SSend)) as [Et|Et]; [rewrite <- Es; by eapply wire_send_ok|].
      unfold wire_outer. rewrite Es. specialize (Hstep (sender_linked t flag srv c fd calls m Es Et Hl)). by destruct (tx m). }
  all: unfold wire_outer; rewrite Es; apply Hstep; unfold linked in *; rewrite Es in Hl; cbn [set_state cn_state outer_step];
    try done.
  - subst c. destruct (conn_setup count window (ans t)) as [[fd|e|why] calls]; [|done..].
    split; [apply (joint_init_ok count window payload); [done|by apply prefix_nil_inv]|done].
  - destruct flag; [|exact Hl]. destruct Hl as (Hj & _ & _ & Hc). by destruct (make_payload msg_size).
Qed.

Lemma client_sent_receiver srv m c x c' :
  cn_part c' = cn_part c ->
  client_sent count payload (to_joint srv (receiver_step count x m) c') = client_sent count payload (to_joint srv m c).
Proof.
  intros Hp. destruct (receiver_step_keeps count Hcount x m) as (E1 & E2 & _). unfold client_sent, current_frame.
  cbn [jm jpart to_joint]. by rewrite E1, E2, Hp.
Qed.

(** The receiver, before or after the start signal: [mk] is [CWait] or
    [CRun]. *)
Lemma receiver_linked t flag srv c m chunks (mk : Mux -> conn_state) :
  cn_state c = mk m -> joint_ok count window payload (to_joint srv m c) ->
  cn_sent c = client_sent count payload (to_joint srv m c) -> wire_valid srv (CnInner chunks) c ->
  (forall m x, rx_step count x (mk m) = mk (receiver_step count x m)) ->
  (forall x, honest_event (mk m) (Inner x) = answered_once m (RxStep x)) ->
  (forall x, failing (mk m) (Inner x) = match x with RxError => bool_decide (rx m = RRecv) | _ => false end) ->
  (forall x c', cn_state c' = mk (receiver_step count x m) ->
     joint_ok count window payload (to_joint srv (receiver_step count x m) c') ->
     cn_sent c' = client_sent count payload (to_joint srv (receiver_step count x m) c') -> linked srv c') ->
  linked srv c ->
  exists c',
    match rx m with
    | RRecv =>
        match receive_response (mkClient (cn_buf c) (Some <$> chunks) 0 []) with
        | Done (hdr, cl) =>
            let all := cn_recvd c ++ concat chunks in
            Ok (mkConn (rx_step count (Rx (seq_id hdr)) (mk m)) (cn_part c) (cn_sent c)
                  (take (length all - length (concat (omap id (incoming cl)))) all) (recv_staging cl))
        | Waiting => Ok c
        | Raised _ => Ok (set_state c (rx_step count RxError (mk m)))
        | Undef why => UB why
        end
    | _ => Ok (set_state c (rx_step count RxError (mk m)))
    end = Ok c' /\ linked srv c' /\ simulated t flag (mk m) (cn_state c') /\ cn_sent c' = cn_sent c.
Proof.
  intros Es Hj Hc Hv Hrx Hh Hf Hlk Hl.
  destruct (joint_receiver_ok count window payload Hcount Hpb chunks _ Hj Hv) as (j' & E & Hj').
  unfold joint_receiver in E. cbn [jm jpart jsrv jrecvd jbuf to_joint] in E.
  assert (Hidle : rx m <> RRecv -> simulated t flag (mk m) (rx_step count RxError (mk m))).
  { intros Hr. right. exists (Inner RxError). split; [|done]. split; cbn [seen_flag].
    - rewrite Hh. cbn. by destruct (rx m).
    - rewrite Hf. by apply bool_decide_eq_false. }
  destruct (decide (rx m = RRecv)) as [Er|Er].
  - rewrite Er in *.
    destruct (receive_next count window payload Hcount Hpb chunks _ Hj Hv) as [Ew|(o & rest & hdr & cl & Ho & Ed & Hseq & _)];
      cbn [jbuf to_joint] in *; [rewrite Ew; exists c; split_and!; [done|done|by left|done]|].
    rewrite Ed in *. injection E as <-. eexists. split; [done|]. split; [|split; [|done]].
    + apply (Hlk (Rx (seq_id hdr))); [by cbn; rewrite Hrx|exact Hj'|]. cbn [cn_sent].
      by rewrite client_sent_receiver with (c := c).
    + right. exists (Inner (Rx (seq_id hdr))). split; [|done]. split; cbn [seen_flag]; [|by rewrite Hf].
      rewrite Hh. cbn. rewrite Er, Hseq. apply bool_decide_eq_true.
      exact (next_unanswered count window payload Hcount Hpb _ o rest Hj Ho).
  - assert (Hgo : exists c', Ok (set_state c (rx_step count RxError (mk m))) = Ok c' /\ linked srv c' /\
                    simulated t flag (mk m) (cn_state c') /\ cn_sent c' = cn_sent c).
    { eexists. split; [done|]. split; [|split; [by apply Hidle|done]].
      assert (E' : j' = set_mux (to_joint srv m c) (receiver_step count RxError m) (cn_part c)) by (destruct (rx m); congruence).
      subst j'. apply (Hlk RxError); [by cbn; rewrite Hrx|exact Hj'|]. cbn [cn_sent set_state].
      by rewrite client_sent_receiver with (c := c). }
    by destruct (rx m).
Qed.

Lemma wire_inner_ok t flag chunks srv c :
  linked srv c -> wire_valid srv (CnInner chunks) c ->
  exists c', wire_inner count chunks c = Ok c' /\ linked srv c' /\
    simulated t flag (cn_state c) (cn_state c') /\ cn_sent c' = cn_sent c.
Proof.
  intros Hl Hv. unfold wire_inner.
  assert (Hstay : exists c', Ok c = Ok c' /\ linked srv c' /\ simulated t flag (cn_state c) (cn_state c') /\ cn_sent c' = cn_sent c)
    by (exists c; split_and!; [done|done|by left|done]).
  destruct (cn_state c) as [|fd calls m|fd calls m|r calls|] eqn:Es; try exact Hstay.
  - pose proof Hl as Hl'. unfold linked in Hl'. rewrite Es in Hl'. destruct Hl' as (Hj & Ht & Hi & Hc).
    apply (receiver_linked t flag srv c m chunks (CWait fd calls)); try done.
    intros x c' Es' Hj' Hc'. unfold linked. rewrite Es'.
    by destruct (receiver_step_keeps count Hcount x m) as (-> & -> & _).
  - pose proof Hl as Hl'. unfold linked in Hl'. rewrite Es in Hl'. destruct Hl' as (Hj & Hc).
    apply (receiver_linked t flag srv c m chunks (CRun fd calls)); try done.
    intros x c' Es' Hj' Hc'. unfold linked. by rewrite Es'.
Qed.

(** The server. *)
Lemma server_linked srv e srv' c :
  linked srv c -> p_valid srv e -> p_step srv e = Ok srv' -> p_delivered srv' `prefix_of` cn_sent c ->
  linked srv' c.
Proof.
  intros Hl Hv E Hd.
  assert (Hgo : forall m, joint_ok count window payload (to_joint srv m c) ->
            cn_sent c = client_sent count payload (to_joint srv m c) ->
            joint_ok count window payload (to_joint srv' m c)).
  { intros m Hj Hc. destruct (joint_server_ok count window payload e (to_joint srv m c) Hj) as (j' & E' & Hj').
    - split; [done|]. cbn [jsrv to_joint]. rewrite E. by rewrite <- Hc.
    - cbn [joint_step jsrv to_joint] in E'. rewrite E in E'. cbn in E'. by injection E' as <-. }
  unfold linked in *. destruct (cn_state c) as [|fd calls m|fd calls m|r calls|]; try done.
  - destruct Hl as (Hj & Ht & Hi & Hc). split; [by apply Hgo|done].
  - destruct Hl as (Hj & Hc). split; [by apply Hgo|done].
Qed.

End Link.

(** * The whole system *)

Fixpoint all_below (n : nat) (P : nat -> Prop) : Prop :=
  match n with O => True | S n => all_below n P /\ P n end.

Lemma all_below_lt n P t : all_below n P -> (t < n)%nat -> P t.
Proof.
  induction n as [|n IH]; [lia|]. intros [Hn HP] Ht. destruct (decide (t = n)) as [->|Hne]; [done|]. apply IH; [done|lia].
Qed.

Record System (St : Type) := mkSystem { sy_fleet : Fleet Conn; sy_server : St }.
Arguments mkSystem {St}.
Arguments sy_fleet {St}.
Arguments sy_server {St}.

Inductive sevent (Ev : Type) : Type :=
| SClient (e : fevent cn_event)
| SServer (e : Ev).
Arguments SClient {Ev}.
Arguments SServer {Ev}.

Section System.
Context {HO : HostOrder} {CP : ClientProtobuf} {PB : Protobuf} {St Ev : Type} {V : RpcServer St Ev}.
Context (ans : nat -> ConnectAnswers) (rtts : nat -> Z -> Z) (count window msg_size : Z) (n : nat).

Abbreviation payload := (xs msg_size).
Abbreviation WW := (wire_worker ans rtts count window msg_size).
Abbreviation AW := (conn_worker ans rtts count window msg_size).

Definition system_init (s : St) : System St := mkSystem fleet_init s.

Definition system_step (sy : System St) (e : sevent Ev) : outcome (System St) :=
  match e with
  | SClient e => f ← fleet_step (Wk := WW) n (sy_fleet sy) e; Ok (mkSystem f (sy_server sy))
  | SServer e => s ← v_step (sy_server sy) e; Ok (mkSystem (sy_fleet sy) s)
  end.

Fixpoint system_run (sy : System St) (es : list (sevent Ev)) : outcome (System St) :=
  match es with
  | [] => Ok sy
  | e :: es => sy ← system_step sy e; system_run sy es
  end.

(** What client [t] has put on the wire. *)
Definition sent_by (f : Fleet Conn) (t : nat) : bytes :=
  match f_workers f !! t with Some c => cn_sent c | None => [] end.

(** Threads can be created; the network delivers, in both directions and on
    every connection, what was sent, in order; the server's kernel keeps to its
    contract. *)
Definition system_valid (sy : System St) (e : sevent Ev) : Prop :=
  match e with
  | SClient (FMain created) => created = true
  | SClient (FWorker t e) =>
      match f_workers (sy_fleet sy) !! t with
      | Some c => wire_valid (P := server_peer V t) count msg_size (sy_server sy) e c
      | None => True
      end
  | SServer e =>
      v_valid (sy_server sy) e /\
      match v_step (sy_server sy) e with
      | Ok s => all_below n (fun t => v_delivered t s `prefix_of` sent_by (sy_fleet sy) t)
      | _ => True
      end
  end.

Fixpoint system_valid_run (sy : System St) (es : list (sevent Ev)) : Prop :=
  match es with
  | [] => True
  | e :: es =>
      system_valid sy e /\ match system_step sy e with Ok sy => system_valid_run sy es | _ => True end
  end.

(** The program of [MtMains], with the bytes forgotten. *)
Definition forget (f : Fleet Conn) : Fleet conn_state :=
  mkFleet (f_pc f) (f_flag f) (cn_state <$> f_workers f).

Context {VS : RpcServerSpec St Ev}.
Context (Sv : forall t, (t < n)%nat -> Serves St Ev t (client_requests count payload) (reply_to payload)).
Context (Hcount : count < 2 ^ 31) (Hwindow : 0 < window) (Hmsg : 0 <= msg_size < 2 ^ 31).
Context (Hsetup : forall t, (t < n)%nat -> exists fd calls, conn_setup count window (ans t) = (Ok fd, calls)).
Context (Hpb : protobuf_ok payload).

Abbreviation peer_spec t Ht := (server_peer_spec t _ _ (Sv := Sv t Ht)).

Record system_ok (sy : System St) : Prop := {
  sk_server : v_inv (sy_server sy);
  sk_linked : forall t c (Ht : (t < n)%nat), f_workers (sy_fleet sy) !! t = Some c ->
                linked (P := server_peer V t) (PS := peer_spec t Ht) count window msg_size (sy_server sy) c;
  sk_causal : forall t, (t < n)%nat -> v_delivered t (sy_server sy) `prefix_of` sent_by (sy_fleet sy) t;
  sk_forget : exists es, calm_run (fleet_step (Wk := AW) n) fleet_init es /\
                fleet_run (Wk := AW) n fleet_init es = Ok (forget (sy_fleet sy))
}.

Lemma fleet_run_snoc es e : forall f f',
  fleet_run (Wk := AW) n f es = Ok f' -> fleet_run (Wk := AW) n f (es ++ [e]) = fleet_step (Wk := AW) n f' e.
Proof.
  induction es as [|x es IH]; intros f f'; cbn [fleet_run app].
  - intros [= <-]. by destruct (fleet_step n f e).
  - destruct (fleet_step n f x); cbn [mbind outcome_bind]; [apply IH|done..].
Qed.

Lemma calm_run_snoc es e : forall f f',
  calm_run (fleet_step (Wk := AW) n) f es -> fleet_run (Wk := AW) n f es = Ok f' -> calm f' e ->
  calm_run (fleet_step (Wk := AW) n) f (es ++ [e]).
Proof.
  induction es as [|x es IH]; intros f f'; cbn [fleet_run calm_run app].
  - intros _ [= <-] Hc. split; [done|]. by destruct (fleet_step n f e).
  - intros [Hx Hes]. split; [done|]. destruct (fleet_step n f x) as [f1| |]; cbn [mbind outcome_bind] in *; [|done..].
    by eapply IH.
Qed.

(** The threads as [MtMains] has them are in order. *)
Lemma forget_ok sy : system_ok sy -> fleet_ok (Wk := AW) n (conn_inv ans rtts count window n) (forget (sy_fleet sy)).
Proof.
  intros Hsy. destruct (sk_forget _ Hsy) as (es & Hcalm & Hrun).
  pose proof (calm_run_valid ans rtts count window msg_size n Hcount Hwindow Hmsg Hsetup es _ Hcalm) as Hv.
  destruct (valid_run_ok (WL := conn_worker_laws ans rtts count window msg_size) n es fleet_init (fleet_init_ok n _) Hv)
    as (f & E & Hf & _). rewrite Hrun in E. by injection E as <-.
Qed.

Lemma forget_main created f : forget (fleet_main (Wk := WW) n created f) = fleet_main (Wk := AW) n created (forget f).
Proof.
  destruct f as [pc flag ws]. unfold fleet_main, forget. cbn [f_pc f_flag f_workers]. rewrite length_fmap.
  destruct pc as [| |t| |why]; cbn [f_pc f_flag f_workers]; try done.
  - destruct (_ <? _)%nat; [|done]. destruct created; [|done]. cbn. by rewrite fmap_app.
  - rewrite list_lookup_fmap. destruct (_ <? _)%nat; [|done]. destruct (ws !! t) as [c|]; [|done]. cbn.
    by destruct (conn_status (cn_state c)).
Qed.

(** A step of a thread. *)
Lemma forget_worker sy t e c :
  system_ok sy -> f_workers (sy_fleet sy) !! t = Some c -> system_valid sy (SClient (FWorker t e)) ->
  exists c', wire_step ans rtts count window msg_size t (f_flag (sy_fleet sy)) e c = Ok c' /\
    (forall Ht, linked (P := server_peer V t) (PS := peer_spec t Ht) count window msg_size (sy_server sy) c') /\
    simulated ans rtts count window msg_size t (f_flag (sy_fleet sy)) (cn_state c) (cn_state c') /\
    cn_sent c `prefix_of` cn_sent c'.
Proof.
  intros Hsy Hc Hv. cbn [system_valid] in Hv. rewrite Hc in Hv.
  pose proof (fo_length _ _ _ (forget_ok sy Hsy)) as Hlen. cbn [forget f_workers] in Hlen. rewrite length_fmap in Hlen.
  assert (Ht : (t < n)%nat) by (apply lookup_lt_Some in Hc; lia).
  pose proof (sk_linked _ Hsy t c Ht Hc) as Hl. pose proof (sk_causal _ Hsy t Ht) as Hd. unfold sent_by in Hd. rewrite Hc in Hd.
  assert (Hany : forall c', linked (P := server_peer V t) (PS := peer_spec t Ht) count window msg_size (sy_server sy) c' ->
            forall Ht', linked (P := server_peer V t) (PS := peer_spec t Ht') count window msg_size (sy_server sy) c').
  { intros c' Hl' Ht'. by rewrite (proof_irrel Ht' Ht). }
  destruct e as [k|chunks]; cbn [wire_step].
  - destruct (wire_outer_ok (P := server_peer V t) (PS := peer_spec t Ht) ans rtts count window msg_size Hcount Hpb t
                (f_flag (sy_fleet sy)) k (sy_server sy) c Hl (sk_server _ Hsy) Hd Hv) as (c' & E & Hl' & Hsim & Hp).
    exists c'. split_and!; [done|by apply Hany|done|done].
  - destruct (wire_inner_ok (P := server_peer V t) (PS := peer_spec t Ht) ans rtts count window msg_size Hcount Hpb t
                (f_flag (sy_fleet sy)) chunks (sy_server sy) c Hl Hv) as (c' & E & Hl' & Hsim & Hse).
    exists c'. rewrite Hse. split_and!; [done|by apply Hany|done|done].
Qed.

Lemma insert_fmap_id (t : nat) (c c' : Conn) (ws : list Conn) :
  ws !! t = Some c -> cn_state c' = cn_state c -> cn_state <$> <[t := c']> ws = cn_state <$> ws.
Proof. intros Hc E. rewrite list_fmap_insert, E. apply list_insert_id. by rewrite list_lookup_fmap, Hc. Qed.

Lemma worker_step_ok f srv t c c' :
  system_ok (mkSystem f srv) -> f_workers f !! t = Some c ->
  (forall Ht, linked (P := server_peer V t) (PS := peer_spec t Ht) count window msg_size srv c') ->
  simulated ans rtts count window msg_size t (f_flag f) (cn_state c) (cn_state c') ->
  cn_sent c `prefix_of` cn_sent c' ->
  system_ok (mkSystem (mkFleet (match conn_status (cn_state c') with WAborts why => MTerminated why | _ => f_pc f end)
                         (f_flag f) (<[t := c']> (f_workers f))) srv).
Proof.
  intros Hsy Ec Hl' Hsim Hpre. pose proof (forget_ok _ Hsy) as Hf. pose proof Hsy as [Hs Hl Hc (es & Hcalm & Hrun)].
  cbn [sy_fleet sy_server] in *. pose proof (lookup_lt_Some _ _ _ Ec) as Hlt.
  assert (Hlook : forall u, <[t := c']> (f_workers f) !! u = if decide (u = t) then Some c' else f_workers f !! u).
  { intros u. case_decide as Hd; [subst; by apply list_lookup_insert_eq|by apply list_lookup_insert_ne]. }
  constructor; cbn [sy_fleet sy_server f_workers]; [done|..].
  - intros u x Hu Hx. rewrite Hlook in Hx. case_decide; [|by apply Hl]. subst. by injection Hx as <-.
  - intros u Hu. specialize (Hc u Hu). unfold sent_by in *. cbn [f_workers]. rewrite Hlook. case_decide; [|done].
    subst u. rewrite Ec in Hc. by etrans.
  - destruct Hsim as [E|(e & Hval & E)].
    + exists es. split; [done|]. rewrite Hrun. unfold forget. cbn [f_pc f_flag f_workers].
      rewrite (insert_fmap_id t c) by done. f_equal. f_equal.
      destruct (fo_each _ _ _ Hf t (cn_state c)) as (_ & _ & Hne); [cbn; by rewrite list_lookup_fmap, Ec|].
      rewrite E. by destruct (cn_state c).
    + exists (es ++ [FWorker t e]). rewrite (fleet_run_snoc es _ _ _ Hrun). split.
      * eapply calm_run_snoc; [done|done|]. intros s Hw. cbn [forget f_workers f_flag] in *.
        rewrite list_lookup_fmap, Ec in Hw. by injection Hw as <-.
      * unfold fleet_step, fleet_worker, forget. cbn [f_pc f_flag f_workers].
        rewrite list_lookup_fmap, list_fmap_insert, Ec.
        cbn [fmap option_fmap option_map w_step conn_worker mbind outcome_bind w_status]. rewrite <- E. pose proof (fo_pc _ _ _ Hf) as Hp. cbn [forget f_pc] in Hp. by destruct (f_pc f).
Qed.

(** [main] adds a fresh connection, or leaves the threads alone. *)
Lemma main_lookup f t :
  let ws := f_workers (fleet_main (Wk := WW) n true f) in
  ws !! t = f_workers f !! t \/ f_workers f !! t = None /\ ws !! t = Some new_conn.
Proof.
  cbn zeta.
  assert (Hws : f_workers (fleet_main (Wk := WW) n true f) = f_workers f \/
                f_workers (fleet_main (Wk := WW) n true f) = f_workers f ++ [new_conn])
    by (unfold fleet_main; repeat case_match; cbn; auto).
  destruct Hws as [->| ->]; [by left|]. destruct (decide (t < length (f_workers f))%nat); [left; by apply lookup_app_l|].
  rewrite lookup_app_r by lia. destruct (t - length (f_workers f))%nat as [|k] eqn:Ek.
  - right. split; [apply lookup_ge_None_2; lia|done].
  - left. by rewrite (lookup_ge_None_2 (f_workers f)) by lia.
Qed.

Lemma main_step_ok f srv :
  system_ok (mkSystem f srv) -> system_ok (mkSystem (fleet_main (Wk := WW) n true f) srv).
Proof.
  intros Hsy. pose proof (fo_pc _ _ _ (forget_ok _ Hsy)) as Hp. pose proof Hsy as [Hs Hl Hc (es & Hcalm & Hrun)].
  cbn [sy_fleet sy_server] in *. constructor; cbn [sy_fleet sy_server]; [done|..].
  - intros t c Ht Hw. destruct (main_lookup f t) as [E'|[_ E']]; rewrite E' in Hw; [by apply Hl|]. by injection Hw as <-.
  - intros t Ht. specialize (Hc t Ht). unfold sent_by in *. destruct (main_lookup f t) as [->|[E1 ->]]; [done|].
    by rewrite E1 in Hc.
  - exists (es ++ [FMain true]). rewrite (fleet_run_snoc es _ _ _ Hrun). split; [by eapply calm_run_snoc|].
    rewrite forget_main. unfold fleet_step. by destruct (f_pc (forget f)).
Qed.

(** Forgetting the bytes, a step of a client is none, or one of [MtMains]. *)
Lemma client_step_ok sy e :
  system_ok sy -> system_valid sy (SClient e) ->
  exists sy', system_step sy (SClient e) = Ok sy' /\ system_ok sy'.
Proof.
  intros Hsy Hv. pose proof (fo_pc _ _ _ (forget_ok sy Hsy)) as Hp. destruct sy as [f srv].
  cbn [sy_fleet sy_server forget f_pc system_step] in *.
  assert (E : fleet_step (Wk := WW) n f e =
              match e with FMain created => Ok (fleet_main (Wk := WW) n created f) | FWorker t e => fleet_worker (Wk := WW) t e f end)
    by (unfold fleet_step; by destruct (f_pc f)).
  rewrite E. clear E. destruct e as [created|t e].
  - cbn in Hv. subst created. cbn [mbind outcome_bind]. eexists. split; [done|]. by apply main_step_ok.
  - unfold fleet_worker. destruct (f_workers f !! t) as [c|] eqn:Ec; [|by eexists].
    destruct (forget_worker (mkSystem f srv) t e c Hsy Ec Hv) as (c' & E' & Hl' & Hsim & Hpre).
    cbn [sy_fleet sy_server] in *. cbn [w_step wire_worker w_status]. rewrite E'. cbn [mbind outcome_bind].
    eexists. split; [done|]. by apply (worker_step_ok f srv t c c').
Qed.

Lemma server_step_ok sy e :
  system_ok sy -> system_valid sy (SServer e) ->
  exists sy', system_step sy (SServer e) = Ok sy' /\ system_ok sy'.
Proof.
  intros Hsy [Hv Hd]. pose proof Hsy as [Hs Hl Hc Hfg]. destruct (v_step_ok _ e Hs Hv) as (s' & E & Hs').
  cbn [system_step]. rewrite E in *. cbn [mbind outcome_bind]. eexists. split; [done|].
  pose proof (fun t => all_below_lt _ _ t Hd) as Hd'. cbn beta in Hd'.
  constructor; cbn [sy_fleet sy_server]; [done| |done|done].
  intros t c Ht Hw. apply (server_linked (P := server_peer V t) (PS := peer_spec t Ht) count window msg_size
                             (sy_server sy) e s' c (Hl t c Ht Hw) Hv E).
  specialize (Hd' t Ht). unfold sent_by in Hd'. by rewrite Hw in Hd'.
Qed.

Lemma system_run_ok es : forall sy,
  system_ok sy -> system_valid_run sy es -> exists sy', system_run sy es = Ok sy' /\ system_ok sy'.
Proof.
  induction es as [|e es IH]; intros sy Hsy Hv; [by exists sy|]. cbn [system_valid_run] in Hv. destruct Hv as [Hv Hvs].
  assert (exists sy1, system_step sy e = Ok sy1 /\ system_ok sy1) as (sy1 & E & Hsy1)
    by (destruct e; [by apply client_step_ok|by apply server_step_ok]).
  cbn [system_run]. rewrite E in *. cbn [mbind outcome_bind]. by apply IH.
Qed.

Lemma system_init_ok s : v_inv s -> (forall t, (t < n)%nat -> v_delivered t s = []) -> system_ok (system_init s).
Proof.
  intros Hs Hd. constructor; cbn [sy_fleet sy_server system_init]; [done|done| |by exists []].
  intros t Ht. by rewrite (Hd t Ht).
Qed.

End System.

(** * The servers *)

Section Instances.
Context {K : Kernel} {HO : HostOrder} {CP : ClientProtobuf} {PB : Protobuf}.
Context (peer : nat -> bytes) (pool n : Z) (Hsq : sq_never_full K).

(** A thread of the asynchronous server, with all its connections. *)
Definition async_rpc (Hpeer : async_peers_ok peer) : RpcServer (IoContext * World ASlot) io_uring_cqe :=
  {| v_step s q := handle_cqe (P := async_program peer) s.1 s.2 q;
     v_valid s q := cqe_valid (P := async_program peer) (S := async_spec peer pool n Hsq Hpeer) s.1 s.2 q;
     v_delivered i s := match slots s.2 !! i with Some x => a_delivered x | None => [] end;
     v_sent i s := match slots s.2 !! i with Some x => as_sent x | None => [] end |}.

#[local] Instance async_rpc_spec Hpeer : RpcServerSpec (IoContext * World ASlot) io_uring_cqe (V := async_rpc Hpeer).
Proof.
  refine {| v_inv (s : IoContext * World ASlot) :=
              IoContext.inv (P := async_program peer) (S := async_spec peer pool n Hsq Hpeer) s.1 s.2 |}.
  intros [c w] q Hinv Hv. destruct (handle_cqe_ok c w q Hinv Hv) as (c' & w' & E & Hinv'). by exists (c', w').
Defined.

Definition async_serves Hpeer i count payload_str :
  protobuf_ok payload_str -> peer i = wire (client_requests count payload_str) ->
  Serves _ _ (V := async_rpc Hpeer) (VS := async_rpc_spec Hpeer) i (client_requests count payload_str) (reply_to payload_str).
Proof.
  intros Hpb Hi.
  set (PS := async_peer_spec peer pool n Hsq Hpeer i count payload_str Hpb Hi).
  refine {| v_order (s : IoContext * World ASlot) := async_order i s.2 |}.
  - intros [c w] q [c' w'] (O & M & _ & Hw) _ E. cbn [v_step async_rpc fst snd] in *.
    eapply async_order_grows; [apply Hw|exact E].
  - exact (p_served (RpcPeerSpec := PS)).
Defined.

(** A thread of the plain server. *)
Definition echo_rpc (Hpeer : peers_ok peer) : RpcServer (IoContext * World Slot) io_uring_cqe :=
  {| v_step s q := handle_cqe (P := echo_program peer) s.1 s.2 q;
     v_valid s q := cqe_valid (P := echo_program peer) (S := echo_spec peer pool n Hsq Hpeer) s.1 s.2 q;
     v_delivered i s := match slots s.2 !! i with Some x => delivered x | None => [] end;
     v_sent i s := match slots s.2 !! i with Some x => slot_sent x | None => [] end |}.

#[local] Instance echo_rpc_spec Hpeer : RpcServerSpec (IoContext * World Slot) io_uring_cqe (V := echo_rpc Hpeer).
Proof.
  refine {| v_inv (s : IoContext * World Slot) :=
              IoContext.inv (P := echo_program peer) (S := echo_spec peer pool n Hsq Hpeer) s.1 s.2 |}.
  intros [c w] q Hinv Hv. destruct (handle_cqe_ok c w q Hinv Hv) as (c' & w' & E & Hinv'). by exists (c', w').
Defined.

Definition echo_serves Hpeer i count payload_str :
  protobuf_ok payload_str -> peer i = wire (client_requests count payload_str) ->
  Serves _ _ (V := echo_rpc Hpeer) (VS := echo_rpc_spec Hpeer) i (client_requests count payload_str) (reply_to payload_str).
Proof.
  intros Hpb Hi.
  set (PS := echo_peer_spec peer pool n Hsq Hpeer i count payload_str Hpb Hi).
  refine {| v_order (s : IoContext * World Slot) := echo_order i s.2 |}.
  - intros [c w] q [c' w'] (O & M & _ & Hw) _ E. cbn [v_step echo_rpc fst snd] in *.
    eapply echo_order_grows; [apply Hw|exact E].
  - exact (p_served (RpcPeerSpec := PS)).
Defined.

(** A thread that has just started. *)
Lemma async_started Hpeer v c ar s :
  new_context pool n c ar -> start_world (V := async_service) v c ar = Ok s ->
  v_inv (RpcServerSpec := async_rpc_spec Hpeer) s /\ forall i, v_delivered (RpcServer := async_rpc Hpeer) i s = [].
Proof.
  intros (Hp & Hb & Hf & Har) E. destruct s as [c0 w0].
  destruct (start_world_ok (Spec := async_service_spec Hsq) peer pool n Hsq Hpeer v c ar Hp Hb Hf Har)
    as (c0' & w0' & M & E' & Hw & Hsl). rewrite E in E'. injection E' as <- <-.
  split; [exists (dom M), M; by split|]. intros i. cbn. by rewrite Hsl.
Qed.

Lemma echo_started Hpeer v c ar s :
  new_context pool n c ar -> start_world (V := echo_service) v c ar = Ok s ->
  v_inv (RpcServerSpec := echo_rpc_spec Hpeer) s /\ forall i, v_delivered (RpcServer := echo_rpc Hpeer) i s = [].
Proof.
  intros (Hp & Hb & Hf & Har) E. destruct s as [c0 w0].
  destruct (start_world_ok (Spec := echo_service_spec Hsq) peer pool n Hsq Hpeer v c ar Hp Hb Hf Har)
    as (c0' & w0' & M & E' & Hw & Hsl). rewrite E in E'. injection E' as <- <-.
  split; [exists (dom M), M; by split|]. intros i. cbn. by rewrite Hsl.
Qed.

End Instances.

(** * Properties *)

(** What is guaranteed of the program when it ends, or of where it is: [es] on
    the wire is a run [es'] of the program whose peers behave. *)
Definition client_served {HO : HostOrder} {CP : ClientProtobuf} {St Ev} (V : RpcServer St Ev)
    ans rtts wall_ns argv count nconn window msg_size (s : St) (es : list (sevent Ev)) : Prop :=
  let n := Z.to_nat nconn in
  let AW := conn_worker ans rtts count window msg_size in
  exists sy es', system_run ans rtts count window msg_size n (system_init s) es = Ok sy /\
    fleet_run (Wk := AW) n fleet_init es' = Ok (forget (sy_fleet sy)) /\
    calm_run (fleet_step (Wk := AW) n) fleet_init es' /\
    match mt_multiplex_bench ans rtts wall_ns argv es' with
    | MtRunning f => f = forget (sy_fleet sy) /\ f_pc (sy_fleet sy) <> MJoined
    | MtExit rep =>
        f_pc (sy_fleet sy) = MJoined /\ exact_report count wall_ns (rtts <$> seq 0 n) rep /\
        Forall2 (fun t calls => fd_open (a_fd (ans t)) calls = false) (seq 0 n) (rp_calls rep)
    | _ => False
    end.

(** What holds of the program when it meets an honest server. *)
Lemma system_outcome {HO : HostOrder} {CP : ClientProtobuf} {PB : Protobuf} {St Ev} {V : RpcServer St Ev}
    {VS : RpcServerSpec St Ev} ans rtts wall_ns argv count nconn window msg_size
    (Sv : forall t, (t < Z.to_nat nconn)%nat -> Serves St Ev t (client_requests count (xs msg_size)) (reply_to (xs msg_size)))
    s es :
  mt_multiplex_bench_args argv = Ok (count, nconn, window, msg_size) ->
  0 < count -> 0 < nconn -> 0 < window -> 0 <= msg_size -> count * nconn < 2 ^ 31 -> protobuf_ok (xs msg_size) ->
  (forall t, (t < Z.to_nat nconn)%nat -> exists fd calls, conn_setup count window (ans t) = (Ok fd, calls)) ->
  (forall t i, 0 <= rtts t i < 2 ^ 32) -> 0 < wall_ns < 2 ^ 53 ->
  v_inv s -> (forall t, v_delivered t s = []) ->
  system_valid_run ans rtts count window msg_size (Z.to_nat nconn) (system_init s) es ->
  client_served V ans rtts wall_ns argv count nconn window msg_size s es.
Proof.
  intros Ha Hc Hn Hw Hm Htot Hpb Hsetup Hrtt Hns Hs Hd Hv.
  destruct (mt_multiplex_args_int _ _ _ _ _ Ha) as (Bc & Bn & Bw & Bm).
  assert (Bm2 : 0 <= msg_size < 2 ^ 31) by lia. pose proof (proj2 Bc) as Bc2.
  destruct (system_run_ok ans rtts count window msg_size (Z.to_nat nconn) Sv Bc2 Hw Bm2 Hsetup Hpb es (system_init s))
    as (sy & E & Hsy); [by apply system_init_ok|done|].
  pose proof (forget_ok _ _ _ _ _ _ Sv Bc2 Hw Bm2 Hsetup sy Hsy) as Hf.
  destruct (sk_forget _ _ _ _ _ _ _ _ Hsy) as (es' & Hcalm & Hrun). exists sy, es'. do 3 (split; [done|]).
  unfold mt_multiplex_bench, mt_start. rewrite Ha. cbn [mbind outcome_bind].
  rewrite (make_results_ok nconn), (reserve_ok nconn) by lia. cbn [mbind outcome_bind]. rewrite Hrun.
  destruct (decide (f_pc (sy_fleet sy) = MJoined)) as [Ep|Ep].
  - unfold finish. cbn [forget f_pc]. rewrite Ep.
    destruct (fleet_joined _ _ _ Hf Ep) as (rs & Hrs & Hl & Hst).
    destruct (mt_multiplex_report_ok ans rtts wall_ns count nconn window msg_size rs) as (rep & Er & Hx & Hcl);
      [done|lia|done|done|done|by apply (conn_results ans rtts count window msg_size _ Hsetup (forget (sy_fleet sy)))|].
    rewrite Hrs. cbn [or_ub mbind outcome_bind]. by rewrite Er.
  - pose proof (fo_pc _ _ _ Hf) as Hp. unfold finish. cbn [forget f_pc] in *. by destruct (f_pc (sy_fleet sy)).
Qed.


(** The same for the plain server. *)
Theorem mt_client_and_echo_server (K : nat -> Kernel) (HO1 HO2 : HostOrder) (CP : ClientProtobuf) (PB : Protobuf)
    peers pools ns (Hsq : forall u, sq_never_full (K u)) (Hpeers : forall u, peers_ok (HO := HO1) (peers u))
    (at_ : nat -> nat * nat) ans rtts wall_ns argv count nconn window msg_size ss es :
  let V := threads_server (fun u => echo_rpc (K := K u) (HO := HO1) (peers u) (pools u) (ns u) (Hsq u) (Hpeers u)) at_ in
  let n := Z.to_nat nconn in
  mt_multiplex_bench_args argv = Ok (count, nconn, window, msg_size) ->
  0 < count -> 0 < nconn -> 0 < window -> 0 <= msg_size -> count * nconn < 2 ^ 31 -> protobuf_ok (xs msg_size) ->
  (forall t, (t < n)%nat -> exists fd calls, conn_setup count window (ans t) = (Ok fd, calls)) ->
  (forall t i, 0 <= rtts t i < 2 ^ 32) -> 0 < wall_ns < 2 ^ 53 ->
  (forall t, (t < n)%nat -> peers (at_ t).1 (at_ t).2 = wire (client_requests count (xs msg_size))) ->
  (forall u s, ss !! u = Some s -> exists v c ar, new_context (pools u) (ns u) c ar /\
     start_world (K := K u) (V := echo_service (K := K u) (HO := HO1)) v c ar = Ok s) ->
  system_valid_run (HO := HO2) (V := V) ans rtts count window msg_size n (system_init ss) es ->
  client_served (HO := HO2) V ans rtts wall_ns argv count nconn window msg_size ss es.
Proof.
  cbn zeta. intros Ha Hc Hn Hw Hm Htot Hpb Hsetup Hrtt Hns Hat Hss Hv.
  set (VS := fun u => echo_rpc_spec (K := K u) (HO := HO1) (peers u) (pools u) (ns u) (Hsq u) (Hpeers u)).
  destruct (threads_started _ at_ VS ss) as [Hinv Hd].
  { intros u s Hu. destruct (Hss u s Hu) as (v & c & ar & Hctx & Hst).
    exact (echo_started _ _ _ (Hsq u) (Hpeers u) v c ar s Hctx Hst). }
  apply (system_outcome (HO := HO2) (VS := threads_spec _ at_ VS)); try done.
  intros t Ht. apply (threads_serve _ at_ VS t). exact (echo_serves _ _ _ _ _ _ _ _ Hpb (Hat t Ht)).
Qed.

#[local] Existing Instance Echo.little.
#[local] Existing Instance Echo.plain_messages.
#[local] Existing Instance Connection.open_kernel.
#[local] Existing Instance Client.plain_requests.

(** Two connections with one request each, the first clients of two threads. *)
Definition pair_peers (u i : nat) : bytes :=
  match i with O => wire (client_requests 1 (xs 2)) | _ => [] end.

Lemma pair_peers_ok u : async_peers_ok (pair_peers u).
Proof.
  apply (async_bounded_peers (pair_peers u) 14 0); [|lia|lia|].
  - intros [|i]; vm_compute; discriminate.
  - intros p msg [= <-]. change (SerializeToString (echo_prefix ++ p)) with (echo_prefix ++ p).
    rewrite zlen_app. change (zlen echo_prefix) with 6. lia.
Qed.

Definition pair_server : RpcServer (list (IoContext * World ASlot)) (nat * io_uring_cqe) :=
  threads_server (fun u => async_rpc (pair_peers u) 0 4 open_kernel_room (pair_peers_ok u)) (fun t => (t, O)).

Definition x_reply : bytes := wire [reply_to (xs 2) 0].
Definition client (t : nat) (es : list cn_event) : list (sevent (nat * io_uring_cqe)) := SClient <$> (FWorker t <$> es).
Definition server (u : nat) (qs : list io_uring_cqe) : list (sevent (nat * io_uring_cqe)) := (fun q => SServer (u, q)) <$> qs.

(** The request and the response of the second connection are cut on the way;
    the first one is served afterwards. *)
Definition pair_events : list (sevent (nat * io_uring_cqe)) :=
  server 0 [cqe 1 9] ++ server 1 [cqe 1 9] ++ [SClient (FMain true)] ++ client 0 [CnOuter 0] ++ [SClient (FMain true)] ++
  client 1 [CnOuter 0] ++ [SClient (FMain true); SClient (FMain true)] ++
  client 1 [CnOuter 0; CnInner []; CnOuter 0; CnOuter 0; CnOuter 0; CnOuter 0; CnOuter 5] ++ server 1 [cqe 1 5] ++
  client 1 [CnOuter 9; CnInner []] ++ server 1 [cqe 1 9; cqe 1 (- ETIME); cqe 1 20] ++
  client 1 [CnInner [take 3 x_reply; drop 3 x_reply]; CnOuter 0; CnInner []; CnInner []; CnInner []; CnOuter 0] ++
  client 0 [CnOuter 0; CnOuter 0; CnOuter 0; CnOuter 0; CnOuter 0; CnOuter 14; CnOuter 0] ++
  server 0 [cqe 1 14; cqe 1 (- ETIME); cqe 1 20] ++
  client 0 [CnInner []; CnInner [x_reply]; CnInner []; CnInner []; CnInner []; CnOuter 0] ++
  [SClient (FMain true); SClient (FMain true); SClient (FMain true)].

